(* ===== verification/_CoqProject ===== *)
-Q . S2P
Prelude.v
Bytes.v
Leaf.v
LeafSpec.v
LeafInv.v
LeafView.v
State.v
Buffer.v
Node.v
Bitmap.v
Alloc.v
Journal.v
Btree.v
Snapshot.v
Locks.v
Reply.v
Init.v
Changelist.v
Status.v
Server.v
CacheInv.v
CacheRoom.v
CacheMem.v
BitmapInv.v
AllocInv.v
JournalSpec.v
MetaInv.v
Tree.v
TreeInsert.v
StatusSpec.v
SnapshotSpec.v
CommitSpec.v
ReplaySpec.v
CopyoutSpec.v
Unique.v
ReplySpec.v
ChangelistSpec.v
FreeInv.v
Traverse.v
DeleteLeaf.v
DeleteFree.v
DeleteSpec.v
ReportSpec.v
LockSpec.v
OriginWrite.v
SnapshotRead.v
SnapshotWrite.v
Client.v
ClientSpec.v
ClientLocks.v
ClientIds.v
ClientWork.v
ClientFlaws.v
ClientServer.v
Sample.v
Witness.v
WitnessServer.v
WitnessUnique.v
WitnessCommit.v
WitnessOrigin.v
WitnessRead.v
WitnessWrite.v
WitnessClient.v
WitnessDelete.v
Diskio.v
Delta.v
DeltaSpec.v
DeltaGen.v
DeltaApply.v
DeltaTheorems.v
WitnessDelta.v
