(* ===== verification/Prelude.v ===== *)
(** * Verification of the zumastor snapshot server, its client and replication

    Zumastor keeps snapshots of a block device, the origin.  The first write to
    a chunk of the origin after a snapshot was taken copies the chunk to a
    snapshot store, and a btree on a metadata device says, for every chunk, which
    snapshots have which copy (an exception).  The server [ddsnapd]
    (src/ddsnap/ddsnapd.c on top of the buffer cache src/ddsnap/buffer.c) owns
    the metadata; the device-mapper client in the kernel
    (src/ddsnap/kernel/dm-ddsnap.c) sends it a query before each write to the
    origin and each access to a snapshot, and waits for the answer.  This
    development models the server and the client and proves that they keep their
    promise: what a snapshot shows never changes by a write to the origin or to
    another snapshot, and a read of a snapshot device gets it.  The command line
    tool (src/ddsnap/ddsnap.c) replicates a volume: it sends the chunks that differ
    between two snapshots to another machine, where they are applied to a device;
    the development models both ends and proves that the device becomes the
    snapshot that was sent.

    ** The parts of the program and the files that model them

    - [Prelude]: machine integers, the monad of state passing programs that may
      halt ([M], with [assert], [error], wild accesses and exhausted fuel as
      values of [halt]), weakest preconditions [wp] (a run that ends, with its
      result), record updates, tactics and hint databases.
    - [Bytes]: blocks as lists of bytes, little-endian fields, [memmove] and the
      like.
    - [State]: the structures of ddsnapd.c and buffer.h; [world] is the state of
      the process and its devices: superblock, buffers, the blocks of the metadata
      device, the contents of origin and snapshot store by chunk, the list of
      writes made, and the clock.
    - [Buffer] (buffer.c): hash table, LRU, dirty, journaled and free lists,
      [getblk], [bread], [brelse], eviction, writing.
    - [Leaf], [Node]: leaves and index nodes of the btree, on the bytes of their
      blocks.
    - [Bitmap], [Alloc]: allocation bitmaps, the search for a free chunk, freeing,
      deferred allocation, the set-up of bitmaps.
    - [Journal]: commit of a transaction and replay of the journal.
    - [Btree]: [probe], [traverse_tree_range], [add_exception_to_tree],
      [delete_tree_range].
    - [Snapshot]: the snapshot list, [auto_delete_snapshot], [copyout],
      [make_unique], [test_unique].
    - [Locks]: clients, pending answers and the table of read locks.
    - [Reply]: answers as ranges of chunks.
    - [Init]: making, loading and resizing a snapshot store.
    - [Changelist] (also ddsnap.c), [Status]: change lists and the status report.
    - [Server]: one handler per message ([incoming]), connection and end of a
      client, and the event loop [snap_server] over a list of events.
    - [Client] (kernel/dm-ddsnap.c): [struct devinfo] with the requests and hooks
      it points to, [ddsnap_map], the completion hook, and the threads [worker],
      [incoming] and [control] as step functions between the points where a thread
      can wait; [kstep] is one step of any of them, a new request, or a device
      that ends one, and [reachable] the states these steps lead to.
    - [Diskio] (diskio.c): the loop [fdio] over partial and interrupted calls.
    - [Delta] (ddsnap.c, delta.c): the structures of a delta as bytes, generating a
      delta from a change list ([generate_delta], state [gen]), applying it
      ([apply_delta], state [app]), and the two ends of a transfer over a socket
      ([ddsnap_replication_send], [delta_server]).  zlib and the streams of xdelta
      are the classes [Zlib] and [Xd3].

    A component calls the ones before it as in the C code.  The handlers run in
    the monad over [server], the state with clients and locks; [store] lifts the
    operations of the snapshot store into it.

    ** What is proved

    - The cache ([CacheInv], [CacheRoom], [CacheMem]): whatever is evicted, [view],
      what a sector holds for the server, does not change; a read fails only when
      the cache is full of buffers in use or the sector is not on the device.
    - Leaves ([LeafSpec], [LeafInv], [LeafView]) and the tree ([Tree],
      [TreeInsert], [Traverse]): the bytes of a leaf represent a list of entries
      ([leaf_rep]), the whole tree the concatenation of its leaves ([tree_ok]);
      lookup, insertion with splits up to a new root, and traversal are the
      operations on that list.
    - Deletion ([DeleteLeaf], [DeleteFree], [DeleteSpec]): deleting snapshots from a
      leaf is [delete_entries] on its list, and frees the chunks that nobody holds
      any more; [WitnessDelete] has a run in which a commit separates the two.  The
      walk of [delete_tree_range] over the leaves, with its merges, is modelled
      and has no theorem of its own.
    - Space ([BitmapInv], [AllocInv], [MetaInv], [FreeInv]): an allocated chunk was
      free and is marked; [meta_ok] keeps the blocks of the tree, the bitmaps, the
      journal and new blocks apart.
    - Copies ([CopyoutSpec]): joining and deferring copies is the same as copying
      chunk by chunk.
    - The contents of snapshots ([Unique]): [snap_value] is what a snapshot reads;
      [make_unique] changes it for no snapshot and gives the writer a chunk of its
      own; its failures are those of [resources].
    - Transactions ([JournalSpec], [CommitSpec], [ReplaySpec]): a commit writes the
      copies, the commit block and the blocks in this order, so that at every crash
      point either nothing outside the journal has changed or the journal has the
      whole transaction ([in_the_journal]); the replay of the code restores at most
      one sector of it.
    - Locks ([LockSpec]): the hold count of a pending answer is the number of locks
      it waits for; a release answers exactly the writes that wait for nothing
      else.
    - The handlers for data ([OriginWrite], [SnapshotRead], [SnapshotWrite]): the
      whole handler of a write to the origin, of a read and of a write of a
      snapshot, from the query to the answer.
    - The client ([ClientSpec], [ClientLocks], [ClientIds], [ClientWork]): in every
      interleaving no request is lost or handed back twice, no lock is released
      before its read has ended, no freed hook is used while the agent is there and
      no bio that was handed back, but for the one whose query the worker is about
      to send, ids do not clash before they wrap, and a round of the worker sends
      all that waits.  [ClientFlaws] shows that a read that ends during the upload
      of a recovery is never released, and has runs in which freed memory is used.
    - Client and server together ([ClientServer]): a read of a snapshot device goes
      to the place that holds what the snapshot shows.
    - Replication: what zlib and xdelta promise are the classes [ZlibLaws] and
      [Xd3Laws] of [DeltaSpec], which has the coding of an extent; [DeltaGen] shows
      that what is written are the extents of the list, [DeltaApply] that applying
      them patches the device, and [DeltaTheorems] puts them together: generating
      and applying is the identity on the target snapshot, also over a socket and
      when a transfer is resumed; with room for the data and libraries that do
      their work ([libs_ok]) there is no error.  Two theorems show flaws: the first chunk that
      the transfer of a full volume can leave out, and a failed decompression that
      is reported as success.
    - Reports, replies and snapshots ([ReplySpec], [ChangelistSpec], [StatusSpec],
      [ReportSpec], [SnapshotSpec]); a reply to a read or a write of a snapshot is
      known byte by byte ([reply_body]).
    - [Sample] and the [Witness] files have a small store on which the hypotheses
      of the theorems hold, by evaluation.

    ** Bounds and fuel

    Loops over lists are recursion on the list.  The other loops run with fuel and
    halt with [OutOfFuel] when it is used up; [wp] excludes that, so each theorem
    shows that the fuel suffices (for the calls of an xdelta stream, that is the law
    that [xd3_calls] of them end the work).  The walk over the tree gets one step per block
    it can visit, the loops over dirty buffers one per buffer.  Integers are [Z]
    with the wrap-around of their C type written where the code can leave it.
    Chunks of the origin are 32-bit numbers in the leaves ([KEY_TOP]), as in
    [struct eleaf].

    ** Choices of the model

    - A write to a device succeeds when the sector exists, and is atomic: a crash
      lies between two writes.  Torn blocks are not modelled.
    - The contents of a chunk of origin or snapshot store are one value; copies
      copy that value.  When snapshot data and metadata share a device, they are
      still separate maps; that no chunk is used for both follows from the
      allocation in one bitmap.
    - The invariant [store_ok] asks that chunk 0 of the snapshot store is in use:
      exception 0 means "none" in [make_unique] and [test_unique], and the set-up
      of a separate snapshot device does not reserve it.
    - Theorems about allocation and commit are for stores without deferred
      allocation: [RUN_DEFER] is set by the experimental option of the command
      line only; the definitions have both cases.
    - The commit theorems ask that no valid buffer of a journal block is cached;
      that is so from the initialisation of a store on ([init_journal] evicts its
      buffers and a commit uses buffers that never become valid).
    - Threads of the client are interleaved between critical sections: what runs
      under one spinlock, and what only the thread itself can see until then, is
      one step.  An answer of the server is handled in one step, though another
      thread can run between its spinlocks; the requests it has taken off their
      list are then in its hands alone.  Memory allocation in the kernel succeeds
      (the code asks for [__GFP_NOFAIL]).  A bio that was handed back counts as
      freed, since its owner may free it.
    - A buffer of [Delta] is the list of bytes written to it; what lies after them is
      arbitrary ([Uninit]), and an access past its size halts with [WildAccess].
      The volumes are block devices; the theorems ask that an extent is not larger
      than a volume ([volumes_ok]), where the code computes sizes that wrap around,
      and that the word after a change list does not continue it ([list_ok]), which
      the code reads.  The unset half of [delta_size] is 0 ([gen_ok]).
    - Printing, tracing and the [show_] functions are left out except where they
      change state.

    ** Not modelled

    Registration, argument parsing and proc files of the kernel module, the agent,
    daemon set-up and sockets (the events of [snap_server] and the inputs of the
    client's threads stand for them), the option parsing and the requests of the
    command line tool ddsnap.c that print an answer, the vendored xdelta and zlib
    (parameters), ddraid, and the test and build tools. *)

From stdpp Require Export numbers gmap list prelude.
From Stdlib Require Import Lia.

#[global] Open Scope Z_scope.

(** ** Machine integers

    The C sources use [unsigned char], [unsigned short], [unsigned] and
    [unsigned long long] (ddsnap.h, [u8] .. [u64]).  A w-bit unsigned value is
    a [Z] in [0, 2^w); every place where the code may leave that range says so
    with one of these wrap-around functions. *)

Definition u8 (x : Z) : Z := x mod 2 ^ 8.
Definition u16 (x : Z) : Z := x mod 2 ^ 16.
Definition u32 (x : Z) : Z := x mod 2 ^ 32.
Definition u64 (x : Z) : Z := x mod 2 ^ 64.

(** Conversion of a 32-bit pattern to a signed [int]. *)
Definition s32 (x : Z) : Z :=
  let y := x mod 2 ^ 32 in if y <? 2 ^ 31 then y else y - 2 ^ 32.

(** [~x] on 64 bits. *)
Definition lnot64 (x : Z) : Z := u64 (Z.lnot x).

(** [1ULL << n]. *)
Definition bit64 (n : Z) : Z := u64 (Z.shiftl 1 n).

Definition is_u8 (x : Z) : Prop := 0 <= x < 2 ^ 8.
Definition is_u16 (x : Z) : Prop := 0 <= x < 2 ^ 16.
Definition is_u32 (x : Z) : Prop := 0 <= x < 2 ^ 32.
Definition is_u64 (x : Z) : Prop := 0 <= x < 2 ^ 64.

Create HintDb width discriminated.
Create Rewrite HintDb width.

Lemma u16_id x : is_u16 x -> u16 x = x.
Proof. apply Z.mod_small. Qed.
Lemma u32_id x : is_u32 x -> u32 x = x.
Proof. apply Z.mod_small. Qed.
Lemma u64_id x : is_u64 x -> u64 x = x.
Proof. apply Z.mod_small. Qed.
Lemma u32_range x : is_u32 (u32 x).
Proof. apply Z.mod_pos_bound; lia. Qed.
Lemma u64_range x : is_u64 (u64 x).
Proof. apply Z.mod_pos_bound; lia. Qed.

#[export] Hint Resolve u32_range u64_range : width.
#[export] Hint Rewrite u16_id u32_id u64_id using (unfold is_u16, is_u32, is_u64 in *; lia) : width.

(** ** Bitwise facts on 64-bit masks *)

Lemma u64_testbit x i : 0 <= i < 64 -> Z.testbit (u64 x) i = Z.testbit x i.
Proof. intros. unfold u64. apply Z.mod_pow2_bits_low. lia. Qed.

Lemma u64_testbit_high x i : 64 <= i -> Z.testbit (u64 x) i = false.
Proof. intros. unfold u64. apply Z.mod_pow2_bits_high. lia. Qed.

Lemma is_u64_testbit_high x i : is_u64 x -> 64 <= i -> Z.testbit x i = false.
Proof. intros H Hi. rewrite <- (u64_id x H). by apply u64_testbit_high. Qed.

Lemma lnot64_testbit x i : 0 <= i < 64 -> Z.testbit (lnot64 x) i = negb (Z.testbit x i).
Proof. intros. unfold lnot64. rewrite u64_testbit, Z.lnot_spec by lia. done. Qed.

Lemma bit64_eq n : 0 <= n < 64 -> bit64 n = 2 ^ n.
Proof.
  intros. unfold bit64. rewrite Z.shiftl_1_l. apply u64_id. split; [lia|].
  apply Z.pow_lt_mono_r; lia.
Qed.

Lemma bit64_testbit n i : 0 <= n < 64 -> 0 <= i -> Z.testbit (bit64 n) i = (i =? n).
Proof.
  intros. rewrite bit64_eq by done. destruct (Z.eqb_spec i n) as [->|].
  - apply Z.pow2_bits_true; lia.
  - apply Z.pow2_bits_false; lia.
Qed.

Lemma u64_land_range x y : is_u64 x -> 0 <= y -> is_u64 (Z.land x y).
Proof.
  intros Hx Hy. split; [apply Z.land_nonneg; unfold is_u64 in *; lia|].
  destruct (decide (Z.land x y = 0)) as [->|Hn]; [lia|].
  apply Z.log2_lt_pow2.
  - enough (0 <= Z.land x y) by lia. apply Z.land_nonneg; unfold is_u64 in *; lia.
  - destruct (decide (x = 0)) as [->|Hx0]; [by rewrite Z.land_0_l in Hn|].
    assert (Z.log2 x < 64) by (apply Z.log2_lt_pow2; unfold is_u64 in *; lia).
    pose proof (Z.log2_land x y). unfold is_u64 in *. lia.
Qed.

Lemma u64_lor_range x y : is_u64 x -> is_u64 y -> is_u64 (Z.lor x y).
Proof.
  unfold is_u64. intros Hx Hy. split; [apply Z.lor_nonneg; lia|].
  destruct (decide (Z.lor x y = 0)) as [->|Hn]; [lia|].
  assert (0 <= Z.lor x y) by (apply Z.lor_nonneg; lia).
  apply Z.log2_lt_pow2; [lia|]. rewrite Z.log2_lor by lia.
  assert (forall z, 0 <= z < 2 ^ 64 -> Z.log2 z < 64) as Hl.
  { intros z Hz. destruct (decide (z = 0)) as [->|]; [done|].
    apply Z.log2_lt_pow2; lia. }
  pose proof (Hl x Hx). pose proof (Hl y Hy). lia.
Qed.

Lemma u64_zero_iff x : is_u64 x -> x = 0 <-> forall i, 0 <= i < 64 -> Z.testbit x i = false.
Proof.
  intros Hx. split; [intros ->; intros; apply Z.bits_0|].
  intros H. apply Z.bits_inj. intros i. rewrite Z.bits_0.
  destruct (Z.lt_decidable i 0); [by apply Z.testbit_neg_r|].
  destruct (Z.lt_decidable i 64); [apply H; lia|].
  apply is_u64_testbit_high; [done|lia].
Qed.

#[export] Hint Resolve u64_land_range u64_lor_range : width.

(** ** Outcomes and the server monad

    A C function that reads and changes the program's state is a function from
    states to outcomes.  [Halt] is a process that stopped: [assert] and
    [error] exit with status 99 (trace.h), [abort], a wild access and a shift
    by the width of its operand are separate, and a loop that used up the fuel
    given to it is [OutOfFuel], never a result. *)

Inductive halt : Set :=
  | AssertFailed
  | ErrorExit
  | Aborted
  | WildAccess
  | UndefinedShift
  | OutOfFuel.

#[export] Instance halt_eq_dec : EqDecision halt.
Proof. solve_decision. Defined.

Inductive outcome (S A : Type) : Type :=
  | Done (a : A) (s : S)
  | Halt (h : halt).
Arguments Done {S A} a s.
Arguments Halt {S A} h.

Definition M (S A : Type) : Type := S -> outcome S A.

Section monad.
Context {S : Type}.

Definition m_ret {A} (a : A) : M S A := fun s => Done a s.
Definition m_bind {A B} (f : A -> M S B) (m : M S A) : M S B :=
  fun s => match m s with Done a s' => f a s' | Halt h => Halt h end.

Definition get : M S S := fun s => Done s s.
Definition gets {A} (f : S -> A) : M S A := fun s => Done (f s) s.
Definition modify (f : S -> S) : M S unit := fun s => Done tt (f s).
Definition halt_with {A} (h : halt) : M S A := fun _ => Halt h.
Definition assertM (b : bool) : M S unit :=
  if b then m_ret tt else halt_with AssertFailed.

(** [for (x in l) body x], in the order of the list. *)
Fixpoint foreach {A} (l : list A) (body : A -> M S unit) : M S unit :=
  match l with
  | [] => m_ret tt
  | x :: l' => m_bind (fun _ => foreach l' body) (body x)
  end.

(** A [while] loop: the body returns [inl] to go on and [inr] to leave. *)
Fixpoint loopM {A B} (fuel : nat) (body : A -> M S (A + B)) (a : A) : M S B :=
  match fuel with
  | O => halt_with OutOfFuel
  | Datatypes.S fuel' =>
      m_bind (fun r => match r with
                       | inl a' => loopM fuel' body a'
                       | inr b => m_ret b
                       end) (body a)
  end.
End monad.

#[export] Instance M_ret S : MRet (M S) := fun A => m_ret.
#[export] Instance M_bind S : MBind (M S) := fun A B => m_bind.

Lemma bind_done {S A B} (m : M S A) (f : A -> M S B) s b s2 :
  (m ≫= f) s = Done b s2 <-> exists a s1, m s = Done a s1 /\ f a s1 = Done b s2.
Proof.
  unfold mbind, M_bind, m_bind. destruct (m s) as [a s1|h]; split.
  - eauto.
  - by intros (? & ? & [= -> ->] & ?).
  - done.
  - by intros (? & ? & ? & ?).
Qed.

Lemma bind_run {S A B} (m : M S A) (f : A -> M S B) s a s1 :
  m s = Done a s1 -> (m ≫= f) s = f a s1.
Proof. unfold mbind, M_bind, m_bind. by intros ->. Qed.

(** Invariants of the state over a loop on a list. *)
Lemma foreach_inv {S A} (P : S -> Prop) (l : list A) (body : A -> M S unit) s s' :
  (forall x s1 s2, x ∈ l -> P s1 -> body x s1 = Done tt s2 -> P s2) ->
  P s -> foreach l body s = Done tt s' -> P s'.
Proof.
  revert s. induction l as [|x l IH]; intros s Hb HP Hrun; cbn in Hrun.
  - injection Hrun as <-. done.
  - unfold m_bind in Hrun. destruct (body x s) as [[] s1|] eqn:E; [|done].
    apply (IH s1); eauto with set_solver.
    + intros; eapply Hb; eauto. by right.
    + eapply Hb; eauto. by left.
Qed.

(** ** Weakest preconditions

    [wp m Q s] says that [m] run from [s] does not halt and that its result and
    final state satisfy [Q]: every theorem stated with it is about runs that
    end with a result. *)

Definition wp {S A} (m : M S A) (Q : A -> S -> Prop) (s : S) : Prop :=
  match m s with Done a s' => Q a s' | Halt _ => False end.

Section wp_rules.
Context {S : Type}.
Implicit Types s : S.

Lemma wp_done {A} (m : M S A) Q s : wp m Q s <-> exists a s', m s = Done a s' /\ Q a s'.
Proof.
  unfold wp. destruct (m s) as [a s'|h]; split.
  - eauto.
  - by intros (? & ? & [= -> ->] & ?).
  - done.
  - by intros (? & ? & ? & ?).
Qed.

Lemma wp_mono {A} (m : M S A) (P Q : A -> S -> Prop) s :
  wp m P s -> (forall a s', P a s' -> Q a s') -> wp m Q s.
Proof. unfold wp. destruct (m s); auto. Qed.

(** A run known to end in a good state does end, and there. *)
Lemma wp_run {A} (m : M S A) (P Q : A -> S -> Prop) s :
  wp m P s -> (forall a s', m s = Done a s' -> P a s' -> Q a s') -> wp m Q s.
Proof. unfold wp. destruct (m s); auto. Qed.

Lemma wp_conj {A} (m : M S A) (P Q : A -> S -> Prop) s :
  wp m P s -> wp m Q s -> wp m (fun a s' => P a s' /\ Q a s') s.
Proof. unfold wp. by destruct (m s). Qed.

Lemma wp_bind {A B} (m : M S A) (f : A -> M S B) Q s :
  wp m (fun a => wp (f a) Q) s -> wp (m ≫= f) Q s.
Proof. unfold wp, mbind, M_bind, m_bind. by destruct (m s). Qed.

Lemma wp_assoc {A B C} (m : M S A) (f : A -> M S B) (g : B -> M S C) Q s :
  wp ((m ≫= f) ≫= g) Q s -> wp (m ≫= fun a => f a ≫= g) Q s.
Proof. unfold wp, mbind, M_bind, m_bind. by destruct (m s). Qed.

Lemma wp_ret {A} (a : A) (Q : A -> S -> Prop) s : Q a s -> wp (mret a) Q s.
Proof. done. Qed.
Lemma wp_get (Q : S -> S -> Prop) s : Q s s -> wp get Q s.
Proof. done. Qed.
Lemma wp_gets {A} (f : S -> A) (Q : A -> S -> Prop) s : Q (f s) s -> wp (gets f) Q s.
Proof. done. Qed.
Lemma wp_modify (f : S -> S) (Q : unit -> S -> Prop) s : Q tt (f s) -> wp (modify f) Q s.
Proof. done. Qed.
Lemma wp_assert (b : bool) (Q : unit -> S -> Prop) s : b = true -> Q tt s -> wp (assertM b) Q s.
Proof. by intros ->. Qed.

Lemma wp_foreach {A} (I : list A -> S -> Prop) (l : list A) (body : A -> M S unit) (Q : unit -> S -> Prop) s :
  I l s ->
  (forall x l' s1, x ∈ l -> I (x :: l') s1 -> wp (body x) (fun _ => I l') s1) ->
  (forall s1, I [] s1 -> Q tt s1) -> wp (foreach l body) Q s.
Proof.
  revert s. induction l as [|x l IH]; intros s HI Hb HQ; cbn; [by apply HQ|].
  change (wp (body x ≫= fun _ => foreach l body) Q s). apply wp_bind.
  eapply wp_mono; [apply Hb, HI; by left|]. cbv beta. intros _ s1 HI1.
  apply IH; [done| |done]. intros. apply Hb; [by right|done].
Qed.

(** A [while] loop with an invariant on the values it carries and a measure
    that the fuel covers. *)
Lemma wp_loop {A B} (I : A -> S -> Prop) (mu : A -> S -> nat) (body : A -> M S (A + B)) Q fuel a s :
  (forall a s, I a s -> wp (body a) (fun r s' => match r with
      | inl a' => I a' s' /\ (mu a' s' < mu a s)%nat
      | inr b => Q b s' end) s) ->
  I a s -> (mu a s < fuel)%nat -> wp (loopM fuel body a) Q s.
Proof.
  intros Hb. revert a s. induction fuel as [|fuel IH]; intros a s HI Hmu; [lia|].
  cbn. change (wp (body a ≫= fun r => match r with inl a' => loopM fuel body a' | inr b => m_ret b end) Q s).
  apply wp_bind. eapply wp_mono; [by apply Hb|]. cbv beta. intros [a'|b] s'; [|done].
  intros [HI' Hlt]. apply IH; [done|lia].
Qed.
End wp_rules.

(** ** First index satisfying a test, the shape of the linear searches *)

Fixpoint find_from (p : nat -> bool) (i n : nat) : option nat :=
  match n with
  | O => None
  | S n' => if p i then Some i else find_from p (S i) n'
  end.

(** [for (i = 0; i < n; i++) if (p i) break], [None] when no index matches. *)
Definition find_index (p : nat -> bool) (n : nat) : option nat := find_from p 0 n.

Lemma find_from_Some p i n k :
  find_from p i n = Some k <->
  (i <= k < i + n)%nat /\ p k = true /\ forall j, (i <= j < k)%nat -> p j = false.
Proof.
  revert i. induction n as [|n IH]; intros i; cbn.
  - split; [done|]. intros. lia.
  - destruct (p i) eqn:E.
    + split.
      * intros [= ->]. split; [lia|]. split; [done|]. intros. lia.
      * intros (Hk & Hp & Hmin). f_equal. destruct (decide (i = k)); [done|].
        rewrite Hmin in E by lia. done.
    + rewrite IH. split.
      * intros (Hk & Hp & Hmin). split; [lia|]. split; [done|].
        intros j Hj. destruct (decide (j = i)) as [->|]; [done|]. apply Hmin; lia.
      * intros (Hk & Hp & Hmin). assert (i <> k) by congruence.
        split; [lia|]. split; [done|]. intros j Hj. apply Hmin; lia.
Qed.

Lemma find_from_None p i n :
  find_from p i n = None <-> forall j, (i <= j < i + n)%nat -> p j = false.
Proof.
  revert i. induction n as [|n IH]; intros i; cbn.
  - split; [intros; lia|done].
  - destruct (p i) eqn:E.
    + split; [done|]. intros H. rewrite H in E by lia. done.
    + rewrite IH. split; intros H j Hj.
      * destruct (decide (j = i)) as [->|]; [done|]. apply H; lia.
      * apply H; lia.
Qed.

Lemma find_index_Some p n k :
  find_index p n = Some k <->
  (k < n)%nat /\ p k = true /\ forall j, (j < k)%nat -> p j = false.
Proof.
  unfold find_index. rewrite find_from_Some. split; intros (?&?&H).
  - split; [lia|]. split; [done|]. intros. apply H. lia.
  - split; [lia|]. split; [done|]. intros. apply H. lia.
Qed.

Lemma find_index_None p n :
  find_index p n = None <-> forall j, (j < n)%nat -> p j = false.
Proof.
  unfold find_index. rewrite find_from_None. split; intros H j Hj; apply H; lia.
Qed.

Lemma find_index_ext p q n :
  (forall j, (j < n)%nat -> p j = q j) -> find_index p n = find_index q n.
Proof.
  intros H. destruct (find_index q n) as [k|] eqn:E.
  - apply find_index_Some in E as (Hk & Hq & Hmin). apply find_index_Some.
    split; [done|]. rewrite H by done. split; [done|].
    intros j Hj. rewrite H by lia. by apply Hmin.
  - rewrite find_index_None in E |- *. intros j Hj. rewrite H by done. by apply E.
Qed.

(** ** Functional update of record fields

    [r <| f := v |>] is the record [r] with field [f] changed.  A record type
    takes part by an [Eta] instance that rebuilds it from its fields; the
    setter of a field is computed from it. *)

Class Eta (R : Type) := eta : R -> R.
Class Setter {R T : Type} (p : R -> T) := set : (T -> T) -> R -> R.
#[global] Arguments set {R T} p {_} f r.

Ltac solve_setter :=
  match goal with
  | |- @Setter ?R ?T ?p =>
      let f := fresh "f" in let r := fresh "r" in
      refine (fun (f : T -> T) (r : R) => _ : R);
      let i := constr:(_ : Eta R) in
      let e := eval red in (i r) in
      let e' := eval pattern p in e in
      match e' with ?g p => let b := eval cbv beta in (g (fun x => f (p x))) in exact b end
  end.
#[export] Hint Extern 1 (Setter _) => solve_setter : typeclass_instances.

Notation "r <| p ::= f |>" := (set p f r) (at level 1, left associativity, p at level 9).
Notation "r <| p := v |>" := (set p (fun _ => v) r) (at level 1, left associativity, p at level 9).
Notation "r <| p ; q ::= f |>" := (set p (set q f) r)
  (at level 1, left associativity, p at level 9, q at level 9).
Notation "r <| p ; q := v |>" := (set p (set q (fun _ => v)) r)
  (at level 1, left associativity, p at level 9, q at level 9).

(** ** Proof automation of the development *)

(** Split an equation on a monadic run into the equations of its steps. *)
Ltac inv_run H :=
  repeat match type of H with
  | (_ ≫= _) _ = Done _ _ =>
      let a := fresh "a" in let s := fresh "s" in let E := fresh "E" in
      apply bind_done in H as (a & s & E & H)
  end.

(** One step of a proof of a weakest precondition. *)
Ltac wp_step :=
  match goal with
  | |- wp (_ ≫= _) _ _ => apply wp_bind
  | |- wp (mret _) _ _ => apply wp_ret
  | |- wp get _ _ => apply wp_get
  | |- wp (gets _) _ _ => apply wp_gets
  | |- wp (modify _) _ _ => apply wp_modify
  | |- wp (assertM _) _ _ => apply wp_assert
  end; cbv beta.
Ltac wp_steps := repeat wp_step.

(** ** Runs that return

    [wlp m Q s] says that [Q] holds if [m] run from [s] returns: the rules for
    invariants of steps that are known to have happened. *)

Definition wlp {S A} (m : M S A) (Q : A -> S -> Prop) (s : S) : Prop := forall a s', m s = Done a s' -> Q a s'.

Section wlp_rules.
Context {S : Type}.
Implicit Types s : S.

Lemma wp_wlp {A} (m : M S A) Q s : wp m Q s -> wlp m Q s.
Proof. unfold wp, wlp. intros H a s' E. by rewrite E in H. Qed.
Lemma wlp_mono {A} (m : M S A) (P Q : A -> S -> Prop) s : wlp m P s -> (forall a s', P a s' -> Q a s') -> wlp m Q s.
Proof. unfold wlp. eauto. Qed.
Lemma wlp_bind {A B} (m : M S A) (f : A -> M S B) Q s : wlp m (fun a => wlp (f a) Q) s -> wlp (m ≫= f) Q s.
Proof. intros H b s2 (a & s1 & E1 & E2)%bind_done. by eapply H. Qed.
Lemma wlp_ret {A} (a : A) (Q : A -> S -> Prop) s : Q a s -> wlp (mret a) Q s.
Proof. by intros H a' s' [= <- <-]. Qed.
Lemma wlp_get (Q : S -> S -> Prop) s : Q s s -> wlp get Q s.
Proof. by intros H a' s' [= <- <-]. Qed.
Lemma wlp_modify (f : S -> S) (Q : unit -> S -> Prop) s : Q tt (f s) -> wlp (modify f) Q s.
Proof. by intros H a' s' [= <- <-]. Qed.
Lemma wlp_halt {A} h (Q : A -> S -> Prop) s : wlp (halt_with h) Q s.
Proof. by intros a' s'. Qed.
Lemma wlp_assert (b : bool) (Q : unit -> S -> Prop) s : (b = true -> Q tt s) -> wlp (assertM b) Q s.
Proof. destruct b; [|by intros _ a' s']. intros H a' s' [= <- <-]. by apply H. Qed.

Lemma wlp_foreach {A} (I : S -> Prop) (l : list A) (body : A -> M S unit) (Q : unit -> S -> Prop) s :
  I s -> (forall x s1, x ∈ l -> I s1 -> wlp (body x) (fun _ => I) s1) -> (forall s1, I s1 -> Q tt s1) -> wlp (foreach l body) Q s.
Proof.
  intros HI Hb HQ [] s' E. apply HQ. eapply foreach_inv; [|exact HI|exact E]. intros x s1 s2 Hx H1 E1. by eapply Hb.
Qed.
End wlp_rules.

Ltac wlp_step :=
  match goal with
  | |- wlp (_ ≫= _) _ _ => apply wlp_bind
  | |- wlp (mret _) _ _ => apply wlp_ret
  | |- wlp get _ _ => apply wlp_get
  | |- wlp (modify _) _ _ => apply wlp_modify
  | |- wlp (halt_with _) _ _ => apply wlp_halt
  | |- wlp (assertM _) _ _ => apply wlp_assert; intros ?
  end; cbv beta.
(** Steps and case distinctions, to the end of the straight-line code *)
Ltac wlp_steps :=
  repeat first
    [ wlp_step
    | match goal with
      | |- wlp (if ?b then _ else _) _ _ => destruct b eqn:?
      | |- wlp (match ?x with _ => _ end) _ _ => destruct x eqn:?
      end ].

(** Membership in lists made of appends and conses. *)
Ltac in_list :=
  repeat first [rewrite elem_of_app | rewrite elem_of_cons | rewrite list_elem_of_singleton | rewrite elem_of_nil];
  try tauto;
  repeat match goal with
  | H : context [_ ∈ _ ++ _] |- _ => rewrite elem_of_app in H
  | H : context [_ ∈ _ :: _] |- _ => rewrite elem_of_cons in H
  | H : context [_ ∈ []] |- _ => rewrite elem_of_nil in H
  end; tauto.

Ltac destruct_if :=
  match goal with
  | |- context [if ?b then _ else _] => destruct b eqn:?
  | H : context [if ?b then _ else _] |- _ => destruct b eqn:?
  end.
