(* ===== verification/Bytes.v ===== *)
(** * Bytes of a block

    The metadata blocks of the snapshot store are read and written in place
    through C structures laid over [buffer->data].  A block is the list of its
    bytes; a field is a little-endian slice of it; [memmove], [memcpy] and
    [memset] copy slices.  A store that would leave the block changes nothing:
    the theorems of the components show that the code stays inside. *)

From S2P Require Import Prelude.

Abbreviation block := (list Z) (only parsing).

Definition is_byte (x : Z) : Prop := 0 <= x < 256.

(** ** Slices *)

Definition slice (off n : nat) (b : block) : list Z := take n (drop off b).

Definition splice (off : nat) (bs : list Z) (b : block) : block :=
  if decide (off + length bs <= length b)%nat
  then take off b ++ bs ++ drop (off + length bs) b
  else b.

(** ** Little-endian fields *)

Fixpoint le_combine (l : list Z) : Z :=
  match l with
  | [] => 0
  | x :: l' => x + 256 * le_combine l'
  end.

Fixpoint le_split (n : nat) (v : Z) : list Z :=
  match n with
  | O => []
  | S n' => v mod 256 :: le_split n' (v / 256)
  end.

Definition ld (n off : nat) (b : block) : Z := le_combine (slice off n b).
Definition st (n off : nat) (v : Z) (b : block) : block := splice off (le_split n v) b.

Abbreviation ld16 := (ld 2).
Abbreviation ld32 := (ld 4).
Abbreviation ld64 := (ld 8).
Abbreviation st16 := (st 2).
Abbreviation st32 := (st 4).
Abbreviation st64 := (st 8).

(** [memmove(data + dst, data + src, n)] *)
Definition memmove (dst src n : nat) (b : block) : block := splice dst (slice src n b) b.

(** [memcpy(data + dst, data2 + src, n)] *)
Definition memcpy (dst : nat) (b2 : block) (src n : nat) (b : block) : block :=
  splice dst (slice src n b2) b.

(** [memset(data, v, size)] *)
Definition memset (v : Z) (b : block) : block := replicate (length b) (u8 v).

#[global] Arguments slice : simpl never.
#[global] Arguments splice : simpl never.
#[global] Arguments ld : simpl never.
#[global] Arguments st : simpl never.
#[global] Arguments memmove : simpl never.
#[global] Arguments memcpy : simpl never.
#[global] Arguments memset : simpl never.

(** ** Lengths *)

Lemma length_splice off bs b : length (splice off bs b) = length b.
Proof.
  unfold splice. case_decide; [|done].
  rewrite !length_app, length_take, length_drop. lia.
Qed.

Lemma length_le_split n v : length (le_split n v) = n.
Proof. revert v. induction n; intros; cbn [le_split length]; auto. Qed.

Lemma length_st n off v b : length (st n off v b) = length b.
Proof. apply length_splice. Qed.

Lemma length_memmove dst src n b : length (memmove dst src n b) = length b.
Proof. apply length_splice. Qed.

Lemma length_memcpy dst b2 src n b : length (memcpy dst b2 src n b) = length b.
Proof. apply length_splice. Qed.

Lemma length_memset v b : length (memset v b) = length b.
Proof. apply length_replicate. Qed.

Lemma length_slice off n b : (off + n <= length b)%nat -> length (slice off n b) = n.
Proof. intros. unfold slice. rewrite length_take, length_drop. lia. Qed.

Create Rewrite HintDb len.
#[export] Hint Rewrite @length_app @length_cons @length_nil @length_take @length_drop
  @length_replicate length_splice length_le_split length_st length_memmove
  length_memcpy length_memset : len.
#[export] Hint Rewrite length_slice using (autorewrite with len; lia) : len.

(** Side conditions on lengths. *)
Ltac len := autorewrite with len in *; cbn [length] in *; try lia.

(** ** Codec laws *)

Lemma le_combine_split n v : le_combine (le_split n v) = v mod 2 ^ (8 * Z.of_nat n).
Proof.
  revert v. induction n as [|n IH]; intros v; cbn [le_combine le_split].
  - by rewrite Z.mul_0_r, Z.pow_0_r, Z.mod_1_r.
  - rewrite IH. replace (8 * Z.of_nat (S n)) with (8 + 8 * Z.of_nat n) by lia.
    rewrite Z.pow_add_r by lia. change (2 ^ 8) with 256.
    rewrite Z.rem_mul_r by lia. lia.
Qed.

Lemma le_combine_range l : Forall is_byte l -> 0 <= le_combine l < 2 ^ (8 * Z.of_nat (length l)).
Proof.
  induction 1 as [|x l Hx Hl IH]; cbn [le_combine length]; [done|].
  replace (8 * Z.of_nat (S (length l))) with (8 + 8 * Z.of_nat (length l)) by lia.
  rewrite Z.pow_add_r by lia. unfold is_byte in Hx. lia.
Qed.

Lemma le_split_bytes n v : Forall is_byte (le_split n v).
Proof.
  revert v. induction n; intros; cbn [le_split]; constructor; auto.
  apply Z.mod_pos_bound. lia.
Qed.

Lemma le_split_combine l : Forall is_byte l -> le_split (length l) (le_combine l) = l.
Proof.
  induction 1 as [|x l Hx Hl IH]; cbn [le_combine le_split length]; [done|].
  unfold is_byte in Hx. f_equal.
  - rewrite Z.mul_comm, Z.mod_add by lia. by apply Z.mod_small.
  - rewrite Z.mul_comm, Z.div_add by lia. rewrite Z.div_small by lia. by rewrite Z.add_0_l.
Qed.

#[global] Arguments le_split : simpl never.
#[global] Arguments le_combine : simpl never.

(** ** Slices of a concatenation

    The layouts of the components are concatenations of encoded fields; these
    lemmas read and write the part that starts after a prefix. *)

Lemma slice_app pre mid post off n :
  off = length pre -> n = length mid -> slice off n (pre ++ mid ++ post) = mid.
Proof. intros -> ->. unfold slice. by rewrite drop_app_length, take_app_length. Qed.

Lemma slice_app_end pre mid off n :
  off = length pre -> n = length mid -> slice off n (pre ++ mid) = mid.
Proof. intros -> ->. unfold slice. by rewrite drop_app_length, take_ge. Qed.

Lemma splice_app pre mid post bs off :
  off = length pre -> length bs = length mid ->
  splice off bs (pre ++ mid ++ post) = pre ++ bs ++ post.
Proof.
  intros -> Hl. unfold splice. rewrite decide_True by len.
  rewrite take_app_length. do 2 f_equal. rewrite Hl, drop_app_add, drop_app_length. done.
Qed.

Lemma ld_app n pre v post off :
  off = length pre -> ld n off (pre ++ le_split n v ++ post) = v mod 2 ^ (8 * Z.of_nat n).
Proof.
  intros ->. unfold ld. rewrite (slice_app pre (le_split n v) post).
  - apply le_combine_split.
  - done.
  - len.
Qed.

Lemma ld_head n v post : ld n 0 (le_split n v ++ post) = v mod 2 ^ (8 * Z.of_nat n).
Proof. by apply (ld_app n [] v post). Qed.

Lemma st_app n pre mid v post off :
  off = length pre -> length mid = n ->
  st n off v (pre ++ mid ++ post) = pre ++ le_split n v ++ post.
Proof. intros. unfold st. apply splice_app; [done|]. by len. Qed.

(** The same with the decomposition as an equation, for [app_norm]. *)
Lemma ld_eq n b pre v post off :
  b = pre ++ le_split n v ++ post -> off = length pre -> ld n off b = v mod 2 ^ (8 * Z.of_nat n).
Proof. intros ->. apply ld_app. Qed.

Lemma slice_eq b pre mid post off n :
  b = pre ++ mid ++ post -> off = length pre -> n = length mid -> slice off n b = mid.
Proof. intros ->. apply slice_app. Qed.

Lemma splice_eq b pre mid post bs off :
  b = pre ++ mid ++ post -> off = length pre -> length bs = length mid ->
  splice off bs b = pre ++ bs ++ post.
Proof. intros ->. apply splice_app. Qed.

(** Equality of concatenations up to associativity. *)
Ltac app_norm := rewrite <- ?app_assoc; cbn [app]; reflexivity.

(** ** Slices and splices at other places *)

Lemma slice_splice_before off bs b o n :
  (o + n <= off)%nat -> slice o n (splice off bs b) = slice o n b.
Proof.
  intros. unfold splice. case_decide; [|done]. unfold slice.
  rewrite drop_app_le by len. rewrite take_app_le by len.
  by rewrite !take_drop_commute, take_take, Nat.min_l by lia.
Qed.

Lemma slice_splice_after off bs b o n :
  (off + length bs <= o)%nat -> slice o n (splice off bs b) = slice o n b.
Proof.
  intros. unfold splice. case_decide; [|done]. unfold slice.
  rewrite drop_app_ge by len. rewrite drop_app_ge by len. rewrite drop_drop.
  f_equal. f_equal. len.
Qed.

Lemma slice_splice_same off bs b :
  (off + length bs <= length b)%nat -> slice off (length bs) (splice off bs b) = bs.
Proof.
  intros. unfold splice. rewrite decide_True by done. apply slice_app; [len|done].
Qed.

Lemma ld_st_same n off v b :
  (off + n <= length b)%nat -> ld n off (st n off v b) = v mod 2 ^ (8 * Z.of_nat n).
Proof.
  intros. unfold ld, st.
  rewrite <- (length_le_split n v) at 1. rewrite slice_splice_same by len.
  apply le_combine_split.
Qed.

Lemma ld_st_other n m off o v b :
  (o + n <= off \/ off + m <= o)%nat -> ld n o (st m off v b) = ld n o b.
Proof.
  intros [|]; unfold ld, st; f_equal.
  - by apply slice_splice_before.
  - apply slice_splice_after. by len.
Qed.

Lemma Forall_slice (P : Z -> Prop) off n b : Forall P b -> Forall P (slice off n b).
Proof. intros. unfold slice. by apply Forall_take, Forall_drop. Qed.

Lemma Forall_splice (P : Z -> Prop) off bs b :
  Forall P b -> Forall P bs -> Forall P (splice off bs b).
Proof.
  intros. unfold splice. case_decide; [|done].
  apply Forall_app; split; [by apply Forall_take|].
  apply Forall_app; split; [done|by apply Forall_drop].
Qed.

Lemma st_bytes n off v b : Forall is_byte b -> Forall is_byte (st n off v b).
Proof. intros. apply Forall_splice; [done|apply le_split_bytes]. Qed.

Lemma ld_range n off b : Forall is_byte b -> 0 <= ld n off b < 2 ^ (8 * Z.of_nat n).
Proof.
  intros H. unfold ld. pose proof (le_combine_range _ (Forall_slice _ off n b H)) as Hr.
  split; [lia|]. eapply Z.lt_le_trans; [apply Hr|].
  apply Z.pow_le_mono_r; [lia|]. unfold slice. len.
Qed.

(** ** Overlapping moves *)

(** A move towards the start leaves bytes of the old tail behind. *)
Lemma memmove_down pre x mid post :
  exists y, length y = length x /\
    memmove (length pre) (length pre + length x) (length mid) (pre ++ x ++ mid ++ post) =
    pre ++ mid ++ y ++ post.
Proof.
  exists (drop (length mid) (x ++ mid)). split; [len|].
  unfold memmove. rewrite (slice_eq _ (pre ++ x) mid post) by (try app_norm; len).
  rewrite (splice_eq _ pre (take (length mid) (x ++ mid)) (drop (length mid) (x ++ mid) ++ post)); [done| |len|len].
  rewrite (app_assoc (take _ _)), take_drop. app_norm.
Qed.

(** A move towards the end leaves bytes of the old head behind. *)
Lemma memmove_up pre mid x post :
  exists y, length y = length x /\
    memmove (length pre + length x) (length pre) (length mid) (pre ++ mid ++ x ++ post) =
    pre ++ y ++ mid ++ post.
Proof.
  exists (take (length x) (mid ++ x)). split; [len|].
  unfold memmove. rewrite (slice_eq _ pre mid (x ++ post)) by (try app_norm; len).
  rewrite (splice_eq _ (pre ++ take (length x) (mid ++ x)) (drop (length x) (mid ++ x)) post);
    [app_norm| |len|len].
  rewrite <- app_assoc, (app_assoc (take _ _)), take_drop. app_norm.
Qed.

Lemma split_length {A} (l : list A) n :
  (n <= length l)%nat -> exists l1 l2, l = l1 ++ l2 /\ length l1 = n.
Proof. intros. exists (take n l), (drop n l). rewrite take_drop. split; [done|len]. Qed.

Lemma split_length_end {A} (l : list A) n :
  (n <= length l)%nat -> exists l1 l2, l = l1 ++ l2 /\ length l2 = n.
Proof.
  intros. exists (take (length l - n) l), (drop (length l - n) l). rewrite take_drop. split; [done|len].
Qed.
