(* ===== verification/Leaf.v ===== *)
(** * Btree leaves (ddsnapd.c, "btree leaf editing")

    A leaf is a block laid out as [struct eleaf]: a 24-byte header, a directory
    [map[]] of (offset, rchunk) pairs that grows upwards and ends with a
    sentinel, and the exceptions, 16 bytes each, that grow downwards from the
    end of the block.  The operations are the C functions on the bytes of the
    block; [leaf_rep] relates a block to the list of its (chunk, exceptions)
    entries, and the theorems show what each operation does to that list. *)

From S2P Require Import Prelude Bytes.

(** ** The C structures *)

Definition ENOMEM : Z := 12.
(** [#define EFULL ENOMEM] *)
Definition EFULL : Z := ENOMEM.

Definition LEAF_MAGIC : Z := 0x1eaf.

(** [offsetof(struct eleaf, map)] and the sizes of the array elements. *)
Definition leaf_header_size : nat := 24.
Definition sizeof_etree_map : nat := 8.
Definition sizeof_exception : nat := 16.

Definition leaf_magic (leaf : block) : Z := ld16 0 leaf.
Definition leaf_count (leaf : block) : nat := Z.to_nat (ld32 4 leaf).
Definition set_leaf_count (n : nat) (leaf : block) : block := st32 4 (Z.of_nat n) leaf.
Definition base_chunk (leaf : block) : Z := ld64 8 leaf.

(** [&leaf->map[i]], [leaf->map[i].offset] and [leaf->map[i].rchunk] *)
Definition map_addr (i : nat) : nat := leaf_header_size + sizeof_etree_map * i.
Definition map_offset (leaf : block) (i : nat) : Z := ld32 (map_addr i) leaf.
Definition map_rchunk (leaf : block) (i : nat) : Z := ld32 (map_addr i + 4) leaf.
Definition set_map_offset (i : nat) (v : Z) (leaf : block) : block := st32 (map_addr i) v leaf.
Definition set_map_rchunk (i : nat) (v : Z) (leaf : block) : block := st32 (map_addr i + 4) v leaf.

(** [struct exception] at a byte address of the leaf. *)
Definition ex_share (leaf : block) (p : nat) : Z := ld64 p leaf.
Definition ex_chunk (leaf : block) (p : nat) : Z := ld64 (p + 8) leaf.
Definition set_ex_share (p : nat) (v : Z) (leaf : block) : block := st64 p v leaf.
Definition set_ex_chunk (p : nat) (v : Z) (leaf : block) : block := st64 (p + 8) v leaf.

Definition emap (leaf : block) (i : nat) : nat := Z.to_nat (map_offset leaf i).

(** The [k]-th element of the array of exceptions at [emap(leaf, i)]. *)
Definition exc_addr (leaf : block) (i k : nat) : nat := (emap leaf i + sizeof_exception * k)%nat.

(** The addresses [p] of [for (p = emap(leaf, i); p < emap(leaf, i+1); p++)]. *)
Definition exc_ptrs (leaf : block) (i : nat) : list nat :=
  exc_addr leaf i <$> seq 0 ((emap leaf (i + 1) - emap leaf i + 15) / 16).

(** ** Queries *)

Definition origin_chunk_unique (leaf : block) (chunk snapmask : Z) : bool :=
  let target := u64 (chunk - base_chunk leaf) in
  match find_index (fun i => map_rchunk leaf i =? target) (leaf_count leaf) with
  | None => snapmask =? 0
  | Some i =>
      let used := foldl (fun u p => Z.lor u (ex_share leaf p)) 0 (exc_ptrs leaf i) in
      Z.land (lnot64 used) snapmask =? 0
  end.

(** The second component is what is stored in [*exception], if anything. *)
Definition snapshot_chunk_unique (leaf : block) (chunk snapbit : Z) : bool * option Z :=
  let mask := bit64 snapbit in
  let target := u32 (chunk - base_chunk leaf) in
  match find_index (fun i => map_rchunk leaf i =? target) (leaf_count leaf) with
  | None => (false, None)
  | Some i =>
      match find (fun p => negb (Z.land (ex_share leaf p) mask =? 0)) (exc_ptrs leaf i) with
      | Some p => (Z.land (ex_share leaf p) (lnot64 mask) =? 0, Some (ex_chunk leaf p))
      | None => (false, None)
      end
  end.

Definition leaf_freespace (leaf : block) : Z :=
  let maptop := map_addr (leaf_count leaf + 1) in
  u32 (Z.of_nat (emap leaf 0) - Z.of_nat maptop).

Definition leaf_payload (leaf : block) : Z :=
  let lower := Z.of_nat (map_addr (leaf_count leaf)) - Z.of_nat leaf_header_size in
  let upper := Z.of_nat (emap leaf (leaf_count leaf)) - Z.of_nat (emap leaf 0) in
  u32 (lower + upper).

(** ** Editing *)

(** [for (j = 0; j < n; j++) leaf->map[j].offset += d] *)
Definition adjust_offsets (n : nat) (d : Z) (leaf : block) : block :=
  foldl (fun l j => set_map_offset j (u32 (map_offset l j + d)) l) leaf (seq 0 n).

(** The code after the label [insert] of add_exception_to_leaf. *)
Definition insert_exception (leaf : block) (exceptions ins i : nat) (sharemap exception : Z) : block :=
  let leaf := memmove (exceptions - sizeof_exception) exceptions (ins - exceptions) leaf in
  let ins := (ins - sizeof_exception)%nat in
  let leaf := set_ex_share ins sharemap leaf in
  let leaf := set_ex_chunk ins exception leaf in
  adjust_offsets (i + 1) (- Z.of_nat sizeof_exception) leaf.

Definition add_exception_to_leaf (leaf : block) (chunk exception snapshot active : Z) : block * Z :=
  let target := u32 (chunk - base_chunk leaf) in
  let mask := bit64 snapshot in
  let count := leaf_count leaf in
  let exceptions := emap leaf 0 in
  let maptop := map_addr (count + 1) in
  let free := u32 (Z.of_nat exceptions - Z.of_nat maptop) in
  let i := default count (find_index (fun i => target <=? map_rchunk leaf i) count) in
  if (i =? count)%nat || (target <? map_rchunk leaf i) then
    if free <? Z.of_nat (sizeof_exception + sizeof_etree_map) then (leaf, - EFULL)
    else
      let ins := emap leaf i in
      let leaf := memmove (map_addr (i + 1)) (map_addr i) (maptop - map_addr i) leaf in
      let leaf := set_map_offset i (Z.of_nat ins) leaf in
      let leaf := set_map_rchunk i target leaf in
      let leaf := set_leaf_count (count + 1) leaf in
      let sharemap := if snapshot =? -1 then active else mask in
      (insert_exception leaf exceptions ins i sharemap exception, 0)
  else if free <? Z.of_nat sizeof_exception then (leaf, - EFULL)
  else if snapshot =? -1 then
    let shared := foldl (fun u p => Z.lor u (ex_share leaf p)) 0 (exc_ptrs leaf i) in
    let sharemap := Z.land (lnot64 shared) active in
    (insert_exception leaf exceptions (emap leaf i) i sharemap exception, 0)
  else
    let leaf :=
      match find (fun p => negb (Z.land (ex_share leaf p) mask =? 0)) (exc_ptrs leaf i) with
      | Some p => set_ex_share p (Z.land (ex_share leaf p) (lnot64 mask)) leaf
      | None => leaf
      end in
    (insert_exception leaf exceptions (emap leaf i) i mask exception, 0).

(** Returns both leaves and the split point. *)
Definition split_leaf (leaf leaf2 : block) : block * block * Z :=
  let count := leaf_count leaf in
  let nhead := ((count + 1) / 2)%nat in
  let ntail := (count - nhead)%nat in
  let splitpoint := u64 (map_rchunk leaf nhead + base_chunk leaf) in
  let phead := emap leaf 0 in
  let ptail := emap leaf nhead in
  let tailsize := (emap leaf count - ptail)%nat in
  (* copy upper half to new leaf *)
  let leaf2 := memcpy 0 leaf 0 leaf_header_size leaf2 in
  let leaf2 := memcpy (map_addr 0) leaf (map_addr nhead) ((ntail + 1) * sizeof_etree_map) leaf2 in
  let leaf2 := memcpy ptail leaf ptail tailsize leaf2 in
  let leaf2 := set_leaf_count ntail leaf2 in
  (* move lower half to top of block *)
  let leaf := memmove (phead + tailsize) phead (ptail - phead) leaf in
  let leaf := set_leaf_count nhead leaf in
  let leaf := adjust_offsets (nhead + 1) (Z.of_nat tailsize) leaf in
  let leaf := set_map_rchunk nhead 0 leaf in
  (leaf, leaf2, splitpoint).

Definition merge_leaves (leaf leaf2 : block) : block :=
  let nhead := leaf_count leaf in
  let ntail := leaf_count leaf2 in
  let tailsize := (emap leaf2 ntail - emap leaf2 0)%nat in
  let phead := emap leaf 0 in
  let ptail := emap leaf nhead in
  (* move data down *)
  let leaf := memmove (phead - tailsize) phead (ptail - phead) leaf in
  (* adjust pointers *)
  let leaf := adjust_offsets (nhead + 1) (- Z.of_nat tailsize) leaf in
  (* move data from leaf2 to top *)
  let leaf := memcpy (ptail - tailsize) leaf2 (emap leaf2 0) tailsize leaf in
  let leaf := memcpy (map_addr nhead) leaf2 (map_addr 0) ((ntail + 1) * sizeof_etree_map) leaf in
  set_leaf_count (nhead + ntail) leaf.

Definition init_leaf (leaf : block) (block_size : Z) : block :=
  let leaf := st16 0 LEAF_MAGIC leaf in
  let leaf := st16 2 0 leaf in
  let leaf := st64 8 0 leaf in
  let leaf := set_leaf_count 0 leaf in
  set_map_offset 0 block_size leaf.
(** ** Edits keep the size of the block *)

Lemma length_foldl {A} (f : block -> A -> block) l b :
  (forall b x, length (f b x) = length b) -> length (foldl f b l) = length b.
Proof. intros H. revert b. induction l; intros; cbn; [done|]. by rewrite IHl, H. Qed.

Lemma length_adjust_offsets n d b : length (adjust_offsets n d b) = length b.
Proof. apply length_foldl. intros. apply length_st. Qed.

Lemma length_insert_exception b x p i sm e : length (insert_exception b x p i sm e) = length b.
Proof. unfold insert_exception, set_ex_share, set_ex_chunk. rewrite length_adjust_offsets. len. Qed.

#[export] Hint Rewrite length_adjust_offsets length_insert_exception : len.

(** ** The entries of a leaf *)

(** [struct exception]: the snapshots that share it and its snapshot chunk. *)
Record exc := Exc { share : Z; chunk_of : Z }.

#[export] Instance exc_eq_dec : EqDecision exc.
Proof. solve_decision. Defined.

(** The directory of a leaf in order: a relative chunk and its exceptions. *)
Abbreviation aleaf := (list (Z * list exc)).

Definition all_excs (L : aleaf) : list exc := flat_map snd L.

Definition enc_exc (e : exc) : list Z := le_split 8 (share e) ++ le_split 8 (chunk_of e).
Definition enc_ent (d : Z * Z) : list Z := le_split 4 d.1 ++ le_split 4 d.2.
Definition enc_excs (es : list exc) : list Z := flat_map enc_exc es.
Definition enc_dir (ds : list (Z * Z)) : list Z := flat_map enc_ent ds.

(** The directory entries of [L] when its exceptions end at offset [top]. *)
Fixpoint dirp (top : Z) (L : aleaf) : list (Z * Z) :=
  match L with
  | [] => []
  | (r, es) :: L' => (top - 16 * Z.of_nat (length (all_excs ((r, es) :: L'))), r) :: dirp top L'
  end.

Definition leaf_header (version count mask : Z) : list Z :=
  le_split 2 LEAF_MAGIC ++ le_split 2 version ++ le_split 4 count ++ le_split 8 0 ++ le_split 8 mask.

(** The bytes of a leaf of [size] bytes that holds [L]. *)
Definition leaf_bytes (size version mask srch : Z) (L : aleaf) (gap : list Z) : block :=
  leaf_header version (Z.of_nat (length L)) mask ++
  enc_dir (dirp size L ++ [(size, srch)]) ++ gap ++ enc_excs (all_excs L).

Definition exc_u64 (e : exc) : Prop := is_u64 (share e) /\ is_u64 (chunk_of e).
Definition ent_ok (d : Z * list exc) : Prop := is_u32 d.1 /\ Forall exc_u64 d.2.

(** The block [b] is a leaf of the store (magic, base chunk 0) that holds [L]. *)
Definition leaf_rep (b : block) (L : aleaf) : Prop :=
  Z.of_nat (length b) < 2 ^ 32 /\ Forall ent_ok L /\
  exists version mask srch gap,
    b = leaf_bytes (Z.of_nat (length b)) version mask srch L gap.

(** Bytes that [L] needs, header and sentinel included. *)
Definition leaf_need (L : aleaf) : Z :=
  32 + 8 * Z.of_nat (length L) + 16 * Z.of_nat (length (all_excs L)).

Lemma length_enc_exc e : length (enc_exc e) = 16%nat.
Proof. unfold enc_exc. by len. Qed.

Lemma length_enc_ent d : length (enc_ent d) = 8%nat.
Proof. unfold enc_ent. by len. Qed.

Lemma length_flat_map_const {A} (f : A -> list Z) k l :
  (forall x, length (f x) = k) -> length (flat_map f l) = (k * length l)%nat.
Proof. intros H. induction l; cbn; len. rewrite H, IHl. lia. Qed.

Lemma length_enc_excs es : length (enc_excs es) = (16 * length es)%nat.
Proof. apply length_flat_map_const, length_enc_exc. Qed.

Lemma length_enc_dir ds : length (enc_dir ds) = (8 * length ds)%nat.
Proof. apply length_flat_map_const, length_enc_ent. Qed.

Lemma length_dirp top L : length (dirp top L) = length L.
Proof. induction L as [|[r es] L IH]; cbn; auto. Qed.

Lemma length_leaf_header v c m : length (leaf_header v c m) = 24%nat.
Proof. unfold leaf_header. by len. Qed.

#[export] Hint Rewrite length_enc_exc length_enc_ent length_enc_excs length_enc_dir
  length_dirp length_leaf_header : len.

Lemma all_excs_app L1 L2 : all_excs (L1 ++ L2) = all_excs L1 ++ all_excs L2.
Proof. apply flat_map_app. Qed.
Lemma all_excs_cons r es L : all_excs ((r, es) :: L) = es ++ all_excs L.
Proof. done. Qed.
Lemma enc_excs_app es1 es2 : enc_excs (es1 ++ es2) = enc_excs es1 ++ enc_excs es2.
Proof. apply flat_map_app. Qed.
Lemma enc_dir_app d1 d2 : enc_dir (d1 ++ d2) = enc_dir d1 ++ enc_dir d2.
Proof. apply flat_map_app. Qed.
Lemma enc_dir_cons o r ds : enc_dir ((o, r) :: ds) = le_split 4 o ++ le_split 4 r ++ enc_dir ds.
Proof. change (enc_ent (o, r) ++ enc_dir ds = le_split 4 o ++ le_split 4 r ++ enc_dir ds). by rewrite (app_assoc (le_split 4 o)). Qed.
Lemma enc_excs_cons e es : enc_excs (e :: es) = le_split 8 (share e) ++ le_split 8 (chunk_of e) ++ enc_excs es.
Proof.
  change (enc_exc e ++ enc_excs es = le_split 8 (share e) ++ le_split 8 (chunk_of e) ++ enc_excs es).
  by rewrite (app_assoc (le_split 8 (share e))).
Qed.

#[export] Hint Rewrite all_excs_app all_excs_cons : len.

Lemma dirp_app top L1 L2 :
  dirp top (L1 ++ L2) = dirp (top - 16 * Z.of_nat (length (all_excs L2))) L1 ++ dirp top L2.
Proof.
  induction L1 as [|[r es] L1 IH]; cbn [app dirp]; [done|].
  rewrite IH. f_equal. f_equal. rewrite !all_excs_cons. len.
Qed.

Lemma dirp_lookup top L i r es :
  L !! i = Some (r, es) ->
  dirp top L !! i = Some (top - 16 * Z.of_nat (length (all_excs (drop i L))), r).
Proof.
  revert i. induction L as [|[r' es'] L IH]; intros [|i] Hi; cbn in Hi; try done.
  - injection Hi as -> ->. done.
  - cbn. by apply IH.
Qed.

Lemma dirp_shift top L d :
  (fun e => (e.1 + d, e.2)) <$> dirp top L = dirp (top + d) L.
Proof.
  induction L as [|[r es] L IH]; cbn [dirp fmap list_fmap]; [done|].
  rewrite IH. f_equal. cbn. f_equal. lia.
Qed.

(** ** Reading a leaf *)

(** A leaf block as header, directory and the rest: the shape every edit of
    the directory works on. *)
Definition leaf_shape (hdr : list Z) (ds : list (Z * Z)) (rest : list Z) : block :=
  hdr ++ enc_dir ds ++ rest.

Lemma map_offset_shape hdr ds rest i o r :
  length hdr = 24%nat -> ds !! i = Some (o, r) -> is_u32 o ->
  map_offset (leaf_shape hdr ds rest) i = o.
Proof.
  intros Hh Hi Ho. unfold map_offset, leaf_shape.
  rewrite <- (take_drop_middle ds i (o, r) Hi), enc_dir_app, enc_dir_cons, <- !app_assoc.
  assert (Hl : (i < length ds)%nat) by by eapply lookup_lt_Some.
  rewrite app_assoc, ld_app.
  - by apply Z.mod_small.
  - unfold map_addr, leaf_header_size, sizeof_etree_map. len.
Qed.

Lemma map_rchunk_shape hdr ds rest i o r :
  length hdr = 24%nat -> ds !! i = Some (o, r) -> is_u32 r ->
  map_rchunk (leaf_shape hdr ds rest) i = r.
Proof.
  intros Hh Hi Ho. unfold map_rchunk, leaf_shape.
  rewrite <- (take_drop_middle ds i (o, r) Hi), enc_dir_app, enc_dir_cons, <- !app_assoc.
  assert (Hl : (i < length ds)%nat) by by eapply lookup_lt_Some.
  rewrite app_assoc, (app_assoc _ (le_split 4 o)), ld_app.
  - by apply Z.mod_small.
  - unfold map_addr, leaf_header_size, sizeof_etree_map. len.
Qed.

Lemma set_map_offset_shape hdr ds rest i o r v :
  length hdr = 24%nat -> ds !! i = Some (o, r) ->
  set_map_offset i v (leaf_shape hdr ds rest) = leaf_shape hdr (<[i := (v, r)]> ds) rest.
Proof.
  intros Hh Hi. assert (Hl : (i < length ds)%nat) by by eapply lookup_lt_Some.
  unfold set_map_offset, leaf_shape.
  rewrite insert_take_drop by done.
  rewrite <- (take_drop_middle ds i (o, r) Hi) at 1.
  rewrite !enc_dir_app, !enc_dir_cons, <- !app_assoc.
  rewrite (app_assoc hdr), st_app, <- app_assoc; try done.
  unfold map_addr, leaf_header_size, sizeof_etree_map. len.
Qed.

Lemma set_map_rchunk_shape hdr ds rest i o r v :
  length hdr = 24%nat -> ds !! i = Some (o, r) ->
  set_map_rchunk i v (leaf_shape hdr ds rest) = leaf_shape hdr (<[i := (o, v)]> ds) rest.
Proof.
  intros Hh Hi. assert (Hl : (i < length ds)%nat) by by eapply lookup_lt_Some.
  unfold set_map_rchunk, leaf_shape.
  rewrite insert_take_drop by done.
  rewrite <- (take_drop_middle ds i (o, r) Hi) at 1.
  rewrite !enc_dir_app, !enc_dir_cons, <- !app_assoc.
  rewrite (app_assoc hdr), (app_assoc _ (le_split 4 o)), st_app, <- !app_assoc; try done.
  unfold map_addr, leaf_header_size, sizeof_etree_map. len.
Qed.

Lemma adjust_offsets_shape hdr d1 d2 rest d :
  length hdr = 24%nat -> Forall (fun e => is_u32 e.1 /\ is_u32 (e.1 + d)) d1 ->
  adjust_offsets (length d1) d (leaf_shape hdr (d1 ++ d2) rest) =
  leaf_shape hdr (((fun e => (e.1 + d, e.2)) <$> d1) ++ d2) rest.
Proof.
  intros Hh. revert d2. induction d1 as [|[o r] d1 IH] using rev_ind; intros d2 Hall; [done|].
  apply Forall_app in Hall as [Hd1 He]. inversion He as [|? ? [Ho Ho'] _]; subst. cbn in Ho, Ho'.
  unfold adjust_offsets. rewrite length_app. cbn [length]. rewrite seq_app, foldl_app.
  rewrite <- app_assoc. cbn [app]. fold (adjust_offsets (length d1) d (leaf_shape hdr (d1 ++ (o, r) :: d2) rest)).
  rewrite IH by done. cbn [seq foldl]. rewrite Nat.add_0_l.
  set (d1' := (fun e => (e.1 + d, e.2)) <$> d1).
  assert (Hi : (d1' ++ (o, r) :: d2) !! length d1 = Some (o, r)).
  { apply list_lookup_middle. unfold d1'. by rewrite length_fmap. }
  rewrite (map_offset_shape _ _ _ _ o r) by done.
  erewrite set_map_offset_shape by done. f_equal.
  rewrite u32_id by done.
  replace (length d1) with (length d1' + 0)%nat by (unfold d1'; rewrite length_fmap; lia).
  rewrite insert_app_r. cbn. rewrite fmap_app. cbn. by rewrite <- app_assoc.
Qed.

(** ** What a represented leaf contains *)

Section rep.
Context (b : block) (L : aleaf) (Hrep : leaf_rep b L).

Let size : Z := Z.of_nat (length b).

Lemma leaf_rep_shape :
  exists hdr srch gap version mask,
    hdr = leaf_header version (Z.of_nat (length L)) mask /\
    b = leaf_shape hdr (dirp size L ++ [(size, srch)]) (gap ++ enc_excs (all_excs L)) /\
    size = leaf_need L + Z.of_nat (length gap) /\ size < 2 ^ 32.
Proof.
  destruct Hrep as (Hs & Hok & v & m & s & gap & E).
  exists (leaf_header v (Z.of_nat (length L)) m), s, gap, v, m.
  split; [done|]. split; [exact E|]. split; [|done].
  apply (f_equal length) in E. unfold leaf_bytes in E. unfold leaf_need, size. len.
Qed.

Lemma leaf_rep_count : leaf_count b = length L.
Proof.
  destruct leaf_rep_shape as (hdr & srch & gap & v & m & -> & Eb & Hsz & Hlt).
  unfold leaf_need in Hsz.
  unfold leaf_count. rewrite Eb. unfold leaf_shape, leaf_header. rewrite <- !app_assoc.
  rewrite (app_assoc (le_split 2 LEAF_MAGIC)), ld_app by len.
  rewrite Z.mod_small by lia. lia.
Qed.

Lemma leaf_rep_base : base_chunk b = 0.
Proof.
  destruct leaf_rep_shape as (hdr & srch & gap & v & m & -> & Eb & _).
  unfold base_chunk. rewrite Eb. unfold leaf_shape, leaf_header. rewrite <- !app_assoc.
  rewrite (app_assoc (le_split 2 LEAF_MAGIC)), (app_assoc _ (le_split 4 _)), ld_app by len.
  done.
Qed.

Lemma leaf_rep_magic : leaf_magic b = LEAF_MAGIC.
Proof.
  destruct leaf_rep_shape as (hdr & srch & gap & v & m & -> & Eb & _).
  unfold leaf_magic. rewrite Eb. unfold leaf_shape, leaf_header. rewrite <- !app_assoc.
  change (le_split 2 LEAF_MAGIC ++ ?x) with ([] ++ le_split 2 LEAF_MAGIC ++ x).
  by rewrite (ld_app 2 []).
Qed.

Lemma leaf_rep_need : leaf_need L <= size < 2 ^ 32.
Proof. destruct leaf_rep_shape as (? & ? & ? & ? & ? & _ & _ & ? & ?). lia. Qed.

Lemma all_excs_drop_le i : (length (all_excs (drop i L)) <= length (all_excs L))%nat.
Proof. rewrite <- (take_drop i L) at 2. len. Qed.

Lemma leaf_rep_offset i :
  (i <= length L)%nat ->
  map_offset b i = size - 16 * Z.of_nat (length (all_excs (drop i L))).
Proof.
  intros Hi. destruct leaf_rep_shape as (hdr & srch & gap & v & m & Eh & Eb & Hsz & Hlt).
  pose proof (all_excs_drop_le i). unfold leaf_need in Hsz.
  rewrite Eb. assert (length hdr = 24%nat) by (subst hdr; len).
  destruct (drop i L) as [|[r es] L2] eqn:Ed.
  - assert (i = length L) as ->.
    { apply (f_equal length) in Ed. rewrite length_drop in Ed. cbn in Ed. lia. }
    rewrite (map_offset_shape _ _ _ _ size srch); [cbn; lia|done| |].
    + rewrite lookup_app_r by len. rewrite length_dirp, Nat.sub_diag. done.
    + unfold is_u32. lia.
  - apply map_offset_shape with r; [done| |].
    + assert (Hi' : L !! i = Some (r, es)).
      { rewrite <- (Nat.add_0_r i), <- lookup_drop, Ed. done. }
      rewrite lookup_app_l by (len; by eapply lookup_lt_Some).
      by rewrite <- Ed, (dirp_lookup _ _ _ _ _ Hi').
    + unfold is_u32. cbn in *. lia.
Qed.

Lemma leaf_rep_emap i :
  (i <= length L)%nat ->
  emap b i = (length b - 16 * length (all_excs (drop i L)))%nat.
Proof. intros. unfold emap. rewrite leaf_rep_offset by done. unfold size. lia. Qed.

Lemma leaf_rep_emap_fits i :
  (i <= length L)%nat -> (emap b i + 16 * length (all_excs (drop i L)) = length b)%nat.
Proof.
  intros. rewrite leaf_rep_emap by done. pose proof leaf_rep_need as Hn.
  unfold leaf_need, size in Hn. pose proof (all_excs_drop_le i). lia.
Qed.

Lemma leaf_rep_rchunk i r es : L !! i = Some (r, es) -> map_rchunk b i = r.
Proof.
  intros Hi. destruct leaf_rep_shape as (hdr & srch & gap & v & m & Eh & Eb & Hsz & Hlt).
  assert (Hr : is_u32 r).
  { destruct Hrep as (_ & Hok & _). by apply (Forall_lookup_1 _ _ _ _ Hok) in Hi as [? _]. }
  assert (Hl : (i < length L)%nat) by by eapply lookup_lt_Some.
  rewrite Eb. eapply map_rchunk_shape; [subst hdr; len| |done].
  rewrite lookup_app_l by len. by apply dirp_lookup with es.
Qed.

(** The exception at address [p] of the leaf is [e]. *)
Definition exc_at (p : nat) (e : exc) : Prop := ex_share b p = share e /\ ex_chunk b p = chunk_of e.

Lemma leaf_rep_exc A e B :
  all_excs L = A ++ e :: B -> exc_at (length b - 16 * S (length B)) e.
Proof.
  intros EA. destruct leaf_rep_shape as (hdr & srch & gap & v & m & Eh & Eb & Hsz & Hlt).
  assert (exc_u64 e) as [H1 H2].
  { destruct Hrep as (_ & Hok & _).
    assert (e ∈ all_excs L) as Hin by (rewrite EA; set_solver).
    unfold all_excs in Hin. apply list_elem_of_In, in_flat_map in Hin as (d & Hd & He).
    rewrite List.Forall_forall in Hok. destruct (Hok d Hd) as [_ Hf].
    rewrite List.Forall_forall in Hf. by apply Hf. }
  set (pre := hdr ++ enc_dir (dirp size L ++ [(size, srch)]) ++ gap ++ enc_excs A).
  assert (Ep : (length b - 16 * S (length B))%nat = length pre).
  { subst pre hdr. unfold leaf_need, size in Hsz. rewrite EA in Hsz. len. }
  assert (Eb' : b = pre ++ le_split 8 (share e) ++ le_split 8 (chunk_of e) ++ enc_excs B).
  { rewrite Eb at 1. unfold leaf_shape, pre. rewrite EA, enc_excs_app, enc_excs_cons. app_norm. }
  clearbody pre. unfold exc_at, ex_share, ex_chunk. rewrite Ep, Eb'. split.
  - rewrite ld_app by done. by apply Z.mod_small.
  - rewrite app_assoc, ld_app by len. by apply Z.mod_small.
Qed.

Lemma leaf_rep_excs i r es :
  L !! i = Some (r, es) -> Forall2 exc_at (exc_ptrs b i) es.
Proof.
  intros Hi. assert (Hl : (i < length L)%nat) by by eapply lookup_lt_Some.
  pose proof (leaf_rep_emap_fits i ltac:(lia)) as Hf.
  pose proof (leaf_rep_emap_fits (i + 1) ltac:(lia)) as Hf1.
  assert (Ed : drop i L = (r, es) :: drop (i + 1) L)
    by (rewrite Nat.add_1_r; by apply drop_S).
  rewrite Ed, all_excs_cons in Hf. unfold exc_ptrs.
  replace ((emap b (i + 1) - emap b i + 15) / 16)%nat with (length es)
    by (rewrite length_app in Hf; apply Nat.div_unique with 15%nat; lia).
  apply Forall2_same_length_lookup_2; [by rewrite length_fmap, length_seq|].
  intros k p e Hp He. rewrite list_lookup_fmap in Hp.
  assert (Hk : (k < length es)%nat) by by eapply lookup_lt_Some.
  rewrite lookup_seq_lt in Hp by done.
  injection Hp as <-.
  pose proof (leaf_rep_exc (all_excs (take i L) ++ take k es) e
    (drop (S k) es ++ all_excs (drop (i + 1) L))) as Hx.
  replace (exc_addr b i k) with
    (length b - 16 * S (length (drop (S k) es ++ all_excs (drop (i + 1) L))))%nat.
  - apply Hx. rewrite <- (take_drop i L) at 1. rewrite all_excs_app, Ed, all_excs_cons.
    rewrite <- (take_drop_middle es k e He) at 1. by rewrite <- !app_assoc.
  - unfold exc_addr, sizeof_exception. rewrite length_app, length_drop in *. lia.
Qed.

Lemma leaf_rep_foldl_share i r es :
  L !! i = Some (r, es) ->
  foldl (fun u p => Z.lor u (ex_share b p)) 0 (exc_ptrs b i) =
  foldl (fun u e => Z.lor u (share e)) 0 es.
Proof.
  intros Hi%leaf_rep_excs. generalize 0. induction Hi as [|p e ps es' [Hs _] _ IH]; intros z; [done|].
  cbn. rewrite Hs. apply IH.
Qed.

Lemma leaf_rep_find_share i r es (f : Z -> bool) :
  L !! i = Some (r, es) ->
  match find (fun p => f (ex_share b p)) (exc_ptrs b i) with
  | Some p => exists es1 e es2, es = es1 ++ e :: es2 /\ exc_at p e /\ f (share e) = true /\
      Forall (fun e' => f (share e') = false) es1 /\ (p = emap b i + 16 * length es1)%nat
  | None => Forall (fun e' => f (share e') = false) es
  end.
Proof.
  intros Hi. pose proof (leaf_rep_excs i r es Hi) as HF.
  unfold exc_ptrs in *.
  set (n := ((emap b (i + 1) - emap b i + 15) / 16)%nat) in *. clearbody n. clear Hi.
  assert (Hgen : forall k, Forall2 exc_at (exc_addr b i <$> seq k n) es ->
    match find (fun p => f (ex_share b p)) (exc_addr b i <$> seq k n) with
    | Some p => exists es1 e es2, es = es1 ++ e :: es2 /\ exc_at p e /\ f (share e) = true /\
        Forall (fun e' => f (share e') = false) es1 /\ (p = emap b i + 16 * (k + length es1))%nat
    | None => Forall (fun e' => f (share e') = false) es
    end).
  { clear HF. revert es. induction n as [|n IH]; intros es' k HF; cbn [seq fmap list_fmap] in *.
    - inversion HF; subst. constructor.
    - inversion HF as [|? e ? es2 [Hs Hc] HF']; subst. cbn [find]. rewrite Hs.
      destruct (f (share e)) eqn:Ef.
      + exists [], e, es2. split; [done|]. split; [done|]. split; [done|]. split; [constructor|].
        cbn. unfold exc_addr, sizeof_exception. lia.
      + specialize (IH _ _ HF'). destruct (find _ _) as [p|].
        * destruct IH as (es1 & e' & es3 & -> & ? & ? & ? & ->).
          exists (e :: es1), e', es3. split; [done|]. split; [done|]. split; [done|].
          split; [by constructor|]. cbn. lia.
        * by constructor. }
  apply Hgen in HF. destruct (find _ _); [|done].
  destruct HF as (es1 & e & es2 & ? & ? & ? & ? & ?). exists es1, e, es2. eauto.
Qed.

(** A search of the directory is a search of the list of entries. *)
Lemma leaf_rep_search (p : Z -> bool) :
  find_index (fun i => p (map_rchunk b i)) (leaf_count b) =
  fst <$> list_find (fun d => p d.1 = true) L.
Proof.
  rewrite leaf_rep_count. destruct (list_find _ L) as [[i [r es]]|] eqn:E; cbn.
  - apply list_find_Some in E as (Hi & Hp & Hmin). apply find_index_Some.
    split; [by eapply lookup_lt_Some|]. erewrite leaf_rep_rchunk by done. split; [done|].
    intros j Hj. destruct (lookup_lt_is_Some_2 L j) as [[r' es'] Hj'].
    { apply lookup_lt_Some in Hi. lia. }
    erewrite leaf_rep_rchunk by done. apply not_true_is_false. by eapply (Hmin j (r', es')).
  - apply list_find_None in E. apply find_index_None. intros j Hj.
    destruct (lookup_lt_is_Some_2 L j Hj) as [[r' es'] Hj'].
    erewrite leaf_rep_rchunk by done. apply not_true_is_false.
    by apply (Forall_lookup_1 _ _ _ _ E Hj').
Qed.
End rep.

(** ** Abstract operations on the entries *)

(** The snapshots that share some exception of the list. *)
Definition shares (es : list exc) : Z := foldl (fun u e => Z.lor u (share e)) 0 es.

(** Remove a snapshot from the first exception that it shares. *)
Fixpoint unshare_first (mask : Z) (es : list exc) : list exc :=
  match es with
  | [] => []
  | e :: es' =>
      if Z.land (share e) mask =? 0 then e :: unshare_first mask es'
      else Exc (Z.land (share e) (lnot64 mask)) (chunk_of e) :: es'
  end.

(** The exceptions of a chunk after [exception] was added for [snapshot]
    ([-1] for the origin). *)
Definition add_exc (exception snapshot active : Z) (es : list exc) : list exc :=
  if snapshot =? -1 then Exc (Z.land (lnot64 (shares es)) active) exception :: es
  else Exc (bit64 snapshot) exception :: unshare_first (bit64 snapshot) es.

Fixpoint add_entry (target exception snapshot active : Z) (L : aleaf) : aleaf :=
  match L with
  | [] => [(target, add_exc exception snapshot active [])]
  | (r, es) :: L' =>
      if r <? target then (r, es) :: add_entry target exception snapshot active L'
      else if r =? target then (r, add_exc exception snapshot active es) :: L'
      else (target, add_exc exception snapshot active []) :: (r, es) :: L'
  end.

(** The exceptions of a chunk; none when the chunk has no entry. *)
Definition excs_of (L : aleaf) (c : Z) : list exc :=
  match list_find (fun d => (d.1 =? c) = true) L with
  | Some (_, (_, es)) => es
  | None => []
  end.

Lemma shares_testbit_from es i z :
  0 <= i ->
  Z.testbit (foldl (fun u e => Z.lor u (share e)) z es) i =
  Z.testbit z i || existsb (fun e => Z.testbit (share e) i) es.
Proof.
  intros Hi. revert z. induction es as [|e es IH]; intros z; cbn; [by rewrite orb_false_r|].
  rewrite IH, Z.lor_spec. by rewrite orb_assoc.
Qed.

Lemma shares_testbit es i :
  0 <= i -> Z.testbit (shares es) i = existsb (fun e => Z.testbit (share e) i) es.
Proof. intros. unfold shares. rewrite shares_testbit_from by done. by rewrite Z.bits_0. Qed.

Lemma shares_range es : Forall exc_u64 es -> is_u64 (shares es).
Proof.
  unfold shares. assert (H0 : is_u64 0) by (unfold is_u64; lia). revert H0. generalize 0.
  induction es as [|e es IH]; intros z Hz HF; cbn; [done|].
  inversion HF as [|? ? [He _] ?]; subst. apply IH; auto with width.
Qed.

(** ** Edits of a represented leaf *)

Lemma leaf_rep_intro b L version mask srch gap :
  Forall ent_ok L -> Z.of_nat (length b) < 2 ^ 32 ->
  b = leaf_shape (leaf_header version (Z.of_nat (length L)) mask)
        (dirp (Z.of_nat (length b)) L ++ [(Z.of_nat (length b), srch)])
        (gap ++ enc_excs (all_excs L)) ->
  leaf_rep b L.
Proof. intros Hok Hs E. split; [done|]. split; [done|]. by exists version, mask, srch, gap. Qed.

Lemma set_leaf_count_shape v c m ds rest n :
  set_leaf_count n (leaf_shape (leaf_header v c m) ds rest) =
  leaf_shape (leaf_header v (Z.of_nat n) m) ds rest.
Proof.
  unfold set_leaf_count, leaf_shape, leaf_header, st.
  rewrite (splice_eq _ (le_split 2 LEAF_MAGIC ++ le_split 2 v) (le_split 4 c)
             (le_split 8 0 ++ le_split 8 m ++ enc_dir ds ++ rest)); [app_norm|app_norm|len|len].
Qed.

Lemma insert_exception_shape hdr d1 d2 g g16 es1 rest i sharemap exception exceptions ins :
  length hdr = 24%nat -> length g16 = 16%nat -> length d1 = (i + 1)%nat ->
  Forall (fun e => is_u32 e.1 /\ is_u32 (e.1 + - 16)) d1 ->
  exceptions = (24 + 8 * length (d1 ++ d2) + length g + 16)%nat ->
  ins = (exceptions + 16 * length es1)%nat ->
  insert_exception (leaf_shape hdr (d1 ++ d2) (g ++ g16 ++ enc_excs es1 ++ rest))
    exceptions ins i sharemap exception =
  leaf_shape hdr (((fun e => (e.1 + - 16, e.2)) <$> d1) ++ d2)
    (g ++ enc_excs es1 ++ enc_exc (Exc sharemap exception) ++ rest).
Proof.
  intros Hh Hg Hd1 HF Hex Hins. unfold insert_exception.
  set (pre := hdr ++ enc_dir (d1 ++ d2) ++ g).
  assert (Hpre : (exceptions - sizeof_exception)%nat = length pre)
    by (subst pre exceptions; unfold sizeof_exception; len).
  destruct (memmove_down pre g16 (enc_excs es1) rest) as (y & Hy & Hm).
  replace (leaf_shape hdr (d1 ++ d2) (g ++ g16 ++ enc_excs es1 ++ rest))
    with (pre ++ g16 ++ enc_excs es1 ++ rest) by (unfold leaf_shape, pre; app_norm).
  rewrite Hpre.
  replace exceptions with (length pre + length g16)%nat by (unfold sizeof_exception in Hpre; lia).
  replace (ins - (length pre + length g16))%nat with (length (enc_excs es1))
    by (unfold sizeof_exception in Hpre; len).
  rewrite Hm. unfold set_ex_share, set_ex_chunk.
  destruct (split_length y 8) as (ya & yb & -> & Hya); [lia|].
  replace (ins - sizeof_exception)%nat with (length (pre ++ enc_excs es1))
    by (unfold sizeof_exception in *; len).
  unfold st. rewrite (splice_eq (pre ++ enc_excs es1 ++ (ya ++ yb) ++ rest) (pre ++ enc_excs es1) ya (yb ++ rest)) by (try app_norm; len).
  rewrite (splice_eq _ ((pre ++ enc_excs es1) ++ le_split 8 sharemap) yb rest) by (try app_norm; len).
  unfold sizeof_exception. change (- Z.of_nat 16) with (- 16).
  rewrite <- Hd1.
  replace (((pre ++ enc_excs es1) ++ le_split 8 sharemap) ++ le_split 8 exception ++ rest)
    with (leaf_shape hdr (d1 ++ d2) (g ++ enc_excs es1 ++ enc_exc (Exc sharemap exception) ++ rest)).
  - by rewrite adjust_offsets_shape.
  - unfold leaf_shape, pre, enc_exc. cbn [share chunk_of]. app_norm.
Qed.

Lemma dirp_range top L x :
  x ∈ dirp top L -> top - 16 * Z.of_nat (length (all_excs L)) <= x.1 <= top.
Proof.
  induction L as [|[r es] L IH]; cbn [dirp]; intros Hin; [by apply elem_of_nil in Hin|].
  apply elem_of_cons in Hin as [->|Hin]; cbn [fst].
  - lia.
  - apply IH in Hin. rewrite all_excs_cons. len.
Qed.

Lemma Forall_ent_ok_app L1 r es L2 :
  Forall ent_ok (L1 ++ (r, es) :: L2) <->
  Forall ent_ok L1 /\ is_u32 r /\ Forall exc_u64 es /\ Forall ent_ok L2.
Proof.
  rewrite Forall_app, Forall_cons_iff. unfold ent_ok at 2. cbn. tauto.
Qed.

(** Adding to a chunk that is already in the directory. *)
Lemma insert_existing b L1 r es L2 sharemap exception :
  leaf_rep b (L1 ++ (r, es) :: L2) ->
  is_u64 sharemap -> is_u64 exception ->
  leaf_need (L1 ++ (r, es) :: L2) + 16 <= Z.of_nat (length b) ->
  leaf_rep
    (insert_exception b (emap b 0) (emap b (length L1)) (length L1) sharemap exception)
    (L1 ++ (r, Exc sharemap exception :: es) :: L2).
Proof.
  intros Hrep Hsm Hex Hneed.
  pose proof (leaf_rep_emap_fits b _ Hrep 0 ltac:(lia)) as H0.
  pose proof (leaf_rep_emap_fits b _ Hrep (length L1) ltac:(len)) as Hi.
  rewrite drop_app_length in Hi. rewrite drop_0 in H0.
  destruct (leaf_rep_shape b _ Hrep) as (hdr & srch & gap & v & m & Eh & Eb & Hsz & Hlt).
  destruct Hrep as (_ & Hok & _). apply Forall_ent_ok_app in Hok as (Hok1 & Hr & Hes & Hok2).
  destruct (split_length_end gap 16) as (g & g16 & -> & Hg); [lia|].
  set (size := Z.of_nat (length b)) in *.
  rewrite dirp_app, <- app_assoc in Eb. cbn [dirp app] in Eb.
  rewrite all_excs_app, enc_excs_app in Eb.
  set (top1 := size - 16 * Z.of_nat (length (all_excs ((r, es) :: L2)))) in *.
  replace (dirp top1 L1 ++ (top1, r) :: dirp size L2 ++ [(size, srch)])
    with ((dirp top1 L1 ++ [(top1, r)]) ++ (dirp size L2 ++ [(size, srch)])) in Eb by app_norm.
  rewrite <- (app_assoc g) in Eb.
  unfold leaf_need in Hsz, Hneed. unfold size in Hsz. rewrite all_excs_app in Hsz, Hneed.
  set (out := insert_exception b _ _ _ _ _).
  assert (Eout : out = leaf_shape hdr
    (((fun e => (e.1 + - 16, e.2)) <$> (dirp top1 L1 ++ [(top1, r)])) ++ dirp size L2 ++ [(size, srch)])
    (g ++ enc_excs (all_excs L1) ++ enc_exc (Exc sharemap exception) ++ enc_excs (all_excs ((r, es) :: L2)))).
  { unfold out. rewrite Eb at 1. apply insert_exception_shape; [subst hdr; len|done|len| | |].
    - apply Forall_forall. intros x Hx. apply elem_of_app in Hx as [Hx|Hx].
      + apply dirp_range in Hx; unfold is_u32; unfold top1, size in *; len.
      + apply list_elem_of_singleton in Hx as ->. cbn. unfold is_u32, top1, size in *. len.
    - unfold size in *. len.
    - unfold size in *. len. }
  assert (Hlen : length out = length b) by apply length_insert_exception.
  eapply (leaf_rep_intro _ _ v m srch g).
  - apply Forall_ent_ok_app. split; [done|]. split; [done|]. split; [|done]. by constructor.
  - by rewrite Hlen.
  - rewrite Hlen. fold size. rewrite Eout. subst hdr. f_equal.
    + f_equal. len.
    + rewrite fmap_app, dirp_shift, dirp_app, <- !app_assoc. f_equal.
      { f_equal. unfold top1. cbn. len. }
      cbn. f_equal. unfold top1. cbn. f_equal. len.
    + rewrite all_excs_app, enc_excs_app. cbn [all_excs flat_map snd app].
      rewrite enc_excs_cons. unfold enc_exc. cbn [share chunk_of]. app_norm.
Qed.

(** Adding a chunk to the directory. *)
Definition insert_new_entry (b : block) (i : nat) (target sharemap exception : Z) : block :=
  let ins := emap b i in
  let exceptions := emap b 0 in
  let maptop := map_addr (leaf_count b + 1) in
  let l := memmove (map_addr (i + 1)) (map_addr i) (maptop - map_addr i) b in
  let l := set_map_offset i (Z.of_nat ins) l in
  let l := set_map_rchunk i target l in
  let l := set_leaf_count (leaf_count b + 1) l in
  insert_exception l exceptions ins i sharemap exception.

Lemma open_slot_shape hdr d1 d2 g8 rest o r :
  length hdr = 24%nat -> length g8 = 8%nat ->
  set_map_rchunk (length d1) r (set_map_offset (length d1) o
    (memmove (map_addr (length d1 + 1)) (map_addr (length d1)) (8 * length d2)
       (leaf_shape hdr (d1 ++ d2) (g8 ++ rest)))) =
  leaf_shape hdr (d1 ++ (o, r) :: d2) rest.
Proof.
  intros Hh Hg. set (pre := hdr ++ enc_dir d1).
  destruct (memmove_up pre (enc_dir d2) g8 rest) as (y & Hy & Hm).
  replace (leaf_shape hdr (d1 ++ d2) (g8 ++ rest)) with (pre ++ enc_dir d2 ++ g8 ++ rest)
    by (unfold leaf_shape, pre; rewrite enc_dir_app; app_norm).
  assert (Ha : map_addr (length d1) = length pre)
    by (unfold pre, map_addr, leaf_header_size, sizeof_etree_map; len).
  replace (map_addr (length d1 + 1)) with (length pre + length g8)%nat
    by (rewrite <- Ha; unfold map_addr, leaf_header_size, sizeof_etree_map; lia).
  rewrite Ha. replace (8 * length d2)%nat with (length (enc_dir d2)) by len. rewrite Hm.
  destruct (split_length y 4) as (ya & yb & -> & Hya); [lia|].
  unfold set_map_offset, set_map_rchunk, st. rewrite Ha.
  rewrite (splice_eq (pre ++ (ya ++ yb) ++ enc_dir d2 ++ rest) pre ya (yb ++ enc_dir d2 ++ rest))
    by (try app_norm; len).
  rewrite (splice_eq _ (pre ++ le_split 4 o) yb (enc_dir d2 ++ rest)) by (try app_norm; len).
  unfold leaf_shape, pre. rewrite enc_dir_app, enc_dir_cons. app_norm.
Qed.

Lemma insert_new b L1 L2 target sharemap exception :
  leaf_rep b (L1 ++ L2) ->
  is_u32 target -> is_u64 sharemap -> is_u64 exception ->
  leaf_need (L1 ++ L2) + 24 <= Z.of_nat (length b) ->
  leaf_rep (insert_new_entry b (length L1) target sharemap exception)
    (L1 ++ (target, [Exc sharemap exception]) :: L2).
Proof.
  intros Hrep Ht Hsm Hex Hneed.
  pose proof (leaf_rep_emap_fits b _ Hrep 0 ltac:(lia)) as H0.
  pose proof (leaf_rep_emap_fits b _ Hrep (length L1) ltac:(len)) as Hi.
  pose proof (leaf_rep_count b _ Hrep) as Hcount.
  rewrite drop_app_length in Hi. rewrite drop_0 in H0.
  destruct (leaf_rep_shape b _ Hrep) as (hdr & srch & gap & v & m & Eh & Eb & Hsz & Hlt).
  destruct Hrep as (_ & Hok & _). apply Forall_app in Hok as [Hok1 Hok2].
  destruct (split_length gap 8) as (g8 & gap' & -> & Hg8); [lia|].
  destruct (split_length_end gap' 16) as (g & g16 & -> & Hg); [len|].
  set (size := Z.of_nat (length b)) in *.
  rewrite dirp_app, <- (app_assoc _ (dirp size L2)), all_excs_app, enc_excs_app, <- !(app_assoc g8), <- (app_assoc g) in Eb.
  set (top1 := size - 16 * Z.of_nat (length (all_excs L2))) in *.
  unfold leaf_need in Hsz, Hneed. unfold size in Hsz. rewrite all_excs_app in Hsz, Hneed, H0.
  assert (Htop : Z.of_nat (emap b (length L1)) = top1) by (unfold top1, size; lia).
  set (out := insert_new_entry b _ _ _ _).
  assert (Eout : out = leaf_shape (leaf_header v (Z.of_nat (length (L1 ++ L2) + 1)) m)
    (((fun e => (e.1 + - 16, e.2)) <$> (dirp top1 L1 ++ [(top1, target)])) ++ dirp size L2 ++ [(size, srch)])
    (g ++ enc_excs (all_excs L1) ++ enc_exc (Exc sharemap exception) ++ enc_excs (all_excs L2))).
  { unfold out, insert_new_entry. rewrite Htop, Hcount. rewrite Eb at 1.
    replace (map_addr (length (L1 ++ L2) + 1) - map_addr (length L1))%nat
      with (8 * length (dirp size L2 ++ [(size, srch)]))%nat
      by (unfold map_addr, sizeof_etree_map; len).
    rewrite <- (length_dirp top1 L1), open_slot_shape by (subst hdr; len).
    subst hdr. rewrite set_leaf_count_shape.
    replace (dirp top1 L1 ++ (top1, target) :: dirp size L2 ++ [(size, srch)])
      with ((dirp top1 L1 ++ [(top1, target)]) ++ dirp size L2 ++ [(size, srch)]) by app_norm.
    apply insert_exception_shape; [len|done|len| | |].
    - apply Forall_forall. intros x Hx. apply elem_of_app in Hx as [Hx|Hx].
      + apply dirp_range in Hx; unfold is_u32; unfold top1, size in *; len.
      + apply list_elem_of_singleton in Hx as ->. cbn. unfold is_u32, top1, size in *. len.
    - unfold size in *. len.
    - unfold size in *. len. }
  assert (Hlen : length out = length b).
  { unfold out, insert_new_entry, set_leaf_count, set_map_rchunk, set_map_offset. len. }
  eapply (leaf_rep_intro _ _ v m srch g).
  - apply Forall_ent_ok_app. split; [done|]. split; [done|]. split; [|done]. apply Forall_singleton. by split.
  - by rewrite Hlen.
  - rewrite Hlen. fold size. rewrite Eout. f_equal.
    + f_equal. len.
    + rewrite fmap_app, dirp_shift, dirp_app, <- !app_assoc. f_equal.
      { f_equal. unfold top1. len. }
      cbn [fmap list_fmap app dirp fst snd]. do 2 f_equal. unfold top1. len.
    + rewrite all_excs_app, enc_excs_app, all_excs_cons. cbn [app].
      rewrite enc_excs_cons. unfold enc_exc. cbn [share chunk_of]. app_norm.
Qed.

(** Changing the share mask of one exception. *)
Lemma set_share_rep b L1 r es1 e es2 L2 v p :
  leaf_rep b (L1 ++ (r, es1 ++ e :: es2) :: L2) -> is_u64 v ->
  p = (emap b (length L1) + 16 * length es1)%nat ->
  leaf_rep (set_ex_share p v b) (L1 ++ (r, es1 ++ Exc v (chunk_of e) :: es2) :: L2).
Proof.
  intros Hrep Hv Hp.
  pose proof (leaf_rep_emap_fits b _ Hrep (length L1) ltac:(len)) as Hi.
  rewrite drop_app_length in Hi.
  destruct (leaf_rep_shape b _ Hrep) as (hdr & srch & gap & ver & m & Eh & Eb & Hsz & Hlt).
  destruct Hrep as (_ & Hok & _). apply Forall_ent_ok_app in Hok as (Hok1 & Hr & Hes & Hok2).
  apply Forall_app in Hes as [Hes1 [[Hse Hce] Hes2]%Forall_cons].
  assert (Hlen : length (set_ex_share p v b) = length b) by apply length_st.
  set (size := Z.of_nat (length b)) in *. unfold leaf_need in Hsz.
  eapply (leaf_rep_intro _ _ ver m srch gap).
  - apply Forall_ent_ok_app. split; [done|]. split; [done|]. split; [|done].
    apply Forall_app. split; [done|]. by constructor.
  - by rewrite Hlen.
  - rewrite Hlen. fold size. unfold set_ex_share, st.
    set (pre := hdr ++ enc_dir (dirp size (L1 ++ (r, es1 ++ e :: es2) :: L2) ++ [(size, srch)])
                  ++ gap ++ enc_excs (all_excs L1 ++ es1)).
    assert (Eb' : b = pre ++ le_split 8 (share e) ++ le_split 8 (chunk_of e) ++
                      enc_excs (es2 ++ all_excs L2)).
    { rewrite Eb at 1. unfold leaf_shape, pre. rewrite !all_excs_app, all_excs_cons.
      rewrite <- (app_assoc es1), !enc_excs_app. cbn [app]. rewrite enc_excs_cons, ?enc_excs_app.
      app_norm. }
    rewrite (splice_eq b pre (le_split 8 (share e))
               (le_split 8 (chunk_of e) ++ enc_excs (es2 ++ all_excs L2))); [|done| |by len].
    + assert (Ed : dirp size (L1 ++ (r, es1 ++ e :: es2) :: L2) =
                   dirp size (L1 ++ (r, es1 ++ Exc v (chunk_of e) :: es2) :: L2)).
      { rewrite !dirp_app. cbn [dirp]. rewrite !all_excs_cons. f_equal; [f_equal; len|].
        f_equal. f_equal. len. }
      unfold pre, leaf_shape. rewrite Ed, Eh. rewrite !all_excs_app, all_excs_cons.
      rewrite <- (app_assoc es1), !enc_excs_app. cbn [app]. rewrite enc_excs_cons, ?enc_excs_app.
      cbn [share chunk_of]. replace (length (L1 ++ (r, es1 ++ e :: es2) :: L2)) with
        (length (L1 ++ (r, es1 ++ Exc v (chunk_of e) :: es2) :: L2)) by len. app_norm.
    + apply (f_equal length) in Eb'. rewrite !length_app in Eb'. unfold pre in *. len.
Qed.

Lemma add_entry_app t e s a L1 L2 :
  Forall (fun d => d.1 < t) L1 -> add_entry t e s a (L1 ++ L2) = L1 ++ add_entry t e s a L2.
Proof.
  induction 1 as [|[r es] L1 Hr _ IH]; cbn in *; [done|].
  rewrite (proj2 (Z.ltb_lt r t)) by done. by rewrite IH.
Qed.

Lemma land_lnot64_0 a : is_u64 a -> Z.land (lnot64 0) a = a.
Proof.
  intros Ha. rewrite Z.land_comm. unfold lnot64, u64. rewrite <- Z.land_ones by lia.
  rewrite Z.lnot_0, Z.land_m1_l, Z.land_ones by lia. by apply Z.mod_small.
Qed.

Lemma lnot64_nonneg x : 0 <= lnot64 x.
Proof. apply u64_range. Qed.

Lemma bit64_range n : is_u64 (bit64 n).
Proof. apply u64_range. Qed.

Lemma lnot64_range x : is_u64 (lnot64 x).
Proof. apply u64_range. Qed.

#[export] Hint Resolve lnot64_nonneg lnot64_range bit64_range u64_range : width.

Lemma add_exc_nil e s a :
  is_u64 a -> add_exc e s a [] = [Exc (if s =? -1 then a else bit64 s) e].
Proof.
  intros. unfold add_exc. destruct (s =? -1); [|done].
  unfold shares. cbn. by rewrite land_lnot64_0.
Qed.

Lemma length_unshare_first m es : length (unshare_first m es) = length es.
Proof. induction es as [|e es IH]; cbn; [done|]. destruct_if; cbn; auto. Qed.

Lemma length_add_exc e s a es : length (add_exc e s a es) = S (length es).
Proof. unfold add_exc. destruct_if; cbn; [done|]. by rewrite length_unshare_first. Qed.

Lemma unshare_first_app m es1 e es2 :
  Forall (fun e' => negb (Z.land (share e') m =? 0) = false) es1 ->
  negb (Z.land (share e) m =? 0) = true ->
  unshare_first m (es1 ++ e :: es2) =
  es1 ++ Exc (Z.land (share e) (lnot64 m)) (chunk_of e) :: es2.
Proof.
  intros H1 He. induction H1 as [|e' es1 He' _ IH]; cbn.
  - apply negb_true_iff in He. by rewrite He.
  - apply negb_false_iff in He'. by rewrite He', IH.
Qed.

Lemma unshare_first_id m es :
  Forall (fun e' => negb (Z.land (share e') m =? 0) = false) es -> unshare_first m es = es.
Proof.
  induction 1 as [|e' es1 He' _ IH]; cbn; [done|].
  apply negb_false_iff in He'. by rewrite He', IH.
Qed.

Lemma leaf_freespace_rep b L :
  leaf_rep b L -> leaf_freespace b = Z.of_nat (length b) - leaf_need L.
Proof.
  intros Hrep. unfold leaf_freespace. rewrite (leaf_rep_count _ _ Hrep).
  pose proof (leaf_rep_emap_fits b L Hrep 0 ltac:(lia)) as H0. rewrite drop_0 in H0.
  pose proof (leaf_rep_need b L Hrep) as Hn. unfold leaf_need in *.
  unfold map_addr, leaf_header_size, sizeof_etree_map.
  rewrite u32_id; unfold is_u32; lia.
Qed.

Lemma leaf_payload_rep b L :
  leaf_rep b L -> leaf_payload b = leaf_need L - 32.
Proof.
  intros Hrep. unfold leaf_payload. rewrite (leaf_rep_count _ _ Hrep).
  pose proof (leaf_rep_emap_fits b L Hrep 0 ltac:(lia)) as H0. rewrite drop_0 in H0.
  pose proof (leaf_rep_emap_fits b L Hrep (length L) ltac:(lia)) as H1. rewrite drop_all in H1.
  pose proof (leaf_rep_need b L Hrep) as Hn. unfold leaf_need in *. cbn [all_excs flat_map length] in H1.
  unfold map_addr, leaf_header_size, sizeof_etree_map.
  rewrite u32_id; unfold is_u32; lia.
Qed.

(** The part of [add_exception_to_leaf] for a chunk that is already present. *)
Lemma add_existing b L1 r es L2 e s a :
  leaf_rep b (L1 ++ (r, es) :: L2) -> is_u64 e -> is_u64 a ->
  leaf_need (L1 ++ (r, es) :: L2) + 16 <= Z.of_nat (length b) ->
  let i := length L1 in
  let mask := bit64 s in
  let b' :=
    if s =? -1 then
      let shared := foldl (fun u p => Z.lor u (ex_share b p)) 0 (exc_ptrs b i) in
      insert_exception b (emap b 0) (emap b i) i (Z.land (lnot64 shared) a) e
    else
      let b1 :=
        match find (fun p => negb (Z.land (ex_share b p) mask =? 0)) (exc_ptrs b i) with
        | Some p => set_ex_share p (Z.land (ex_share b p) (lnot64 mask)) b
        | None => b
        end in
      insert_exception b1 (emap b 0) (emap b1 i) i mask e in
  leaf_rep b' (L1 ++ (r, add_exc e s a es) :: L2) /\ length b' = length b.
Proof.
  intros Hrep He Ha Hneed i mask b'. unfold b', add_exc. clear b'.
  assert (Hi : (L1 ++ (r, es) :: L2) !! i = Some (r, es)) by by apply list_lookup_middle.
  assert (Hes : Forall exc_u64 es).
  { destruct Hrep as (_ & Hok & _). by apply Forall_ent_ok_app in Hok as (_ & _ & ? & _). }
  destruct (s =? -1).
  - cbv zeta. rewrite (leaf_rep_foldl_share b _ Hrep i r es Hi). fold (shares es).
    split; [|len]. apply insert_existing; auto with width.
    unfold is_u64 in Ha. apply u64_land_range; [auto with width|lia].
  - cbv zeta. pose proof (leaf_rep_find_share b _ Hrep i r es (fun v => negb (Z.land v mask =? 0)) Hi) as Hf.
    cbv beta in Hf. destruct (find _ (exc_ptrs b i)) as [p|].
    + destruct Hf as (es1 & x & es2 & -> & [Hsx Hcx] & Hfx & Hes1 & Hp). rewrite Hsx.
      rewrite unshare_first_app by done.
      apply Forall_app in Hes as [_ [[Hu _] _]%Forall_cons].
      set (v := Z.land (share x) (lnot64 mask)).
      assert (Hv : is_u64 v) by (apply u64_land_range; auto with width).
      pose proof (set_share_rep b L1 r es1 x es2 L2 v p Hrep Hv Hp) as Hrep'.
      assert (Hl : length (set_ex_share p v b) = length b) by apply length_st.
      assert (H0 : emap b 0 = emap (set_ex_share p v b) 0).
      { rewrite (leaf_rep_emap _ _ Hrep), (leaf_rep_emap _ _ Hrep') by lia. rewrite Hl, !drop_0. len. }
      rewrite H0. split; [|len]. apply insert_existing; auto with width.
      rewrite Hl. unfold leaf_need in *. len.
    + rewrite unshare_first_id by done. split; [|len]. apply insert_existing; auto with width.
Qed.

Lemma add_exception_to_leaf_rep b L chunk e s a :
  leaf_rep b L -> is_u32 chunk -> is_u64 e -> is_u64 a ->
  let L' := add_entry chunk e s a L in
  (leaf_need L' <= Z.of_nat (length b) ->
     exists b', add_exception_to_leaf b chunk e s a = (b', 0) /\ leaf_rep b' L' /\ length b' = length b) /\
  (Z.of_nat (length b) < leaf_need L' -> add_exception_to_leaf b chunk e s a = (b, - EFULL)).
Proof.
  intros Hrep Hc He Ha L'. unfold L'. clear L'.
  unfold add_exception_to_leaf. fold (leaf_freespace b).
  rewrite (leaf_freespace_rep b L Hrep), (leaf_rep_base b L Hrep), Z.sub_0_r, u32_id by done.
  change (Z.of_nat (sizeof_exception + sizeof_etree_map)) with 24.
  change (Z.of_nat sizeof_exception) with 16.
  rewrite (leaf_rep_search b L Hrep (fun r => chunk <=? r)), (leaf_rep_count b L Hrep).
  pose proof (leaf_rep_need b L Hrep) as Hn.
  destruct (list_find _ L) as [[i [r es]]|] eqn:Ef; cbn [fst fmap option_fmap option_map default from_option id].
  - apply list_find_Some in Ef as (Hi & Hr & Hmin).
    assert (Hil : (i < length L)%nat) by by eapply lookup_lt_Some.
    rewrite (leaf_rep_rchunk b L Hrep i r es Hi).
    apply Z.leb_le in Hr. cbn [fst] in Hr.
    rewrite (proj2 (Nat.eqb_neq i (length L))) by lia. cbn [orb].
    set (L1 := take i L). set (L2 := drop (S i) L).
    assert (EL : L = L1 ++ (r, es) :: L2) by (symmetry; by apply take_drop_middle).
    assert (Hlen1 : length L1 = i) by (unfold L1; len).
    assert (Hlt : Forall (fun d => d.1 < chunk) L1).
    { apply Forall_lookup_2. intros j d Hj. pose proof (lookup_lt_Some _ _ _ Hj).
      unfold L1 in Hj. rewrite lookup_take in Hj. case_decide; [|done].
      specialize (Hmin j d Hj ltac:(lia)). destruct (Z.leb_spec chunk d.1); [done|lia]. }
    clearbody L1 L2. subst L. rewrite add_entry_app by done. cbn [add_entry].
    rewrite (proj2 (Z.ltb_ge r chunk)) by done.
    destruct (Z.ltb_spec chunk r) as [Hcr|Hcr].
    + rewrite (proj2 (Z.eqb_neq r chunk)) by lia. rewrite add_exc_nil by done.
      assert (Hnd : leaf_need (L1 ++ (chunk, [Exc (if s =? -1 then a else bit64 s) e]) :: (r, es) :: L2)
                    = leaf_need (L1 ++ (r, es) :: L2) + 24) by (unfold leaf_need; len).
      split; intros Hfit.
      * destruct (Z.ltb_spec (Z.of_nat (length b) - leaf_need (L1 ++ (r, es) :: L2)) 24); [lia|].
        rewrite <- Hlen1, <- (leaf_rep_count b _ Hrep). eexists. split; [reflexivity|].
        fold (insert_new_entry b (length L1) chunk (if s =? -1 then a else bit64 s) e). split.
        -- apply insert_new; auto; [|lia]. destruct (s =? -1); auto with width.
        -- unfold insert_new_entry, set_leaf_count, set_map_rchunk, set_map_offset. len.
      * destruct (Z.ltb_spec (Z.of_nat (length b) - leaf_need (L1 ++ (r, es) :: L2)) 24); [done|lia].
    + assert (r = chunk) as -> by lia. rewrite Z.eqb_refl.
      assert (Hnd : leaf_need (L1 ++ (chunk, add_exc e s a es) :: L2) = leaf_need (L1 ++ (chunk, es) :: L2) + 16).
      { unfold leaf_need. rewrite !all_excs_app, !all_excs_cons. len. rewrite length_add_exc. lia. }
      split; intros Hfit.
      * destruct (Z.ltb_spec (Z.of_nat (length b) - leaf_need (L1 ++ (chunk, es) :: L2)) 16); [lia|].
        pose proof (add_existing b L1 chunk es L2 e s a Hrep He Ha ltac:(lia)) as Hadd.
        cbv zeta in Hadd. rewrite Hlen1 in Hadd. cbv zeta. destruct (s =? -1).
        -- eexists. split; [reflexivity|]. exact Hadd.
        -- eexists. split; [reflexivity|]. exact Hadd.
      * destruct (Z.ltb_spec (Z.of_nat (length b) - leaf_need (L1 ++ (chunk, es) :: L2)) 16); [done|lia].
  - apply list_find_None in Ef. rewrite Nat.eqb_refl. cbn [orb].
    assert (Hlt : Forall (fun d => d.1 < chunk) L).
    { eapply Forall_impl; [exact Ef|]. intros d Hd. cbv beta in Hd. destruct (Z.leb_spec chunk d.1); [done|lia]. }
    assert (EL : add_entry chunk e s a L = L ++ [(chunk, [Exc (if s =? -1 then a else bit64 s) e])]).
    { rewrite <- (app_nil_r L) at 1. rewrite add_entry_app by done. cbn [add_entry]. by rewrite add_exc_nil. }
    rewrite EL.
    assert (Hnd : leaf_need (L ++ [(chunk, [Exc (if s =? -1 then a else bit64 s) e])]) = leaf_need L + 24)
      by (unfold leaf_need; len).
    split; intros Hfit.
    + destruct (Z.ltb_spec (Z.of_nat (length b) - leaf_need L) 24); [lia|].
      eexists. split; [reflexivity|]. split.
      * pose proof (insert_new b L [] chunk (if s =? -1 then a else bit64 s) e) as Hins.
        rewrite app_nil_r in Hins. unfold insert_new_entry in Hins. rewrite (leaf_rep_count b _ Hrep) in Hins.
        apply Hins; auto; [|lia]. destruct (s =? -1); auto with width.
      * unfold set_leaf_count, set_map_rchunk, set_map_offset. len.
    + destruct (Z.ltb_spec (Z.of_nat (length b) - leaf_need L) 24); [done|lia].
Qed.
