(* ===== verification/LeafSpec.v ===== *)
(** * What the leaf operations do

    Functional theorems about the leaf operations of [Leaf]: the queries,
    insertion, splitting, merging and initialisation, stated on the list of
    entries that [leaf_rep] relates to the bytes. *)

From S2P Require Import Prelude Bytes Leaf.

(** ** Splitting *)

(** The lower half moves to the top of the block. *)
Lemma split_head_shape v c m size top1 L1 r' T gap es2 e0 en :
  e0 = (24 + 8 * (length L1 + S (length T)) + length gap)%nat ->
  en = (e0 + 16 * length (all_excs L1))%nat ->
  top1 + 16 * Z.of_nat (length es2) = size -> size < 2 ^ 32 ->
  0 <= top1 - 16 * Z.of_nat (length (all_excs L1)) ->
  exists y, length y = (16 * length es2)%nat /\
    set_map_rchunk (length L1) 0 (adjust_offsets (length L1 + 1) (Z.of_nat (16 * length es2))
      (set_leaf_count (length L1) (memmove (e0 + 16 * length es2) e0 (en - e0)
        (leaf_shape (leaf_header v c m) (dirp top1 L1 ++ (top1, r') :: T)
           (gap ++ enc_excs (all_excs L1) ++ enc_excs es2))))) =
    leaf_shape (leaf_header v (Z.of_nat (length L1)) m) (dirp size L1 ++ [(size, 0)])
      ((enc_dir T ++ gap ++ y) ++ enc_excs (all_excs L1)).
Proof.
  intros He0 Hen Htop Hlt H0. set (D := dirp top1 L1 ++ (top1, r') :: T).
  set (hdr := leaf_header v c m). set (pre := hdr ++ enc_dir D ++ gap).
  destruct (memmove_up pre (enc_excs (all_excs L1)) (enc_excs es2) []) as (y & Hy & Hm).
  exists y. split; [len|].
  replace (leaf_shape hdr D (gap ++ enc_excs (all_excs L1) ++ enc_excs es2))
    with (pre ++ enc_excs (all_excs L1) ++ enc_excs es2 ++ [])
    by (unfold leaf_shape, pre; rewrite app_nil_r; app_norm).
  assert (Epre : e0 = length pre) by (unfold pre, hdr, D; len).
  rewrite Epre. replace (16 * length es2)%nat with (length (enc_excs es2)) by len.
  replace (en - length pre)%nat with (length (enc_excs (all_excs L1))) by len.
  rewrite Hm, app_nil_r.
  replace (pre ++ y ++ enc_excs (all_excs L1))
    with (leaf_shape hdr ((dirp top1 L1 ++ [(top1, r')]) ++ T) (gap ++ y ++ enc_excs (all_excs L1)))
    by (unfold leaf_shape, pre, D; rewrite <- (app_assoc (dirp top1 L1)); app_norm).
  unfold hdr. rewrite set_leaf_count_shape.
  replace (length L1 + 1)%nat with (length (dirp top1 L1 ++ [(top1, r')])) by len.
  rewrite adjust_offsets_shape; [|len|].
  - rewrite fmap_app, dirp_shift. cbn [fmap list_fmap fst snd].
    replace (top1 + Z.of_nat (length (enc_excs es2))) with size by len.
    rewrite <- app_assoc. cbn [app].
    rewrite (set_map_rchunk_shape _ _ _ _ size r') by (len; apply list_lookup_middle; len).
    replace (length L1) with (length (dirp size L1) + 0)%nat at 2 by len.
    rewrite insert_app_r. cbn [insert list_insert]. unfold leaf_shape.
    rewrite !enc_dir_app, !enc_dir_cons. cbn [enc_dir flat_map]. app_norm.
  - apply Forall_forall. intros x Hx. apply elem_of_app in Hx as [Hx|Hx].
    + apply dirp_range in Hx; unfold is_u32; len.
    + apply list_elem_of_singleton in Hx as ->. cbn [fst]. unfold is_u32. len.
Qed.

(** The upper half is copied to the new leaf. *)
Lemma split_tail_shape v c m D1 D2 gap es1 es2 b b2 ntail en :
  b = leaf_shape (leaf_header v c m) (D1 ++ D2) (gap ++ enc_excs es1 ++ enc_excs es2) ->
  length b2 = length b -> length D2 = S ntail ->
  (en + 16 * length es2)%nat = length b ->
  exists mid,
    set_leaf_count ntail (memcpy en b en (16 * length es2)
      (memcpy (map_addr 0) b (map_addr (length D1)) ((ntail + 1) * sizeof_etree_map)
        (memcpy 0 b 0 leaf_header_size b2))) =
    leaf_shape (leaf_header v (Z.of_nat ntail) m) D2 (mid ++ enc_excs es2).
Proof.
  intros Eb Hb2 HD2 Hen. set (hdr := leaf_header v c m) in *. unfold leaf_shape in Eb.
  assert (Hlb : (24 + 8 * (length D1 + length D2) + length gap + 16 * (length es1 + length es2))%nat = length b)
    by (rewrite Eb; unfold hdr; len).
  destruct (split_length b2 24) as (x24 & b2a & -> & Hx24); [lia|].
  destruct (split_length b2a (length (enc_dir D2))) as (xd & b2b & -> & Hxd); [len|].
  destruct (split_length_end b2b (length (enc_excs es2))) as (mid & xe & -> & Hxe); [len|].
  exists mid. unfold memcpy.
  rewrite (slice_eq b [] hdr (enc_dir (D1 ++ D2) ++ gap ++ enc_excs es1 ++ enc_excs es2) 0 leaf_header_size);
    [|exact Eb|done|unfold hdr, leaf_header_size; len].
  rewrite (slice_eq b (hdr ++ enc_dir D1) (enc_dir D2) (gap ++ enc_excs es1 ++ enc_excs es2)
             (map_addr (length D1)));
    [|rewrite Eb at 1; rewrite enc_dir_app; app_norm
     |unfold hdr, map_addr, leaf_header_size, sizeof_etree_map; len
     |unfold sizeof_etree_map; len].
  rewrite (slice_eq b (hdr ++ enc_dir (D1 ++ D2) ++ gap ++ enc_excs es1) (enc_excs es2) [] en);
    [|rewrite Eb at 1; rewrite app_nil_r; app_norm|unfold hdr; len|len].
  rewrite (splice_eq (x24 ++ xd ++ mid ++ xe) [] x24 (xd ++ mid ++ xe)); [|done|done|unfold hdr; len].
  rewrite (splice_eq ([] ++ hdr ++ xd ++ mid ++ xe) hdr xd (mid ++ xe));
    [|app_norm|unfold hdr, map_addr, leaf_header_size; len|len].
  rewrite (splice_eq (hdr ++ enc_dir D2 ++ mid ++ xe) (hdr ++ enc_dir D2 ++ mid) xe []);
    [|rewrite app_nil_r; app_norm|unfold hdr; len|len].
  replace ((hdr ++ enc_dir D2 ++ mid) ++ enc_excs es2 ++ [])
    with (leaf_shape hdr D2 (mid ++ enc_excs es2)) by (unfold leaf_shape; rewrite app_nil_r; app_norm).
  apply set_leaf_count_shape.
Qed.

Lemma leaf_rep_of_shape (b x : block) (L : aleaf) version mask srch gap :
  Forall ent_ok L -> Z.of_nat (length b) < 2 ^ 32 -> length x = length b ->
  x = leaf_shape (leaf_header version (Z.of_nat (length L)) mask)
        (dirp (Z.of_nat (length b)) L ++ [(Z.of_nat (length b), srch)])
        (gap ++ enc_excs (all_excs L)) ->
  leaf_rep x L.
Proof. intros ? ? Hl Hx. eapply leaf_rep_intro; [done|by rewrite Hl|]. rewrite Hl. exact Hx. Qed.

Lemma dirp_head top L srch :
  exists r T, dirp top L ++ [(top, srch)] =
    (top - 16 * Z.of_nat (length (all_excs L)), r) :: T /\ length T = length L.
Proof.
  destruct L as [|[r es] L]; cbn [dirp app].
  - exists srch, []. cbn. split; [|done]. do 2 f_equal. lia.
  - eexists _, _. split; [reflexivity|]. len.
Qed.

Lemma split_leaf_rep b b2 L :
  leaf_rep b L -> length b2 = length b ->
  let nhead := ((length L + 1) / 2)%nat in
  exists b1' b2' sp, split_leaf b b2 = (b1', b2', sp) /\
    leaf_rep b1' (take nhead L) /\ leaf_rep b2' (drop nhead L) /\
    length b1' = length b /\ length b2' = length b /\
    (forall r es, L !! nhead = Some (r, es) -> sp = r).
Proof.
  intros Hrep Hlen2 nhead. unfold split_leaf.
  rewrite (leaf_rep_count b L Hrep), (leaf_rep_base b L Hrep). fold nhead.
  assert (Hn : (nhead <= length L)%nat).
  { unfold nhead. destruct (length L) eqn:El; [done|]. apply Nat.Div0.div_le_upper_bound. lia. }
  pose proof (leaf_rep_emap_fits b L Hrep 0 ltac:(lia)) as H0.
  pose proof (leaf_rep_emap_fits b L Hrep nhead Hn) as H1.
  pose proof (leaf_rep_emap_fits b L Hrep (length L) ltac:(lia)) as H2.
  rewrite drop_all in H2. cbn [all_excs flat_map length] in H2. rewrite drop_0 in H0.
  assert (Hsp : forall r es, L !! nhead = Some (r, es) -> u64 (map_rchunk b nhead + 0) = r).
  { intros r es Hr. rewrite (leaf_rep_rchunk b L Hrep nhead r es Hr), Z.add_0_r.
    destruct Hrep as (_ & Hok & _). apply (Forall_lookup_1 _ _ _ _ Hok) in Hr as [Hr _].
    apply u64_id. unfold is_u32, is_u64 in *. cbn in Hr. lia. }
  do 3 eexists. split; [reflexivity|].
  destruct (leaf_rep_shape b L Hrep) as (hdr & srch & gap & v & m & -> & Eb & Hsz & Hlt).
  destruct Hrep as (_ & Hok & _).
  replace (emap b (length L) - emap b nhead)%nat with (16 * length (all_excs (drop nhead L)))%nat by lia.
  revert H0 H1 Hsp. generalize (emap b 0) (emap b nhead) (map_rchunk b nhead). intros e0 en mr H0 H1 Hsp.
  rewrite <- (take_drop nhead L) in Eb, Hok, Hsz, H0.
  assert (Hl1 : length (take nhead L) = nhead) by len.
  assert (HlL2 : (length L - nhead)%nat = length (drop nhead L)) by len. rewrite HlL2.
  revert Eb Hok Hsz H0 H1 Hl1. generalize (take nhead L) (drop nhead L). intros L1 L2 Eb Hok Hsz H0 H1 Hl1.
  clear Hn HlL2. subst nhead.
  apply Forall_app in Hok as [Hok1 Hok2].
  rewrite dirp_app, <- app_assoc, all_excs_app, enc_excs_app in Eb.
  unfold leaf_need in Hsz. rewrite all_excs_app in Hsz, H0.
  set (size := Z.of_nat (length b)) in *.
  destruct (dirp_head size L2 srch) as (r' & T & ED & HT).
  split; [|split; [|split; [|split; [|exact Hsp]]]].
  - destruct (split_head_shape v (Z.of_nat (length (L1 ++ L2))) m size
      (size - 16 * Z.of_nat (length (all_excs L2))) L1 r' T gap (all_excs L2) e0 en)
      as (y & Hy & Eout); [unfold size in *; len|len|lia|done|unfold size in *; len|].
    rewrite Hl1, <- ED, <- Eb in Eout.
    eapply leaf_rep_of_shape; [done|exact Hlt| |rewrite Hl1; exact Eout].
    unfold set_map_rchunk, set_leaf_count. len.
  - destruct (split_tail_shape v (Z.of_nat (length (L1 ++ L2))) m _ _ gap (all_excs L1) (all_excs L2)
      b b2 (length L2) en Eb Hlen2) as (mid & Eout); [len|lia|].
    rewrite length_dirp, Hl1 in Eout.
    eapply leaf_rep_of_shape; [done|exact Hlt| |exact Eout].
    unfold set_leaf_count. len.
  - unfold set_map_rchunk, set_leaf_count. len.
  - unfold set_leaf_count. len.
Qed.

(** ** Merging *)

Lemma merge_shape v c m size L1 srch D2 g1 g2 gt es2 e0 b2 e20 :
  e0 = (24 + 8 * (length L1 + 1) + length g1 + length g2 + length gt)%nat ->
  length gt = (16 * length es2)%nat -> length D2 = S (length g1 / 8) ->
  length g1 = (8 * (length g1 / 8))%nat ->
  size = Z.of_nat e0 + 16 * Z.of_nat (length (all_excs L1)) -> size < 2 ^ 32 ->
  slice e20 (16 * length es2) b2 = enc_excs es2 ->
  slice (map_addr 0) ((length g1 / 8 + 1) * sizeof_etree_map) b2 = enc_dir D2 ->
  set_leaf_count (length L1 + length g1 / 8)
    (memcpy (map_addr (length L1)) b2 (map_addr 0) ((length g1 / 8 + 1) * sizeof_etree_map)
      (memcpy (Z.to_nat size - 16 * length es2) b2 e20 (16 * length es2)
        (adjust_offsets (length L1 + 1) (- Z.of_nat (16 * length es2))
          (memmove (e0 - 16 * length es2) e0 (Z.to_nat size - e0)
            (leaf_shape (leaf_header v c m) (dirp size L1 ++ [(size, srch)])
               ((g1 ++ g2 ++ gt) ++ enc_excs (all_excs L1))))))) =
  leaf_shape (leaf_header v (Z.of_nat (length L1 + length g1 / 8)) m)
    (dirp (size - 16 * Z.of_nat (length es2)) L1 ++ D2)
    (g2 ++ enc_excs (all_excs L1) ++ enc_excs es2).
Proof.
  intros He0 Hgt HD2 Hg1 Hsize Hlt Hs1 Hs2. set (hdr := leaf_header v c m).
  set (D := dirp size L1 ++ [(size, srch)]).
  set (pre := hdr ++ enc_dir D ++ g1 ++ g2).
  destruct (memmove_down pre gt (enc_excs (all_excs L1)) []) as (y & Hy & Hm).
  replace (leaf_shape hdr D ((g1 ++ g2 ++ gt) ++ enc_excs (all_excs L1)))
    with (pre ++ gt ++ enc_excs (all_excs L1) ++ [])
    by (unfold leaf_shape, pre; rewrite app_nil_r; app_norm).
  assert (Hpre : (e0 - 16 * length es2)%nat = length pre) by (unfold pre, hdr, D; len).
  rewrite Hpre.
  replace (Z.to_nat size - e0)%nat with (length (enc_excs (all_excs L1))) by len.
  replace e0 with (length pre + length gt)%nat by lia. rewrite Hm, app_nil_r.
  replace (pre ++ enc_excs (all_excs L1) ++ y)
    with (leaf_shape hdr (D ++ []) (g1 ++ g2 ++ enc_excs (all_excs L1) ++ y))
    by (unfold leaf_shape, pre; rewrite app_nil_r; app_norm).
  replace (length L1 + 1)%nat with (length D) by (unfold D; len).
  rewrite adjust_offsets_shape; [|unfold hdr; len|].
  2:{ apply Forall_forall. intros x Hx. unfold D in Hx. apply elem_of_app in Hx as [Hx|Hx].
      - apply dirp_range in Hx. unfold is_u32. len.
      - apply list_elem_of_singleton in Hx as ->. cbn [fst]. unfold is_u32. len. }
  unfold D. rewrite app_nil_r, fmap_app, dirp_shift. cbn [fmap list_fmap fst snd].
  replace (size + - Z.of_nat (16 * length es2)) with (size - 16 * Z.of_nat (length es2)) by lia.
  set (top1 := size - 16 * Z.of_nat (length es2)).
  unfold memcpy, leaf_shape. rewrite Hs1, Hs2.
  rewrite (splice_eq (hdr ++ enc_dir (dirp top1 L1 ++ [(top1, srch)]) ++ g1 ++ g2 ++ enc_excs (all_excs L1) ++ y)
     (hdr ++ enc_dir (dirp top1 L1 ++ [(top1, srch)]) ++ g1 ++ g2 ++ enc_excs (all_excs L1)) y []);
     [|rewrite app_nil_r; app_norm|unfold pre, hdr, D in *; len|len].
  rewrite (splice_eq _ (hdr ++ enc_dir (dirp top1 L1)) (enc_ent (top1, srch) ++ g1)
     (g2 ++ enc_excs (all_excs L1) ++ enc_excs es2));
     [|rewrite app_nil_r, enc_dir_app; unfold enc_ent; cbn [enc_dir flat_map fst snd]; app_norm
      |unfold hdr, map_addr, leaf_header_size, sizeof_etree_map; len|len].
  replace ((hdr ++ enc_dir (dirp top1 L1)) ++ enc_dir D2 ++ g2 ++ enc_excs (all_excs L1) ++ enc_excs es2)
    with (leaf_shape hdr (dirp top1 L1 ++ D2) (g2 ++ enc_excs (all_excs L1) ++ enc_excs es2))
    by (unfold leaf_shape; rewrite enc_dir_app; app_norm).
  apply set_leaf_count_shape.
Qed.

Lemma merge_leaves_rep b1 b2 L1 L2 :
  leaf_rep b1 L1 -> leaf_rep b2 L2 -> length b2 = length b1 ->
  leaf_payload b2 <= leaf_freespace b1 ->
  leaf_rep (merge_leaves b1 b2) (L1 ++ L2) /\ length (merge_leaves b1 b2) = length b1.
Proof.
  intros Hr1 Hr2 Hlen Hfit.
  rewrite (leaf_payload_rep b2 L2 Hr2), (leaf_freespace_rep b1 L1 Hr1) in Hfit.
  assert (Hl : length (merge_leaves b1 b2) = length b1) by (unfold merge_leaves, set_leaf_count; len).
  split; [|exact Hl].
  pose proof (leaf_rep_emap_fits b1 L1 Hr1 0 ltac:(lia)) as H10.
  pose proof (leaf_rep_emap_fits b1 L1 Hr1 (length L1) ltac:(lia)) as H11.
  pose proof (leaf_rep_emap_fits b2 L2 Hr2 0 ltac:(lia)) as H20.
  pose proof (leaf_rep_emap_fits b2 L2 Hr2 (length L2) ltac:(lia)) as H21.
  rewrite drop_all in H11, H21. rewrite drop_0 in H10, H20. cbn [all_excs flat_map length] in H11, H21.
  pose proof (leaf_rep_count b1 L1 Hr1) as Hc1. pose proof (leaf_rep_count b2 L2 Hr2) as Hc2.
  destruct (leaf_rep_shape b1 L1 Hr1) as (h1 & s1 & gap1 & v1 & m1 & -> & Eb1 & Hsz1 & Hlt1).
  destruct (leaf_rep_shape b2 L2 Hr2) as (h2 & s2 & gap2 & v2 & m2 & -> & Eb2 & Hsz2 & Hlt2).
  destruct Hr1 as (_ & Hok1 & _). destruct Hr2 as (_ & Hok2 & _).
  unfold leaf_need in *. unfold leaf_shape in Eb2.
  destruct (split_length gap1 (8 * length L2)) as (g1 & gr & -> & Hg1); [lia|].
  destruct (split_length_end gr (16 * length (all_excs L2))) as (g2 & gt & -> & Hgt); [len|].
  assert (Hd8 : (length g1 / 8)%nat = length L2) by (rewrite Hg1, Nat.mul_comm; by apply Nat.div_mul).
  set (size := Z.of_nat (length b1)) in *.
  eapply (leaf_rep_of_shape b1 _ _ v1 m1 s2 g2); [by apply Forall_app|done|done|].
  unfold merge_leaves. rewrite Hc1, Hc2. fold size.
  replace (emap b2 (length L2) - emap b2 0)%nat with (16 * length (all_excs L2))%nat by lia.
  replace (emap b1 (length L1)) with (Z.to_nat size) by lia.
  pose proof (merge_shape v1 (Z.of_nat (length L1)) m1 size L1 s1
    (dirp size L2 ++ [(size, s2)]) g1 g2 gt (all_excs L2) (emap b1 0) b2 (emap b2 0)) as Hm.
  rewrite Hd8, <- Eb1 in Hm. rewrite Hm; clear Hm; unfold size in *; try done; try solve [len].
  - rewrite length_app, dirp_app, <- app_assoc, all_excs_app, enc_excs_app. done.
  - eapply slice_eq with (pre := leaf_header v2 (Z.of_nat (length L2)) m2 ++
      enc_dir (dirp (Z.of_nat (length b2)) L2 ++ [(Z.of_nat (length b2), s2)]) ++ gap2) (post := []).
    + rewrite Eb2 at 1. rewrite app_nil_r. app_norm.
    + len.
    + len.
  - rewrite <- Hlen. eapply slice_eq; [rewrite Eb2 at 1; reflexivity| |].
    + unfold map_addr, leaf_header_size. len.
    + unfold sizeof_etree_map. len.
Qed.

(** ** Initialisation *)

Lemma init_leaf_rep b n :
  b = replicate n 0 -> (32 <= n)%nat -> Z.of_nat n < 2 ^ 32 ->
  leaf_rep (init_leaf b (Z.of_nat n)) [].
Proof.
  intros -> Hn Hlt.
  assert (Hl : length (init_leaf (replicate n 0) (Z.of_nat n)) = n)
    by (unfold init_leaf, set_map_offset, set_leaf_count; len).
  split; [by rewrite Hl|]. split; [constructor|].
  exists 0, 0, 0, (replicate (n - 32) 0). rewrite Hl.
  replace n with (32 + (n - 32))%nat at 1 by lia. rewrite replicate_add.
  unfold init_leaf, set_leaf_count, set_map_offset, st, leaf_bytes, leaf_header.
  set (rest := replicate (n - 32) 0).
  rewrite (splice_eq (replicate 32 0 ++ rest) [] [0; 0] (replicate 30 0 ++ rest) _ 0) by done.
  rewrite (splice_eq ([] ++ le_split 2 LEAF_MAGIC ++ replicate 30 0 ++ rest)
             (le_split 2 LEAF_MAGIC) [0; 0] (replicate 28 0 ++ rest) _ 2) by done.
  rewrite (splice_eq (le_split 2 LEAF_MAGIC ++ le_split 2 0 ++ replicate 28 0 ++ rest)
             (le_split 2 LEAF_MAGIC ++ le_split 2 0 ++ replicate 4 0) (replicate 8 0)
             (replicate 16 0 ++ rest) _ 8) by done.
  rewrite (splice_eq _ (le_split 2 LEAF_MAGIC ++ le_split 2 0) (replicate 4 0)
     (le_split 8 0 ++ replicate 16 0 ++ rest) _ 4) by done.
  rewrite (splice_eq _ (le_split 2 LEAF_MAGIC ++ le_split 2 0 ++ le_split 4 (Z.of_nat 0) ++ le_split 8 0 ++ le_split 8 0)
     (replicate 4 0) (replicate 4 0 ++ rest)) by done.
  cbn [dirp app all_excs enc_excs flat_map enc_dir length]. rewrite app_nil_r.
  unfold enc_ent. cbn [fst snd]. rewrite app_nil_r. app_norm.
Qed.

(** ** Queries *)

Lemma excs_of_found L c i r es :
  list_find (fun d => (d.1 =? c) = true) L = Some (i, (r, es)) -> excs_of L c = es /\ r = c /\ L !! i = Some (r, es).
Proof.
  intros E. unfold excs_of. rewrite E. apply list_find_Some in E as (Hi & Hr & _).
  apply Z.eqb_eq in Hr. done.
Qed.

Lemma origin_chunk_unique_rep b L c m :
  leaf_rep b L -> is_u32 c -> is_u64 m ->
  origin_chunk_unique b c m = (Z.land (lnot64 (shares (excs_of L c))) m =? 0).
Proof.
  intros Hrep Hc Hm. unfold origin_chunk_unique.
  rewrite (leaf_rep_base b L Hrep), Z.sub_0_r, u64_id by (unfold is_u32, is_u64 in *; lia).
  rewrite (leaf_rep_search b L Hrep (fun r => r =? c)).
  destruct (list_find _ L) as [[i [r es]]|] eqn:E; cbn [fmap option_fmap option_map fst].
  - apply excs_of_found in E as (-> & -> & Hi).
    by rewrite (leaf_rep_foldl_share b L Hrep i c es Hi).
  - unfold excs_of. rewrite E. unfold shares. cbn. by rewrite land_lnot64_0.
Qed.

Lemma mask_covered used m :
  is_u64 used -> is_u64 m ->
  (Z.land (lnot64 used) m =? 0) = true <->
  (forall i, 0 <= i < 64 -> Z.testbit m i = true -> Z.testbit used i = true).
Proof.
  intros Hu Hm. rewrite Z.eqb_eq.
  rewrite u64_zero_iff by (apply u64_land_range; [auto with width|unfold is_u64 in Hm; lia]).
  split; intros H i Hi.
  - intros Hmi. specialize (H i Hi). rewrite Z.land_spec, lnot64_testbit, Hmi, andb_true_r in H by done.
    by apply negb_false_iff in H.
  - rewrite Z.land_spec, lnot64_testbit by done.
    destruct (Z.testbit m i) eqn:Hmi; [|by rewrite andb_false_r]. by rewrite H.
Qed.

Lemma excs_of_u64 L c : Forall ent_ok L -> Forall exc_u64 (excs_of L c).
Proof.
  intros H. unfold excs_of. destruct (list_find _ L) as [[i [r es]]|] eqn:E; [|constructor].
  apply list_find_Some in E as (Hi & _). by apply (Forall_lookup_1 _ _ _ _ H) in Hi as [_ ?].
Qed.

Lemma land_bit_zero x n : 0 <= n < 64 -> (Z.land x (bit64 n) =? 0) = negb (Z.testbit x n).
Proof.
  intros Hn. destruct (Z.testbit x n) eqn:E; cbn.
  - apply Z.eqb_neq. intros H. apply (f_equal (fun z => Z.testbit z n)) in H.
    rewrite Z.land_spec, bit64_testbit, E, Z.eqb_refl, Z.bits_0 in H by lia. done.
  - apply Z.eqb_eq, Z.bits_inj'. intros i Hi. rewrite Z.land_spec, bit64_testbit, Z.bits_0 by lia.
    destruct (Z.eqb_spec i n) as [->|]; [by rewrite E|apply andb_false_r].
Qed.

Lemma land_lnot_bit_zero x n :
  is_u64 x -> 0 <= n < 64 -> Z.testbit x n = true ->
  (Z.land x (lnot64 (bit64 n)) =? 0) = (x =? bit64 n).
Proof.
  intros Hx Hn Hb. apply eq_bool_prop_intro. rewrite !Is_true_true, !Z.eqb_eq. split.
  - intros H. apply Z.bits_inj'. intros i Hi. rewrite bit64_testbit by done.
    destruct (Z.eqb_spec i n) as [->|Hne]; [done|].
    destruct (Z.lt_decidable i 64) as [Hi'|]; [|apply is_u64_testbit_high; [done|lia]].
    apply (f_equal (fun z => Z.testbit z i)) in H.
    rewrite Z.land_spec, lnot64_testbit, bit64_testbit, Z.bits_0 in H by lia.
    rewrite (proj2 (Z.eqb_neq i n) Hne) in H. by rewrite andb_true_r in H.
  - intros ->. apply Z.bits_inj'. intros i Hi. rewrite Z.land_spec, Z.bits_0.
    destruct (Z.lt_decidable i 64).
    + rewrite lnot64_testbit by lia. apply andb_negb_r.
    + rewrite is_u64_testbit_high by (auto with width; lia). done.
Qed.

Lemma snapshot_chunk_unique_rep b L c n :
  leaf_rep b L -> is_u32 c -> 0 <= n < 64 ->
  snapshot_chunk_unique b c n =
  match find (fun e => Z.testbit (share e) n) (excs_of L c) with
  | Some e => (share e =? bit64 n, Some (chunk_of e))
  | None => (false, None)
  end.
Proof.
  intros Hrep Hc Hn. unfold snapshot_chunk_unique.
  rewrite (leaf_rep_base b L Hrep), Z.sub_0_r, u32_id by done.
  rewrite (leaf_rep_search b L Hrep (fun r => r =? c)).
  destruct (list_find _ L) as [[i [r es]]|] eqn:E; cbn [fmap option_fmap option_map fst].
  2:{ unfold excs_of. by rewrite E. }
  apply excs_of_found in E as (Ex & -> & Hi). rewrite Ex.
  pose proof (leaf_rep_find_share b L Hrep i c es (fun v => negb (Z.land v (bit64 n) =? 0)) Hi) as Hf.
  cbv beta in Hf.
  assert (Hu : Forall exc_u64 es) by (rewrite <- Ex; apply excs_of_u64, Hrep).
  destruct (find (fun p => _) (exc_ptrs b i)) as [p|].
  - destruct Hf as (es1 & e & es2 & -> & [Hs Hc'] & He & Hes1 & _). rewrite Hs, Hc'.
    rewrite land_bit_zero, negb_involutive in He by done.
    apply Forall_app in Hu as [_ [[Hu _] _]%Forall_cons].
    assert (Hfind : find (fun e0 => Z.testbit (share e0) n) (es1 ++ e :: es2) = Some e).
    { clear -He Hes1 Hn. induction Hes1 as [|x es1 Hx _ IH]; cbn; [by rewrite He|].
      rewrite land_bit_zero, negb_involutive in Hx by done. by rewrite Hx. }
    rewrite Hfind. by rewrite land_lnot_bit_zero.
  - assert (Hfind : find (fun e0 => Z.testbit (share e0) n) es = None).
    { clear -Hf Hn. induction Hf as [|x es Hx _ IH]; cbn; [done|].
      rewrite land_bit_zero, negb_involutive in Hx by done. by rewrite Hx. }
    by rewrite Hfind.
Qed.

(** ** Decoding *)

(** The entries of a block, read the way the visitors of the server read them. *)
Definition leaf_entries (b : block) : aleaf :=
  (fun i => (map_rchunk b i, (fun p => Exc (ex_share b p) (ex_chunk b p)) <$> exc_ptrs b i)) <$> seq 0 (leaf_count b).

Lemma leaf_rep_entries b L : leaf_rep b L -> leaf_entries b = L.
Proof.
  intros Hr. unfold leaf_entries. rewrite (leaf_rep_count b L Hr). apply list_eq. intros i.
  rewrite list_lookup_fmap. destruct (L !! i) as [[r es]|] eqn:Hi.
  - rewrite lookup_seq_lt by by eapply lookup_lt_Some. cbn [fmap option_fmap option_map Nat.add]. f_equal.
    rewrite (leaf_rep_rchunk b L Hr i r es Hi). f_equal.
    pose proof (leaf_rep_excs b L Hr i r es Hi) as HF. revert HF. generalize (exc_ptrs b i). clear Hi.
    intros ps HF. induction HF as [|p e ps es' [Hs Hc] _ IH]; [done|].
    cbn [fmap list_fmap]. rewrite Hs, Hc, IH. by destruct e.
  - by rewrite lookup_seq_ge by by apply lookup_ge_None_1.
Qed.

(** A visitor that folds over the entries of a leaf folds over the list. *)
Lemma leaf_entries_shares b L : leaf_rep b L ->
  (i ← seq 0 (leaf_count b); ex_share b <$> exc_ptrs b i) = share <$> all_excs L.
Proof.
  intros Hr. rewrite <- (leaf_rep_entries b L Hr) at 1. unfold leaf_entries, all_excs.
  induction (seq 0 (leaf_count b)) as [|i l IH]; [done|]. cbn [mbind list_bind fmap list_fmap flat_map snd]. rewrite fmap_app, <- IH. f_equal.
  rewrite <- list_fmap_compose. done.
Qed.
