(* ===== verification/LeafInv.v ===== *)
(** * The leaf invariant and the room that a split makes

    Exceptions of one chunk have non-empty and pairwise disjoint share masks,
    so a chunk never has more than 64 of them; the directory is strictly
    ordered.  Insertion keeps this when it is called the way [make_unique]
    calls it, on a chunk that is not unique yet, and a leaf that is full can be
    split so that the insertion then succeeds. *)

From Stdlib Require Import Sorted.
From S2P Require Import Prelude Bytes Leaf LeafSpec.

Definition chunk_ok (es : list exc) : Prop :=
  Forall (fun e => share e <> 0) es /\
  ForallOrdPairs (fun e1 e2 => Z.land (share e1) (share e2) = 0) es.

Definition leaf_sorted (L : aleaf) : Prop := StronglySorted (fun d1 d2 => d1.1 < d2.1) L.

Definition leaf_wf (L : aleaf) : Prop :=
  leaf_sorted L /\ Forall (fun d => d.2 <> [] /\ chunk_ok d.2) L.

(** What [make_unique] tests before it adds an exception for [s]
    ([-1] for the origin): whether the chunk is unique already. *)
Definition already_unique (L : aleaf) (c s m : Z) : bool :=
  if s =? -1 then Z.land (lnot64 (shares (excs_of L c))) m =? 0
  else match find (fun e => Z.testbit (share e) s) (excs_of L c) with
       | Some e => share e =? bit64 s
       | None => false
       end.

(** ** At most 64 exceptions per chunk *)

Lemma nonzero_bit x : is_u64 x -> x <> 0 -> exists i, 0 <= i < 64 /\ Z.testbit x i = true.
Proof.
  intros Hx Hn. exists (Z.log2 x). unfold is_u64 in Hx.
  assert (0 < x) by lia. split; [|by apply Z.bit_log2].
  split; [apply Z.log2_nonneg|]. apply Z.log2_lt_pow2; lia.
Qed.

Lemma chunk_ok_bits es :
  Forall exc_u64 es -> chunk_ok es ->
  exists bs, length bs = length es /\ NoDup bs /\ Forall (fun i => 0 <= i < 64) bs /\
    Forall2 (fun i e => Z.testbit (share e) i = true) bs es.
Proof.
  intros Hu [Hnz Hdis]. induction es as [|e es IH]; [exists []; by repeat constructor|].
  apply Forall_cons in Hu as [[Hue _] Hu]. apply Forall_cons in Hnz as [Hne Hnz].
  inversion Hdis as [|? ? Hd Hdis']; subst.
  destruct IH as (bs & Hl & Hnd & Hr & HF); [done|done|done|].
  destruct (nonzero_bit (share e) Hue Hne) as (i & Hi & Hb).
  exists (i :: bs). split; [cbn; lia|]. split; [|split; by constructor].
  constructor; [|done]. intros Hin. apply list_elem_of_lookup in Hin as (k & Hk).
  destruct (Forall2_lookup_l _ _ _ _ _ HF Hk) as (e' & He' & Hb').
  apply (Forall_lookup_1 _ _ _ _ Hd) in He'.
  apply (f_equal (fun z => Z.testbit z i)) in He'. by rewrite Z.land_spec, Hb, Hb', Z.bits_0 in He'.
Qed.

Lemma chunk_ok_length es : Forall exc_u64 es -> chunk_ok es -> (length es <= 64)%nat.
Proof.
  intros Hu Hok. destruct (chunk_ok_bits es Hu Hok) as (bs & Hl & Hnd & Hr & _).
  rewrite <- Hl. change 64%nat with (length (seqZ 0 64)).
  apply submseteq_length, NoDup_submseteq; [done|]. intros x Hx.
  rewrite Forall_forall in Hr. apply elem_of_seqZ. specialize (Hr x Hx). lia.
Qed.

(** ** Insertion keeps the invariant *)

Lemma share_sub_shares es e i :
  0 <= i -> e ∈ es -> Z.testbit (share e) i = true -> Z.testbit (shares es) i = true.
Proof.
  intros Hi He Hb. rewrite shares_testbit by done. apply existsb_exists.
  exists e. split; [by apply list_elem_of_In|done].
Qed.

Lemma land_zero_bits x y :
  is_u64 x -> 0 <= y ->
  Z.land x y = 0 <-> (forall i, 0 <= i < 64 -> Z.testbit x i = true -> Z.testbit y i = false).
Proof.
  intros Hx Hy. rewrite u64_zero_iff by by apply u64_land_range. split; intros H i Hi.
  - intros Hb. specialize (H i Hi). by rewrite Z.land_spec, Hb in H.
  - rewrite Z.land_spec. destruct (Z.testbit x i) eqn:E; [|done]. by rewrite (H i Hi E).
Qed.

Lemma add_exc_origin_ok e a es :
  Forall exc_u64 es -> is_u64 a -> chunk_ok es ->
  Z.land (lnot64 (shares es)) a <> 0 -> chunk_ok (add_exc e (-1) a es).
Proof.
  intros Hu Ha [Hnz Hd] Hn. unfold add_exc. rewrite Z.eqb_refl.
  split; [by constructor|]. constructor; [|done]. apply Forall_forall. intros x Hx. cbn [share].
  assert (Hux : exc_u64 x) by by (rewrite Forall_forall in Hu; apply Hu).
  apply land_zero_bits.
  - apply u64_land_range; [auto with width|unfold is_u64 in Ha; lia].
  - destruct Hux as [Hux _]. unfold is_u64 in Hux. lia.
  - intros i Hi Hb. rewrite Z.land_spec, lnot64_testbit in Hb by done.
    apply andb_true_iff in Hb as [Hb _]. apply negb_true_iff in Hb.
    destruct (Z.testbit (share x) i) eqn:E; [|done].
    by rewrite (share_sub_shares es x i ltac:(lia) Hx E) in Hb.
Qed.

Lemma unshare_first_spec n es :
  0 <= n < 64 ->
  unshare_first (bit64 n) es =
  match find (fun e => Z.testbit (share e) n) es with
  | None => es
  | Some _ => unshare_first (bit64 n) es
  end.
Proof.
  intros Hn. induction es as [|e es IH]; cbn; [done|]. rewrite land_bit_zero by done.
  destruct (Z.testbit (share e) n) eqn:E; cbn; [done|]. destruct (find _ es); [done|]. by rewrite IH.
Qed.

(** Bits of the masks after [n] was removed: the same, without [n]. *)
Lemma unshare_first_bits n es :
  0 <= n < 64 -> Forall exc_u64 es ->
  ForallOrdPairs (fun e1 e2 => Z.land (share e1) (share e2) = 0) es ->
  Forall2 (fun e e' => chunk_of e' = chunk_of e /\ exc_u64 e' /\
             forall i, 0 <= i < 64 -> Z.testbit (share e') i = Z.testbit (share e) i && negb (i =? n))
    es (unshare_first (bit64 n) es).
Proof.
  intros Hn Hu Hd. induction es as [|e es IH]; cbn; [constructor|].
  apply Forall_cons in Hu as [[Hs Hc] Hu]. inversion Hd as [|? ? Hde Hd']; subst.
  rewrite land_bit_zero by done. destruct (Z.testbit (share e) n) eqn:E; cbn.
  - constructor.
    + cbn. split; [done|]. split; [split; [apply u64_land_range; auto with width|done]|].
      intros i Hi. rewrite Z.land_spec, lnot64_testbit, bit64_testbit by lia. done.
    + apply Forall_Forall2_diag. apply Forall_forall. intros x Hx.
      assert (exc_u64 x) as Hxu by by (rewrite Forall_forall in Hu; apply Hu).
      split; [done|]. split; [done|]. intros i Hi.
      destruct (Z.eqb_spec i n) as [->|]; [|by rewrite andb_true_r].
      rewrite Forall_forall in Hde. specialize (Hde x Hx).
      apply (f_equal (fun z => Z.testbit z n)) in Hde. rewrite Z.land_spec, E, Z.bits_0 in Hde.
      cbn in Hde. by rewrite Hde.
  - constructor; [|by apply IH]. split; [done|]. split; [done|]. intros i Hi.
    destruct (Z.eqb_spec i n) as [->|]; [by rewrite E|by rewrite andb_true_r].
Qed.

Lemma Forall2_FOP {A} (R : A -> A -> Prop) (S : A -> A -> Prop) l l' :
  Forall2 S l l' ->
  (forall x x' y y', S x x' -> S y y' -> R x y -> R x' y') ->
  ForallOrdPairs R l -> ForallOrdPairs R l'.
Proof.
  intros HF HR Hop. induction HF as [|x x' l l' Hx HF IH]; [constructor|].
  inversion Hop as [|? ? Ha Hop']; subst. constructor; [|by apply IH].
  clear IH Hop Hop'. induction HF as [|y y' l l' Hy HF IH]; [constructor|].
  apply Forall_cons in Ha as [Hxy Ha]. constructor; eauto.
Qed.

Lemma add_exc_snap_ok e n a es :
  0 <= n < 64 -> Forall exc_u64 es -> chunk_ok es ->
  Forall (fun x => share x <> bit64 n) es -> chunk_ok (add_exc e n a es).
Proof.
  intros Hn Hu [Hnz Hd] Hne. unfold add_exc. rewrite (proj2 (Z.eqb_neq n (-1))) by lia.
  pose proof (unshare_first_bits n es Hn Hu Hd) as HF.
  set (es' := unshare_first (bit64 n) es) in *. clearbody es'. split.
  - constructor.
    + cbn. rewrite bit64_eq by done. pose proof (Z.pow_pos_nonneg 2 n). lia.
    + apply Forall_forall. intros x' Hx' H0.
      apply list_elem_of_lookup in Hx' as (k & Hk).
      destruct (Forall2_lookup_r _ _ _ _ _ HF Hk) as (x & Hx & _ & Hux' & Hb).
      assert (Hux : exc_u64 x) by by apply (Forall_lookup_1 _ _ _ _ Hu Hx).
      apply (Forall_lookup_1 _ _ _ _ Hne) in Hx as Hxn.
      apply (Forall_lookup_1 _ _ _ _ Hnz) in Hx as Hxz.
      apply Hxn. apply Z.bits_inj'. intros i Hi.
      destruct (Z.lt_decidable i 64) as [Hi'|].
      2:{ rewrite !is_u64_testbit_high; [done|auto with width|lia|apply Hux|lia]. }
      rewrite bit64_testbit by lia. destruct (Z.eqb_spec i n) as [->|Hin].
      * destruct (nonzero_bit (share x)) as (j & Hj & Hjb); [apply Hux|done|].
        destruct (decide (j = n)) as [->|Hjn]; [done|].
        specialize (Hb j Hj). rewrite H0, Z.bits_0, Hjb, (proj2 (Z.eqb_neq j n) Hjn) in Hb. done.
      * specialize (Hb i ltac:(lia)). rewrite H0, Z.bits_0, (proj2 (Z.eqb_neq i n) Hin), andb_true_r in Hb. done.
  - constructor.
    + cbn [share]. apply Forall_forall. intros x' Hx'. apply list_elem_of_lookup in Hx' as (k & Hk).
      destruct (Forall2_lookup_r _ _ _ _ _ HF Hk) as (x & Hx & _ & [Hux' _] & Hb).
      apply land_zero_bits; [auto with width|unfold is_u64 in Hux'; lia|].
      intros i Hi Hbi. rewrite bit64_testbit in Hbi by lia. apply Z.eqb_eq in Hbi as ->.
      rewrite (Hb n Hn), Z.eqb_refl. apply andb_false_r.
    + assert (Hboth : Forall2 (fun x x' => exc_u64 x /\ exc_u64 x' /\
        forall i, 0 <= i < 64 -> Z.testbit (share x') i = true -> Z.testbit (share x) i = true) es es').
      { apply Forall2_same_length_lookup_2; [by eapply Forall2_length|].
        intros k x x' Hx Hx'. destruct (Forall2_lookup_lr _ _ _ _ _ _ HF Hx Hx') as (_ & Hux' & Hb).
        split; [by apply (Forall_lookup_1 _ _ _ _ Hu Hx)|]. split; [done|].
        intros i Hi Hb'. rewrite Hb in Hb' by done. by apply andb_true_iff in Hb' as [? _]. }
      eapply Forall2_FOP; [exact Hboth| |exact Hd].
      intros x x' y y' (Hx & Hx' & Hbx) (Hy & Hy' & Hby) H0.
      destruct Hx as [Hx _], Hx' as [Hx' _], Hy as [Hy _], Hy' as [Hy' _].
      rewrite land_zero_bits in H0 |- *; unfold is_u64 in *; try lia.
      intros i Hi Hb. destruct (Z.testbit (share y') i) eqn:E; [|done].
      specialize (Hby i Hi E). by rewrite (H0 i Hi (Hbx i Hi Hb)) in Hby.
Qed.

(** ** Lookup after insertion *)

Lemma excs_of_cons r es L c :
  excs_of ((r, es) :: L) c = if r =? c then es else excs_of L c.
Proof.
  unfold excs_of. cbn [list_find]. destruct (decide _) as [E|E]; cbn [fst] in E.
  - by rewrite E.
  - apply not_true_is_false in E. rewrite E. destruct (list_find _ L) as [[i [r' es']]|]; done.
Qed.

Lemma excs_of_lt L c : Forall (fun d => c < d.1) L -> excs_of L c = [].
Proof.
  induction 1 as [|[r es] L Hr _ IH]; [done|]. rewrite excs_of_cons.
  cbn in Hr. by rewrite (proj2 (Z.eqb_neq r c)) by lia.
Qed.

Lemma excs_of_add_entry t e s a L c :
  leaf_sorted L ->
  excs_of (add_entry t e s a L) c = if c =? t then add_exc e s a (excs_of L t) else excs_of L c.
Proof.
  induction 1 as [|[r es] L HL IH Hr]; cbn [add_entry].
  - rewrite excs_of_cons. rewrite Z.eqb_sym. by destruct (c =? t).
  - cbn in Hr. destruct (Z.ltb_spec r t) as [Hrt|Hrt].
    + rewrite !excs_of_cons, IH. destruct (Z.eqb_spec r c) as [->|].
      * by rewrite (proj2 (Z.eqb_neq c t)) by lia.
      * destruct (c =? t); [|done]. by rewrite (proj2 (Z.eqb_neq r t)) by lia.
    + destruct (Z.eqb_spec r t) as [->|Hne].
      * rewrite !excs_of_cons, Z.eqb_refl, (Z.eqb_sym t c). by destruct (c =? t).
      * rewrite !excs_of_cons, (Z.eqb_sym t c). destruct (Z.eqb_spec c t) as [->|]; [|done].
        rewrite (proj2 (Z.eqb_neq r t)) by lia. rewrite excs_of_lt; [done|].
        eapply Forall_impl; [exact Hr|]. cbn. intros. lia.
Qed.

Lemma excs_of_app L1 L2 c : 
  Forall (fun d => d.1 <> c) L1 -> excs_of (L1 ++ L2) c = excs_of L2 c.
Proof.
  induction 1 as [|[r es] L1 Hr _ IH]; [done|]. cbn [app]. rewrite excs_of_cons.
  cbn in Hr. by rewrite (proj2 (Z.eqb_neq r c)).
Qed.

(** ** Insertion keeps the leaf invariant *)

Lemma add_entry_lower t e s a L x :
  Forall (fun d => x < d.1) L -> x < t -> Forall (fun d => x < d.1) (add_entry t e s a L).
Proof.
  intros HL Ht. induction HL as [|[r es] L Hr HL IH]; cbn [add_entry]; [by repeat constructor|].
  destruct (r <? t); [by constructor|]. destruct (r =? t); by repeat constructor.
Qed.

Lemma add_entry_sorted t e s a L : leaf_sorted L -> leaf_sorted (add_entry t e s a L).
Proof.
  induction 1 as [|[r es] L HL IH Hr]; cbn [add_entry]; [by repeat constructor|].
  destruct (Z.ltb_spec r t).
  - constructor; [done|]. by apply add_entry_lower.
  - destruct (Z.eqb_spec r t) as [->|]; [by constructor|].
    constructor; [by constructor|]. constructor; [cbn; lia|].
    eapply Forall_impl; [exact Hr|]. cbn. intros. lia.
Qed.

Lemma excs_of_chunk_ok L c :
  Forall (fun d => d.2 <> [] /\ chunk_ok d.2) L -> chunk_ok (excs_of L c).
Proof.
  intros H. unfold excs_of. destruct (list_find _ L) as [[i [r es]]|] eqn:E; [|split; constructor].
  apply list_find_Some in E as (Hi & _). by apply (Forall_lookup_1 _ _ _ _ H) in Hi as [_ ?].
Qed.

Lemma add_exc_chunk_ok L c e s a :
  leaf_wf L -> Forall ent_ok L -> is_u64 a -> -1 <= s < 64 ->
  already_unique L c s a = false -> chunk_ok (add_exc e s a (excs_of L c)).
Proof.
  intros [_ HL] Hok Ha Hs Hun. pose proof (excs_of_chunk_ok L c HL) as Hc.
  pose proof (excs_of_u64 L c Hok) as Hu. unfold already_unique in Hun.
  destruct (Z.eqb_spec s (-1)) as [->|Hne].
  - apply add_exc_origin_ok; try done. by apply Z.eqb_neq.
  - apply add_exc_snap_ok; try done; [lia|].
    apply Forall_forall. intros x Hx Heq.
    assert (Hbx : Z.testbit (share x) s = true) by (rewrite Heq, bit64_testbit, Z.eqb_refl by lia; done).
    destruct (find _ (excs_of L c)) as [y|] eqn:Ef.
    + apply Z.eqb_neq in Hun. apply find_some in Ef as [Hy Hby].
      destruct (decide (y = x)) as [->|Hyx]; [done|].
      apply list_elem_of_In in Hy. destruct Hc as [_ Hd].
      assert (Hxy : Z.land (share x) (share y) = 0 \/ Z.land (share y) (share x) = 0).
      { destruct (ForallOrdPairs_In Hd x y) as [?|[?|?]]; try apply list_elem_of_In; try done; auto. }
      destruct Hxy as [H0|H0]; apply (f_equal (fun z => Z.testbit z s)) in H0;
        by rewrite Z.land_spec, Hbx, Hby, Z.bits_0 in H0.
    + apply list_elem_of_In in Hx. pose proof (find_none _ _ Ef x Hx) as Hf. cbn in Hf. congruence.
Qed.

Lemma add_entry_Forall (P : Z * list exc -> Prop) t e s a L :
  leaf_sorted L -> Forall P L -> P (t, add_exc e s a (excs_of L t)) -> Forall P (add_entry t e s a L).
Proof.
  intros HL HP. induction HL as [|[r es] L HL IH Hr]; cbn [add_entry].
  - intros. by constructor.
  - apply Forall_cons in HP as [Hp HP]. rewrite excs_of_cons. cbn in Hr.
    destruct (Z.ltb_spec r t); [|destruct (Z.eqb_spec r t) as [->|]].
    + rewrite (proj2 (Z.eqb_neq r t)) by lia. intros. constructor; auto.
    + intros. by constructor.
    + rewrite excs_of_lt; [intros; by repeat constructor|].
      eapply Forall_impl; [exact Hr|]. cbn. intros. lia.
Qed.

Lemma add_exc_nonnil e s a es : add_exc e s a es <> [].
Proof. intros H. apply (f_equal length) in H. by rewrite length_add_exc in H. Qed.

Lemma add_entry_wf L c e s a :
  leaf_wf L -> Forall ent_ok L -> is_u64 a -> -1 <= s < 64 ->
  already_unique L c s a = false -> leaf_wf (add_entry c e s a L).
Proof.
  intros Hwf Hok Ha Hs Hun. split; [by apply add_entry_sorted, Hwf|].
  apply add_entry_Forall; [apply Hwf|apply Hwf|]. cbn. split; [apply add_exc_nonnil|].
  by apply add_exc_chunk_ok.
Qed.

Lemma leaf_wf_app L1 L2 : leaf_wf (L1 ++ L2) -> leaf_wf L1 /\ leaf_wf L2.
Proof.
  intros [Hs Hf]. apply Forall_app in Hf as [Hf1 Hf2].
  assert (leaf_sorted L1 /\ leaf_sorted L2) as [? ?]; [|done].
  clear Hf1 Hf2. induction L1 as [|d L1 IH]; [split; [constructor|done]|].
  cbn in Hs. apply StronglySorted_inv in Hs as [Hs Hd]. destruct (IH Hs). split; [|done].
  constructor; [done|]. by apply Forall_app in Hd as [? _].
Qed.

(** ** A split makes room *)

Lemma leaf_need_app L1 L2 : leaf_need (L1 ++ L2) = leaf_need L1 + leaf_need L2 - 32.
Proof. unfold leaf_need. len. Qed.

Lemma leaf_need_add t e s a L :
  leaf_need (add_entry t e s a L) <= leaf_need L + 24.
Proof.
  induction L as [|[r es] L IH]; cbn [add_entry].
  - unfold leaf_need. rewrite all_excs_cons. len. rewrite length_add_exc. cbn. lia.
  - destruct (r <? t); [|destruct (r =? t)].
    + change ((r, es) :: ?x) with ([(r, es)] ++ x). rewrite !leaf_need_app. lia.
    + unfold leaf_need. rewrite !all_excs_cons. len. rewrite length_add_exc. lia.
    + unfold leaf_need. rewrite !all_excs_cons. len. rewrite length_add_exc. cbn. lia.
Qed.

Lemma leaf_need_nonempty L :
  Forall (fun d => d.2 <> [] /\ chunk_ok d.2) L -> L <> [] -> leaf_need L >= 56.
Proof.
  destruct L as [|[r es] L]; [done|]. intros [[Hes _] _]%Forall_cons _. cbn in Hes.
  destruct es; [done|]. unfold leaf_need. rewrite all_excs_cons. len.
Qed.

(** A leaf of one chunk needs at most 32 + 8 + 64 * 16 bytes. *)
Lemma leaf_need_one L :
  Forall ent_ok L -> Forall (fun d => d.2 <> [] /\ chunk_ok d.2) L -> (length L <= 1)%nat ->
  leaf_need L <= 1064.
Proof.
  intros Hok HL Hl. destruct L as [|[r es] [|]]; [done| |cbn in Hl; lia].
  apply Forall_cons in HL as [[_ Hc] _]. apply Forall_cons in Hok as [[_ Hu] _]. cbn in *.
  pose proof (chunk_ok_length es Hu Hc). unfold leaf_need. rewrite all_excs_cons. len.
Qed.

Lemma split_has_room b b2 L c e s a :
  leaf_rep b L -> leaf_wf L -> length b2 = length b -> is_u32 c -> is_u64 e -> is_u64 a ->
  1088 <= Z.of_nat (length b) ->
  add_exception_to_leaf b c e s a = (b, - EFULL) ->
  exists b1' b2' key L1 L2, split_leaf b b2 = (b1', b2', key) /\ L = L1 ++ L2 /\
    L1 <> [] /\ L2 <> [] /\ Forall (fun d => d.1 < key) L1 /\ Forall (fun d => key <= d.1) L2 /\
    leaf_rep b1' L1 /\ leaf_rep b2' L2 /\ length b1' = length b /\ length b2' = length b /\
    exists b', add_exception_to_leaf (if c <? key then b1' else b2') c e s a = (b', 0) /\
      leaf_rep b' (add_entry c e s a (if c <? key then L1 else L2)) /\ length b' = length b.
Proof.
  intros Hrep [Hsort HL] Hl2 Hc He Ha Hsz Hfull.
  assert (Hok : Forall ent_ok L) by apply Hrep.
  assert (Hneed : Z.of_nat (length b) < leaf_need L + 24).
  { destruct (Z.lt_decidable (Z.of_nat (length b)) (leaf_need (add_entry c e s a L))) as [?|Hn].
    - pose proof (leaf_need_add c e s a L). lia.
    - destruct (add_exception_to_leaf_rep b L c e s a Hrep Hc He Ha) as [Hadd _].
      destruct Hadd as (b' & E & _); [lia|]. rewrite E in Hfull. done. }
  assert (Hlen : (2 <= length L)%nat).
  { destruct (decide (2 <= length L)%nat); [done|]. pose proof (leaf_need_one L Hok HL). lia. }
  destruct (split_leaf_rep b b2 L Hrep Hl2) as (b1' & b2' & key & Esp & Hr1 & Hr2 & Hb1 & Hb2 & Hkey).
  set (nhead := ((length L + 1) / 2)%nat) in *.
  assert (Hnh : (1 <= nhead < length L)%nat).
  { unfold nhead. split; [apply Nat.div_le_lower_bound; lia|apply Nat.Div0.div_lt_upper_bound; lia]. }
  destruct (lookup_lt_is_Some_2 L nhead) as [[r es] Hr]; [lia|]. specialize (Hkey r es Hr). subst key.
  assert (EL : L = take nhead L ++ drop nhead L) by by rewrite take_drop.
  assert (Ed : drop nhead L = (r, es) :: drop (S nhead) L) by by apply drop_S.
  exists b1', b2', r, (take nhead L), (drop nhead L).
  split; [done|]. split; [done|].
  assert (Hn1 : take nhead L <> []) by (intros E; apply (f_equal length) in E; rewrite length_take in E; change (length []) with 0%nat in E; lia).
  assert (Hn2 : drop nhead L <> []) by by rewrite Ed.
  split; [done|]. split; [done|].
  assert (Hso : leaf_sorted (take nhead L ++ (r, es) :: drop (S nhead) L)) by by rewrite <- Ed, take_drop.
  split; [|split].
  { apply Forall_forall. intros d Hd.
    clear -Hso Hd. induction (take nhead L) as [|x l IH]; [by apply elem_of_nil in Hd|].
    inversion Hso as [|? ? Hs Hf]; subst. apply elem_of_cons in Hd as [->|Hd]; [|by apply IH].
    rewrite Forall_forall in Hf. apply (Hf (r, es)). set_solver. }
  { rewrite Ed. clear -Hso. induction (take nhead L) as [|x l IH].
    - inversion Hso as [|? ? Hs Hf]; subst. constructor; [cbn; lia|].
      eapply Forall_impl; [exact Hf|]. cbn. intros. lia.
    - inversion Hso; subst. by apply IH. }
  split; [done|]. split; [done|]. split; [done|]. split; [done|].
  rewrite EL in HL. apply Forall_app in HL as [HL1 HL2].
  pose proof (leaf_need_nonempty _ HL1 Hn1). pose proof (leaf_need_nonempty _ HL2 Hn2).
  rewrite EL, leaf_need_app in Hneed. pose proof (leaf_rep_need b L Hrep) as Hfit.
  rewrite EL, leaf_need_app in Hfit.
  destruct (c <? r).
  - destruct (add_exception_to_leaf_rep b1' _ c e s a Hr1 Hc He Ha) as [Hadd _].
    destruct Hadd as (b' & E & Hrep' & Hl'); [|by exists b'; rewrite Hl', Hb1].
    pose proof (leaf_need_add c e s a (take nhead L)). lia.
  - destruct (add_exception_to_leaf_rep b2' _ c e s a Hr2 Hc He Ha) as [Hadd _].
    destruct Hadd as (b' & E & Hrep' & Hl'); [|by exists b'; rewrite Hl', Hb2].
    pose proof (leaf_need_add c e s a (drop nhead L)). lia.
Qed.
