(* ===== verification/LeafView.v ===== *)
(** * What a leaf says about the snapshots

    [held L c n] is the chunk of the snapshot store that holds chunk [c] of the
    origin as snapshot [n] sees it, and nothing when the snapshot still shares
    the chunk with the origin.  The theorems say how the leaf operations change
    it. *)

From Stdlib Require Import Sorted.
From S2P Require Import Prelude Bytes Leaf LeafSpec LeafInv.

(** The exception that holds a chunk for snapshot [n], if any: without one the
    snapshot shares the chunk with the origin. *)
Definition exc_for (C : aleaf) (c n : Z) : option exc := find (fun e => Z.testbit (share e) n) (excs_of C c).

Definition held (C : aleaf) (c n : Z) : option Z := chunk_of <$> exc_for C c n.

(** ** Insertion *)

Lemma find_existsb {A} (f : A -> bool) l : existsb f l = match find f l with Some _ => true | None => false end.
Proof. induction l as [|x l IH]; cbn; [done|]. by destruct (f x). Qed.

Lemma find_unshare n i es :
  0 <= n < 64 -> 0 <= i < 64 -> i <> n -> Forall exc_u64 es ->
  ForallOrdPairs (fun e1 e2 => Z.land (share e1) (share e2) = 0) es ->
  chunk_of <$> find (fun e => Z.testbit (share e) i) (unshare_first (bit64 n) es) =
  chunk_of <$> find (fun e => Z.testbit (share e) i) es.
Proof.
  intros Hn Hi Hne Hu Hd. pose proof (unshare_first_bits n es Hn Hu Hd) as HF.
  induction HF as [|x x' l l' (Hc & _ & Hb) _ IH]; cbn; [done|].
  rewrite (Hb i Hi), (proj2 (Z.eqb_neq i n) Hne), andb_true_r.
  destruct (Z.testbit (share x) i); [by cbn; rewrite Hc|]. apply IH.
  - by apply Forall_cons in Hu as [_ ?].
  - by inversion Hd.
Qed.

Lemma held_add_origin e a L c n :
  leaf_sorted L -> is_u64 a -> 0 <= n < 64 ->
  held (add_entry c e (-1) a L) c n =
  match held L c n with
  | Some x => Some x
  | None => if Z.testbit a n then Some e else None
  end.
Proof.
  intros Hs Ha Hn. unfold held, exc_for. rewrite excs_of_add_entry, Z.eqb_refl by done.
  unfold add_exc. change (-1 =? -1) with true. cbn [find share]. rewrite Z.land_spec, lnot64_testbit, shares_testbit, find_existsb by lia.
  destruct (find _ (excs_of L c)) as [x|]; cbn; [done|]. by destruct (Z.testbit a n).
Qed.

Lemma held_add_snap e a L c s n :
  leaf_wf L -> Forall ent_ok L -> 0 <= s < 64 -> 0 <= n < 64 ->
  held (add_entry c e s a L) c n = if n =? s then Some e else held L c n.
Proof.
  intros [Hso Hf] Hok Hs Hn. unfold held, exc_for. rewrite excs_of_add_entry, Z.eqb_refl by done.
  unfold add_exc. rewrite (proj2 (Z.eqb_neq s (-1))) by lia. cbn [find share].
  rewrite bit64_testbit by lia. destruct (Z.eqb_spec n s) as [->|Hne]; [done|].
  apply find_unshare; try done; [by apply excs_of_u64|]. by apply excs_of_chunk_ok.
Qed.

Lemma held_add_other e a L c s c' n :
  leaf_sorted L -> c' <> c -> held (add_entry c e s a L) c' n = held L c' n.
Proof.
  intros Hs Hne. unfold held, exc_for. rewrite excs_of_add_entry by done. by rewrite (proj2 (Z.eqb_neq c' c)).
Qed.

(** What the snapshots hold after the insertion of [e] for [s] (-1 for the
    origin) among the snapshots [a]. *)
Definition held_after (L : aleaf) (c e s a c' n : Z) : option Z :=
  if negb (c' =? c) then held L c' n
  else if s =? -1 then match held L c n with Some x => Some x | None => if Z.testbit a n then Some e else None end
  else if n =? s then Some e else held L c n.

Lemma held_add e a L c s c' n :
  leaf_wf L -> Forall ent_ok L -> is_u64 a -> -1 <= s < 64 -> 0 <= n < 64 ->
  held (add_entry c e s a L) c' n = held_after L c e s a c' n.
Proof.
  intros Hw Hok Ha Hs Hn. unfold held_after. destruct (Z.eqb_spec c' c) as [->|Hne]; cbn [negb].
  - destruct (Z.eqb_spec s (-1)) as [->|Hs1]; [by apply held_add_origin; [apply Hw|..]|].
    apply held_add_snap; [done|done|lia|done].
  - by apply held_add_other; [apply Hw|].
Qed.

(** C16: [add_exception_to_leaf] on a leaf with entries [L], called for a chunk
    that is not unique yet: when the new exception fits, the leaf keeps its
    size and its invariant (ordered directory, non-empty and disjoint share
    masks), every chunk keeps what each snapshot holds, except that the chunk of
    the call is now held at the new exception by the snapshot it was made for,
    or, for the origin, by all active snapshots that shared the chunk with it.
    When it does not fit the leaf is not changed and the result is -EFULL, and
    then the leaf has less than 24 bytes free. *)
Theorem add_exception_to_leaf_correct b L c e s a :
  leaf_rep b L -> leaf_wf L -> is_u32 c -> is_u64 e -> is_u64 a -> -1 <= s < 64 -> already_unique L c s a = false ->
  (exists b' L', add_exception_to_leaf b c e s a = (b', 0) /\ leaf_rep b' L' /\ leaf_wf L' /\ length b' = length b /\
     forall c' n, 0 <= n < 64 -> held L' c' n = held_after L c e s a c' n) \/
  (add_exception_to_leaf b c e s a = (b, - EFULL) /\ leaf_freespace b < 24).
Proof.
  intros Hr Hw Hc He Ha Hs Hu. assert (Hok : Forall ent_ok L) by by destruct Hr as (_ & ? & _).
  destruct (add_exception_to_leaf_rep b L c e s a Hr Hc He Ha) as [Hfit Hfull].
  destruct (Z.le_decidable (leaf_need (add_entry c e s a L)) (Z.of_nat (length b))) as [Hn|Hn].
  - left. destruct (Hfit Hn) as (b' & Eb & Hr' & Hl). exists b', (add_entry c e s a L). split_and!; try done.
    + by apply add_entry_wf.
    + intros c' n Hn'. by apply held_add.
  - right. split; [apply Hfull; lia|]. rewrite (leaf_freespace_rep b L Hr).
    pose proof (leaf_need_add c e s a L). lia.
Qed.

(** ** Splitting and merging *)

Lemma held_app_l C1 C2 c n : Forall (fun d => d.1 <> c) C2 -> held (C1 ++ C2) c n = held C1 c n.
Proof.
  intros H2. unfold held, exc_for. f_equal. f_equal. induction C1 as [|[r es] C1 IH]; cbn [app].
  - rewrite <- (app_nil_r C2), excs_of_app by done. done.
  - rewrite !excs_of_cons. by rewrite IH.
Qed.

Lemma held_app_r C1 C2 c n : Forall (fun d => d.1 <> c) C1 -> held (C1 ++ C2) c n = held C2 c n.
Proof. intros H1. unfold held, exc_for. by rewrite excs_of_app. Qed.

(** C18: a leaf that is full is split so that the insertion then succeeds in the
    half that the key selects: no half is empty, the key separates them, every
    chunk is in the half the key says with what its snapshots held, and both
    halves have the size of the leaf.  Blocks of 2 KB and more are large enough
    for this, whatever the leaf holds. *)
Theorem split_leaf_correct b b2 L c e s a :
  leaf_rep b L -> leaf_wf L -> length b2 = length b -> is_u32 c -> is_u64 e -> is_u64 a ->
  2048 <= Z.of_nat (length b) -> add_exception_to_leaf b c e s a = (b, - EFULL) ->
  exists b1' b2' key L1 L2, split_leaf b b2 = (b1', b2', key) /\ leaf_rep b1' L1 /\ leaf_rep b2' L2 /\
    leaf_wf L1 /\ leaf_wf L2 /\ L1 <> [] /\ L2 <> [] /\ length b1' = length b /\ length b2' = length b /\
    (forall c' n, held L c' n = if c' <? key then held L1 c' n else held L2 c' n) /\
    exists b', add_exception_to_leaf (if c <? key then b1' else b2') c e s a = (b', 0) /\
      leaf_rep b' (add_entry c e s a (if c <? key then L1 else L2)).
Proof.
  intros Hr Hw Hl Hc He Ha Hsz Hfull.
  destruct (split_has_room b b2 L c e s a) as
    (b1' & b2' & key & L1 & L2 & E & -> & Hn1 & Hn2 & H1 & H2 & R1 & R2 & Hl1 & Hl2 & b' & Eb & Rb & _); try done; [lia|].
  destruct (leaf_wf_app _ _ Hw) as [W1 W2].
  exists b1', b2', key, L1, L2. split_and!; try done.
  - intros c' n. destruct (Z.ltb_spec c' key).
    + apply held_app_l. eapply Forall_impl; [exact H2|]. cbn. lia.
    + apply held_app_r. eapply Forall_impl; [exact H1|]. cbn. lia.
  - eauto.
Qed.

(** C19: [merge_leaves] of a leaf whose payload fits into the free space of the
    one before it gives one leaf with the entries of both, in order. *)
Theorem merge_leaves_correct b1 b2 L1 L2 :
  leaf_rep b1 L1 -> leaf_rep b2 L2 -> length b2 = length b1 ->
  leaf_wf L1 -> leaf_wf L2 -> Forall (fun d1 => Forall (fun d2 => d1.1 < d2.1) L2) L1 ->
  leaf_payload b2 <= leaf_freespace b1 ->
  exists L, leaf_rep (merge_leaves b1 b2) L /\ leaf_wf L /\ length (merge_leaves b1 b2) = length b1 /\
    forall c n, held L c n = match held L1 c n with Some x => Some x | None => held L2 c n end.
Proof.
  intros R1 R2 Hl W1 W2 Hlt Hp. destruct (merge_leaves_rep b1 b2 L1 L2 R1 R2 Hl Hp) as [R Hlen].
  exists (L1 ++ L2). split_and!; [done| |done|].
  - destruct W1 as [S1 F1], W2 as [S2 F2]. split; [|by apply Forall_app]. clear F1 F2 R R1 Hlen.
    induction L1 as [|d L1 IH]; [done|]. apply Forall_cons in Hlt as [Hd Hlt].
    apply StronglySorted_inv in S1 as [S1 Hd1]. cbn. constructor; [by apply IH|]. apply Forall_app. by split.
  - intros c n. destruct (decide (Exists (fun d : Z * list exc => d.1 = c) L1)) as [Hex|Hno].
    + apply Exists_exists in Hex as (d & Hd & <-). rewrite Forall_forall in Hlt. specialize (Hlt d Hd).
      rewrite held_app_l by (eapply Forall_impl; [exact Hlt|]; cbn; lia).
      destruct (held L1 d.1 n) as [x|]; [done|]. symmetry. rewrite <- (app_nil_r L2), held_app_r; [done|].
      eapply Forall_impl; [exact Hlt|]. cbn. lia.
    + assert (Hn : Forall (fun d => d.1 <> c) L1) by (by apply Forall_Exists_neg).
      rewrite held_app_r by done. rewrite <- (app_nil_r L1) at 1. by rewrite held_app_r.
Qed.
