(* ===== verification/State.v ===== *)
(** * The state of the snapshot server

    The structures of ddsnapd.c and buffer.h, the state of the process and of
    the devices, and the accessors the C macros and inline functions give. *)

From S2P Require Import Prelude Bytes.

(** ** Constants *)

Definition SECTOR_BITS : Z := 9.
Definition SB_SECTOR : Z := 8.
Definition SB_SECTORS : Z := 8.
Definition MAX_SNAPSHOTS : Z := 64.
Definition SNAPSHOT_SQUASHED : Z := MAX_SNAPSHOTS.
Definition MAX_NEW_METACHUNKS : Z := 10.
Definition MAX_DEFERRED_ALLOCS : Z := 500.
Definition MAX_BTREE_DIRTY : Z := 10.

(** [enum runflags] and [enum sbflags] *)
Definition RUN_SB_DIRTY : Z := 1.
Definition RUN_SELFCHECK : Z := 2.
Definition RUN_DEFER : Z := 4.
Definition SB_BUSY : Z := 2.

(** 't', 'e', 's', 't', 0xdd, 0x07, 0x06, 0x04 *)
Definition SB_MAGIC : list Z := [0x74; 0x65; 0x73; 0x74; 0xdd; 0x07; 0x06; 0x04].

Definition EIO : Z := 5.
Definition EEXIST : Z := 17.
Definition EINVAL : Z := 22.

(** ** Structures *)

(** Which image [asi] points at: [&image.metadata] or [&image.snapdata]. *)
Inductive space : Set := METADATA | SNAPDATA.

(** [BUFFER_STATE_*] of buffer.h *)
Inductive bufstate : Set := BUFFER_INVAL | BUFFER_CLEAN | BUFFER_DIRTY | BUFFER_JOURNALED.

#[export] Instance bufstate_eq_dec : EqDecision bufstate.
Proof. solve_decision. Defined.
#[export] Instance space_eq_dec : EqDecision space.
Proof. solve_decision. Defined.

(** [struct snapshot]: one entry of the snapshot list of the superblock. *)
Record snapshot := mkSnapshot {
  sn_ctime : Z;
  sn_tag : Z;
  sn_usecount : Z;
  sn_bit : Z;
  sn_prio : Z;
  sn_sectors : Z }.

#[export] Instance eta_snapshot : Eta snapshot :=
  fun r => mkSnapshot (sn_ctime r) (sn_tag r) (sn_usecount r) (sn_bit r) (sn_prio r) (sn_sectors r).

(** [struct allocspace_img]: the persistent state of an allocation space. *)
Record allocspace_img := mkAsi {
  bitmap_base : Z;
  chunks : Z;
  freechunks : Z;
  last_alloc : Z;
  bitmap_blocks : Z;
  allocsize_bits : Z }.

#[export] Instance eta_allocspace_img : Eta allocspace_img :=
  fun r => mkAsi (bitmap_base r) (chunks r) (freechunks r) (last_alloc r) (bitmap_blocks r)
    (allocsize_bits r).

(** [struct disksuper]: the superblock as saved on disk.  The array [snaplist] of
    [MAX_SNAPSHOTS] elements is the list [snaplist] of the first [snapshots]
    elements and the list [snaptail] of the others. *)
Record disksuper := mkDisksuper {
  sb_magic : list Z;
  create_time : Z;
  etree_root : Z;
  orgoffset : Z;
  orgsectors : Z;
  sb_flags : Z;
  deleting : Z;
  snaplist : list snapshot;
  snaptail : list snapshot;
  etree_levels : nat;
  journal_base : Z;
  journal_next : Z;
  journal_size : Z;
  sequence : Z;
  img_metadata : allocspace_img;
  img_snapdata : allocspace_img }.

#[export] Instance eta_disksuper : Eta disksuper :=
  fun r => mkDisksuper (sb_magic r) (create_time r) (etree_root r) (orgoffset r) (orgsectors r)
    (sb_flags r) (deleting r) (snaplist r) (snaptail r) (etree_levels r) (journal_base r) (journal_next r)
    (journal_size r) (sequence r) (img_metadata r) (img_snapdata r).

(** [struct allocspace]; the pointer [asi] is the image that it points at. *)
Record allocspace := mkAllocspace {
  asi_sel : space;
  allocsize : Z;
  chunk_sectors_bits : Z;
  alloc_per_node : Z }.

#[export] Instance eta_allocspace : Eta allocspace :=
  fun r => mkAllocspace (asi_sel r) (allocsize r) (chunk_sectors_bits r) (alloc_per_node r).

(** [struct alloc_range] *)
Record alloc_range := mkRange {
  ar_chunk : Z;
  ar_barrier : bool;
  ar_count : Z }.

#[export] Instance eta_alloc_range : Eta alloc_range :=
  fun r => mkRange (ar_chunk r) (ar_barrier r) (ar_count r).

(** [struct superblock].  The array [deferred_alloc] and its length
    [deferred_allocs] are one list; the copy buffer holds the contents of one
    chunk per element; the snapshot read locks are in [Locks]. *)
Record superblock := mkSuperblock {
  image : disksuper;
  metadata : allocspace;
  snapdata : allocspace;
  snapmask : Z;
  runflags : Z;
  snapdev : Z;
  metadev : Z;
  orgdev : Z;
  snaplock_hash_bits : Z;
  copybuf_size : Z;
  copybuf : list Z;
  source_chunk : Z;
  dest_exception : Z;
  copy_chunks : Z;
  max_commit_blocks : Z;
  usecounts : list Z;
  deferred_alloc : list alloc_range;
  defer : alloc_range }.

#[export] Instance eta_superblock : Eta superblock :=
  fun r => mkSuperblock (image r) (metadata r) (snapdata r) (snapmask r) (runflags r) (snapdev r)
    (metadev r) (orgdev r) (snaplock_hash_bits r) (copybuf_size r) (copybuf r)
    (source_chunk r) (dest_exception r) (copy_chunks r) (max_commit_blocks r) (usecounts r) (deferred_alloc r)
    (defer r).

(** One write to the metadata device: a block, or the superblock image. *)
Inductive diskwr : Type :=
  | WrBlock (sector : Z) (data : block)
  | WrSuper (image : disksuper).

(** [struct buffer]: the fields that are not links.  All buffers belong to the
    metadata device; a buffer is named by its sector. *)
Record buffer := mkBuffer {
  bdata : block;
  bcount : Z;
  bstate : bufstate }.

#[export] Instance eta_buffer : Eta buffer :=
  fun r => mkBuffer (bdata r) (bcount r) (bstate r).

(** The state of the server process and of the devices it owns.  [disk] has the
    metadata blocks by sector; [org_data] and [snap_data] have the contents of
    the chunks of the origin and of the snapshot store, each one value, and a
    chunk that is not there is past the end of its device.  [writes] is the log
    of the writes to the metadata device, newest first. *)
Record world := mkWorld {
  sb : superblock;
  bufs : gmap Z buffer;
  lru_buffers : list Z;
  free_buffers : list block;
  dirty_buffers : list Z;
  journaled_buffers : list Z;
  max_buffers : Z;
  max_evict : Z;
  disk : gmap Z block;
  disk_super : disksuper;
  org_data : gmap Z Z;
  snap_data : gmap Z Z;
  writes : list diskwr;
  now : Z }.

#[export] Instance eta_world : Eta world :=
  fun r => mkWorld (sb r) (bufs r) (lru_buffers r) (free_buffers r) (dirty_buffers r)
    (journaled_buffers r) (max_buffers r) (max_evict r) (disk r) (disk_super r) (org_data r)
    (snap_data r) (writes r) (now r).

(** ** Accessors *)

Abbreviation prog := (M world).

(** [sb->metadata.asi], [sb->snapdata.asi] *)
Definition img_of (which : space) (i : disksuper) : allocspace_img :=
  match which with METADATA => img_metadata i | SNAPDATA => img_snapdata i end.
Definition as_of (which : space) (s : superblock) : allocspace :=
  match which with METADATA => metadata s | SNAPDATA => snapdata s end.
Definition asi (which : space) (s : superblock) : allocspace_img :=
  img_of (asi_sel (as_of which s)) (image s).

Definition upd_img (which : space) (f : allocspace_img -> allocspace_img) (i : disksuper) : disksuper :=
  match which with
  | METADATA => i <| img_metadata ::= f |>
  | SNAPDATA => i <| img_snapdata ::= f |>
  end.
Definition upd_asi (which : space) (f : allocspace_img -> allocspace_img) (s : superblock) : superblock :=
  s <| image ::= upd_img (asi_sel (as_of which s)) f |>.

(** [sb->image.snapshots] *)
Definition snapshots (s : superblock) : Z := Z.of_nat (length (snaplist (image s))).

(** [snaplist[i]], also past the end of the list *)
Definition snap_slot (s : superblock) (i : nat) : option snapshot :=
  (snaplist (image s) ++ snaptail (image s)) !! i.

Definition deferred_allocs (s : superblock) : Z := Z.of_nat (length (deferred_alloc s)).

Definition dirty_buffer_count (w : world) : Z := Z.of_nat (length (dirty_buffers w)).
Definition journaled_count (w : world) : Z := Z.of_nat (length (journaled_buffers w)).
Definition buffer_count (w : world) : Z := Z.of_nat (length (lru_buffers w)).

Definition valid_sb (s : superblock) : bool := bool_decide (sb_magic (image s) = SB_MAGIC).

Definition combined (s : superblock) : bool := chunks (img_snapdata (image s)) =? 0.
Definition snapfree (s : superblock) : Z := freechunks (img_snapdata (image s)).
Definition metafree (s : superblock) : Z := freechunks (img_metadata (image s)).
Definition chunk_sectors (a : allocspace) : Z := u32 (Z.shiftl 1 (chunk_sectors_bits a)).
Definition deferring (s : superblock) : bool := negb (Z.land (runflags s) RUN_DEFER =? 0).
Definition is_squashed (sn : snapshot) : bool := sn_bit sn =? SNAPSHOT_SQUASHED.

Definition getsb : prog superblock := gets sb.
Definition modsb (f : superblock -> superblock) : prog unit := modify (set sb f).

Definition set_sb_dirty : prog unit :=
  modsb (fun s => s <| runflags ::= Z.lor RUN_SB_DIRTY |>).

(** [save_sb]: the superblock is written when it is marked dirty. *)
Definition save_sb : prog unit :=
  s ← getsb;
  if negb (Z.land (runflags s) RUN_SB_DIRTY =? 0) then
    modify (fun w => w <| disk_super := image s |> <| writes ::= cons (WrSuper (image s)) |>);;
    modsb (fun s => s <| runflags ::= fun f => Z.land f (Z.lnot RUN_SB_DIRTY) |>)
  else mret tt.
