(* ===== verification/Buffer.v ===== *)
(** * The buffer cache (buffer.c)

    The cache holds blocks of the metadata device.  The hash table
    [buffer_table] is the finite map [bufs] from sectors to buffers; the LRU,
    dirty and journaled lists are lists of sectors in list order, and the free
    list holds the data areas of the free buffers.  The counters of the C code
    ([buffer_count], [dirty_buffer_count], [journaled_count]) count the
    elements of these lists.  A block can be read or written when its sector
    is one of [disk]; any other access fails as at the end of the device. *)

From S2P Require Import Prelude Bytes State.

(** [list_del]: the links of an element leave the list. *)
Definition unlink (s : Z) (l : list Z) : list Z := List.filter (fun x => negb (x =? s)) l.
#[global] Arguments unlink : simpl never.

Definition buffer_dirty (b : buffer) : bool := bool_decide (bstate b = BUFFER_DIRTY).
Definition buffer_uptodate (b : buffer) : bool := bool_decide (bstate b = BUFFER_CLEAN).
Definition buffer_journaled (b : buffer) : bool := bool_decide (bstate b = BUFFER_JOURNALED).

(** Following a [struct buffer] pointer. *)
Definition get_buf (s : Z) : prog buffer :=
  w ← get;
  match bufs w !! s with
  | Some b => mret b
  | None => halt_with WildAccess
  end.

Definition upd_buf (s : Z) (f : buffer -> buffer) : prog unit :=
  b ← get_buf s; modify (fun w => w <| bufs ::= insert s (f b) |>).

(** [buffer->data] and stores into it *)
Definition get_data (s : Z) : prog block := b ← get_buf s; mret (bdata b).
Definition set_data (s : Z) (d : block) : prog unit := upd_buf s (fun b => b <| bdata := d |>).

Definition add_buffer_journaled (s : Z) : prog unit :=
  b ← get_buf s;
  (if buffer_dirty b then modify (fun w => w <| dirty_buffers ::= unlink s |>) else mret tt);;
  upd_buf s (fun b => b <| bstate := BUFFER_JOURNALED |>);;
  modify (fun w => w <| journaled_buffers ::= fun l => l ++ [s] |>).

Definition remove_buffer_journaled (s : Z) : prog unit :=
  modify (fun w => w <| journaled_buffers ::= unlink s |>).

Definition set_buffer_dirty (s : Z) : prog unit :=
  b ← get_buf s;
  if buffer_dirty b then mret tt
  else
    (if buffer_journaled b then remove_buffer_journaled s else mret tt);;
    modify (fun w => w <| dirty_buffers ::= fun l => l ++ [s] |>);;
    upd_buf s (fun b => b <| bstate := BUFFER_DIRTY |>).

Definition set_buffer_uptodate (s : Z) : prog unit :=
  b ← get_buf s;
  (if buffer_dirty b then modify (fun w => w <| dirty_buffers ::= unlink s |>) else mret tt);;
  (if buffer_journaled b then remove_buffer_journaled s else mret tt);;
  upd_buf s (fun b => b <| bstate := BUFFER_CLEAN |>).

Definition set_buffer_empty (s : Z) : prog unit :=
  set_buffer_uptodate s;;
  upd_buf s (fun b => b <| bstate := BUFFER_INVAL |>).

Definition brelse (s : Z) : prog unit :=
  b ← get_buf s;
  assertM (negb (bcount b =? 0));;
  upd_buf s (fun b => b <| bcount ::= fun n => n - 1 |>).

Definition brelse_dirty (s : Z) : prog unit := set_buffer_dirty s;; brelse s.

(** [diskwrite] of a block: fails when the sector is not on the device. *)
Definition write_block (sector : Z) (d : block) : prog Z :=
  w ← get;
  match disk w !! sector with
  | Some _ =>
      modify (fun w => w <| disk ::= insert sector d |> <| writes ::= cons (WrBlock sector d) |>);;
      mret 0
  | None => mret (- EIO)
  end.

Definition write_buffer_to (s sector : Z) : prog Z := d ← get_data s; write_block sector d.

Definition write_buffer (s : Z) : prog Z :=
  err ← write_buffer_to s s;
  (if err =? 0 then set_buffer_uptodate s else mret tt);;
  mret err.

Definition read_buffer (s : Z) : prog Z :=
  w ← get;
  match disk w !! s with
  | Some d => set_data s d;; set_buffer_uptodate s;; mret 0
  | None => mret (- EIO)
  end.

Definition add_buffer_lru (s : Z) : prog unit :=
  modify (fun w => w <| lru_buffers ::= fun l => l ++ [s] |>).
Definition remove_buffer_lru (s : Z) : prog unit :=
  modify (fun w => w <| lru_buffers ::= unlink s |>).

(** The buffer leaves the hash table; it must be there. *)
Definition remove_buffer_hash (s : Z) : prog buffer :=
  w ← get;
  match bufs w !! s with
  | Some b => modify (fun w => w <| bufs ::= delete s |>);; mret b
  | None => halt_with AssertFailed
  end.

Definition add_buffer_free (b : buffer) : prog unit :=
  assertM (bool_decide (bstate b = BUFFER_CLEAN) || bool_decide (bstate b = BUFFER_INVAL));;
  modify (fun w => w <| free_buffers ::= fun l => l ++ [bdata b] |>).

Definition remove_buffer_free : prog (option block) :=
  w ← get;
  match free_buffers w with
  | [] => mret None
  | d :: l => modify (fun w => w <| free_buffers := l |>);; mret (Some d)
  end.

(** The eviction loop of [new_buffer] over the LRU list. *)
Fixpoint evict_lru (l : list Z) (count : Z) : prog unit :=
  match l with
  | [] => mret tt
  | s :: l' =>
      b ← get_buf s;
      if (bcount b =? 0) && negb (buffer_dirty b) && negb (buffer_journaled b) then
        remove_buffer_lru s;;
        b ← remove_buffer_hash s;
        add_buffer_free b;;
        w ← get;
        if u32 (count + 1) =? max_evict w then mret tt else evict_lru l' (count + 1)
      else evict_lru l' count
  end.

Definition MIN_BUFFERS : Z := 100.

(** The data area of a buffer for [sector], which joins the LRU list. *)
Definition new_buffer (sector : Z) (size : nat) : prog (option block) :=
  modify (fun w => if max_buffers w <? MIN_BUFFERS then w <| max_buffers := MIN_BUFFERS |> else w);;
  found ← remove_buffer_free;
  data ← match found with
         | Some d => mret (Some d)
         | None =>
             w ← get;
             found ← (if buffer_count w <? max_buffers w then mret None
                      else evict_lru (lru_buffers w) 0;; remove_buffer_free);
             match found with
             | Some d => mret (Some d)
             | None =>
                 w ← get;
                 if buffer_count w =? max_buffers w then mret None
                 else mret (Some (replicate size 0))
             end
         end;
  match data with
  | Some d => add_buffer_lru sector;; mret (Some d)
  | None => mret None
  end.

Definition getblk (sector : Z) (size : nat) : prog (option Z) :=
  w ← get;
  match bufs w !! sector with
  | Some b =>
      upd_buf sector (fun b => b <| bcount ::= Z.add 1 |>);;
      modify (fun w => w <| lru_buffers ::= fun l => unlink sector l ++ [sector] |>);;
      mret (Some sector)
  | None =>
      data ← new_buffer sector size;
      match data with
      | None => mret None
      | Some d =>
          modify (fun w => w <| bufs ::= insert sector (mkBuffer d 1 BUFFER_INVAL) |>);;
          mret (Some sector)
      end
  end.

Definition bread (sector : Z) (size : nat) : prog (option Z) :=
  r ← getblk sector size;
  match r with
  | None => mret None
  | Some s =>
      b ← get_buf s;
      if negb (bool_decide (bstate b = BUFFER_INVAL)) then mret (Some s)
      else
        err ← read_buffer s;
        if negb (err =? 0) then brelse s;; mret None
        else
          b ← get_buf s;
          if negb (buffer_uptodate b) then brelse s;; mret None else mret (Some s)
  end.

Definition evict_buffer (s : Z) : prog unit :=
  remove_buffer_lru s;;
  b ← remove_buffer_hash s;
  add_buffer_free b.

(** Every bucket is walked, unreferenced buffers are evicted, and the table is
    emptied. *)
Definition evict_buffers : prog unit :=
  w ← get;
  foreach (map_to_list (bufs w)).*1 (fun s =>
    b ← get_buf s;
    if bcount b =? 0 then evict_buffer s else mret tt);;
  modify (fun w => w <| bufs := ∅ |>).

(** [flush_buffers]: a failed write ends the process with [error]. *)
Definition flush_buffers (fuel : nat) : prog Z :=
  loopM fuel (fun _ =>
    w ← get;
    match dirty_buffers w with
    | [] => mret (inr 0)
    | s :: _ =>
        b ← get_buf s;
        if buffer_dirty b then
          err ← write_buffer s;
          if err =? 0 then mret (inl tt) else halt_with ErrorExit
        else mret (inl tt)
    end) tt.

Definition preallocate_buffers (bufsize : nat) : prog Z :=
  w ← get;
  modify (fun w => w <| free_buffers ::= fun l => l ++ replicate (Z.to_nat (max_buffers w)) (replicate bufsize 0xdd) |>);;
  mret 0.

Definition init_buffers (bufsize : nat) (mem_pool_size : Z) : prog unit :=
  assertM (negb (bufsize =? 0)%nat);;
  modify (fun w => w <| bufs := ∅ |> <| dirty_buffers := [] |> <| lru_buffers := [] |>
                     <| free_buffers := [] |> <| journaled_buffers := [] |>);;
  let maxb := u32 mem_pool_size / Z.of_nat bufsize in
  modify (fun w => w <| max_buffers := maxb |> <| max_evict := maxb / 10 |>);;
  preallocate_buffers bufsize;;
  mret tt.
