(* ===== verification/Node.v ===== *)
(** * Btree index nodes (ddsnapd.c, [struct enode])

    A node is a count, an unused word and an array of (key, sector) entries,
    16 bytes each.  The key of entry 0 is never read: keys lie between the
    pointers.  [node_rep] relates the bytes to the list of the entries. *)

From S2P Require Import Prelude Bytes.

Definition sizeof_index_entry : nat := 16.

Definition node_count (node : block) : nat := Z.to_nat (ld32 0 node).
Definition set_node_count (n : nat) (node : block) : block := st32 0 (Z.of_nat n) node.

(** [&node->entries[i]] *)
Definition entry_addr (i : nat) : nat := 8 + sizeof_index_entry * i.
Definition entry_key (node : block) (i : nat) : Z := ld64 (entry_addr i) node.
Definition entry_sector (node : block) (i : nat) : Z := ld64 (entry_addr i + 8) node.
Definition set_entry_key (i : nat) (v : Z) (node : block) : block := st64 (entry_addr i) v node.
Definition set_entry_sector (i : nat) (v : Z) (node : block) : block := st64 (entry_addr i + 8) v node.

Definition merge_nodes (node node2 : block) : block :=
  let c := node_count node in
  let c2 := node_count node2 in
  let node := memcpy (entry_addr c) node2 (entry_addr 0) (c2 * sizeof_index_entry) node in
  set_node_count (c + c2) node.

(** [p] is the index of the entry that the pointer names. *)
Definition insert_child (node : block) (p : nat) (child childkey : Z) : block :=
  let c := node_count node in
  let node := memmove (entry_addr (p + 1)) (entry_addr p) (entry_addr c - entry_addr p) node in
  let node := set_entry_sector p child node in
  let node := set_entry_key p childkey node in
  set_node_count (c + 1) node.

(** The scan of [probe] over one node:
    [while (++pnext < top) if (pnext->key > chunk) break;] *)
Definition probe_scan (node : block) (chunk : Z) : nat :=
  let n := node_count node in
  match find_from (fun i => chunk <? entry_key node i) 1 (n - 1) with
  | Some i => i
  | None => Nat.max 1 n
  end.

(** ** The entries of a node *)

Definition enc_idx (e : Z * Z) : list Z := le_split 8 e.1 ++ le_split 8 e.2.
Definition enc_idxs (es : list (Z * Z)) : list Z := flat_map enc_idx es.

Definition node_bytes (unused : Z) (es : list (Z * Z)) (gap : list Z) : block :=
  le_split 4 (Z.of_nat (length es)) ++ le_split 4 unused ++ enc_idxs es ++ gap.

Definition idx_ok (e : Z * Z) : Prop := is_u64 e.1 /\ is_u64 e.2.

Definition node_rep (b : block) (es : list (Z * Z)) : Prop :=
  Z.of_nat (length es) < 2 ^ 32 /\ Forall idx_ok es /\
  exists unused gap, b = node_bytes unused es gap.

Lemma length_enc_idx e : length (enc_idx e) = 16%nat.
Proof. unfold enc_idx. by len. Qed.

Lemma length_enc_idxs es : length (enc_idxs es) = (16 * length es)%nat.
Proof. induction es as [|e es IH]; [done|]. cbn [enc_idxs flat_map]. len. rewrite length_enc_idx. unfold enc_idxs in IH. lia. Qed.

#[export] Hint Rewrite length_enc_idx length_enc_idxs : len.

Lemma enc_idxs_app es1 es2 : enc_idxs (es1 ++ es2) = enc_idxs es1 ++ enc_idxs es2.
Proof. apply flat_map_app. Qed.

Lemma enc_idxs_cons k s es : enc_idxs ((k, s) :: es) = le_split 8 k ++ le_split 8 s ++ enc_idxs es.
Proof. change (enc_idx (k, s) ++ enc_idxs es = le_split 8 k ++ le_split 8 s ++ enc_idxs es). by rewrite (app_assoc (le_split 8 k)). Qed.

Lemma node_rep_fits b es : node_rep b es -> (8 + 16 * length es <= length b)%nat.
Proof. intros (_ & _ & u & gap & ->). unfold node_bytes. len. Qed.

Lemma node_rep_count b es : node_rep b es -> node_count b = length es.
Proof.
  intros (Hl & _ & u & gap & ->). unfold node_count, node_bytes.
  change (le_split 4 (Z.of_nat (length es)) ++ ?x) with ([] ++ le_split 4 (Z.of_nat (length es)) ++ x).
  rewrite (ld_app 4 []) by done. rewrite Z.mod_small by lia. lia.
Qed.

Lemma node_rep_entry b es i k s :
  node_rep b es -> es !! i = Some (k, s) -> entry_key b i = k /\ entry_sector b i = s.
Proof.
  intros (Hl & Hok & u & gap & ->) Hi.
  apply (Forall_lookup_1 _ _ _ _ Hok) in Hi as Hks. destruct Hks as [Hk Hs]. cbn in Hk, Hs.
  assert (Hlt : (i < length es)%nat) by by eapply lookup_lt_Some.
  unfold entry_key, entry_sector, node_bytes.
  set (pre := le_split 4 (Z.of_nat (length es)) ++ le_split 4 u ++ enc_idxs (take i es)).
  assert (E : le_split 4 (Z.of_nat (length es)) ++ le_split 4 u ++ enc_idxs es ++ gap =
              pre ++ le_split 8 k ++ le_split 8 s ++ enc_idxs (drop (S i) es) ++ gap).
  { unfold pre. rewrite <- (take_drop_middle es i (k, s) Hi) at 2. rewrite enc_idxs_app, enc_idxs_cons. app_norm. }
  assert (Hp : entry_addr i = length pre) by (unfold pre, entry_addr, sizeof_index_entry; len).
  rewrite E, Hp. split.
  - rewrite ld_app by done. by apply Z.mod_small.
  - rewrite app_assoc, ld_app by len. by apply Z.mod_small.
Qed.

Lemma set_node_count_bytes c u body n :
  set_node_count n (le_split 4 c ++ le_split 4 u ++ body) =
  le_split 4 (Z.of_nat n) ++ le_split 4 u ++ body.
Proof.
  unfold set_node_count, st.
  rewrite (splice_eq _ [] (le_split 4 c) (le_split 4 u ++ body)); [done|done|done|len].
Qed.

Lemma insert_child_rep b es1 es2 child key :
  node_rep b (es1 ++ es2) -> is_u64 child -> is_u64 key ->
  (8 + 16 * (length (es1 ++ es2) + 1) <= length b)%nat -> Z.of_nat (length b) < 2 ^ 32 ->
  node_rep (insert_child b (length es1) child key) (es1 ++ (key, child) :: es2) /\
  length (insert_child b (length es1) child key) = length b.
Proof.
  intros Hrep Hc Hk Hfit Hlt. pose proof (node_rep_count _ _ Hrep) as Hcount.
  assert (Hl : length (insert_child b (length es1) child key) = length b)
    by (unfold insert_child, set_node_count, set_entry_key, set_entry_sector; len).
  split; [|done]. destruct Hrep as (Hn & Hok & u & gap & Eb).
  apply Forall_app in Hok as [Hok1 Hok2].
  assert (Hlb : length b = (8 + 16 * (length es1 + length es2) + length gap)%nat)
    by (rewrite Eb; unfold node_bytes; len).
  split; [len|]. split; [apply Forall_app; split; [done|]; by constructor|].
  destruct (split_length gap 16) as (g16 & g & -> & Hg); [len|].
  exists u, g. unfold insert_child. rewrite Hcount.
  set (c4 := le_split 4 (Z.of_nat (length (es1 ++ es2)))) in *.
  set (pre := c4 ++ le_split 4 u ++ enc_idxs es1).
  assert (Hpre : entry_addr (length es1) = length pre) by (unfold pre, c4, entry_addr, sizeof_index_entry; len).
  destruct (memmove_up pre (enc_idxs es2) g16 g) as (y & Hy & Hm).
  assert (Eb' : b = pre ++ enc_idxs es2 ++ g16 ++ g).
  { rewrite Eb. unfold node_bytes, pre. rewrite enc_idxs_app. fold c4. app_norm. }
  rewrite Hpre.
  replace (entry_addr (length es1 + 1)) with (length pre + length g16)%nat
    by (rewrite <- Hpre; unfold entry_addr, sizeof_index_entry; lia).
  replace (entry_addr (length (es1 ++ es2)) - length pre)%nat with (length (enc_idxs es2))
    by (rewrite <- Hpre; unfold entry_addr, sizeof_index_entry; len).
  rewrite Eb', Hm. destruct (split_length y 8) as (ya & yb & -> & Hya); [lia|].
  unfold set_entry_sector, set_entry_key, st. rewrite Hpre.
  rewrite (splice_eq (pre ++ (ya ++ yb) ++ enc_idxs es2 ++ g) (pre ++ ya) yb (enc_idxs es2 ++ g) _ (length pre + 8))
    by (try app_norm; len).
  rewrite (splice_eq _ pre ya (le_split 8 child ++ enc_idxs es2 ++ g) _ (length pre)) by (try app_norm; len).
  replace (pre ++ le_split 8 key ++ le_split 8 child ++ enc_idxs es2 ++ g)
    with (c4 ++ le_split 4 u ++ (enc_idxs (es1 ++ (key, child) :: es2) ++ g))
    by (unfold pre; rewrite enc_idxs_app, enc_idxs_cons; app_norm).
  unfold c4. rewrite set_node_count_bytes. unfold node_bytes. do 2 f_equal. f_equal. len.
Qed.

Lemma merge_nodes_rep b1 b2 es1 es2 :
  node_rep b1 es1 -> node_rep b2 es2 ->
  (8 + 16 * (length es1 + length es2) <= length b1)%nat -> Z.of_nat (length b1) < 2 ^ 32 ->
  node_rep (merge_nodes b1 b2) (es1 ++ es2) /\ length (merge_nodes b1 b2) = length b1.
Proof.
  intros Hr1 Hr2 Hfit Hlt.
  pose proof (node_rep_count _ _ Hr1) as Hc1. pose proof (node_rep_count _ _ Hr2) as Hc2.
  assert (Hl : length (merge_nodes b1 b2) = length b1) by (unfold merge_nodes, set_node_count; len).
  split; [|done]. destruct Hr1 as (Hn1 & Hok1 & u1 & gap1 & E1). destruct Hr2 as (Hn2 & Hok2 & u2 & gap2 & E2).
  split; [len|]. split; [by apply Forall_app|].
  assert (Hlb : length b1 = (8 + 16 * length es1 + length gap1)%nat) by (rewrite E1; unfold node_bytes; len).
  destruct (split_length gap1 (16 * length es2)) as (g1 & g & -> & Hg); [lia|].
  exists u1, g. unfold merge_nodes, memcpy. rewrite Hc1, Hc2. unfold node_bytes in E1, E2.
  rewrite (slice_eq b2 (le_split 4 (Z.of_nat (length es2)) ++ le_split 4 u2) (enc_idxs es2) gap2);
    [|rewrite E2; app_norm|unfold entry_addr, sizeof_index_entry; len|unfold sizeof_index_entry; len].
  rewrite (splice_eq b1 (le_split 4 (Z.of_nat (length es1)) ++ le_split 4 u1 ++ enc_idxs es1) g1 g);
    [|rewrite E1; app_norm|unfold entry_addr, sizeof_index_entry; len|len].
  rewrite <- !app_assoc, set_node_count_bytes. unfold node_bytes. rewrite enc_idxs_app, length_app. app_norm.
Qed.
