(* ===== verification/Bitmap.v ===== *)
(** * Allocation bitmaps (ddsnapd.c)

    The bits of a bitmap block, and the routines that change or count the bits
    of a range of chunks through the buffer cache. *)

From S2P Require Import Prelude Bytes State Buffer.

(** ** Bits of a block *)

Definition byte_at (b : block) (i : nat) : Z := default 0 (b !! i).
Definition set_byte (b : block) (i : nat) (v : Z) : block := <[i := u8 v]> b.

(** [1 << (bit & 7)] *)
Definition bit_in_byte (bit : Z) : Z := Z.shiftl 1 (Z.land bit 7).
Definition byte_index (bit : Z) : nat := Z.to_nat (Z.shiftr bit 3).

Definition get_bitmap_bit (bitmap : block) (bit : Z) : bool :=
  negb (Z.land (byte_at bitmap (byte_index bit)) (bit_in_byte bit) =? 0).

Definition set_bitmap_bit (bitmap : block) (bit : Z) : block :=
  set_byte bitmap (byte_index bit) (Z.lor (byte_at bitmap (byte_index bit)) (bit_in_byte bit)).

Definition clear_bitmap_bit (bitmap : block) (bit : Z) : block :=
  set_byte bitmap (byte_index bit) (Z.land (byte_at bitmap (byte_index bit)) (Z.lnot (bit_in_byte bit))).

(** [bytebits]: [for (; c; c >>= 1) count += c & 1], at most 8 steps. *)
Fixpoint bytebits_loop (fuel : nat) (c : Z) : Z :=
  match fuel with
  | O => 0
  | S f => if c =? 0 then 0 else Z.land c 1 + bytebits_loop f (Z.shiftr c 1)
  end.
Definition bytebits (c : Z) : Z := bytebits_loop 8 (u8 c).

(** ** Sizes *)

(** [sb->metadata.allocsize], as the size of a buffer *)
Definition bsize (s : superblock) : nat := Z.to_nat (allocsize (metadata s)).

Definition bitmap_shift (s : superblock) : Z := allocsize_bits (asi METADATA s) + 3.
(** [(1 << bitmap_shift) - 1] *)
Definition bitmap_mask (s : superblock) : Z := u32 (Z.shiftl 1 (bitmap_shift s) - 1).

(** [snapread] *)
Definition snapread (sector : Z) : prog (option Z) := s ← getsb; bread sector (bsize s).

(** ** Changing the bits of a range *)

(** The [do ... while] loop over the chunks of one bitmap block: the next
    chunk, or [None] when a chunk that should be free is in use. *)
Definition change_bits_block (fuel : nat) (buf mask limit flag chunk : Z) : prog (option Z) :=
  loopM fuel (fun chunk =>
    d ← get_data buf;
    if (flag =? 0) && get_bitmap_bit d (Z.land chunk mask) then mret (inr None)
    else
      (if flag =? 1 then set_data buf (set_bitmap_bit d (Z.land chunk mask)) else mret tt);;
      (if flag =? 2 then set_data buf (clear_bitmap_bit d (Z.land chunk mask)) else mret tt);;
      let chunk := u64 (chunk + 1) in
      mret (if negb (Z.land chunk mask =? 0) && (chunk <? limit) then inl chunk else inr (Some chunk)))
    chunk.

Definition change_bits (start count base flag : Z) : prog Z :=
  s ← getsb;
  let limit := u64 (start + count) in
  let sector := u64 (Z.shiftr base SECTOR_BITS +
                     Z.shiftl (Z.shiftr start (bitmap_shift s)) (chunk_sectors_bits (metadata s))) in
  let fuel := S (Z.to_nat count) in
  loopM fuel (fun '(chunk, sector) =>
    if chunk <? limit then
      r ← snapread sector;
      match r with
      | None => halt_with WildAccess
      | Some buf =>
          next ← change_bits_block fuel buf (bitmap_mask s) limit flag chunk;
          match next with
          | None => mret (inr (-1))
          | Some chunk =>
              (if negb (flag =? 0) then set_buffer_dirty buf else mret tt);;
              brelse buf;;
              mret (inl (chunk, u64 (sector + chunk_sectors (metadata s))))
          end
      end
    else mret (inr 0)) (start, sector).

Definition set_allocated (chunk count : Z) : prog unit :=
  s ← getsb;
  change_bits chunk count (u64 (Z.shiftl (bitmap_base (img_metadata (image s))) SECTOR_BITS)) 1;;
  mret tt.

(** ** Counting free chunks *)

(** [count += zeroes[*p++]] over [n] bytes *)
Definition count_zero_bits (d : block) (n : nat) : Z :=
  foldl (fun c b => c + bytebits (Z.lnot b)) 0 (take n d).

Definition count_zeros (which : space) : prog Z :=
  s ← getsb;
  let a := asi which s in
  let bytes := Z.shiftr (u64 (chunks a + 7)) 3 in
  loopM (S (Z.to_nat (bytes / allocsize (metadata s) + 1))) (fun '(count, blk, bytes) =>
    if bytes =? 0 then mret (inr count)
    else
      r ← snapread (u64 (bitmap_base a + Z.shiftl blk (chunk_sectors_bits (metadata s))));
      match r with
      | None => mret (inr 0)
      | Some buf =>
          d ← get_data buf;
          let n := Z.min (allocsize (metadata s)) bytes in
          brelse buf;;
          mret (inl (u64 (count + count_zero_bits d (Z.to_nat n)), blk + 1, bytes - n))
      end) (0, 0, bytes).

Definition count_deferred (s : superblock) : Z :=
  foldl (fun c r => u32 (c + ar_count r)) (ar_count (defer s)) (deferred_alloc s).

Definition count_free (which : space) : prog Z :=
  z ← count_zeros which;
  s ← getsb;
  mret (u64 (z - count_deferred s)).

Definition check_freespace : prog unit :=
  counted ← count_free METADATA;
  s ← getsb;
  (if negb (freechunks (asi METADATA s) =? counted) then
     modsb (upd_asi METADATA (fun a => a <| freechunks := counted |>)) else mret tt);;
  s ← getsb;
  if combined s then mret tt
  else
    counted ← count_free SNAPDATA;
    s ← getsb;
    if negb (freechunks (asi SNAPDATA s) =? counted) then
      modsb (upd_asi SNAPDATA (fun a => a <| freechunks := counted |>)) else mret tt.

Definition selfcheck_freespace : prog unit :=
  s ← getsb;
  if negb (Z.land (runflags s) RUN_SELFCHECK =? 0) then check_freespace else mret tt.
