(* ===== verification/Alloc.v ===== *)
(** * Allocation of chunks (ddsnapd.c, "Allocation bitmaps" and "Snapshot
      Store Allocation")

    Freeing and allocating chunks of the metadata and snapshot data spaces,
    deferred allocations, and the set-up of the bitmaps. *)

From S2P Require Import Prelude Bytes State Buffer Bitmap Leaf Node.

(** A [chunk_t] of -1 reports failure. *)
Definition NOCHUNK : Z := u64 (-1).

Definition calc_bitmap_blocks (s : superblock) (nchunks : Z) : Z :=
  let chunkshift := allocsize_bits (asi METADATA s) in
  Z.shiftr (u64 (nchunks + Z.shiftl 1 (chunkshift + 3) - 1)) (chunkshift + 3).

(** ** Freeing *)

Definition free_chunk (which : space) (chunk : Z) : prog bool :=
  s ← getsb;
  let bitmap_block := Z.shiftr chunk (bitmap_shift s) in
  r ← snapread (u64 (bitmap_base (asi which s) + Z.shiftl bitmap_block (chunk_sectors_bits (metadata s))));
  match r with
  | None => mret false
  | Some buf =>
      d ← get_data buf;
      if negb (get_bitmap_bit d (Z.land chunk (bitmap_mask s))) then
        brelse buf;; mret false
      else
        set_data buf (clear_bitmap_bit d (Z.land chunk (bitmap_mask s)));;
        brelse_dirty buf;;
        modsb (upd_asi which (fun a => a <| freechunks ::= fun n => u64 (n + 1) |>));;
        set_sb_dirty;;
        mret true
  end.

Definition free_block (address : Z) : prog unit :=
  s ← getsb;
  free_chunk METADATA (Z.shiftr address (chunk_sectors_bits (metadata s)));;
  mret tt.

Definition free_exception (chunk : Z) : prog unit :=
  free_chunk SNAPDATA chunk;; mret tt.

(** ** Deferred allocations *)

Definition chunk_within (chunk start count : Z) : bool := u64 (chunk - start) <? count.

Definition is_deferred_alloc (s : superblock) (chunk : Z) : bool :=
  chunk_within chunk (ar_chunk (defer s)) (ar_count (defer s)) ||
  existsb (fun r => chunk_within chunk (ar_chunk r) (ar_count r)) (deferred_alloc s).

(** ** The search for a free chunk *)

(** The loop over the bits of a byte [c] whose first chunk is [base]. *)
Definition scan_byte (s : superblock) (c base : Z) : option nat :=
  find_index (fun i => (Z.land c (Z.shiftl 1 (Z.of_nat i)) =? 0) &&
                       negb (is_deferred_alloc s (u64 (Z.of_nat i + base)))) 8.

(** The loop over [n] bytes of a bitmap block from byte [p]; [blockbase] is
    the chunk of bit 0 of the block. *)
Fixpoint scan_bytes (s : superblock) (d : block) (p n : nat) (blockbase : Z) : option Z :=
  match n with
  | O => None
  | S n' =>
      let c := byte_at d p in
      let base := Z.shiftl (Z.of_nat p) 3 + blockbase in
      if negb (c =? 0xff) then
        match scan_byte s c base with
        | Some i => Some (u64 (Z.of_nat i + base))
        | None => scan_bytes s d (S p) n' blockbase
        end
      else scan_bytes s d (S p) n' blockbase
  end.

(** What happens to the chunk that was found: it joins the deferred range or
    its bit is set. *)
Definition claim_chunk (buf chunk : Z) : prog unit :=
  s ← getsb;
  d ← get_data buf;
  assertM (negb (get_bitmap_bit d (Z.land chunk (bitmap_mask s))));;
  let mark :=
    set_data buf (set_bitmap_bit d (Z.land chunk (bitmap_mask s)));;
    set_buffer_dirty buf in
  if deferring s && (deferred_allocs s <? MAX_DEFERRED_ALLOCS) then
    if ar_count (defer s) =? 0 then
      modsb (fun s => s <| defer ::= fun r => mkRange chunk (ar_barrier r) 1 |>)
    else if chunk =? u64 (ar_chunk (defer s) + 1) then
      modsb (fun s => s <| defer; ar_count ::= Z.add 1 |>)
    else mark
  else mark.

Definition alloc_chunk_from_range (which : space) (startchunk nchunks : Z) : prog Z :=
  s ← getsb;
  let a := asi which s in
  let blocknum := Z.shiftr startchunk (bitmap_shift s) in
  let offset := Z.shiftr (Z.land startchunk (bitmap_mask s)) 3 in
  let bit := Z.land startchunk 7 in
  let length := Z.shiftr (u64 (nchunks + bit + 7)) 3 in
  loopM (Z.to_nat (length / allocsize (metadata s)) + 2) (fun '(blocknum, offset, length) =>
    r ← snapread (u64 (bitmap_base a + Z.shiftl blocknum (chunk_sectors_bits (metadata s))));
    match r with
    | None => mret (inr NOCHUNK)
    | Some buf =>
        d ← get_data buf;
        let tail := allocsize (metadata s) - offset in
        let n := if length <? tail then length else tail in
        match scan_bytes s d (Z.to_nat offset) (Z.to_nat n) (Z.shiftl blocknum (bitmap_shift s)) with
        | Some chunk =>
            claim_chunk buf chunk;;
            brelse buf;;
            modsb (upd_asi which (fun a => a <| freechunks ::= fun n => u64 (n - 1) |>));;
            set_sb_dirty;;
            mret (inr chunk)
        | None =>
            brelse buf;;
            if length - n =? 0 then mret (inr NOCHUNK)
            else
              let blocknum := if blocknum + 1 =? bitmap_blocks a then 0 else blocknum + 1 in
              mret (inl (blocknum, 0, length - n))
        end
    end) (blocknum, offset, length).

Definition alloc_chunk (which : space) : prog Z :=
  s ← getsb;
  let last := last_alloc (asi which s) in
  let total := chunks (asi which s) in
  found ← alloc_chunk_from_range which last (u64 (total - last));
  found ← (if negb (found =? NOCHUNK) then mret found
           else alloc_chunk_from_range which 0 last);
  if negb (found =? NOCHUNK) then
    modsb (upd_asi which (fun a => a <| last_alloc := found |>));;
    set_sb_dirty;;
    mret found
  else mret NOCHUNK.

Definition alloc_metablock : prog Z := alloc_chunk METADATA.
Definition alloc_snapblock : prog Z := alloc_chunk SNAPDATA.

(** ** New metadata blocks *)

Definition new_block : prog (option Z) :=
  newchunk ← alloc_metablock;
  if newchunk =? NOCHUNK then mret None
  else
    s ← getsb;
    getblk (u64 (Z.shiftl newchunk (chunk_sectors_bits (metadata s)))) (bsize s).

Definition new_leaf : prog (option Z) :=
  r ← new_block;
  match r with
  | None => mret None
  | Some buf =>
      s ← getsb;
      d ← get_data buf;
      set_data buf (init_leaf (memset 0 d) (allocsize (metadata s)));;
      set_buffer_dirty buf;;
      mret (Some buf)
  end.

Definition new_node : prog (option Z) :=
  r ← new_block;
  match r with
  | None => mret None
  | Some buf =>
      d ← get_data buf;
      set_data buf (set_node_count 0 (memset 0 d));;
      set_buffer_dirty buf;;
      mret (Some buf)
  end.

(** ** Set-up of the bitmaps *)

(** [for (j = 0; j < reserved; j++) set_bitmap_bit(data, j)] *)
Definition reserve_bits (d : block) (reserved : nat) : block :=
  foldl (fun d j => set_bitmap_bit d (Z.of_nat j)) d (seq 0 reserved).

(** [data[i] |= 0xff << (chunks & 7)] for the byte that holds bit [chunks] *)
Definition block_tail_bits (d : block) (nchunks size : Z) : block :=
  let i := Z.to_nat (Z.land (Z.shiftr nchunks 3) (size - 1)) in
  set_byte d i (Z.lor (byte_at d i) (Z.shiftl 0xff (Z.land nchunks 7))).

Definition init_bitmap_blocks (base bitmaps nchunks reserved_chunks : Z) : prog unit :=
  s ← getsb;
  let size := allocsize (metadata s) in
  let per_block := Z.shiftl size 3 in
  loopM (S (Z.to_nat bitmaps)) (fun '(i, sector, reserved) =>
    if i <? bitmaps then
      r ← getblk sector (bsize s);
      match r with
      | None => halt_with WildAccess
      | Some buf =>
          d ← get_data buf;
          let '(d, reserved) :=
            if per_block <? reserved then (memset 0xff d, reserved - per_block)
            else (reserve_bits (memset 0 d) (Z.to_nat reserved), 0) in
          let d := if (i =? bitmaps - 1) && negb (Z.land nchunks 7 =? 0)
                   then block_tail_bits d nchunks size else d in
          set_data buf d;;
          write_buffer buf;;
          brelse buf;;
          mret (inl (i + 1, u32 (sector + chunk_sectors (metadata s)), reserved))
      end
    else mret (inr tt)) (0, base, reserved_chunks).

Definition init_allocation : prog Z :=
  s ← getsb;
  let bits := chunk_sectors_bits (metadata s) in
  let meta_bitmap_base_chunk := Z.shiftr (SB_SECTOR + SB_SECTORS + chunk_sectors (metadata s) - 1) bits in
  modsb (upd_asi METADATA (fun a =>
    a <| bitmap_blocks := calc_bitmap_blocks s (chunks (asi METADATA s)) |>
      <| bitmap_base := Z.shiftl meta_bitmap_base_chunk bits |>
      <| last_alloc := 0 |>));;
  s ← getsb;
  let reserved := u32 (meta_bitmap_base_chunk + bitmap_blocks (asi METADATA s) + journal_size (image s)) in
  reserved ← (if negb (combined s) then
    let snap_bitmap_base_chunk := Z.shiftr (bitmap_base (asi METADATA s)) bits + bitmap_blocks (asi METADATA s) in
    modsb (upd_asi SNAPDATA (fun a =>
      a <| bitmap_blocks := calc_bitmap_blocks s (chunks (asi SNAPDATA s)) |>
        <| bitmap_base := Z.shiftl snap_bitmap_base_chunk bits |>
        <| freechunks := chunks (asi SNAPDATA s) |>));;
    s ← getsb;
    mret (u32 (reserved + bitmap_blocks (asi SNAPDATA s)))
    else mret reserved);
  modsb (upd_asi METADATA (fun a => a <| freechunks := u64 (chunks a - reserved) |>));;
  s ← getsb;
  let blocks := bitmap_blocks (asi METADATA s) +
                (if negb (combined s) then bitmap_blocks (asi SNAPDATA s) else 0) in
  modsb (fun s => s <| image; journal_base := bitmap_base (asi METADATA s) + Z.shiftl blocks bits |>);;
  init_bitmap_blocks (bitmap_base (asi METADATA s)) (bitmap_blocks (asi METADATA s))
    (chunks (asi METADATA s)) reserved;;
  (if negb (combined s) then
     init_bitmap_blocks (bitmap_base (asi SNAPDATA s)) (bitmap_blocks (asi SNAPDATA s))
       (chunks (asi SNAPDATA s)) 0
   else mret tt);;
  selfcheck_freespace;;
  mret 0.
