(* ===== verification/Journal.v ===== *)
(** * The journal (ddsnapd.c, "Journalling" and "Journal Replay")

    Commit blocks, the commit of a transaction with its barrier, the replay at
    start-up and the set-up of an empty journal. *)

From S2P Require Import Prelude Bytes State Buffer Bitmap.

(** ** Commit blocks

    [struct commit_block] is packed: magic at 0, checksum at 8, sequence at
    12, entries at 16, snapfree at 20, metafree at 28, the deferred range at
    36 (chunk, then barrier bit and 31-bit count, then padding) and the sectors
    from 52 on. *)

(** "MAGICNUM" *)
Definition JMAGIC : list Z := [0x4d; 0x41; 0x47; 0x49; 0x43; 0x4e; 0x55; 0x4d].

Definition sizeof_commit_block : nat := 52.

Definition commit_checksum (b : block) : Z := ld32 8 b.
Definition commit_sequence (b : block) : Z := ld32 12 b.
Definition commit_entries (b : block) : Z := ld32 16 b.
Definition commit_snapfree (b : block) : Z := ld64 20 b.
Definition commit_metafree (b : block) : Z := ld64 28 b.
Definition commit_alloc (b : block) : alloc_range :=
  let w := ld32 44 b in mkRange (ld64 36 b) (Z.testbit w 0) (Z.shiftr w 1).
Definition commit_sector (b : block) (i : nat) : Z := ld64 (52 + 8 * i) b.

Definition set_commit_alloc (r : alloc_range) (b : block) : block :=
  st32 44 (Z.lor (if ar_barrier r then 1 else 0) (Z.shiftl (ar_count r) 1)) (st64 36 (ar_chunk r) b).
Definition set_commit_barrier (b : block) : block := st32 44 (Z.lor (ld32 44 b) 1) b.

Definition is_commit_block (b : block) : bool := bool_decide (slice 0 8 b = JMAGIC).

(** [int i, sum = 0; for (i = 0; i < allocsize_bits >> 2; i++) sum += data[i]] *)
Definition checksum_block (s : superblock) (b : block) : Z :=
  foldl (fun sum i => u32 (sum + ld32 (4 * i) b)) 0
    (seq 0 (Z.to_nat (Z.shiftr (allocsize_bits (asi METADATA s)) 2))).

(** ** Positions in the journal *)

Definition journal_sector (s : superblock) (i : Z) : Z :=
  u64 (journal_base (image s) + u32 (Z.shiftl i (chunk_sectors_bits (metadata s)))).

Definition next_journal_block : prog Z :=
  s ← getsb;
  let next := journal_next (image s) in
  let j := if next + 1 =? journal_size (image s) then 0 else next + 1 in
  modsb (fun s => s <| image; journal_next := j |>);;
  mret next.

Definition jgetblk (i : Z) : prog (option Z) := s ← getsb; getblk (journal_sector s i) (bsize s).
Definition jread (i : Z) : prog (option Z) := s ← getsb; bread (journal_sector s i) (bsize s).

(** ** Flushing *)

Definition flush_journaled_buffers : prog unit :=
  w ← get;
  loopM (S (length (journaled_buffers w))) (fun _ =>
    w ← get;
    match journaled_buffers w with
    | [] => mret (inr tt)
    | s :: _ => write_buffer_to s s;; set_buffer_uptodate s;; mret (inl tt)
    end) tt;;
  w ← get;
  assertM (journaled_count w =? 0).

Definition flush_deferred_allocs : prog unit :=
  s ← getsb;
  foreach (deferred_alloc s) (fun r => set_allocated (ar_chunk r) (ar_count r));;
  modsb (fun s => s <| deferred_alloc := [] |>).

(** ** Commit *)

(** Each dirty buffer goes to the next journal block. *)
Definition journal_dirty_buffers : prog unit :=
  w ← get;
  foreach (dirty_buffers w) (fun buf =>
    pos ← next_journal_block;
    b ← get_buf buf;
    if negb (buffer_dirty b) then halt_with ErrorExit
    else
      s ← getsb;
      write_buffer_to buf (journal_sector s pos);;
      mret tt).

(** The commit block before its checksum: magic, sequence and the sectors of
    the dirty buffers. *)
Definition commit_header (size : nat) (sequence : Z) (sectors : list Z) : block :=
  let b := replicate size 0 in
  let b := splice 0 JMAGIC b in
  let b := st32 12 sequence b in
  let b := foldl (fun b e => st64 (52 + 8 * e.1) e.2 b) b (imap pair sectors) in
  st32 16 (Z.of_nat (length sectors)) b.

Definition commit_body (s : superblock) (barrier : bool) (b : block) : block :=
  let b := st32 8 0 b in
  let b := st32 8 (u32 (- checksum_block s b)) b in
  let b := st64 20 (snapfree s) b in
  let b := st64 28 (metafree s) b in
  let b := if negb (ar_count (defer s) =? 0)
           then set_commit_alloc (mkRange (ar_chunk (defer s)) false (ar_count (defer s))) b else b in
  if barrier then set_commit_barrier b else b.

Definition write_commit_block (barrier : bool) : prog unit :=
  pos ← next_journal_block;
  r ← jgetblk pos;
  match r with
  | None => halt_with WildAccess
  | Some buf =>
      w ← get;
      let s := sb w in
      let b := commit_header (bsize s) (sequence (image s)) (dirty_buffers w) in
      modsb (fun s => s <| image; sequence ::= fun n => u32 (n + 1) |>);;
      assertM (Z.of_nat (length (dirty_buffers w)) <=? max_commit_blocks s);;
      set_data buf (commit_body s barrier b);;
      modsb (fun s =>
        if negb (ar_count (defer s) =? 0) then
          s <| deferred_alloc ::= fun l => l ++ [mkRange (ar_chunk (defer s)) false (ar_count (defer s))] |>
            <| defer; ar_count := 0 |>
        else s);;
      s ← getsb;
      write_buffer_to buf (journal_sector s pos);;
      brelse buf
  end.

(** The dirty buffers move to the journaled list. *)
Definition journal_all : prog unit :=
  w ← get;
  loopM (S (length (dirty_buffers w))) (fun _ =>
    w ← get;
    match dirty_buffers w with
    | [] => mret (inr tt)
    | buf :: _ =>
        b ← get_buf buf;
        assertM (buffer_dirty b);;
        add_buffer_journaled buf;;
        mret (inl tt)
    end) tt.

(** The dirty buffers go to their proper location.  A buffer whose write fails
    stays on the list, so a device that keeps failing never lets the loop end:
    then the fuel, one step per dirty buffer, runs out. *)
Definition write_all_dirty : prog unit :=
  w ← get;
  loopM (S (length (dirty_buffers w))) (fun _ =>
    w ← get;
    match dirty_buffers w with
    | [] => mret (inr tt)
    | buf :: _ =>
        b ← get_buf buf;
        assertM (buffer_dirty b);;
        write_buffer buf;;
        mret (inl tt)
    end) tt.

Definition commit_transaction (barrier : bool) : prog unit :=
  w ← get;
  if bool_decide (dirty_buffers w = []) && (ar_count (defer (sb w)) =? 0) then mret tt
  else
    let half := Z.quot (journal_size (image (sb w))) 2 in
    barrier ← (if (half <=? deferred_allocs (sb w)) || (half <=? journaled_count w) then
                 flush_journaled_buffers;; flush_deferred_allocs;; mret true
               else mret barrier);
    journal_dirty_buffers;;
    write_commit_block barrier;;
    s ← getsb;
    (if deferring s && negb barrier then journal_all else write_all_dirty);;
    selfcheck_freespace.

Definition commit_deferred_allocs : prog unit :=
  commit_transaction false;;
  flush_deferred_allocs;;
  flush_journaled_buffers;;
  commit_transaction true.

Definition dirty_buffer_count_check : prog unit :=
  w ← get;
  if s32 (journal_size (image (sb w)) - MAX_BTREE_DIRTY) <=? dirty_buffer_count w then
    if journal_size (image (sb w)) <? dirty_buffer_count w then halt_with Aborted
    else commit_transaction false
  else mret tt.

(** ** Replay *)

(** The scan for commit blocks: positions and sequence numbers, oldest
    position first; [None] for a corrupt commit block. *)
Fixpoint scan_journal (i n : nat) : prog (option (list (Z * Z))) :=
  match n with
  | O => mret (Some [])
  | S n' =>
      r ← jread (Z.of_nat i);
      match r with
      | None => halt_with WildAccess
      | Some buf =>
          d ← get_data buf;
          s ← getsb;
          if is_commit_block d && negb (checksum_block s d =? 0) then brelse buf;; mret None
          else
            brelse buf;;
            rest ← scan_journal (S i) n';
            mret (match rest with
                  | None => None
                  | Some l => Some (if is_commit_block d then (Z.of_nat i, commit_sequence d) :: l else l)
                  end)
      end
  end.

(** The one commit where the sequence does not increase by one; [None] when
    there are two. *)
Definition find_newest (seqs : list Z) : option (option nat) :=
  let n := length seqs in
  foldl (fun acc i =>
    match acc with
    | None => None
    | Some newest =>
        let plus_one := u32 (default 0 (seqs !! i) + 1) in
        let next := default 0 (seqs !! ((i + 1) mod n)%nat) in
        if next =? plus_one then Some newest
        else match newest with None => Some (Some i) | Some _ => None end
    end) (Some None) (seq 0 n).

(** The indices from [i] round to [newest], out of [n]. *)
Definition ring_from (i newest n : nat) : list nat :=
  if (i <=? newest)%nat then seq i (newest - i + 1)
  else seq i (n - i) ++ seq 0 (newest + 1).

Definition read_commit (pos : Z) : prog (Z * block) :=
  r ← jread pos;
  match r with
  | None => halt_with WildAccess
  | Some buf => d ← get_data buf; mret (buf, d)
  end.

(** Deferred allocations since the last barrier, and the index of that
    barrier. *)
Fixpoint pick_deferred (l : list nat) (pos : list Z) (barrier : option nat) : prog (option nat) :=
  match l with
  | [] => mret barrier
  | i :: l' =>
      '(buf, d) ← read_commit (default 0 (pos !! i));
      let r := commit_alloc d in
      (if ar_barrier r then modsb (fun s => s <| deferred_alloc := [] |>) else mret tt);;
      (if negb (ar_count r =? 0) then
         modsb (fun s => s <| deferred_alloc ::= fun l => l ++ [mkRange (ar_chunk r) false (ar_count r)] |>)
       else mret tt);;
      brelse buf;;
      pick_deferred l' pos (if ar_barrier r then Some i else barrier)
  end.

(** The data blocks of commit number [i] are written back. *)
Definition replay_commit (i : nat) (p : Z) (d : block) : prog unit :=
  s ← getsb;
  let jblocks := journal_size (image s) in
  let entries := commit_entries d in
  foreach (seq 0 (Z.to_nat entries)) (fun j =>
    let replay := u32 (p - entries + Z.of_nat j + jblocks) mod jblocks in
    r ← jread replay;
    match r with
    | None => halt_with WildAccess
    | Some databuf =>
        dd ← get_data databuf;
        if is_commit_block dd then halt_with ErrorExit
        else
          write_buffer_to databuf (commit_sector d i);;
          brelse databuf
    end).

Fixpoint replay_commits (l : list nat) (pos : list Z) (newest : nat) : prog unit :=
  match l with
  | [] => mret tt
  | i :: l' =>
      let p := default 0 (pos !! i) in
      '(buf, d) ← read_commit p;
      replay_commit i p d;;
      (if negb (i =? newest)%nat then brelse buf;; replay_commits l' pos newest
       else
         modsb (fun s => s
           <| image; journal_next := (p + 1 + journal_size (image s)) mod journal_size (image s) |>
           <| image; sequence := u32 (commit_sequence d + 1) |>
           <| image; img_snapdata ::= fun a => a <| freechunks := commit_snapfree d |> |>
           <| image; img_metadata ::= fun a => a <| freechunks := commit_metafree d |> |>);;
         brelse buf)
  end.

(** A failure is reported with [error], which ends the process. *)
Definition replay_journal : prog Z :=
  s ← getsb;
  commits ← scan_journal 0 (Z.to_nat (journal_size (image s)));
  match commits with
  | None => halt_with ErrorExit
  | Some l =>
      match find_newest l.*2 with
      | None => halt_with ErrorExit
      | Some None => halt_with WildAccess
      | Some (Some newest) =>
          let n := length l in
          barrier ← pick_deferred (ring_from (newest + 1) newest n) l.*1 None;
          let first := match barrier with
                       | None => newest
                       | Some b => if (b =? newest)%nat then newest else (b + 1)%nat
                       end in
          replay_commits (ring_from first newest n) l.*1 newest;;
          check_freespace;;
          mret 0
      end
  end.

(** ** An empty journal *)

Definition init_journal : prog Z :=
  s ← getsb;
  let mf := metafree s in
  let sf := snapfree s in
  foreach (seq 0 (Z.to_nat (journal_size (image s)))) (fun i =>
    r ← jgetblk (Z.of_nat i);
    match r with
    | None => halt_with WildAccess
    | Some buf =>
        seqno ← next_journal_block;
        let b := st32 12 seqno (splice 0 JMAGIC (replicate (bsize s) 0)) in
        let b := st64 20 sf (st64 28 mf b) in
        let b := st32 8 (u32 (- checksum_block s b)) b in
        set_data buf b;;
        b ← get_buf buf;
        assertM (bcount b =? 1);;
        write_buffer buf;;
        brelse buf;;
        evict_buffer buf
    end);;
  mret 0.
