(* ===== verification/Btree.v ===== *)
(** * The exception btree (ddsnapd.c, "btree entry lookup" to "High Level BTree
      Editing")

    Lookup, traversal, insertion and the deletion of snapshots, over the
    blocks of the buffer cache.  A [struct etree_path] is the buffer of a node
    and the index of the entry that [pnext] points at. *)

From S2P Require Import Prelude Bytes State Buffer Bitmap Leaf Node Alloc Journal.

(** ** Paths *)

Abbreviation etree_path := (Z * nat)%type.

(** [path[level]] of an array of path elements *)
Definition path_get (path : list etree_path) (level : nat) : prog etree_path :=
  match path !! level with
  | Some p => mret p
  | None => halt_with WildAccess
  end.

Definition brelse_path (path : list etree_path) : prog unit :=
  foreach path (fun p => brelse p.1).

(** ** Lookup *)

(** The loop of [probe] over [n] levels, from the node in [nodebuf]; [path]
    holds the levels above it. *)
Fixpoint probe_levels (n : nat) (chunk nodebuf : Z) (path : list etree_path)
    : prog (option (Z * list etree_path)) :=
  match n with
  | O => mret (Some (nodebuf, path))
  | S n' =>
      node ← get_data nodebuf;
      let pnext := probe_scan node chunk in
      r ← snapread (entry_sector node (pnext - 1));
      match r with
      | None => brelse_path path;; mret None
      | Some buf => probe_levels n' chunk buf (path ++ [(nodebuf, pnext)])
      end
  end.

Definition probe (chunk : Z) : prog (option (Z * list etree_path)) :=
  s ← getsb;
  r ← snapread (etree_root (image s));
  match r with
  | None => mret None
  | Some nodebuf =>
      found ← probe_levels (etree_levels (image s)) chunk nodebuf [];
      match found with
      | None => mret None
      | Some (leafbuf, path) =>
          leaf ← get_data leafbuf;
          assertM (leaf_magic leaf =? LEAF_MAGIC);;
          mret (Some (leafbuf, path))
      end
  end.

(** ** Traversal *)

(** [path[level].pnext++->sector] *)
Definition next_sector (path : list etree_path) (level : nat) : prog (Z * list etree_path) :=
  '(buf, pn) ← path_get path level;
  node ← get_data buf;
  mret (entry_sector node pn, <[level := (buf, S pn)]> path).

(** [path[level].pnext == node->entries + node->count] *)
Definition finished_level (path : list etree_path) (level : nat) : prog bool :=
  '(buf, pn) ← path_get path level;
  node ← get_data buf;
  mret (pn =? node_count node)%nat.

Section traverse.
(** The callback [visit_leaf] and the type of its [data]. *)
Context {D : Type} (visit_leaf : block -> D -> prog D).

(** The [do ... while (level < levels - 1)] loop that builds the stack down
    to the level above the leaves; [level] is the level to fill next. *)
Definition push_levels (levels level : nat) (path : list etree_path)
    : prog (option (nat * list etree_path)) :=
  loopM (S levels) (fun '(level, path) =>
    '(sector, path) ← match level with
                      | O => s ← getsb; mret (etree_root (image s), path)
                      | S up => next_sector path up
                      end;
    r ← snapread sector;
    match r with
    | None => mret (inr None)
    | Some nodebuf =>
        let path := <[level := (nodebuf, 0%nat)]> path in
        mret (if (level <? levels - 1)%nat then inl (S level, path) else inr (Some (level, path)))
    end) (level, path).

Definition visit_buffer (leafbuf : Z) (data : D) : prog D :=
  leaf ← get_data leafbuf;
  data ← visit_leaf leaf data;
  brelse leafbuf;;
  mret data.

(** The leaves below the node at [level]. *)
Definition visit_leaves (level : nat) (path : list etree_path) (data : D)
    : prog (option (list etree_path * D)) :=
  '(buf, _) ← path_get path level;
  node ← get_data buf;
  loopM (S (node_count node)) (fun '(path, data) =>
    '(_, pn) ← path_get path level;
    node ← get_data buf;
    if (pn <? node_count node)%nat then
      '(sector, path) ← next_sector path level;
      r ← snapread sector;
      match r with
      | None => mret (inr None)
      | Some leafbuf => data ← visit_buffer leafbuf data; mret (inl (path, data))
      end
    else mret (inr (Some (path, data)))) (path, data).

(** Pop finished nodes; [None] when the root is finished. *)
Fixpoint pop_levels (level : nat) (path : list etree_path) : prog (option nat) :=
  '(buf, _) ← path_get path level;
  brelse buf;;
  match level with
  | O => mret None
  | S up =>
      fin ← finished_level path up;
      if fin : bool then pop_levels up path else mret (Some up)
  end.

(** One round of the [while (1)] loop from the leaves of a node on. *)
Definition traverse_node (level : nat) (path : list etree_path) (data : D)
    : prog ((nat * list etree_path * D) + (Z * D)) :=
  r ← visit_leaves level path data;
  match r with
  | None => mret (inr (- EIO, data))
  | Some (path, data) =>
      up ← pop_levels level path;
      mret (match up with
            | None => inr (0, data)
            | Some up => inl (S up, path, data)
            end)
  end.

(** The tree has no more nodes than the device has blocks, so the number of
    blocks bounds the rounds of a walk. *)
Definition traverse_from (levels level : nat) (path : list etree_path) (data : D) : prog (Z * D) :=
  w ← get;
  loopM (S (size (disk w))) (fun '(level, path, data) =>
    r ← push_levels levels level path;
    match r with
    | None => mret (inr (- EIO, data))
    | Some (level, path) => traverse_node level path data
    end) (level, path, data).

Definition traverse_tree_range (start : Z) (data : D) : prog (Z * D) :=
  s ← getsb;
  let levels := etree_levels (image s) in
  if negb (start =? 0) then
    r ← probe start;
    match r with
    | None => mret (- ENOMEM, data)
    | Some (leafbuf, path) =>
        data ← visit_buffer leafbuf data;
        r ← traverse_node (levels - 1) path data;
        match r with
        | inr res => mret res
        | inl (level, path, data) => traverse_from levels level path data
        end
    end
  else traverse_from levels 0 (replicate levels (0, 0%nat)) data.
End traverse.

(** ** The debug dump

    What is printed: the address of a chunk and the chunk and share mask of
    each of its exceptions. *)

Definition show_leaf_range (leaf : block) (start finish : Z) : list (Z * list (Z * Z)) :=
  omap (fun i =>
    let addr := map_rchunk leaf i in
    if (start <=? addr) && (addr <=? finish)
    then Some (addr, (fun p => (ex_chunk leaf p, ex_share leaf p)) <$> exc_ptrs leaf i)
    else None) (seq 0 (leaf_count leaf)).

Fixpoint show_subtree_range (levels : nat) (node : block) (start finish : Z)
    : prog (list (Z * list (Z * Z))) :=
  let fix children (l : list nat) : prog (list (Z * list (Z * Z))) :=
    match l with
    | [] => mret []
    | i :: l' =>
        r ← snapread (entry_sector node i);
        match r with
        | None => halt_with WildAccess
        | Some buffer =>
            d ← get_data buffer;
            out ← match levels with
                  | O => mret (show_leaf_range d start finish)
                  | S below => show_subtree_range below d start finish
                  end;
            brelse buffer;;
            rest ← children l';
            mret (out ++ rest)
        end
    end in
  children (seq 0 (node_count node)).

Definition show_tree_range (start finish : Z) : prog (list (Z * list (Z * Z))) :=
  s ← getsb;
  r ← snapread (etree_root (image s));
  match r with
  | None => mret []
  | Some buffer =>
      d ← get_data buffer;
      out ← show_subtree_range (etree_levels (image s) - 1) d start finish;
      brelse buffer;;
      mret out
  end.

(** ** Insertion *)

(** The upper half of a full node moves to the new node. *)
Definition split_node (parent newnode : block) (half : nat) : block * block :=
  let newcount := (node_count parent - half)%nat in
  let newnode := set_node_count newcount newnode in
  let newnode := memcpy (entry_addr 0) parent (entry_addr half) (newcount * sizeof_index_entry) newnode in
  (set_node_count half parent, newnode).

(** A new root above the old root and the node [childsector]. *)
Definition add_tree_level (childsector childkey : Z) : prog Z :=
  r ← new_node;
  match r with
  | None => mret (- ENOMEM)
  | Some newrootbuf =>
      s ← getsb;
      newroot ← get_data newrootbuf;
      let newroot := set_node_count 2 newroot in
      let newroot := set_entry_sector 0 (etree_root (image s)) newroot in
      let newroot := set_entry_key 1 childkey newroot in
      let newroot := set_entry_sector 1 childsector newroot in
      set_data newrootbuf newroot;;
      modsb (fun s => s <| image; etree_root := newrootbuf |> <| image; etree_levels ::= S |>);;
      set_sb_dirty;;
      brelse_dirty newrootbuf;;
      mret 0
  end.

(** The [while (levels--)] loop: [up] is the path from the bottom to the root. *)
Fixpoint insert_up (up : list etree_path) (childsector childkey : Z) : prog Z :=
  match up with
  | [] => add_tree_level childsector childkey
  | (parentbuf, pnext) :: up' =>
      s ← getsb;
      parent ← get_data parentbuf;
      if Z.of_nat (node_count parent) <? alloc_per_node (metadata s) then
        set_data parentbuf (insert_child parent pnext childsector childkey);;
        set_buffer_dirty parentbuf;;
        mret 0
      else
        let half := (node_count parent / 2)%nat in
        let newkey := entry_key parent half in
        r ← new_node;
        match r with
        | None => mret (- ENOMEM)
        | Some newbuf =>
            parent ← get_data parentbuf;
            newnode ← get_data newbuf;
            let '(parent, newnode) := split_node parent newnode half in
            (if (half <? pnext)%nat then
               set_data parentbuf parent;;
               set_buffer_dirty parentbuf;;
               set_data newbuf (insert_child newnode (pnext - half) childsector childkey);;
               set_buffer_dirty newbuf
             else
               set_data newbuf newnode;;
               set_buffer_dirty newbuf;;
               set_data parentbuf (insert_child parent pnext childsector childkey);;
               set_buffer_dirty parentbuf);;
            brelse newbuf;;
            insert_up up' newbuf newkey
        end
  end.

Definition add_exception_to_tree (leafbuf target exception snapbit : Z)
    (path : list etree_path) (levels : nat) : prog Z :=
  s ← getsb;
  leaf ← get_data leafbuf;
  let '(leaf, err) := add_exception_to_leaf leaf target exception snapbit (snapmask s) in
  set_data leafbuf leaf;;
  if err =? 0 then brelse_dirty leafbuf;; mret 0
  else
    r ← new_leaf;
    match r with
    | None => mret (- ENOMEM)
    | Some childbuf =>
        leaf ← get_data leafbuf;
        child ← get_data childbuf;
        let '(leaf, child, childkey) := split_leaf leaf child in
        set_data leafbuf leaf;;
        set_data childbuf child;;
        let dst := if target <? childkey then leafbuf else childbuf in
        d ← get_data dst;
        let '(d, err) := add_exception_to_leaf d target exception snapbit (snapmask s) in
        set_data dst d;;
        if negb (err =? 0) then mret (- ENOMEM)
        else
          brelse_dirty leafbuf;;
          brelse_dirty childbuf;;
          insert_up (reverse (take levels path)) childbuf childkey
    end.

(** ** Deletion of snapshots from a leaf *)

(** The exceptions that [check_leaf] reports: those that still have a bit of
    [snapmask]. *)
Definition check_leaf (leaf : block) (snapmask : Z) : list Z :=
  i ← seq 0 (leaf_count leaf);
  p ← exc_ptrs leaf i;
  if negb (Z.land (ex_share leaf p) snapmask =? 0) then [ex_share leaf p] else [].

(** The [while (p != emap(leaf, i))] loop: the exceptions of entry [i], from
    [p] down; [dest] receives those that stay. *)
Definition sweep_exceptions (leafbuf snapmask : Z) (i : nat) (st : nat * nat * Z)
    : prog (nat * nat * Z) :=
  leaf ← get_data leafbuf;
  loopM (S (length leaf)) (fun '(p, dest, any) =>
    leaf ← get_data leafbuf;
    if (p =? emap leaf i)%nat then mret (inr (p, dest, any))
    else if (p <? sizeof_exception)%nat then halt_with WildAccess
    else
      let p := (p - sizeof_exception)%nat in
      let share := ex_share leaf p in
      let any := Z.lor any (Z.land share snapmask) in
      let share := Z.land share (lnot64 snapmask) in
      let leaf := set_ex_share p share leaf in
      set_data leafbuf leaf;;
      dest ← (if negb (share =? 0) then
                let dest := (dest - sizeof_exception)%nat in
                set_data leafbuf (memmove dest p sizeof_exception leaf);;
                mret dest
              else
                free_exception (ex_chunk leaf p);;
                mret dest);
      dirty_buffer_count_check;;
      mret (inl (p, dest, any))) st.

(** [for (i = leaf->count; i--;)]: the entries from the top down. *)
Fixpoint sweep_entries (leafbuf snapmask : Z) (n : nat) (st : nat * nat * Z) : prog Z :=
  match n with
  | O => mret st.2
  | S i =>
      st ← sweep_exceptions leafbuf snapmask i st;
      leaf ← get_data leafbuf;
      set_data leafbuf (set_map_offset i (Z.of_nat st.1.2) leaf);;
      sweep_entries leafbuf snapmask i st
  end.

(** The pass that removes the directory entries without exceptions. *)
Definition compress_map (leaf : block) : block :=
  let count := leaf_count leaf in
  let '(leaf, d) :=
    foldl (fun '(l, d) i =>
      if negb (map_offset l i =? map_offset l (i + 1))
      then (memmove (map_addr d) (map_addr i) sizeof_etree_map l, S d)
      else (l, d)) (leaf, 0%nat) (seq 0 count) in
  let leaf := set_map_offset d (map_offset leaf count) leaf in
  let leaf := set_map_rchunk d 0 leaf in
  set_leaf_count d leaf.

Definition delete_snapshots_from_leaf (leafbuf snapmask : Z) : prog bool :=
  leaf ← get_data leafbuf;
  let count := leaf_count leaf in
  let p := emap leaf count in
  any ← sweep_entries leafbuf snapmask count (p, p, 0);
  leaf ← get_data leafbuf;
  set_data leafbuf (compress_map leaf);;
  mret (negb (any =? 0)).

(** ** Deletion of snapshots from the tree *)

(** [for (i = level - 1; path[i].pnext - 1 == node->entries; i--)]: [up] is the
    path from level - 1 to the root. *)
Fixpoint set_pivot (up : list etree_path) (pivot : Z) : prog unit :=
  match up with
  | [] => mret tt
  | (buf, pn) :: up' =>
      if (pn =? 1)%nat then set_pivot up' pivot
      else
        node ← get_data buf;
        set_data buf (set_entry_key (pn - 1) pivot node);;
        set_buffer_dirty buf
  end.

Definition remove_index (path : list etree_path) (level : nat) : prog (list etree_path) :=
  '(buf, pn) ← path_get path level;
  match pn with
  | O => halt_with WildAccess
  | S prev =>
      node ← get_data buf;
      let pivot := entry_key node pn in
      let count := node_count node in
      let node := memmove (entry_addr prev) (entry_addr pn) (entry_addr count - entry_addr pn) node in
      set_data buf (set_node_count (count - 1) node);;
      let path := <[level := (buf, prev)]> path in
      set_buffer_dirty buf;;
      (if (prev =? count - 1)%nat then mret tt
       else if (prev =? 0)%nat && negb (level =? 0)%nat
            then set_pivot (reverse (take level path)) pivot
            else mret tt);;
      mret path
  end.

Definition brelse_free (buffer : Z) : prog unit :=
  brelse buffer;;
  b ← get_buf buffer;
  if negb (bcount b =? 0) then mret tt
  else free_block buffer;; set_buffer_empty buffer.

(** The leaf in [leafbuf] is merged into [prevleaf] when it fits; the result is
    the leaf to keep as previous. *)
Definition merge_with_prev (leafbuf : Z) (prevleaf : option Z) (path : list etree_path) (level : nat)
    : prog (Z * list etree_path) :=
  match prevleaf with
  | None => mret (leafbuf, path)
  | Some prevbuf =>
      this ← get_data leafbuf;
      prev ← get_data prevbuf;
      if leaf_payload this <=? leaf_freespace prev then
        set_data prevbuf (merge_leaves prev this);;
        path ← remove_index path level;
        set_buffer_dirty prevbuf;;
        brelse_free leafbuf;;
        dirty_buffer_count_check;;
        mret (prevbuf, path)
      else
        brelse prevbuf;;
        mret (leafbuf, path)
  end.

(** A finished node is merged into the held node of its level when it fits,
    otherwise it becomes the held node. *)
Definition merge_with_hold (path : list etree_path) (hold : list (option Z)) (level : nat)
    : prog (list etree_path * list (option Z)) :=
  '(buf, _) ← path_get path level;
  match mjoin (hold !! level) with
  | Some held =>
      match level with
      | O => halt_with AssertFailed
      | S up =>
          this ← get_data buf;
          prev ← get_data held;
          s ← getsb;
          if Z.of_nat (node_count this) <=? u32 (alloc_per_node (metadata s) - Z.of_nat (node_count prev)) then
            set_data held (merge_nodes prev this);;
            path ← remove_index path up;
            set_buffer_dirty held;;
            brelse_free buf;;
            dirty_buffer_count_check;;
            mret (path, hold)
          else
            brelse held;;
            mret (path, <[level := Some buf]> hold)
      end
  | None => mret (path, <[level := Some buf]> hold)
  end.

Definition hold_get (hold : list (option Z)) (level : nat) : prog Z :=
  match mjoin (hold !! level) with
  | Some b => mret b
  | None => halt_with WildAccess
  end.

(** [while (levels > 1 && path_node(hold, 0)->count == 1)]: a root with one
    child goes away. *)
Fixpoint drop_levels (levels : nat) (hold : list (option Z)) : prog (list (option Z)) :=
  match levels with
  | S (S _ as below) =>
      root ← hold_get hold 0;
      node ← get_data root;
      if (node_count node =? 1)%nat then
        child ← hold_get hold 1;
        modsb (fun s => s <| image; etree_root := child |>);;
        brelse_free root;;
        dirty_buffer_count_check;;
        modsb (fun s => s <| image; etree_levels ::= Nat.pred |>);;
        set_sb_dirty;;
        drop_levels below (drop 1 hold)
      else mret (take levels hold)
  | _ => mret (take levels hold)
  end.

(** The end of the walk, with the root finished. *)
Definition finish_delete (snapmask : Z) (levels : nat) (hold : list (option Z)) (prevleaf : Z) : prog Z :=
  hold ← drop_levels levels hold;
  brelse prevleaf;;
  foreach hold (fun h => match h with Some b => brelse b | None => halt_with WildAccess end);;
  w ← get;
  (if negb (dirty_buffer_count w =? 0) then commit_transaction false else mret tt);;
  modsb (fun s => s <| State.snapmask ::= fun m => Z.land m (lnot64 snapmask) |>);;
  set_sb_dirty;;
  save_sb;;
  mret 0.

(** Pop and merge finished nodes: [None] when the root is finished, else the
    level of a node that has entries left. *)
Fixpoint pop_finished (level : nat) (path : list etree_path) (hold : list (option Z))
    : prog (option nat * list etree_path * list (option Z)) :=
  '(path, hold) ← merge_with_hold path hold level;
  match level with
  | O => mret (None, path, hold)
  | S up =>
      fin ← finished_level path up;
      if fin : bool then pop_finished up path hold else mret (Some up, path, hold)
  end.

(** Push back down to the level above the leaves. *)
Definition push_down (levels level : nat) (path : list etree_path) : prog (option (nat * list etree_path)) :=
  loopM (S levels) (fun '(level, path) =>
    '(sector, path) ← next_sector path level;
    r ← snapread sector;
    match r with
    | None => brelse_path (take level path);; mret (inr None)
    | Some nodebuf =>
        let path := <[S level := (nodebuf, 0%nat)]> path in
        mret (if (S level <? levels - 1)%nat then inl (S level, path) else inr (Some (S level, path)))
    end) (level, path).

(** The next leaf of the walk: [inr err] when a block cannot be read. *)
Definition next_leaf (level : nat) (path : list etree_path) : prog (option (Z * list etree_path)) :=
  dirty_buffer_count_check;;
  '(sector, path) ← next_sector path level;
  r ← snapread sector;
  match r with
  | None => brelse_path (take level path);; mret None
  | Some leafbuf => mret (Some (leafbuf, path))
  end.

(** One round of the in-order leaf walk. *)
Definition delete_step (snapmask : Z) (levels : nat)
    (st : Z * option Z * list etree_path * list (option Z))
    : prog ((Z * option Z * list etree_path * list (option Z)) + Z) :=
  let '(leafbuf, prevleaf, path, hold) := st in
  let level := (levels - 1)%nat in
  any ← delete_snapshots_from_leaf leafbuf snapmask;
  (if any : bool then set_buffer_dirty leafbuf else mret tt);;
  '(prevleaf, path) ← merge_with_prev leafbuf prevleaf path level;
  let continue level path hold :=
    r ← next_leaf level path;
    mret (match r with
          | None => inr (- ENOMEM)
          | Some (leafbuf, path) => inl (leafbuf, Some prevleaf, path, hold)
          end) in
  fin ← finished_level path level;
  if fin : bool then
    '(up, path, hold) ← pop_finished level path hold;
    match up with
    | None => err ← finish_delete snapmask levels hold prevleaf; mret (inr err)
    | Some up =>
        r ← push_down levels up path;
        match r with
        | None => mret (inr (- ENOMEM))
        | Some (level, path) => continue level path hold
        end
    end
  else continue level path hold.

(** Every round takes another leaf, so the number of blocks of the device
    bounds the rounds. *)
Definition delete_tree_range (snapmask resume : Z) : prog Z :=
  w ← get;
  let s := sb w in
  let levels := etree_levels (image s) in
  r ← probe resume;
  match r with
  | None => mret (- ENOMEM)
  | Some (leafbuf, path) =>
      commit_transaction false;;
      loopM (S (size (disk w))) (delete_step snapmask levels) (leafbuf, None, path, replicate levels None)
  end.
