(* ===== verification/Snapshot.v ===== *)
(** * Snapshots and copyout (ddsnapd.c)

    The snapshot list of the superblock, the choice of victims, the deletion
    and creation of snapshots, and [make_unique], which copies a chunk out
    before it is written. *)

From S2P Require Import Prelude Bytes State Buffer Bitmap Leaf Alloc Journal Btree.

(** ** The snapshot list *)

(** The index of the first entry with the tag *)
Definition find_snap_in (l : list snapshot) (tag : Z) : option nat :=
  fst <$> list_find (fun sn => sn_tag sn = tag) l.
Definition find_snap (s : superblock) (tag : Z) : option nat := find_snap_in (snaplist (image s)) tag.

Definition usecount (s : superblock) (sn : snapshot) : Z :=
  u16 ((if is_squashed sn then 0 else default 0 (usecounts s !! Z.to_nat (sn_bit sn))) + sn_usecount sn).

(** One step of the loop of [find_victim]: does [snap] replace [best]? *)
Definition victim_better (s : superblock) (snap best : snapshot) : bool :=
  let used sn := negb (usecount s sn =? 0) in
  if is_squashed snap then false
  else if negb (is_squashed best) && (used snap && negb (used best)) then false
  else if negb (is_squashed best) && Bool.eqb (used snap) (used best) && (sn_prio best <=? sn_prio snap) then false
  else true.

(** One step of the loop of [find_unused]. *)
Definition unused_better (s : superblock) (snap best : snapshot) : bool :=
  let used sn := negb (usecount s sn =? 0) in
  if used snap && negb (used best) then false
  else if Bool.eqb (used snap) (used best) && (sn_prio best <=? sn_prio snap) then false
  else true.

(** [best = snaplist; for (snap = snaplist + 1; ...) if (better) best = snap] *)
Fixpoint select (better : snapshot -> snapshot -> bool) (l : list snapshot) (i : nat)
    (best : nat * snapshot) : nat * snapshot :=
  match l with
  | [] => best
  | snap :: l' => select better l' (S i) (if better snap best.2 then (i, snap) else best)
  end.

Definition select_from (better : snapshot -> snapshot -> bool) (l : list snapshot)
    : prog (nat * snapshot) :=
  match l with
  | [] => halt_with AssertFailed
  | first :: rest => mret (select better rest 1 (0%nat, first))
  end.

Definition find_victim : prog (nat * snapshot) :=
  s ← getsb; select_from (victim_better s) (snaplist (image s)).

Definition find_unused : prog (nat * snapshot) :=
  s ← getsb; select_from (unused_better s) (snaplist (image s)).

Definition calc_snapmask (s : superblock) : Z :=
  foldl (fun mask sn => if is_squashed sn then mask else Z.lor mask (bit64 (sn_bit sn))) 0
    (snaplist (image s)).

(** ** Deleting and creating *)

Definition clear_usecount (bit : Z) : prog unit :=
  modsb (fun s => s <| usecounts ::= insert (Z.to_nat bit) 0 |>).

Definition delete_snap (i : nat) : prog Z :=
  s ← getsb;
  match snaplist (image s) !! i with
  | None => halt_with WildAccess
  | Some snap =>
      let mask := if is_squashed snap then 0 else bit64 (sn_bit snap) in
      (if is_squashed snap then mret tt else clear_usecount (sn_bit snap));;
      modsb (fun s => s <| image; snaptail ::= fun t => from_option (fun sn => sn :: t) t (last (snaplist (image s))) |>
                        <| image; snaplist ::= delete i |>);;
      set_sb_dirty;;
      if mask =? 0 then mret 0
      else
        commit_deferred_allocs;;
        delete_tree_range mask 0
  end.

Definition create_snapshot (snaptag : Z) : prog Z :=
  s ← getsb;
  (if MAX_SNAPSHOTS <=? snapshots s then
     '(i, victim) ← find_unused;
     if usecount s victim =? 0 then delete_snap i;; mret tt else mret tt
   else mret tt);;
  s ← getsb;
  if MAX_SNAPSHOTS <=? snapshots s then mret (- EFULL)
  else match find_snap s snaptag with
  | Some _ => mret (- EEXIST)
  | None =>
      match find_index (fun i => Z.land (snapmask s) (bit64 (Z.of_nat i)) =? 0) (Z.to_nat MAX_SNAPSHOTS) with
      | None => mret (- EFULL)
      | Some i =>
          w ← get;
          let bit := Z.of_nat i in
          let sn := mkSnapshot (now w) snaptag 0 bit 0 (orgsectors (image s)) in
          modsb (fun s => s <| image; snaplist ::= fun l => l ++ [sn] |> <| image; snaptail ::= drop 1 |>
                            <| snapmask ::= fun m => Z.lor m (bit64 bit) |>);;
          set_sb_dirty;;
          mret bit
      end
  end.

(** ** Copyout *)

Definition chunk_highbit : Z := 63.

(** [diskread] of [n] chunks from [source] into the copy buffer: the chunks
    before the first one that is not on the device arrive. *)
Fixpoint read_chunks (dev : gmap Z Z) (source : Z) (n : nat) (i : nat) (buf : list Z) : list Z :=
  match n with
  | O => buf
  | S n' =>
      match dev !! source with
      | Some v => read_chunks dev (source + 1) n' (S i) (<[i := v]> buf)
      | None => buf
      end
  end.

(** [diskwrite] of the first [n] chunks of the copy buffer. *)
Fixpoint write_chunks (buf : list Z) (dest : Z) (n : nat) (dev : gmap Z Z) : gmap Z Z :=
  match n, buf with
  | S n', v :: buf' =>
      match dev !! dest with
      | Some _ => write_chunks buf' (dest + 1) n' (<[dest := v]> dev)
      | None => dev
      end
  | _, _ => dev
  end.

Definition finish_copyout : prog Z :=
  s ← getsb;
  (if negb (copy_chunks s =? 0) then
     let is_snap := negb (Z.shiftr (source_chunk s) chunk_highbit =? 0) in
     let source := Z.land (source_chunk s) (lnot64 (bit64 chunk_highbit)) in
     let size := u32 (Z.shiftl (copy_chunks s) (allocsize_bits (asi SNAPDATA s))) in
     assertM (size <=? copybuf_size s);;
     w ← get;
     let buf := read_chunks (if is_snap then snap_data w else org_data w) source
                  (Z.to_nat (copy_chunks s)) 0 (copybuf s) in
     modify (fun w => w <| snap_data ::= write_chunks buf (dest_exception s) (Z.to_nat (copy_chunks s)) |>);;
     modsb (fun s => s <| copybuf := buf |> <| copy_chunks := 0 |>)
   else mret tt);;
  mret 0.

Definition copyout (chunk exception : Z) : prog Z :=
  s ← getsb;
  if (u64 (source_chunk s + copy_chunks s) =? chunk) &&
     (u64 (dest_exception s + copy_chunks s) =? exception) &&
     (copy_chunks s <? Z.shiftr (copybuf_size s) (allocsize_bits (asi SNAPDATA s))) then
    modsb (fun s => s <| copy_chunks ::= Z.add 1 |>);;
    mret 0
  else
    finish_copyout;;
    modsb (fun s => s <| copy_chunks := 1 |> <| source_chunk := chunk |> <| dest_exception := exception |>);;
    mret 0.

(** ** Making room *)

(** What [auto_delete_snapshot] does when nothing is left to delete. *)
Definition recount_lost_chunks : prog unit :=
  s ← getsb;
  (if freechunks (img_snapdata (image s)) <? chunks (img_snapdata (image s)) then
     n ← count_free SNAPDATA;
     modsb (fun s => s <| image; img_snapdata ::= fun a => a <| freechunks := n |> |>)
   else mret tt);;
  s ← getsb;
  if combined s then mret tt
  else
    let meta_bitmap_base_chunk :=
      Z.shiftr (SB_SECTOR + 2 * chunk_sectors (metadata s) - 1) (chunk_sectors_bits (metadata s)) in
    let reserved := u32 (meta_bitmap_base_chunk + bitmap_blocks (asi METADATA s) + journal_size (image s)
                         + bitmap_blocks (asi METADATA s) + 1 + bitmap_blocks (asi SNAPDATA s)) in
    if u64 (freechunks (img_metadata (image s)) + reserved) <? chunks (img_metadata (image s)) then
      n ← count_free METADATA;
      modsb (fun s => s <| image; img_metadata ::= fun a => a <| freechunks := n |> |>)
    else mret tt.

Definition auto_delete_snapshot : prog Z :=
  '(i, victim) ← find_victim;
  if is_squashed victim || (sn_prio victim =? 127) then recount_lost_chunks;; mret (-1)
  else
    s ← getsb;
    if negb (usecount s victim =? 0) then
      commit_deferred_allocs;;
      err ← delete_tree_range (bit64 (sn_bit victim)) 0;
      clear_usecount (sn_bit victim);;
      modsb (fun s => s <| image; snaplist ::= alter (fun sn => sn <| sn_bit := SNAPSHOT_SQUASHED |>) i |>);;
      mret err
    else delete_snap i.

(** Each round deletes a snapshot or squashes one that was not, so twice the
    number of snapshots bounds the rounds. *)
Definition ensure_free_chunks (which : space) (nchunks : Z) : prog Z :=
  s ← getsb;
  loopM (S (2 * length (snaplist (image s)))) (fun _ =>
    s ← getsb;
    if nchunks <=? freechunks (asi which s) then mret (inr 0)
    else
      err ← auto_delete_snapshot;
      if negb (err =? 0) then mret (inr (-1))
      else
        s ← getsb;
        mret (if negb (snapshots s =? 0) then inl tt else inr (-1))) tt.

(** ** Unique chunks *)

(** The test in [make_unique] and [test_unique]: [snapbit] -1 is the origin.
    The second component is the exception, 0 when none was stored. *)
Definition chunk_unique (leaf : block) (chunk snapbit snapmask : Z) : bool * Z :=
  if snapbit =? -1 then (origin_chunk_unique leaf chunk snapmask, 0)
  else let '(u, e) := snapshot_chunk_unique leaf chunk snapbit in (u, default 0 e).

(** The room that [make_unique] asks for before it starts. *)
Definition ensure_room : prog bool :=
  s ← getsb;
  if combined s then
    err ← ensure_free_chunks METADATA (MAX_NEW_METACHUNKS + 1);
    mret (err =? 0)
  else
    err ← ensure_free_chunks METADATA MAX_NEW_METACHUNKS;
    if negb (err =? 0) then mret false
    else
      err ← ensure_free_chunks SNAPDATA 1;
      mret (err =? 0).

Definition make_unique (chunk snapbit : Z) : prog Z :=
  room ← ensure_room;
  if negb room then mret NOCHUNK
  else
    s ← getsb;
    let levels := etree_levels (image s) in
    r ← probe chunk;
    match r with
    | None => mret NOCHUNK
    | Some (leafbuf, path) =>
        leaf ← get_data leafbuf;
        let '(unique, exception) := chunk_unique leaf chunk snapbit (snapmask s) in
        result ← (if unique : bool then brelse leafbuf;; mret exception
          else
            newex ← alloc_snapblock;
            if newex =? NOCHUNK then halt_with ErrorExit
            else
              copyout (if negb (exception =? 0) then Z.lor exception (bit64 chunk_highbit) else chunk) newex;;
              error ← add_exception_to_tree leafbuf chunk newex snapbit path levels;
              if error <? 0 then free_exception newex;; brelse leafbuf;; mret NOCHUNK
              else mret newex);
        brelse_path path;;
        mret result
    end.

(** The result and, for a snapshot, the exception that was found. *)
Definition test_unique (chunk snapbit : Z) : prog (Z * Z) :=
  r ← probe chunk;
  match r with
  | None => mret (-1, 0)
  | Some (leafbuf, path) =>
      s ← getsb;
      leaf ← get_data leafbuf;
      let '(unique, exception) := chunk_unique leaf chunk snapbit (snapmask s) in
      brelse leafbuf;;
      brelse_path path;;
      mret (if unique : bool then 1 else 0, exception)
  end.
