(* ===== verification/Locks.v ===== *)
(** * Clients and snapshot read locks (ddsnapd.c, "Lock snapshot reads against
      origin writes")

    The state of the server above the superblock: the connected clients, the
    hash table of read locks with its holders and waiting writes, the pending
    replies, and the messages sent.  Pointers to clients and to pending
    structures are names in finite maps, so that a pointer to freed memory is
    a name that is not in its map. *)

From S2P Require Import Prelude Bytes State.

(** A message: its code and the bytes of its body. *)
Record message := mkMessage { m_code : Z; m_body : list Z }.

#[export] Instance message_eq_dec : EqDecision message.
Proof. solve_decision. Defined.

(** [struct client] *)
Record client := mkClient {
  cl_id : Z;
  cl_sock : Z;
  cl_snaptag : Z;
  cl_flags : Z }.

#[export] Instance eta_client : Eta client :=
  fun r => mkClient (cl_id r) (cl_sock r) (cl_snaptag r) (cl_flags r).

(** [struct pending]; the client is filled in when the write query ends. *)
Record pending := mkPending {
  holdcount : Z;
  pd_client : option Z;
  pd_message : message }.

#[export] Instance eta_pending : Eta pending :=
  fun r => mkPending (holdcount r) (pd_client r) (pd_message r).

(** [struct snaplock] with its lists of [struct snaplock_wait] and [struct snaplock_hold] *)
Record snaplock := mkLock {
  waitlist : list Z;
  holdlist : list Z;
  lk_chunk : Z }.

#[export] Instance eta_snaplock : Eta snaplock :=
  fun r => mkLock (waitlist r) (holdlist r) (lk_chunk r).

(** The server: the buckets of the lock table, the allocated pending
    structures and clients, the client vector and the messages sent. *)
Record server := mkServer {
  sv_world : world;
  snaplocks : list (list snaplock);
  pendings : gmap Z pending;
  next_pending : Z;
  clients : gmap Z client;
  next_client : Z;
  clientvec : list Z;
  sent : list (Z * message) }.

#[export] Instance eta_server : Eta server :=
  fun r => mkServer (sv_world r) (snaplocks r) (pendings r) (next_pending r) (clients r)
    (next_client r) (clientvec r) (sent r).

Abbreviation srv := (M server).

(** A step of the snapshot store inside the server. *)
Definition store {A} (m : prog A) : srv A :=
  fun sv => match m (sv_world sv) with
            | Done a w => Done a (sv <| sv_world := w |>)
            | Halt h => Halt h
            end.

(** [reply] and the other writes to a socket. *)
Definition send (sock : Z) (m : message) : srv unit :=
  modify (fun sv => sv <| sent ::= fun l => l ++ [(sock, m)] |>).

(** Following a [struct client] or [struct pending] pointer. *)
Definition get_client (c : Z) : srv client :=
  sv ← get;
  match clients sv !! c with Some cl => mret cl | None => halt_with WildAccess end.
Definition upd_client (c : Z) (f : client -> client) : srv unit :=
  cl ← get_client c; modify (fun sv => sv <| clients ::= insert c (f cl) |>).
Definition get_pending (p : Z) : srv pending :=
  sv ← get;
  match pendings sv !! p with Some pd => mret pd | None => halt_with WildAccess end.
Definition upd_pending (p : Z) (f : pending -> pending) : srv unit :=
  pd ← get_pending p; modify (fun sv => sv <| pendings ::= insert p (f pd) |>).

(** ** The hash table *)

Definition snaplock_hash (bits chunk : Z) : Z :=
  Z.shiftr (u32 (chunk * 3498734713)) (32 - bits).

Definition bucket_of (chunk : Z) : srv (nat * list snaplock) :=
  sv ← get;
  let bits := snaplock_hash_bits (sb (sv_world sv)) in
  let bin := snaplock_hash bits chunk in
  assertM ((0 <=? bin) && (bin <? Z.shiftl 1 bits));;
  match snaplocks sv !! Z.to_nat bin with
  | Some l => mret (Z.to_nat bin, l)
  | None => halt_with WildAccess
  end.

Definition set_bucket (bin : nat) (l : list snaplock) : srv unit :=
  modify (fun sv => sv <| snaplocks ::= insert bin l |>).

Definition find_snaplock (l : list snaplock) (chunk : Z) : option nat :=
  fst <$> list_find (fun lk => lk_chunk lk = chunk) l.

(** ** Waiting for and taking a lock *)

Definition new_pending : srv Z :=
  sv ← get;
  let p := next_pending sv in
  modify (fun sv => sv <| pendings ::= insert p (mkPending 1 None (mkMessage 0 [])) |>
                       <| next_pending := p + 1 |>);;
  mret p.

Definition waitfor_chunk (chunk : Z) (pending : option Z) : srv (option Z) :=
  '(bin, l) ← bucket_of chunk;
  match find_snaplock l chunk with
  | None => mret pending
  | Some i =>
      p ← match pending with Some p => mret p | None => new_pending end;
      set_bucket bin (alter (fun lk => lk <| waitlist ::= cons p |>) i l);;
      upd_pending p (fun pd => pd <| holdcount ::= fun n => u32 (n + 1) |>);;
      mret (Some p)
  end.

Definition readlock_chunk (chunk c : Z) : srv unit :=
  '(bin, l) ← bucket_of chunk;
  let '(l, i) := match find_snaplock l chunk with
                 | Some i => (l, i)
                 | None => (mkLock [] [] chunk :: l, 0%nat)
                 end in
  set_bucket bin (alter (fun lk => lk <| holdlist ::= cons c |>) i l).

(** ** Releasing a lock *)

(** The first holder record of the client goes away; [None] when there is none. *)
Fixpoint remove_hold (c : Z) (l : list Z) : option (list Z) :=
  match l with
  | [] => None
  | x :: l' => if x =? c then Some l' else cons x <$> remove_hold c l'
  end.

(** One waiter of a lock that is released. *)
Definition release_waiter (p : Z) : srv unit :=
  pd ← get_pending p;
  assertM (negb (holdcount pd =? 0));;
  let n := holdcount pd - 1 in
  upd_pending p (fun pd => pd <| holdcount := n |>);;
  if n =? 0 then
    match pd_client pd with
    | None => halt_with WildAccess
    | Some c =>
        cl ← get_client c;
        send (cl_sock cl) (pd_message pd);;
        modify (fun sv => sv <| pendings ::= delete p |>)
    end
  else mret tt.

(** The chain that starts with [lock] and goes on with [next] loses a hold of
    the client: the result is the pointer that [release_lock] returns, the
    chain that starts there, or [[]] for NULL. *)
Definition release_lock (lock : snaplock) (next : list snaplock) (c : Z) : srv (list snaplock) :=
  match remove_hold c (holdlist lock) with
  | None => mret []
  | Some [] => foreach (waitlist lock) release_waiter;; mret next
  | Some holds => mret (lock <| holdlist := holds |> :: next)
  end.

Definition release_chunk (chunk c : Z) : srv Z :=
  '(bin, l) ← bucket_of chunk;
  match find_snaplock l chunk with
  | None => mret (-1)
  | Some i =>
      match l !! i with
      | None => mret (-1)
      | Some lock =>
          next ← release_lock lock (drop (S i) l) c;
          set_bucket bin (take i l ++ next);;
          mret (if bool_decide (next = []) then -2 else 0)
      end
  end.

(** The loop of [client_locks] over one bucket, when locks are released:
    [done] are the locks it has passed.  Each step passes a lock, drops a hold
    or drops a lock. *)
Definition free_bucket_locks (c : Z) (l : list snaplock) : srv (list snaplock) :=
  loopM (S (sum_list (map (fun lk => S (length (holdlist lk))) l))) (fun '(done, rest) =>
    match rest with
    | [] => mret (inr done)
    | lk :: rest' =>
        if existsb (Z.eqb c) (holdlist lk) then
          rest ← release_lock lk rest' c;
          mret (inl (done, rest))
        else mret (inl (done ++ [lk], rest'))
    end) ([], l).

Definition free_client_locks (c : Z) : srv unit :=
  sv ← get;
  foreach (seq 0 (length (snaplocks sv))) (fun bin =>
    sv ← get;
    l ← free_bucket_locks c (default [] (snaplocks sv !! bin));
    set_bucket bin l).

(** [client_locks(sb, client, 1)]: does the client hold a lock? *)
Definition check_client_locks (c : Z) : srv bool :=
  sv ← get;
  mret (existsb (fun l => existsb (fun lk => existsb (Z.eqb c) (holdlist lk)) l) (snaplocks sv)).
