(* ===== verification/Reply.v ===== *)
(** * Replies as chunk ranges (ddsnapd.c, "Build up a response as a list of
      chunk ranges")

    A reply to a snapshot read or write lists chunks as ranges, a first chunk
    and a 16-bit count, and for the snapshot store each range is followed by
    the exceptions of its chunks.  Addresses are offsets into the message
    buffer: the head has 8 bytes, the id 4 and the count 2, so the ranges start
    at 14. *)

From S2P Require Import Prelude Bytes State Locks.

Definition maxbody : nat := 500.
Definition sizeof_head : nat := 8.
Definition sizeof_messagebuf : nat := 508.
Definition offsetof_ranges : nat := 6.

(** [struct addto]; [ad_top] is None for the NULL that it starts with, and the
    buffer is allocated with the first chunk. *)
Record addto := mkAddto {
  ad_count : Z;
  ad_firstchunk : Z;
  ad_nextchunk : Z;
  ad_reply : block;
  ad_countp : nat;
  ad_top : option nat }.

#[export] Instance eta_addto : Eta addto :=
  fun r => mkAddto (ad_count r) (ad_firstchunk r) (ad_nextchunk r) (ad_reply r) (ad_countp r) (ad_top r).

(** [struct addto r = { .nextchunk = -1 }] *)
Definition new_addto : addto := mkAddto 0 0 (u64 (-1)) [] 0 None.

(** [check_response_full] returns when [top < lim - bytes]. *)
Definition response_fits (top bytes : nat) : bool := (top <? maxbody - bytes)%nat.

(** [error] ends the process: [None]. *)
Definition addto_response (r : addto) (chunk : Z) : option addto :=
  r ← (if negb (chunk =? ad_nextchunk r) then
         let '(r, top) := match ad_top r with
           | Some top =>
               (r <| ad_reply ::= st16 (ad_countp r) (u16 (ad_nextchunk r - ad_firstchunk r)) |>, top)
           | None =>
               (r <| ad_reply := replicate sizeof_messagebuf 0 |> <| ad_count ::= Z.add 1 |>,
                (sizeof_head + offsetof_ranges)%nat)
           end in
         if response_fits top 16 then
           Some (r <| ad_firstchunk := chunk |>
                   <| ad_reply ::= st64 top chunk |>
                   <| ad_countp := (top + 8)%nat |>
                   <| ad_top := Some (top + 8 + 2)%nat |>)
         else None
       else Some r);
  Some (r <| ad_nextchunk := u64 (chunk + 1) |>).

(** [check_response_full(&snap, sizeof(chunk_t)); *(snap.top)++ = exception;]  A
    NULL [top] ends the process too. *)
Definition add_exception_addr (r : addto) (exception : Z) : option addto :=
  match ad_top r with
  | Some top =>
      if response_fits top 8 then Some (r <| ad_reply ::= st64 top exception |> <| ad_top := Some (top + 8)%nat |>)
      else None
  | None => None
  end.

(** The message that [finish_reply] sends, if any. *)
Definition finish_reply (r : addto) (code id : Z) : option message :=
  match ad_top r with
  | None => None
  | Some top =>
      let b := st16 (ad_countp r) (u16 (ad_nextchunk r - ad_firstchunk r)) (ad_reply r) in
      let b := st32 0 code b in
      let b := st32 4 (Z.of_nat (top - sizeof_head)) b in
      let b := st32 8 id b in
      let b := st16 12 (u16 (ad_count r)) b in
      Some (mkMessage code (slice sizeof_head (top - sizeof_head) b))
  end.

(** ** A whole reply *)

(** [rw_request.count] of the message *)
Definition reply_count (m : message) : Z := ld16 4 (m_body m).

(** The chunks one by one, as the handlers add them. *)
Definition add_all (with_exc : bool) (l : list (Z * Z)) (r : addto) : option addto :=
  foldl (fun acc x =>
    r ← acc;
    r ← addto_response r x.1;
    if with_exc then add_exception_addr r x.2 else Some r) (Some r) l.
