(* ===== verification/Init.v ===== *)
(** * Set-up, sizes and initialisation of a snapshot store (ddsnapd.c,
      "Initialization, State load/save")

    [fdsize64] asks the system for the size of a device; it is a parameter. *)

From S2P Require Import Prelude Bytes State Buffer Bitmap Leaf Node Alloc Journal.

Definition sizeof_enode_head : Z := 8.

(** [setup_sb]: what is derived from the image on disk.  The table of read
    locks is in [Server]. *)
Definition setup_sb : prog unit :=
  s ← getsb;
  let bs_bits := allocsize_bits (img_metadata (image s)) in
  let cs_bits := allocsize_bits (img_snapdata (image s)) in
  assertM (negb (combined s) || (bs_bits =? cs_bits));;
  let msize := u32 (Z.shiftl 1 bs_bits) in
  let ssize := u32 (Z.shiftl 1 cs_bits) in
  modsb (fun s => s
    <| metadata := mkAllocspace METADATA msize (u32 (bs_bits - SECTOR_BITS))
                     ((msize - sizeof_enode_head) / Z.of_nat sizeof_index_entry) |>
    <| snapdata := mkAllocspace (if combined s then METADATA else SNAPDATA) ssize
                     (u32 (cs_bits - SECTOR_BITS)) (alloc_per_node (snapdata s)) |>
    <| copybuf_size := u32 (32 * ssize) |>
    <| copybuf := replicate 32 0 |>
    <| max_commit_blocks := (msize - Z.of_nat sizeof_commit_block) / 8 |>
    <| snaplock_hash_bits := 8 |>).

(** ** Changing the size of an allocation space *)

(** [data[i] &= ~(0xff << (chunks & 7))] for the byte that holds bit [chunks] *)
Definition clear_tail_bits (d : block) (nchunks size : Z) : block :=
  let i := Z.to_nat (Z.land (Z.shiftr nchunks 3) (size - 1)) in
  set_byte d i (Z.land (byte_at d i) (Z.lnot (Z.shiftl 0xff (Z.land nchunks 7)))).

(** The old bitmap blocks are copied on the device, past the cache.  A block
    that cannot be read leaves the copy buffer as it was. *)
Definition copy_bitmap_blocks (n : nat) (oldsector newsector step : Z) (size : nat) : prog unit :=
  loopM (S n) (fun '(i, buf) =>
    if (i <? n)%nat then
      w ← get;
      let buf := default buf (disk w !! (oldsector + Z.of_nat i * step)) in
      write_block (newsector + Z.of_nat i * step) buf;;
      mret (inl (S i, buf))
    else mret (inr tt)) (0%nat, replicate size 0).

(** New bitmap blocks with no chunk in use, but for the bits past the end. *)
Definition clear_new_bitmaps (oldbitmaps newbitmaps sector newchunks : Z) : prog unit :=
  s ← getsb;
  let size := allocsize (metadata s) in
  loopM (S (Z.to_nat (newbitmaps - oldbitmaps))) (fun '(i, sector) =>
    if i <? newbitmaps then
      r ← getblk sector (bsize s);
      match r with
      | None => halt_with WildAccess
      | Some buf =>
          d ← get_data buf;
          let d := memset 0 d in
          let d := if (i =? newbitmaps - 1) && negb (Z.land newchunks 7 =? 0)
                   then block_tail_bits d newchunks size else d in
          set_data buf d;;
          brelse_dirty buf;;
          mret (inl (i + 1, u64 (sector + chunk_sectors (metadata s))))
      end
    else mret (inr tt)) (oldbitmaps, sector).

Definition adjust_bitmap (which : space) (newchunks new_basechunk new_metachunks : Z) : prog Z :=
  s ← getsb;
  let a := asi which s in
  let bits := allocsize_bits (asi METADATA s) in
  let csb := chunk_sectors_bits (metadata s) in
  let blocksize := allocsize (metadata s) in
  let oldchunks := chunks a in
  let oldbitmaps := u32 (bitmap_blocks a) in
  let newbitmaps := u32 (calc_bitmap_blocks s newchunks) in
  let oldbase := u64 (Z.shiftl (bitmap_base a) SECTOR_BITS) in
  let newbase := u64 (Z.shiftl new_basechunk bits) in
  let oldchunks_meta := Z.shiftr oldbase bits in
  let metabase s := u64 (Z.shiftl (bitmap_base (img_metadata (image s))) SECTOR_BITS) in
  let edit sector (f : block -> block) :=
    r ← bread sector (bsize s);
    match r with
    | None => halt_with WildAccess
    | Some buf => d ← get_data buf; set_data buf (f d);; brelse_dirty buf
    end in
  if newchunks <=? oldchunks then
    err ← change_bits newchunks (oldchunks - newchunks) oldbase 0;
    if negb (err =? 0) then mret (-1)
    else
      (if newbitmaps <? oldbitmaps then
         change_bits (u64 (oldchunks_meta + newbitmaps)) (oldbitmaps - newbitmaps) (metabase s) 2;;
         modsb (upd_asi which (fun a => a <| bitmap_blocks := newbitmaps |>))
       else mret tt);;
      mret 0
  else if oldbitmaps =? newbitmaps then
    (if negb (Z.land oldchunks 7 =? 0) || negb (Z.land newchunks 7 =? 0) then
       edit (u64 (Z.shiftr oldbase SECTOR_BITS + Z.shiftl (oldbitmaps - 1) csb)) (fun d =>
         let d := if negb (Z.land oldchunks 7 =? 0) then clear_tail_bits d oldchunks blocksize else d in
         if negb (Z.land newchunks 7 =? 0) then block_tail_bits d newchunks blocksize else d)
     else mret tt);;
    mret 0
  else if new_metachunks <? newbitmaps then mret (-1)
  else
    copy_bitmap_blocks (Z.to_nat oldbitmaps) (Z.shiftr oldbase SECTOR_BITS) (Z.shiftr newbase SECTOR_BITS)
      (chunk_sectors (metadata s)) (bsize s);;
    (if negb (Z.land oldchunks 7 =? 0) then
       edit (u64 (Z.shiftr newbase SECTOR_BITS + Z.shiftl (oldbitmaps - 1) csb))
         (fun d => clear_tail_bits d oldchunks blocksize)
     else mret tt);;
    clear_new_bitmaps oldbitmaps newbitmaps
      (u64 (Z.shiftr newbase SECTOR_BITS + Z.shiftl oldbitmaps csb)) newchunks;;
    modsb (upd_asi which (fun a => a <| bitmap_base := Z.shiftr newbase SECTOR_BITS |>
                                     <| bitmap_blocks := newbitmaps |>));;
    s ← getsb;
    change_bits oldchunks_meta oldbitmaps (metabase s) 2;;
    change_bits new_basechunk newbitmaps (metabase s) 1;;
    mret 0.

(** The metadata space: [None] when its bitmap cannot be adjusted, else the
    first chunk and the number of chunks left for the other bitmap. *)
Definition change_meta_size (metachunks : Z) : prog (option (Z * Z)) :=
  s ← getsb;
  let m := img_metadata (image s) in
  if negb (metachunks =? 0) && negb (chunks m =? metachunks) then
    let oldbitmaps := bitmap_blocks m in
    r ← (if negb (chunks m =? 0) then
           let base := chunks m in
           let new := u64 (metachunks - chunks m) in
           err ← adjust_bitmap METADATA metachunks base new;
           if err <? 0 then mret None
           else
             s ← getsb;
             mret (Some (u64 (base + bitmap_blocks (asi METADATA s)),
                         u64 (new - bitmap_blocks (asi METADATA s))))
         else mret (Some (0, 0)));
    match r with
    | None => mret None
    | Some basenew =>
        modsb (fun s => s <| image; img_metadata ::= fun a =>
          a <| freechunks := u64 (freechunks a + metachunks - chunks a + oldbitmaps - bitmap_blocks a) |>
            <| chunks := metachunks |> |>);;
        mret (Some basenew)
    end
  else mret (Some (0, 0)).

Definition change_snap_size (snapchunks new_basechunk new_metachunks : Z) : prog bool :=
  s ← getsb;
  let d := img_snapdata (image s) in
  if negb (snapchunks =? 0) && negb (chunks d =? snapchunks) then
    ok ← (if negb (chunks d =? 0) then
            err ← adjust_bitmap SNAPDATA snapchunks new_basechunk new_metachunks;
            if err <? 0 then mret false
            else
              modsb (fun s => s <| image; img_metadata ::= fun a =>
                a <| freechunks := u64 (freechunks a + bitmap_blocks d - bitmap_blocks (img_snapdata (image s))) |> |>);;
              mret true
          else mret true);
    if ok : bool then
      modsb (fun s => s <| image; img_snapdata ::= fun a =>
        a <| freechunks := u64 (freechunks a + snapchunks - chunks a) |> <| chunks := snapchunks |> |>);;
      mret true
    else mret false
  else mret true.

Definition change_device_sizes (orgsize snapsize metasize : Z) : prog Z :=
  s ← getsb;
  r ← change_meta_size (Z.shiftr metasize (allocsize_bits (img_metadata (image s))));
  match r with
  | None => mret (-1)
  | Some (base, new) =>
      s ← getsb;
      ok ← (if negb (metadev s =? snapdev s) then
              change_snap_size (Z.shiftr snapsize (allocsize_bits (img_snapdata (image s)))) base new
            else mret true);
      if negb ok then mret (-1)
      else
        let bits := chunk_sectors_bits (snapdata s) in
        let sectors := u64 (Z.shiftl (Z.shiftr orgsize (SECTOR_BITS + bits)) bits) in
        (if negb (sectors =? 0) && negb (orgsectors (image s) =? sectors) then
           modsb (fun s => s <| image; orgsectors := sectors |>) else mret tt);;
        mret 0
  end.

Definition save_sb_check : prog unit := commit_deferred_allocs;; save_sb.

(** ** A new snapshot store *)

Definition no_asi : allocspace_img := mkAsi 0 0 0 0 0 0.
Definition no_image : disksuper :=
  mkDisksuper (replicate 8 0) 0 0 0 0 0 0 []
    (replicate (Z.to_nat MAX_SNAPSHOTS) (mkSnapshot 0 0 0 0 0 0)) 0 0 0 0 0 no_asi no_asi.

(** The superblock that [new_sb] allocates: zero but for the devices. *)
Definition new_sb (meta org snap : Z) : superblock :=
  mkSuperblock no_image (mkAllocspace METADATA 0 0 0) (mkAllocspace METADATA 0 0 0) 0 0
    snap meta org 0 0 [] 0 0 0 0 (replicate (Z.to_nat MAX_SNAPSHOTS) 0) [] (mkRange 0 false 0).

(** [DIVROUND] on [u32] operands *)
Definition DIVROUND (n d : Z) : Z := u32 (n + d - 1) / d.

Section sizes.
(** The size of a device in bytes, -1 when it cannot be found out; the error
    code is then that of the system call, here [EIO]. *)
Context (fdsize64 : Z -> Z).

Definition sb_get_device_sizes : prog Z :=
  s ← getsb;
  let metasize := fdsize64 (metadev s) in
  let snapsize := if negb (metadev s =? snapdev s) then fdsize64 (snapdev s) else metasize in
  let orgsize := fdsize64 (orgdev s) in
  if (metasize =? -1) || (snapsize =? -1) || (orgsize =? -1) then mret (- EIO)
  else change_device_sizes orgsize snapsize metasize;; mret 0.

(** The root node and the leaf of an empty btree. *)
Definition init_tree : prog unit :=
  l ← new_leaf;
  r ← new_node;
  match l, r with
  | Some leafbuf, Some rootbuf =>
      root ← get_data rootbuf;
      set_data rootbuf (set_entry_sector 0 leafbuf (set_node_count 1 root));;
      modsb (fun s => s <| image; etree_root := rootbuf |>);;
      brelse_dirty rootbuf;;
      brelse_dirty leafbuf
  | _, _ => halt_with AssertFailed
  end.

Definition init_super (js_bytes bs_bits cs_bits : Z) : prog Z :=
  modsb (fun s => s <| image := no_image <| sb_magic := SB_MAGIC |>
    <| img_metadata; allocsize_bits := bs_bits |> <| img_snapdata; allocsize_bits := cs_bits |> |>);;
  error ← sb_get_device_sizes;
  if negb (error =? 0) then mret error
  else
    setup_sb;;
    w ← get;
    modsb (fun s => s <| image; etree_levels := 1%nat |> <| image; create_time := now w |>
                      <| image; orgoffset := 0 |>);;
    s ← getsb;
    let chunk_size := u32 (Z.shiftl 1 (allocsize_bits (asi SNAPDATA s))) in
    let js_chunks := DIVROUND js_bytes chunk_size in
    modsb (fun s => s <| image; journal_size := js_chunks |> <| image; journal_next := 0 |>
                      <| image; sequence := js_chunks |>);;
    error ← init_allocation;
    if error <? 0 then mret error
    else set_sb_dirty;; init_tree;; mret 0.

Definition init_snapstore (org snap meta bs_bits cs_bits js_bytes : Z) : prog Z :=
  modify (fun w => w <| sb := new_sb meta org snap |>);;
  init_buffers (Z.to_nat (Z.shiftl 1 bs_bits)) 0;;
  error ← init_super js_bytes bs_bits cs_bits;
  if error <? 0 then mret (-1)
  else
    error ← init_journal;
    if error <? 0 then mret (-1)
    else save_sb_check;; mret 0.
End sizes.

(** [sniff_snapstore]: is there a superblock on the device? *)
Definition sniff_snapstore : prog bool :=
  w ← get;
  mret (bool_decide (sb_magic (disk_super w) = SB_MAGIC)).
