(* ===== verification/Changelist.v ===== *)
(** * Change lists (ddsnap.c, ddsnapd.c)

    The growing array of changed chunks, its file format, and the leaf visitor
    that collects the chunks not shared between two snapshots. *)

From S2P Require Import Prelude Bytes State Leaf.

(** [struct change_list]: the first [cl_count] elements of the array are
    [cl_chunks]; the array has room for [cl_length]. *)
Record change_list := mkCl {
  cl_length : Z;
  cl_chunksize_bits : Z;
  cl_src_snap : Z;
  cl_tgt_snap : Z;
  cl_chunks : list Z }.

#[export] Instance eta_change_list : Eta change_list :=
  fun r => mkCl (cl_length r) (cl_chunksize_bits r) (cl_src_snap r) (cl_tgt_snap r) (cl_chunks r).

Definition CHUNK_ARRAY_INIT : Z := 1024.
Definition cl_count (cl : change_list) : Z := Z.of_nat (length (cl_chunks cl)).

Definition init_change_list (chunksize_bits src_snap tgt_snap : Z) : change_list :=
  mkCl CHUNK_ARRAY_INIT chunksize_bits src_snap tgt_snap [].

(** The memory of the array can be had: [realloc] succeeds. *)
Definition append_change_list (cl : change_list) (chunkaddr : Z) : change_list :=
  let cl := if cl_length cl <=? cl_count cl + 1 then cl <| cl_length ::= fun n => u64 (n * 2) |> else cl in
  cl <| cl_chunks ::= fun l => l ++ [chunkaddr] |>.

(** ** Files *)

(** "rln" padded to the eight bytes of the field by [strncpy] *)
Definition CHANGELIST_MAGIC : list Z := [0x72; 0x6c; 0x6e; 0; 0; 0; 0; 0].
Definition sizeof_cl_header : nat := 20.
Definition CL_MARKER : Z := u64 (-1).

(** [strncmp(magic, "rln", 8) == 0]: equal up to and including the NUL *)
Definition changelist_magic_ok (magic : list Z) : bool := bool_decide (take 4 magic = take 4 CHANGELIST_MAGIC).

Definition write_changelist (cl : change_list) : list Z :=
  CHANGELIST_MAGIC ++ le_split 4 (cl_chunksize_bits cl) ++ le_split 4 (cl_src_snap cl) ++
  le_split 4 (cl_tgt_snap cl) ++ flat_map (le_split 8) (cl_chunks cl) ++ le_split 8 CL_MARKER.

(** The loop of [read_changelist]: one chunk address per step; [None] when the
    file ends inside an address, which ends the process. *)
Fixpoint read_chunk_addrs (fuel : nat) (file : list Z) (cl : change_list) : option change_list :=
  match fuel with
  | O => None
  | S f =>
      match file with
      | [] => Some cl
      | _ :: _ =>
          if (length file <? 8)%nat then None
          else
            let chunkaddr := ld64 0 file in
            if chunkaddr =? CL_MARKER then Some cl
            else read_chunk_addrs f (drop 8 file) (append_change_list cl chunkaddr)
      end
  end.

(** [None] for a file that is not a change list, or a process that ended. *)
Definition read_changelist (file : list Z) : option change_list :=
  if (length file <? sizeof_cl_header)%nat then None
  else if negb (changelist_magic_ok (slice 0 8 file)) then None
  else read_chunk_addrs (S (length file)) (drop sizeof_cl_header file)
         (init_change_list (ld32 8 file) (ld32 12 file) (ld32 16 file)).

(** ** Chunks not shared between two snapshots *)

(** The sectors of the last snapshot with the tag, 0 when there is none. *)
Definition snap_sectors_of (l : list snapshot) (tag : Z) : Z :=
  foldl (fun acc sn => if sn_tag sn =? tag then sn_sectors sn else acc) 0 l.

(** The loop over the exceptions of one chunk: does the chunk belong to the
    list?  A chunk past the end of the target snapshot is left out. *)
Definition chunk_changed (mask1 mask2 newchunk csb snap_sectors : Z) (shares : list Z) : bool :=
  existsb (fun share =>
    negb (Bool.eqb (Z.land share mask2 =? mask2) (Z.land share mask1 =? mask1)) &&
    negb (snap_sectors <=? u64 (Z.shiftl newchunk csb))) shares.

Definition gen_changelist_leaf (s : superblock) (mask1 mask2 : Z) (leaf : block) (cl : change_list) : change_list :=
  let snap_sectors := snap_sectors_of (snaplist (image s)) (cl_tgt_snap cl) in
  if snap_sectors =? 0 then cl
  else
    foldl (fun cl i =>
      let newchunk := u64 (base_chunk leaf + map_rchunk leaf i) in
      if chunk_changed mask1 mask2 newchunk (chunk_sectors_bits (snapdata s)) snap_sectors
           (ex_share leaf <$> exc_ptrs leaf i)
      then append_change_list cl newchunk else cl) cl (seq 0 (leaf_count leaf)).
