(* ===== verification/Status.v ===== *)
(** * The status report (ddsnapd.c, dm-ddsnap.h)

    The count of shared chunks per snapshot and the reply to a status
    request. *)

From S2P Require Import Prelude Bytes State Buffer Bitmap Leaf Alloc Journal Btree Snapshot.

(** [for (; num; num >>= 1) if (num & 1) count++] on 64 bits *)
Fixpoint bit_count_loop (fuel : nat) (num : Z) : Z :=
  match fuel with
  | O => 0
  | S f => if num =? 0 then 0
           else (if negb (Z.land num 1 =? 0) then 1 else 0) + bit_count_loop f (Z.shiftr num 1)
  end.
Definition bit_count (num : Z) : Z := bit_count_loop 64 num.

(** [share_table[MAX_SNAPSHOTS * bit + share_count]++] for every bit of [share] *)
Definition count_share (table : list Z) (share : Z) : list Z :=
  let share_count := bit_count share - 1 in
  foldl (fun table bit =>
    if negb (Z.land share (bit64 (Z.of_nat bit)) =? 0)
    then alter (fun n => u64 (n + 1)) (Z.to_nat (MAX_SNAPSHOTS * Z.of_nat bit + share_count)) table
    else table) table (seq 0 (Z.to_nat MAX_SNAPSHOTS)).

Fixpoint calc_sharing_shares (shares : list Z) (table : list Z) : prog (list Z) :=
  match shares with
  | [] => mret table
  | share :: l => assertM (negb (share =? 0));; calc_sharing_shares l (count_share table share)
  end.

(** The leaf visitor: every exception of every entry. *)
Definition calc_sharing (leaf : block) (table : list Z) : prog (list Z) :=
  calc_sharing_shares (i ← seq 0 (leaf_count leaf); ex_share leaf <$> exc_ptrs leaf i) table.

(** Layout of [struct status_reply] and [struct snapshot_details], packed. *)
Definition sizeof_status_reply : Z := 56.
Definition details_rowsize (snapshots : Z) : Z := sizeof_status_reply + snapshots * 8.
Definition snapshot_details_addr (row snapshots : Z) : Z := sizeof_status_reply + row * details_rowsize snapshots.
Definition snapshot_details_calc_size (row snapshots : Z) : Z := snapshot_details_addr row snapshots.

Definition put_details (s : superblock) (share_array : list Z) (b : block) (row : nat) (sn : snapshot) : block :=
  let p := Z.to_nat (snapshot_details_addr (Z.of_nat row) (snapshots s)) in
  let b := st32 p (sn_tag sn) b in
  let b := st 1 (p + 4) (sn_prio sn) b in
  let b := st16 (p + 5) (usecount s sn) b in
  let b := st64 (p + 7) (sn_ctime sn) b in
  if is_squashed sn then st64 (p + 15) (-1) b
  else
    foldl (fun b col =>
      st64 (p + 15 + 8 * col) (default 0 (share_array !! Z.to_nat (MAX_SNAPSHOTS * sn_bit sn + Z.of_nat col))) b)
      b (seq 0 (Z.to_nat (snapshots s))).

(** The bytes of the reply for a table of shares. *)
Definition status_bytes (s : superblock) (share_array : list Z) : block :=
  let b := replicate (Z.to_nat (snapshot_details_calc_size (snapshots s) (snapshots s))) 0 in
  let b := st64 0 (create_time (image s)) b in
  let b := st32 12 (allocsize_bits (img_metadata (image s))) b in
  let b := st64 16 (chunks (img_metadata (image s))) b in
  let b := st64 24 (freechunks (img_metadata (image s))) b in
  let b := st32 32 (allocsize_bits (img_snapdata (image s))) b in
  let b := st64 36 (chunks (img_snapdata (image s))) b in
  let b := st64 44 (freechunks (img_snapdata (image s))) b in
  let b := st32 52 (snapshots s) b in
  foldl (fun b e => put_details s share_array b e.1 e.2) b (imap pair (snaplist (image s))).

(** The reply; the result of the traversal is not looked at. *)
Definition get_status : prog block :=
  '(_, table) ← traverse_tree_range calc_sharing 0 (replicate 4096 0);
  s ← getsb;
  let b := status_bytes s table in
  selfcheck_freespace;;
  mret b.
