(* ===== verification/Server.v ===== *)
(** * The snapshot server (ddsnapd.c, [incoming] and [snap_server])

    One definition per message, the dispatch of a message, the end of a client
    and the step of the event loop.  A message is its code and the bytes of its
    body; bytes past the end of a short body read as zero.  Writes to a socket
    succeed; a client that went away is seen when a read from it fails. *)

From stdpp Require Import strings pretty.
From Stdlib Require Ascii String.
From S2P Require Import Prelude Bytes State Buffer Bitmap Leaf Alloc Journal Btree Snapshot Locks Reply Init Changelist Status.

(** ** Message codes (dm-ddsnap.h) *)

Definition code_base : Z := 0xbead0000.
Definition PROTOCOL_ERROR : Z := code_base.
Definition IDENTIFY : Z := code_base + 1.
Definition IDENTIFY_OK : Z := code_base + 2.
Definition IDENTIFY_ERROR : Z := code_base + 3.
Definition QUERY_WRITE : Z := code_base + 4.
Definition ORIGIN_WRITE_OK : Z := code_base + 5.
Definition ORIGIN_WRITE_ERROR : Z := code_base + 6.
Definition SNAPSHOT_WRITE_OK : Z := code_base + 7.
Definition SNAPSHOT_WRITE_ERROR : Z := code_base + 8.
Definition QUERY_SNAPSHOT_READ : Z := code_base + 9.
Definition SNAPSHOT_READ_OK : Z := code_base + 10.
Definition SNAPSHOT_READ_ERROR : Z := code_base + 11.
Definition SNAPSHOT_READ_ORIGIN_OK : Z := code_base + 12.
Definition FINISH_SNAPSHOT_READ : Z := code_base + 14.
Definition GENERIC_ERROR : Z := code_base + 15.
Definition CREATE_SNAPSHOT : Z := code_base + 16.
Definition CREATE_SNAPSHOT_OK : Z := code_base + 17.
Definition DELETE_SNAPSHOT : Z := code_base + 18.
Definition DELETE_SNAPSHOT_OK : Z := code_base + 19.
Definition DUMP_TREE_RANGE : Z := code_base + 20.
Definition INITIALIZE_SNAPSTORE : Z := code_base + 21.
Definition START_SERVER : Z := code_base + 28.
Definition SHUTDOWN_SERVER : Z := code_base + 29.
Definition UPLOAD_LOCK : Z := code_base + 31.
Definition FINISH_UPLOAD_LOCK : Z := code_base + 32.
Definition LIST_SNAPSHOTS : Z := code_base + 37.
Definition SNAPSHOT_LIST : Z := code_base + 38.
Definition PRIORITY : Z := code_base + 39.
Definition PRIORITY_OK : Z := code_base + 40.
Definition USECOUNT : Z := code_base + 41.
Definition USECOUNT_OK : Z := code_base + 42.
Definition STREAM_CHANGELIST : Z := code_base + 43.
Definition STREAM_CHANGELIST_OK : Z := code_base + 44.
Definition STATUS : Z := code_base + 49.
Definition STATUS_OK : Z := code_base + 50.
Definition REQUEST_SNAPSHOT_STATE : Z := code_base + 51.
Definition SNAPSHOT_STATE : Z := code_base + 52.
Definition REQUEST_SNAPSHOT_SECTORS : Z := code_base + 53.
Definition SNAPSHOT_SECTORS : Z := code_base + 54.
Definition RESIZE : Z := code_base + 55.

Definition ERROR_SIZE_MISMATCH : Z := 0xdead0002.
Definition ERROR_OFFSET_MISMATCH : Z := 0xdead0003.
Definition ERROR_INVALID_SNAPSHOT : Z := 0xdead0004.
Definition ERROR_USECOUNT : Z := 0xdead0006.
Definition ERROR_UNKNOWN_MESSAGE : Z := 0xdead0007.

Definition SNAPCLIENT_BIT : Z := 1.
(** [(u32)~0UL], the tag of the origin *)
Definition ORIGIN_TAG : Z := u32 (-1).

(** ** Pieces of messages *)

(** The bytes of a C string with its NUL *)
Definition text_bytes (t : string) : list Z :=
  (fun c => Z.of_N (Ascii.N_of_ascii c)) <$> String.list_ascii_of_string t ++ [Ascii.zero].

Definition error_message (code err : Z) (t : string) : message :=
  mkMessage code (le_split 4 err ++ text_bytes t).

Definition outerror (sock err : Z) (t : string) : srv unit := send sock (error_message GENERIC_ERROR err t).

(** [struct rw_request]: the id, and the chunks of the ranges in order. *)
Definition rw_id (body : list Z) : Z := ld32 0 body.
Definition sizeof_rw_request : nat := 6.
Definition range_chunks (body : list Z) (i : nat) : list Z :=
  let p := (6 + 10 * i)%nat in
  (fun j => u64 (ld64 p body + Z.of_nat j)) <$> seq 0 (Z.to_nat (ld16 (p + 8) body)).
Definition rw_chunks (body : list Z) : list Z := seq 0 (Z.to_nat (ld16 4 body)) ≫= range_chunks body.

Definition snapinfo_bytes (s : superblock) (sn : snapshot) : list Z :=
  le_split 4 (sn_tag sn) ++ le_split 1 (sn_prio sn) ++ le_split 2 (usecount s sn) ++ le_split 8 (sn_ctime sn).

(** An option that ends the process when it is [None]. *)
Definition or_exit {A} (o : option A) : srv A :=
  match o with Some a => mret a | None => halt_with ErrorExit end.

(** The snapshot of a client: its place in the array. *)
Definition client_snap (c : Z) : srv nat :=
  cl ← get_client c;
  s ← store getsb;
  match find_snap s (u32 (cl_snaptag cl)) with
  | Some i => mret i
  | None => halt_with AssertFailed
  end.

(** Following the [struct snapshot] pointer again. *)
Definition snap_at (i : nat) : srv snapshot :=
  s ← store getsb;
  match snap_slot s i with Some sn => mret sn | None => halt_with WildAccess end.

(** ** Queries *)

(** The loop over the chunks of a write to the origin. *)
Fixpoint origin_write_chunks (l : list Z) (code : Z) (pending : option Z) : srv (Z * option Z) :=
  match l with
  | [] => mret (code, pending)
  | chunk :: l' =>
      exception ← store (make_unique chunk (-1));
      if exception =? NOCHUNK then origin_write_chunks l' ORIGIN_WRITE_ERROR pending
      else
        pending ← waitfor_chunk chunk pending;
        origin_write_chunks l' code pending
  end.

Definition query_origin_write (c sock : Z) (body : list Z) : srv unit :=
  '(code, pending) ← origin_write_chunks (rw_chunks body) ORIGIN_WRITE_OK None;
  store finish_copyout;;
  store (commit_transaction false);;
  let m := mkMessage code body in
  match pending with
  | Some p =>
      upd_pending p (fun pd => pd <| pd_client := Some c |> <| pd_message := m |>
                                  <| holdcount ::= fun n => n - 1 |>)
  | None => send sock m
  end.

(** The loop over the chunks of a write to a snapshot; [i] is the snapshot. *)
Fixpoint snapshot_write_chunks (i : nat) (l : list Z) (code : Z) (r : addto) : srv (Z * addto) :=
  match l with
  | [] => mret (code, r)
  | chunk :: l' =>
      sn ← snap_at i;
      exception ← (if is_squashed sn then mret NOCHUNK else store (make_unique chunk (sn_bit sn)));
      let code := if exception =? NOCHUNK then SNAPSHOT_WRITE_ERROR else code in
      r ← or_exit (addto_response r chunk);
      r ← or_exit (add_exception_addr r exception);
      snapshot_write_chunks i l' code r
  end.

Definition send_reply (sock : Z) (r : addto) (code id : Z) : srv unit :=
  match finish_reply r code id with Some m => send sock m | None => mret tt end.

Definition query_snapshot_write (c sock : Z) (body : list Z) : srv unit :=
  i ← client_snap c;
  '(code, r) ← snapshot_write_chunks i (rw_chunks body) SNAPSHOT_WRITE_OK new_addto;
  store finish_copyout;;
  store (commit_transaction false);;
  send_reply sock r code (rw_id body).

(** The loop over the chunks of a snapshot read. *)
Fixpoint snapshot_read_chunks (c bit : Z) (l : list Z) (snap org : addto) : srv (addto * addto) :=
  match l with
  | [] => mret (snap, org)
  | chunk :: l' =>
      '(_, exception) ← store (test_unique chunk bit);
      if negb (exception =? 0) then
        snap ← or_exit (addto_response snap chunk);
        snap ← or_exit (add_exception_addr snap exception);
        snapshot_read_chunks c bit l' snap org
      else
        org ← or_exit (addto_response org chunk);
        readlock_chunk chunk c;;
        snapshot_read_chunks c bit l' snap org
  end.

Definition query_snapshot_read (c sock : Z) (body : list Z) : srv unit :=
  i ← client_snap c;
  sn ← snap_at i;
  if is_squashed sn then
    r ← or_exit (add_all true ((fun ch => (ch, 0)) <$> rw_chunks body) new_addto);
    send_reply sock r SNAPSHOT_READ_ERROR (rw_id body)
  else
    '(snap, org) ← snapshot_read_chunks c (sn_bit sn) (rw_chunks body) new_addto new_addto;
    send_reply sock org SNAPSHOT_READ_ORIGIN_OK (rw_id body);;
    send_reply sock snap SNAPSHOT_READ_OK (rw_id body).

Definition finish_snapshot_read (c : Z) (body : list Z) : srv unit :=
  foreach (rw_chunks body) (fun chunk => release_chunk chunk c;; mret tt).

(** ** Clients and snapshots *)

Definition identify (c sock : Z) (body : list Z) : srv unit :=
  let tag := ld32 8 body in
  let fail err t := send sock (error_message IDENTIFY_ERROR err t) in
  upd_client c (fun cl => cl <| cl_id := ld64 0 body |> <| cl_snaptag := s32 tag |>);;
  s ← store getsb;
  let finish sectors :=
    s ← store getsb;
    if negb (ld64 20 body =? sectors) then
      fail ERROR_SIZE_MISMATCH ("volume size mismatch for snapshot " +:+ pretty (Z.to_N tag))
    else if negb (ld64 12 body =? orgoffset (image s)) then
      fail ERROR_OFFSET_MISMATCH ("volume offset mismatch for snapshot " +:+ pretty (Z.to_N tag))
    else send sock (mkMessage IDENTIFY_OK (le_split 4 (allocsize_bits (asi SNAPDATA s)))) in
  if negb (tag =? ORIGIN_TAG) then
    match find_snap s tag ≫= snap_slot s with
    | None => fail ERROR_INVALID_SNAPSHOT ("Snapshot tag " +:+ pretty (Z.to_N tag) +:+ " is not valid")
    | Some sn =>
        if is_squashed sn then
          fail ERROR_INVALID_SNAPSHOT ("Snapshot tag " +:+ pretty (Z.to_N tag) +:+ " is not valid")
        else if negb (Z.shiftr (usecount s sn + 1) 16 =? 0) then fail ERROR_USECOUNT "Usecount overflow."
        else
          upd_client c (fun cl => cl <| cl_flags ::= Z.lor SNAPCLIENT_BIT |>);;
          store (modsb (fun s => s <| usecounts ::= alter (fun n => u16 (n + 1)) (Z.to_nat (sn_bit sn)) |>));;
          finish (sn_sectors sn)
    end
  else finish (orgsectors (image s)).

(** [eek]: the error goes back with the reason. *)
Definition eek (sock err : Z) (why : string) : srv unit := outerror sock (- err) why.

Definition create_snapshot_msg (sock : Z) (body : list Z) : srv unit :=
  err ← store (create_snapshot (ld32 0 body));
  if err <? 0 then
    eek sock err (if - err =? EFULL then "too many snapshots"
                  else if - err =? EEXIST then "snapshot already exists"
                  else "unknown snapshot create error")
  else
    store save_sb_check;;
    send sock (mkMessage CREATE_SNAPSHOT_OK []).

Definition delete_snapshot_msg (sock : Z) (body : list Z) : srv unit :=
  s ← store getsb;
  match find_snap s (ld32 0 body) with
  | None => eek sock (- EINVAL) "snapshot doesn't exist"
  | Some i =>
      sn ← snap_at i;
      if negb (usecount s sn =? 0) then eek sock (- EINVAL) "snapshot has non-zero usecount"
      else
        err ← store (delete_snap i);
        if negb (err =? 0) then eek sock err "failed to delete snapshot"
        else
          store save_sb_check;;
          send sock (mkMessage DELETE_SNAPSHOT_OK [])
  end.

Definition list_snapshots (sock : Z) : srv unit :=
  s ← store getsb;
  send sock (mkMessage SNAPSHOT_LIST
    (le_split 4 (snapshots s) ++ (snaplist (image s) ≫= snapinfo_bytes s))).

(** The sign of an [int8_t] *)
Definition s8 (x : Z) : Z := let y := x mod 2 ^ 8 in if y <? 2 ^ 7 then y else y - 2 ^ 8.

Definition set_priority (sock : Z) (body : list Z) : srv unit :=
  let tag := ld32 0 body in
  let prio := s8 (ld 1 4 body) in
  s ← store getsb;
  if tag =? ORIGIN_TAG then outerror sock ERROR_INVALID_SNAPSHOT "Can not set priority for origin"
  else match find_snap s tag with
  | None => outerror sock ERROR_INVALID_SNAPSHOT ("Snapshot tag " +:+ pretty (Z.to_N tag) +:+ " is not valid")
  | Some i =>
      store (modsb (fun s => s <| image; snaplist ::= alter (fun sn => sn <| sn_prio := prio |>) i |>));;
      send sock (mkMessage PRIORITY_OK (le_split 1 prio))
  end.

Definition set_usecount (sock : Z) (body : list Z) : srv unit :=
  let tag := ld32 0 body in
  let usecnt_dev := s32 (ld32 4 body) in
  s ← store getsb;
  if tag =? ORIGIN_TAG then outerror sock ERROR_INVALID_SNAPSHOT "Setting the usecount of the origin."
  else match find_snap s tag with
  | None => outerror sock ERROR_INVALID_SNAPSHOT ("Snapshot tag " +:+ pretty (Z.to_N tag) +:+ " is not valid")
  | Some i =>
      sn ← snap_at i;
      if (0 <=? usecnt_dev) && negb (Z.shiftr (usecount s sn + usecnt_dev) 16 =? 0) then
        outerror sock ERROR_USECOUNT "Usecount overflow."
      else if (usecnt_dev <? 0) && negb (Z.shiftr (sn_usecount sn + usecnt_dev) 16 =? 0) then
        outerror sock ERROR_USECOUNT "Usecount underflow."
      else
        let sn := sn <| sn_usecount ::= fun n => u16 (n + usecnt_dev) |> in
        store (modsb (fun s => s <| image; snaplist ::= insert i sn |>));;
        s ← store getsb;
        send sock (mkMessage USECOUNT_OK (le_split 2 (usecount s sn)))
  end.

(** ** Reports *)

Definition changelist_mask (sn : snapshot) : srv Z :=
  if is_squashed sn then halt_with UndefinedShift else mret (bit64 (sn_bit sn)).

Definition stream_changelist (sock : Z) (body : list Z) : srv unit :=
  let tag1 := ld32 0 body in
  let tag2 := ld32 4 body in
  s ← store getsb;
  let sn1 := find_snap s tag1 ≫= snap_slot s in
  let sn2 := find_snap s tag2 ≫= snap_slot s in
  if negb (tag1 =? ORIGIN_TAG) && bool_decide (sn1 = None) then
    eek sock EINVAL "source snapshot does not exist"
  else match sn2 with
  | None => eek sock EINVAL "destination snapshot does not exist"
  | Some sn2 =>
      mask1 ← (if tag1 =? ORIGIN_TAG then mret (lnot64 0)
               else match sn1 with Some sn => changelist_mask sn | None => mret 0 end);
      mask2 ← changelist_mask sn2;
      '(err, cl) ← store (traverse_tree_range
        (fun leaf cl => s ← getsb; mret (gen_changelist_leaf s mask1 mask2 leaf cl)) 0
        (init_change_list (allocsize_bits (asi SNAPDATA s)) tag1 tag2));
      if negb (err =? 0) then eek sock err "unable to generate changelist"
      else
        send sock (mkMessage STREAM_CHANGELIST_OK
          (le_split 8 (cl_count cl) ++ le_split 4 (allocsize_bits (asi SNAPDATA s))));;
        send sock (mkMessage 0 (cl_chunks cl ≫= le_split 8))
  end.

Definition snapshot_state (sock : Z) (body : list Z) : srv unit :=
  if negb (length body =? 4)%nat then outerror sock EINVAL "state_request has wrong length"
  else
    s ← store getsb;
    let snap := ld32 0 body in
    let state := match find_snap s snap ≫= snap_slot s with
                 | Some sn => if is_squashed sn then 2 else 0
                 | None => 1
                 end in
    send sock (mkMessage SNAPSHOT_STATE (le_split 4 snap ++ le_split 4 state)).

Definition snapshot_sectors (sock : Z) (body : list Z) : srv unit :=
  s ← store getsb;
  let snap := ld32 0 body in
  let count := if snap =? ORIGIN_TAG then orgsectors (image s)
               else match find_snap s snap ≫= snap_slot s with
                    | Some sn => if is_squashed sn then 0 else sn_sectors sn
                    | None => 0
                    end in
  if count =? 0 then outerror sock EINVAL ("Snapshot " +:+ pretty (Z.to_N snap) +:+ " is not valid")
  else send sock (mkMessage SNAPSHOT_SECTORS (le_split 4 snap ++ le_split 8 count)).

Definition resize (sock : Z) (body : list Z) : srv unit :=
  let orgsize := ld64 0 body in
  let snapsize := ld64 8 body in
  let metasize := ld64 16 body in
  s ← store getsb;
  let same := metadev s =? snapdev s in
  if same && negb (snapsize =? 0) && negb (metasize =? 0) && negb (snapsize =? metasize) then
    outerror sock EINVAL
      "snapshot device and metadata device are the same, can't resize them to two values"
  else
    let metasize := if same && (metasize =? 0) then snapsize else metasize in
    store (change_device_sizes orgsize snapsize metasize);;
    store check_freespace;;
    s ← store getsb;
    let meta := u64 (Z.shiftl (chunks (img_metadata (image s))) (allocsize_bits (img_metadata (image s)))) in
    let snap := if same then meta
                else u64 (Z.shiftl (chunks (img_snapdata (image s))) (allocsize_bits (img_snapdata (image s)))) in
    send sock (mkMessage RESIZE
      (le_split 8 (Z.shiftl (orgsectors (image s)) SECTOR_BITS) ++ le_split 8 snap ++ le_split 8 meta)).

(** ** Starting and stopping *)

Section system.
Context (fdsize64 : Z -> Z).

Definition start_server_msg : srv unit :=
  store (modify (fun w => w <| sb; image := disk_super w |>));;
  s ← store getsb;
  assertM (valid_sb s);;
  store setup_sb;;
  modify (fun sv => sv <| snaplocks := replicate 256 [] |>);;
  store (modsb (fun s => s <| snapmask := calc_snapmask s |>));;
  err ← store (sb_get_device_sizes fdsize64);
  if negb (err =? 0) then halt_with ErrorExit
  else
    s ← store getsb;
    if negb (Z.land (sb_flags (image s)) SB_BUSY =? 0) then store replay_journal;; mret tt
    else
      store (modsb (fun s => s <| image; sb_flags ::= fun f => Z.lor f SB_BUSY |>));;
      store set_sb_dirty;;
      store save_sb.

Definition cleanup : prog unit :=
  commit_deferred_allocs;;
  modsb (fun s => s <| image; sb_flags ::= fun f => Z.land f (Z.lnot SB_BUSY) |>);;
  set_sb_dirty;;
  save_sb.

(** ** Dispatch

    The result of [incoming]: 0, -1 to disconnect the client, -2 to stop. *)

Definition done (m : srv unit) : srv Z := m;; mret 0.

(** A handler for a [struct rw_request], which has a minimum length. *)
Definition rw_handler (body : list Z) (m : srv unit) : srv Z :=
  if (length body <? sizeof_rw_request)%nat then mret (-1) else done m.

Definition incoming (c : Z) (m : message) : srv Z :=
  cl ← get_client c;
  let sock := cl_sock cl in
  let body := m_body m in
  let code := m_code m in
  if (maxbody <? length body)%nat then mret (-1)
  else if code =? QUERY_WRITE then
    rw_handler body (if cl_snaptag cl =? -1 then query_origin_write c sock body
                     else query_snapshot_write c sock body)
  else if code =? QUERY_SNAPSHOT_READ then rw_handler body (query_snapshot_read c sock body)
  else if code =? FINISH_SNAPSHOT_READ then rw_handler body (finish_snapshot_read c body)
  else if code =? IDENTIFY then done (identify c sock body)
  else if (code =? UPLOAD_LOCK) || (code =? FINISH_UPLOAD_LOCK) || (code =? INITIALIZE_SNAPSTORE)
       || (code =? PROTOCOL_ERROR) then mret 0
  else if code =? CREATE_SNAPSHOT then done (create_snapshot_msg sock body)
  else if code =? DELETE_SNAPSHOT then done (delete_snapshot_msg sock body)
  else if code =? DUMP_TREE_RANGE then done (store (show_tree_range (ld64 0 body) (ld64 8 body));; mret tt)
  else if code =? START_SERVER then done start_server_msg
  else if code =? LIST_SNAPSHOTS then done (list_snapshots sock)
  else if code =? PRIORITY then done (set_priority sock body)
  else if code =? USECOUNT then done (set_usecount sock body)
  else if code =? STREAM_CHANGELIST then done (stream_changelist sock body)
  else if code =? STATUS then
    if negb (length body =? 4)%nat then mret (-1)
    else done (b ← store get_status; send sock (mkMessage STATUS_OK b))
  else if code =? REQUEST_SNAPSHOT_STATE then done (snapshot_state sock body)
  else if code =? REQUEST_SNAPSHOT_SECTORS then done (snapshot_sectors sock body)
  else if code =? RESIZE then done (resize sock body)
  else if code =? SHUTDOWN_SERVER then mret (-2)
  else done (send sock (mkMessage PROTOCOL_ERROR
    (le_split 4 ERROR_UNKNOWN_MESSAGE ++ le_split 4 code ++ text_bytes "Server received unknown message"))).

(** ** The event loop

    What [poll] reports: a new connection, a message from a client or its
    hang-up, a message from the agent or its hang-up, a signal to stop. *)
Inductive event : Type :=
  | EvConnect (sock : Z)
  | EvMessage (i : nat) (m : option message)
  | EvAgent (sock : Z) (m : option message)
  | EvTerm.

Definition MAXCLIENTS : nat := 100.

Definition connect (sock : Z) : srv unit :=
  sv ← get;
  assertM (length (clientvec sv) <? MAXCLIENTS)%nat;;
  let c := next_client sv in
  modify (fun sv => sv <| clients ::= insert c (mkClient 0 sock 0 0) |>
                       <| next_client := c + 1 |>
                       <| clientvec ::= fun l => l ++ [c] |>).

(** The client at place [i] of the vector goes away; the last one takes its
    place. *)
Definition disconnect (i : nat) (c : Z) : srv unit :=
  cl ← get_client c;
  (if negb (Z.land (cl_flags cl) SNAPCLIENT_BIT =? 0) then
     k ← client_snap c;
     sn ← snap_at k;
     (if is_squashed sn then mret tt
      else
        s ← store getsb;
        assertM (0 <? default 0 (usecounts s !! Z.to_nat (sn_bit sn)));;
        store (modsb (fun s => s <| usecounts ::= alter (fun n => n - 1) (Z.to_nat (sn_bit sn)) |>)));;
     free_client_locks c
   else mret tt);;
  modify (fun sv => sv <| clients ::= delete c |>
                       <| clientvec ::= fun l => take (length l - 1) (from_option (fun x => <[i := x]> l) l (last l)) |>).

(** [Some err] when the server stops. *)
Definition client_event (i : nat) (m : option message) : srv (option Z) :=
  sv ← get;
  match clientvec sv !! i with
  | None => mret None
  | Some c =>
      r ← match m with Some m => incoming c m | None => mret (-1) end;
      if r =? -1 then disconnect i c;; mret None
      else if r =? -2 then store cleanup;; mret (Some (-1))
      else mret None
  end.

(** A message from the agent is handled with a client of its own. *)
Definition agent_event (sock : Z) (m : option message) : srv (option Z) :=
  match m with
  | None => store cleanup;; mret (Some (-2))
  | Some m =>
      sv ← get;
      let c := next_client sv in
      modify (fun sv => sv <| clients ::= insert c (mkClient (-2) sock (-2) 0) |> <| next_client := c + 1 |>);;
      incoming c m;;
      modify (fun sv => sv <| clients ::= delete c |>);;
      mret None
  end.

Definition server_step (e : event) : srv (option Z) :=
  match e with
  | EvConnect sock => connect sock;; mret None
  | EvMessage i m => client_event i m
  | EvAgent sock m => agent_event sock m
  | EvTerm =>
      store cleanup;;
      sv ← get;
      store (flush_buffers (S (length (dirty_buffers (sv_world sv)))));;
      store evict_buffers;;
      mret (Some (-3))
  end.

(** The events one after the other, until the server stops. *)
Fixpoint snap_server (events : list event) : srv (option Z) :=
  match events with
  | [] => mret None
  | e :: l => r ← server_step e; match r with Some err => mret (Some err) | None => snap_server l end
  end.
End system.
