(* ===== verification/CacheInv.v ===== *)
(** * The buffer cache is transparent

    The invariant of the cache and what it gives to the rest of the server:
    reading and evicting blocks never changes what a block holds, a buffer that
    is in use stays where it is, and no operation of the cache fails. *)

From S2P Require Import Prelude Bytes State Buffer.

(** ** The invariant *)

(** What a sector of the metadata device holds for the server: the data of its
    buffer when there is one with valid data, else the block on the disk. *)
Definition view (w : world) (x : Z) : option block :=
  match bufs w !! x with
  | Some b => if decide (bstate b = BUFFER_INVAL) then disk w !! x else Some (bdata b)
  | None => disk w !! x
  end.

Record cache_ok (w : world) : Prop := {
  lru_nodup : NoDup (lru_buffers w);
  lru_elem : forall x, x ∈ lru_buffers w <-> is_Some (bufs w !! x);
  dirty_nodup : NoDup (dirty_buffers w);
  dirty_elem : forall x, x ∈ dirty_buffers w <-> exists b, bufs w !! x = Some b /\ bstate b = BUFFER_DIRTY;
  journaled_nodup : NoDup (journaled_buffers w);
  journaled_elem : forall x, x ∈ journaled_buffers w <->
    exists b, bufs w !! x = Some b /\ bstate b = BUFFER_JOURNALED;
  count_nonneg : forall x b, bufs w !! x = Some b -> 0 <= bcount b;
  (* a clean buffer that nobody uses has what is on the disk *)
  clean_on_disk : forall x b, bufs w !! x = Some b -> bcount b = 0 -> bstate b = BUFFER_CLEAN ->
    disk w !! x = Some (bdata b) }.

(** All blocks have [n] bytes. *)
Record sized (n : nat) (w : world) : Prop := {
  sized_bufs : forall x b, bufs w !! x = Some b -> length (bdata b) = n;
  sized_free : Forall (fun d => length d = n) (free_buffers w);
  sized_disk : forall x d, disk w !! x = Some d -> length d = n }.

(** The number of buffers the cache may have *)
Definition maxb (w : world) : Z := Z.max MIN_BUFFERS (max_buffers w).

(** Everything but the cache is the same, and so are its dirty and journaled
    buffers and its limit. *)
Record same_store (w w' : world) : Prop := {
  same_sb : sb w' = sb w;
  same_disk : disk w' = disk w;
  same_disk_super : disk_super w' = disk_super w;
  same_org : org_data w' = org_data w;
  same_snap : snap_data w' = snap_data w;
  same_writes : writes w' = writes w;
  same_now : now w' = now w;
  same_dirty : dirty_buffers w' = dirty_buffers w;
  same_journaled : journaled_buffers w' = journaled_buffers w;
  same_max : maxb w' = maxb w }.

#[export] Instance same_store_preorder : PreOrder same_store.
Proof.
  split; [by constructor|]. intros w1 w2 w3 [] []. constructor; congruence.
Qed.

(** [w'] has the buffers of [w] less some that nobody uses and that need no
    writing. *)
Record evicted (w w' : world) : Prop := {
  evicted_store : same_store w w';
  evicted_sub : bufs w' ⊆ bufs w;
  evicted_gone : forall x b, bufs w !! x = Some b -> bufs w' !! x = None ->
    bcount b = 0 /\ (bstate b = BUFFER_CLEAN \/ bstate b = BUFFER_INVAL) }.

#[export] Instance evicted_preorder : PreOrder evicted.
Proof.
  split.
  - intros w. constructor; [done|done|]. intros. congruence.
  - intros w1 w2 w3 [S1 B1 G1] [S2 B2 G2]. constructor; [by etrans|by etrans|].
    intros x b H1 H3. destruct (bufs w2 !! x) as [b'|] eqn:E.
    + pose proof (lookup_weaken _ _ _ _ E B1) as E1. assert (b' = b) as -> by congruence. by apply (G2 x).
    + by apply (G1 x).
Qed.

Lemma evicted_view w w' x : cache_ok w -> evicted w w' -> view w' x = view w x.
Proof.
  intros Hok [Hs Hb Hg]. unfold view. rewrite (same_disk _ _ Hs).
  destruct (bufs w' !! x) as [b|] eqn:E.
  - by rewrite (lookup_weaken _ _ _ _ E Hb).
  - destruct (bufs w !! x) as [b|] eqn:E2; [|done].
    destruct (Hg x b E2 E) as (Hc & [Hst|Hst]); rewrite Hst; cbn.
    + by apply (clean_on_disk w Hok).
    + done.
Qed.

(** ** Lists of sectors *)

Lemma elem_of_unlink x s l : x ∈ unlink s l <-> x ∈ l /\ x <> s.
Proof. unfold unlink. rewrite list_elem_of_In, filter_In, <- list_elem_of_In, negb_true_iff, Z.eqb_neq. done. Qed.

Lemma NoDup_unlink s l : NoDup l -> NoDup (unlink s l).
Proof. unfold unlink. rewrite !NoDup_ListNoDup. apply List.NoDup_filter. Qed.

Lemma NoDup_snoc (x : Z) l : NoDup l -> x ∉ l -> NoDup (l ++ [x]).
Proof.
  intros Hl Hx. apply NoDup_app. split; [done|]. split; [|apply NoDup_singleton].
  intros y Hy ->%list_elem_of_singleton. done.
Qed.

(** ** Eviction *)

(** The step of the eviction loop that frees a buffer. *)
Lemma evict_one_ok w s b :
  cache_ok w -> bufs w !! s = Some b -> bcount b = 0 -> bstate b = BUFFER_CLEAN \/ bstate b = BUFFER_INVAL ->
  let w' := w <| lru_buffers ::= unlink s |> <| bufs ::= delete s |> <| free_buffers ::= fun l => l ++ [bdata b] |> in
  cache_ok w' /\ evicted w w'.
Proof.
  intros Hok Hb Hc Hst w'. split.
  - constructor; cbn.
    + apply NoDup_unlink, Hok.
    + intros x. rewrite elem_of_unlink, (lru_elem w Hok). split.
      * intros [? ?]. by rewrite lookup_delete_ne.
      * intros [b' [? ?]%lookup_delete_Some]. split; [by eexists|done].
    + apply Hok.
    + intros x. rewrite (dirty_elem w Hok). split.
      * intros (b' & Hx & Hd). exists b'. split; [|done]. rewrite lookup_delete_ne; [done|].
        intros ->. assert (b' = b) as -> by congruence. destruct Hst; congruence.
      * intros (b' & [? ?]%lookup_delete_Some & ?). eauto.
    + apply Hok.
    + intros x. rewrite (journaled_elem w Hok). split.
      * intros (b' & Hx & Hd). exists b'. split; [|done]. rewrite lookup_delete_ne; [done|].
        intros ->. assert (b' = b) as -> by congruence. destruct Hst; congruence.
      * intros (b' & [? ?]%lookup_delete_Some & ?). eauto.
    + intros x b' [? ?]%lookup_delete_Some. by eapply Hok.
    + intros x b' [? ?]%lookup_delete_Some. by eapply Hok.
  - constructor; [by constructor|apply delete_subseteq|]. cbn. intros x b' Hx Hn.
    apply lookup_delete_None in Hn as [->|Hn]; [|congruence]. assert (b' = b) as -> by congruence. done.
Qed.

Lemma not_dirty_journaled b :
  buffer_dirty b = false -> buffer_journaled b = false ->
  bstate b = BUFFER_CLEAN \/ bstate b = BUFFER_INVAL.
Proof.
  unfold buffer_dirty, buffer_journaled. intros H1%bool_decide_eq_false H2%bool_decide_eq_false.
  destruct (bstate b); auto; done.
Qed.

Lemma evict_lru_spec n l count w :
  cache_ok w -> sized n w -> NoDup l -> (forall x, x ∈ l -> is_Some (bufs w !! x)) ->
  wp (evict_lru l count) (fun _ w' => cache_ok w' /\ sized n w' /\ evicted w w') w.
Proof.
  revert count w. induction l as [|s l IH]; intros count w Hok Hsz Hnd Hin; cbn [evict_lru].
  { wp_steps. split; [done|]. by split. }
  apply NoDup_cons in Hnd as [Hs Hnd].
  destruct (Hin s) as [b Hb]; [by left|]. wp_step. unfold get_buf. wp_steps. rewrite Hb. wp_steps.
  destruct (_ && _ && _) eqn:Et.
  - apply andb_true_iff in Et as [Et Hj%negb_true_iff]. apply andb_true_iff in Et as [Hc%Z.eqb_eq Hd%negb_true_iff].
    pose proof (not_dirty_journaled b Hd Hj) as Hst.
    destruct (evict_one_ok w s b Hok Hb Hc Hst) as [Hok' Hev].
    unfold remove_buffer_lru, remove_buffer_hash, add_buffer_free. wp_steps. cbn. rewrite Hb. wp_steps.
    { by destruct Hst as [-> | ->]. }
    assert (Hsz' : sized n (w <| lru_buffers ::= unlink s |> <| bufs ::= delete s |>
                              <| free_buffers ::= fun l => l ++ [bdata b] |>)).
    { destruct Hsz as [Hb' Hf Hdk]. constructor; cbn; [|apply Forall_app; split; [done|]|done].
      - intros x b' [? ?]%lookup_delete_Some. by eapply Hb'.
      - constructor; [by eapply Hb'|done]. }
    destruct_if; [by wp_steps|].
    eapply wp_mono; [apply IH; [done|done|done|]|].
    + intros x Hx. cbn. rewrite lookup_delete_ne by (intros ->; done). apply Hin. by right.
    + cbv beta. intros _ w' (? & ? & ?). split; [done|]. split; [done|]. by etrans.
  - apply IH; auto. intros. apply Hin. by right.
Qed.

(** ** Taking a buffer *)

Lemma exist_insert_bstate (m : gmap Z buffer) s b f st x :
  m !! s = Some b ->
  (exists b', m !! x = Some b' /\ bstate b' = st) <->
  (exists b', <[s := b <| bcount ::= f |>]> m !! x = Some b' /\ bstate b' = st).
Proof.
  intros Hs. destruct (decide (x = s)) as [->|Hx].
  - rewrite lookup_insert_eq, Hs. split; intros (b' & [= <-] & ?); eauto.
  - by rewrite lookup_insert_ne.
Qed.

Lemma exist_insert_inval (m : gmap Z buffer) s d n st x :
  m !! s = None -> st <> BUFFER_INVAL ->
  (exists b', m !! x = Some b' /\ bstate b' = st) <->
  (exists b', <[s := mkBuffer d n BUFFER_INVAL]> m !! x = Some b' /\ bstate b' = st).
Proof.
  intros Hs Hst. destruct (decide (x = s)) as [->|Hx].
  - rewrite lookup_insert_eq, Hs. split; intros (b' & [= <-] & ?). done.
  - by rewrite lookup_insert_ne.
Qed.

(** [w'] is [w] with a reference taken to the buffer of [s]; other buffers that
    nobody uses may be gone. *)
Record pinned (w w' : world) (s : Z) : Prop := {
  pin_store : same_store w w';
  pin_others : forall x b, x <> s -> bufs w' !! x = Some b -> bufs w !! x = Some b;
  pin_gone : forall x b, x <> s -> bufs w !! x = Some b -> bufs w' !! x = None ->
    bcount b = 0 /\ (bstate b = BUFFER_CLEAN \/ bstate b = BUFFER_INVAL);
  pin_this : exists b', bufs w' !! s = Some b' /\
    match bufs w !! s with
    | Some b => b' = b <| bcount ::= Z.add 1 |>
    | None => bcount b' = 1 /\ bstate b' = BUFFER_INVAL
    end }.

Lemma pinned_view w w' s x : cache_ok w -> pinned w w' s -> view w' x = view w x.
Proof.
  intros Hok [Hs Ho Hg (b' & Hb' & Hm)]. unfold view. rewrite (same_disk _ _ Hs).
  destruct (decide (x = s)) as [->|Hx].
  - rewrite Hb'. destruct (bufs w !! s) as [b|]; [by subst b'|]. destruct Hm as [_ ->]. done.
  - destruct (bufs w' !! x) as [b|] eqn:E; [by rewrite (Ho x b Hx E)|].
    destruct (bufs w !! x) as [b|] eqn:E2; [|done].
    destruct (Hg x b Hx E2 E) as (Hc & [Hst|Hst]); rewrite Hst; cbn; [|done].
    by apply (clean_on_disk w Hok).
Qed.

(** A buffer in use, or one that needs writing, stays as it is. *)
Lemma pinned_keeps w w' s x b :
  pinned w w' s -> x <> s -> bufs w !! x = Some b ->
  bcount b <> 0 \/ bstate b = BUFFER_DIRTY \/ bstate b = BUFFER_JOURNALED -> bufs w' !! x = Some b.
Proof.
  intros [Hs Ho Hg _] Hx Hb Hin. destruct (bufs w' !! x) as [b'|] eqn:E.
  - rewrite (Ho x b' Hx E) in Hb. congruence.
  - destruct (Hg x b Hx Hb E) as (Hc & Hst). destruct Hin as [?|[?|?]]; [done| |]; destruct Hst; congruence.
Qed.

Lemma evicted_keeps w w' x b :
  evicted w w' -> bufs w !! x = Some b ->
  bcount b <> 0 \/ bstate b = BUFFER_DIRTY \/ bstate b = BUFFER_JOURNALED -> bufs w' !! x = Some b.
Proof.
  intros [Hs Ho Hg] Hb Hin. destruct (bufs w' !! x) as [b'|] eqn:E.
  - pose proof (lookup_weaken _ _ _ _ E Ho). congruence.
  - destruct (Hg x b Hb E) as (Hc & Hst). destruct Hin as [?|[?|?]]; [done| |]; destruct Hst; congruence.
Qed.

Lemma sized_evicted_free n w d l :
  sized n w -> free_buffers w = d :: l -> length d = n /\ sized n (w <| free_buffers := l |>).
Proof.
  intros [Hb Hf Hd] E. rewrite E in Hf. apply Forall_cons in Hf as [? ?]. split; [done|]. by constructor.
Qed.

Lemma cache_ok_free w f : cache_ok w -> cache_ok (w <| free_buffers := f |>).
Proof. intros []. by constructor. Qed.

Lemma cache_ok_max w m : cache_ok w -> cache_ok (w <| max_buffers := m |>).
Proof. intros []. by constructor. Qed.

Lemma remove_free_spec n w (Q : option block -> world -> Prop) :
  cache_ok w -> sized n w ->
  (forall r w', cache_ok w' -> sized n w' -> evicted w w' -> lru_buffers w' = lru_buffers w ->
     (forall d, r = Some d -> length d = n) -> Q r w') ->
  wp remove_buffer_free Q w.
Proof.
  intros Hok Hsz HQ. unfold remove_buffer_free. wp_steps.
  destruct (free_buffers w) as [|d l] eqn:E; wp_steps; [by apply HQ|].
  destruct (sized_evicted_free n w d l Hsz E) as [Hd Hsz'].
  apply HQ; [by apply cache_ok_free|done| |done|congruence].
  constructor; [by constructor|done|]. cbn. congruence.
Qed.

(** The data area of a new buffer: [w1] is the state before the buffer joins the
    LRU list. *)
Definition new_buffer_post (n : nat) (sector : Z) (w : world) (r : option block) (w' : world) : Prop :=
  exists w1, cache_ok w1 /\ sized n w1 /\ evicted w w1 /\
    match r with
    | Some d => length d = n /\ w' = w1 <| lru_buffers ::= fun l => l ++ [sector] |>
    | None => w' = w1
    end.

Lemma new_buffer_spec n sector w :
  cache_ok w -> sized n w -> wp (new_buffer sector n) (new_buffer_post n sector w) w.
Proof.
  intros Hok Hsz. unfold new_buffer. wp_step. wp_step.
  set (w0 := if max_buffers w <? MIN_BUFFERS then _ else w).
  assert (H0 : cache_ok w0 /\ sized n w0 /\ evicted w w0).
  { unfold w0. destruct (Z.ltb_spec (max_buffers w) MIN_BUFFERS); [|done]. split; [by apply cache_ok_max|]. destruct Hsz.
    split; [by constructor|]. constructor; [constructor; try done; unfold maxb; cbn; lia|done|]. cbn. congruence. }
  clearbody w0. destruct H0 as (Hok0 & Hsz0 & Hev0). clear Hok Hsz.
  assert (Hlast : forall (r : option block) w', cache_ok w' -> sized n w' -> evicted w w' ->
    (forall d, r = Some d -> length d = n) ->
    wp (match r with Some d => add_buffer_lru sector;; mret (Some d) | None => mret None end)
      (new_buffer_post n sector w) w').
  { intros [d|] w' Hok' Hsz' Hev' Hd; unfold add_buffer_lru; wp_steps; exists w'; auto 6. }
  wp_step. apply (remove_free_spec n); [done|done|]. intros r1 w1 Hok1 Hsz1 Hev1 Hl1 Hd1.
  assert (Hw1 : evicted w w1) by by etrans.
  wp_step. destruct r1 as [d|]; [by wp_steps; apply (Hlast (Some d))|]. wp_step. wp_step.
  assert (Htail : forall (r : option block) w', cache_ok w' -> sized n w' -> evicted w w' ->
    (forall d, r = Some d -> length d = n) ->
    wp (match r with
        | Some d => mret (Some d)
        | None => w ← get; if buffer_count w =? max_buffers w then mret None else mret (Some (replicate n 0))
        end) (fun r w' => wp (match r with Some d => add_buffer_lru sector;; mret (Some d) | None => mret None end)
      (new_buffer_post n sector w) w') w').
  { intros [d|] w' Hok' Hsz' Hev' Hd; wp_steps; [by apply (Hlast (Some d))|].
    destruct_if; wp_steps; [by apply (Hlast None)|]. apply (Hlast (Some _)); try done. intros d [= <-]. by len. }
  wp_step. destruct_if; [by wp_steps; apply (Htail None)|].
  wp_step. eapply wp_mono.
  { apply (evict_lru_spec n); [done|done|apply Hok1|]. intros x. by rewrite (lru_elem w1 Hok1). }
  cbv beta. intros _ w2 (Hok2 & Hsz2 & Hev2).
  apply (remove_free_spec n); [done|done|]. intros r3 w3 Hok3 Hsz3 Hev3 _ Hd3.
  apply Htail; [done|done| |done]. etrans; [exact Hw1|]. by etrans.
Qed.

Lemma getblk_spec n s w :
  cache_ok w -> sized n w ->
  wp (getblk s n) (fun r w' => cache_ok w' /\ sized n w' /\
    match r with Some x => x = s /\ pinned w w' s | None => evicted w w' end) w.
Proof.
  intros Hok Hsz. unfold getblk. wp_steps. destruct (bufs w !! s) as [b|] eqn:Eb.
  - unfold upd_buf, get_buf. wp_steps. rewrite Eb. wp_steps.
    split; [|split; [|split; [done|]]].
    + constructor; cbn.
      * apply NoDup_snoc; [apply NoDup_unlink, Hok|]. rewrite elem_of_unlink. by intros [_ ?].
      * intros x. rewrite elem_of_app, elem_of_unlink, list_elem_of_singleton, (lru_elem w Hok).
        destruct (decide (x = s)) as [->|Hx].
        -- rewrite lookup_insert_eq. split; [eauto|]. by right.
        -- rewrite lookup_insert_ne by done. tauto.
      * apply Hok.
      * intros x. rewrite (dirty_elem w Hok). apply exist_insert_bstate. exact Eb.
      * apply Hok.
      * intros x. rewrite (journaled_elem w Hok). apply exist_insert_bstate. exact Eb.
      * intros x b' [[<- <-]|[? ?]]%lookup_insert_Some; [|by eapply Hok].
        cbn. pose proof (count_nonneg w Hok _ _ Eb). lia.
      * intros x b' [[<- <-]|[? ?]]%lookup_insert_Some; [|by eapply Hok].
        cbn. pose proof (count_nonneg w Hok _ _ Eb). lia.
    + destruct Hsz as [H1 H2 H3]. constructor; cbn; [|done|done].
      intros x b' [[<- <-]|[? ?]]%lookup_insert_Some; [by eapply (H1 s b)|by eapply H1].
    + constructor; cbn; [by constructor| | |].
      * intros x b' Hx. by rewrite lookup_insert_ne.
      * intros x b' Hx Hb. rewrite lookup_insert_ne by done. congruence.
      * rewrite lookup_insert_eq, Eb. eauto.
  - wp_step. eapply wp_mono; [by apply new_buffer_spec|]. cbv beta.
    intros [d|] w' (w1 & Hok1 & Hsz1 & Hev1 & Hr).
    2:{ subst w'. wp_steps. auto. }
    destruct Hr as [Hd ->]. wp_steps.
    assert (Hn : bufs w1 !! s = None).
    { destruct (bufs w1 !! s) eqn:E1; [|done]. pose proof (lookup_weaken _ _ _ _ E1 (evicted_sub _ _ Hev1)). congruence. }
    split; [|split; [|split; [done|]]].
    + constructor; cbn.
      * apply NoDup_snoc; [apply Hok1|]. rewrite (lru_elem w1 Hok1), Hn. by intros [? ?].
      * intros x. rewrite elem_of_app, list_elem_of_singleton, (lru_elem w1 Hok1).
        destruct (decide (x = s)) as [->|Hx].
        -- rewrite lookup_insert_eq. split; [eauto|]. by right.
        -- rewrite lookup_insert_ne by done. tauto.
      * apply Hok1.
      * intros x. rewrite (dirty_elem w1 Hok1). by apply exist_insert_inval.
      * apply Hok1.
      * intros x. rewrite (journaled_elem w1 Hok1). by apply exist_insert_inval.
      * intros x b' [[<- <-]|[? ?]]%lookup_insert_Some; [done|by eapply Hok1].
      * intros x b' [[<- <-]|[? ?]]%lookup_insert_Some; [done|by eapply Hok1].
    + destruct Hsz1 as [H1 H2 H3]. constructor; cbn; [|done|done].
      intros x b' [[<- <-]|[? ?]]%lookup_insert_Some; [done|by eapply H1].
    + destruct Hev1 as [Hs Hsub Hg]. constructor; cbn.
      * destruct Hs. by constructor.
      * intros x b' Hx. rewrite lookup_insert_ne by done. intros. by eapply lookup_weaken.
      * intros x b' Hx Hb. rewrite lookup_insert_ne by done. by apply Hg.
      * rewrite lookup_insert_eq, Eb. eexists. split; [reflexivity|done].
Qed.

(** ** What the users of the cache see

    References taken, buffers whose data can be used, and clean buffers whose
    data is what the disk has. *)

Definition pins (w : world) (x : Z) : Z :=
  match bufs w !! x with Some b => bcount b | None => 0 end.

Definition usable (w : world) (x : Z) : Prop :=
  exists b, bufs w !! x = Some b /\ bstate b <> BUFFER_INVAL /\ 0 < bcount b.

(** A buffer that cannot be evicted *)
Definition busy (w : world) (x : Z) : Prop :=
  exists b, bufs w !! x = Some b /\ (bcount b <> 0 \/ bstate b = BUFFER_DIRTY \/ bstate b = BUFFER_JOURNALED).

Definition in_sync (w : world) (x : Z) : Prop :=
  forall b, bufs w !! x = Some b -> bstate b = BUFFER_CLEAN -> disk w !! x = Some (bdata b).

Lemma in_sync_unpinned w x : cache_ok w -> pins w x = 0 -> in_sync w x.
Proof. intros Hok Hp b Hb Hst. unfold pins in Hp. rewrite Hb in Hp. by apply (clean_on_disk w Hok). Qed.

(** A step that changes nothing but the cache, as its users see it. *)
Record cstep (w w' : world) : Prop := {
  cs_store : same_store w w';
  cs_view : forall x, view w' x = view w x;
  cs_usable : forall x, usable w x -> 0 < pins w' x -> usable w' x;
  cs_sync : forall x, in_sync w x -> in_sync w' x }.

Lemma cstep_refl w : cstep w w.
Proof. by constructor. Qed.

Lemma usable_pins w x : usable w x -> 0 < pins w x.
Proof. intros (b & Hb & _ & Hc). unfold pins. by rewrite Hb. Qed.

(** The references after [n] more were taken on [s]. *)
Definition pins_add (w w' : world) (s n : Z) : Prop :=
  forall x, pins w' x = pins w x + if decide (x = s) then n else 0.

Lemma pins_evicted w w' x : evicted w w' -> pins w' x = pins w x.
Proof.
  intros [_ Hsub Hg]. unfold pins. destruct (bufs w' !! x) as [b|] eqn:E.
  - by rewrite (lookup_weaken _ _ _ _ E Hsub).
  - destruct (bufs w !! x) as [b|] eqn:E2; [|done]. symmetry. by apply (Hg x b E2 E).
Qed.

Lemma evicted_cstep w w' : cache_ok w -> evicted w w' -> cstep w w'.
Proof.
  intros Hok Hev. constructor.
  - apply Hev.
  - intros x. by apply evicted_view.
  - intros x (b & Hb & Hst & Hc) _. exists b. split; [|done]. eapply evicted_keeps; eauto with lia.
  - intros x Hs b Hb Hst. rewrite (same_disk _ _ (evicted_store _ _ Hev)).
    apply Hs; [|done]. eapply lookup_weaken; [done|apply Hev].
Qed.

Lemma pinned_pins w w' s : pinned w w' s -> pins_add w w' s 1.
Proof.
  intros [_ Ho Hg (b' & Hb' & Hm)] x. unfold pins. case_decide as Hx.
  - subst x. rewrite Hb'. destruct (bufs w !! s) as [b|]; [subst b'; cbn; lia|]. by destruct Hm as [-> _].
  - rewrite Z.add_0_r. destruct (bufs w' !! x) as [b|] eqn:E; [by rewrite (Ho x b Hx E)|].
    destruct (bufs w !! x) as [b|] eqn:E2; [|done]. symmetry. by apply (Hg x b Hx E2 E).
Qed.

Lemma pinned_cstep w w' s : cache_ok w -> pinned w w' s -> cstep w w'.
Proof.
  intros Hok Hp. constructor.
  - apply Hp.
  - intros x. by eapply pinned_view.
  - intros x (b & Hb & Hst & Hc) _. destruct (decide (x = s)) as [->|Hx].
    + destruct (pin_this _ _ _ Hp) as (b' & Hb' & Hm). rewrite Hb in Hm. subst b'.
      eexists. split; [done|]. cbn. split; [done|lia].
    + exists b. split; [|done]. eapply pinned_keeps; eauto. left. lia.
  - intros x Hs b Hb Hst. rewrite (same_disk _ _ (pin_store _ _ _ Hp)). destruct (decide (x = s)) as [->|Hx].
    + destruct (pin_this _ _ _ Hp) as (b' & Hb' & Hm). rewrite Hb' in Hb. injection Hb as <-.
      destruct (bufs w !! s) as [b0|] eqn:E; [|destruct Hm; congruence].
      subst b'. by apply (Hs b0).
    + apply Hs; [|done]. by eapply pin_others.
Qed.

(** ** Changing one buffer *)

(** The state with the buffer of [s] replaced and the lists of dirty and
    journaled buffers given. *)
Definition put_buf (s : Z) (b : buffer) (D J : list Z) (w : world) : world :=
  mkWorld (sb w) (<[s := b]> (bufs w)) (lru_buffers w) (free_buffers w) D J (max_buffers w) (max_evict w)
    (disk w) (disk_super w) (org_data w) (snap_data w) (writes w) (now w).

(** [D] is the list of [w] with [s] on it or not. *)
Definition relinked (l D : list Z) (s : Z) (on : Prop) : Prop :=
  NoDup D /\ forall x, x ∈ D <-> (if decide (x = s) then on else x ∈ l).

Lemma relinked_same l s (on : Prop) : NoDup l -> (s ∈ l <-> on) -> relinked l l s on.
Proof. intros. split; [done|]. intros x. by case_decide; subst. Qed.

Lemma relinked_iff l D s (on on' : Prop) : relinked l D s on -> (on <-> on') -> relinked l D s on'.
Proof. intros [? HD] Hon. split; [done|]. intros x. rewrite HD. by case_decide. Qed.

Lemma relinked_unlink l s (on : Prop) : NoDup l -> ~ on -> relinked l (unlink s l) s on.
Proof.
  intros Hl Hn. split; [by apply NoDup_unlink|]. intros x. rewrite elem_of_unlink. by case_decide; tauto.
Qed.

Lemma relinked_snoc l s (on : Prop) : NoDup l -> s ∉ l -> on -> relinked l (l ++ [s]) s on.
Proof.
  intros Hl Hs Hon. split; [by apply NoDup_snoc|]. intros x.
  rewrite elem_of_app, list_elem_of_singleton. case_decide; tauto.
Qed.

Lemma put_buf_ok w s b b' D J :
  cache_ok w -> bufs w !! s = Some b ->
  relinked (dirty_buffers w) D s (bstate b' = BUFFER_DIRTY) ->
  relinked (journaled_buffers w) J s (bstate b' = BUFFER_JOURNALED) ->
  0 <= bcount b' -> (bcount b' = 0 -> bstate b' = BUFFER_CLEAN -> disk w !! s = Some (bdata b')) ->
  cache_ok (put_buf s b' D J w).
Proof.
  intros Hok Hb [HD1 HD2] [HJ1 HJ2] Hc Hcl.
  assert (Helem : forall (P : buffer -> Prop) x,
    (exists c, <[s := b']> (bufs w) !! x = Some c /\ P c) <->
    (if decide (x = s) then P b' else exists c, bufs w !! x = Some c /\ P c)).
  { intros P x. case_decide as Hx; [subst x; rewrite lookup_insert_eq; split; [intros (c & [= <-] & ?); done|eauto]|].
    by rewrite lookup_insert_ne. }
  constructor; cbn; [apply Hok| |done| |done| | |].
  - intros x. rewrite (lru_elem w Hok). destruct (decide (x = s)) as [->|Hx].
    + rewrite lookup_insert_eq, Hb. split; eauto.
    + by rewrite lookup_insert_ne.
  - intros x. rewrite HD2, (Helem (fun c => bstate c = BUFFER_DIRTY)). case_decide; [done|]. apply Hok.
  - intros x. rewrite HJ2, (Helem (fun c => bstate c = BUFFER_JOURNALED)). case_decide; [done|]. apply Hok.
  - intros x c [[<- <-]|[? ?]]%lookup_insert_Some; [done|by eapply Hok].
  - intros x c [[<- <-]|[? ?]]%lookup_insert_Some; [done|by eapply Hok].
Qed.

Lemma put_buf_sized n w s b' D J : sized n w -> length (bdata b') = n -> sized n (put_buf s b' D J w).
Proof.
  intros [H1 H2 H3] Hl. constructor; cbn; [|done|done].
  intros x b [[<- <-]|[? ?]]%lookup_insert_Some; [done|by eapply H1].
Qed.

Lemma put_buf_view w s b b' D J x :
  bufs w !! s = Some b ->
  view (put_buf s b' D J w) x =
  if decide (x = s) then (if decide (bstate b' = BUFFER_INVAL) then disk w !! s else Some (bdata b')) else view w x.
Proof.
  intros Hb. unfold view. cbn. case_decide as Hx; [subst x; by rewrite lookup_insert_eq|].
  by rewrite lookup_insert_ne.
Qed.

Lemma put_buf_pins w s b b' D J x :
  bufs w !! s = Some b -> pins (put_buf s b' D J w) x = pins w x + if decide (x = s) then bcount b' - bcount b else 0.
Proof.
  intros Hb. unfold pins. cbn. case_decide as Hx; [subst x; rewrite lookup_insert_eq, Hb; lia|].
  rewrite lookup_insert_ne by done. lia.
Qed.

Lemma dirty_iff w s b : cache_ok w -> bufs w !! s = Some b -> s ∈ dirty_buffers w <-> bstate b = BUFFER_DIRTY.
Proof. intros Hok Hb. rewrite (dirty_elem w Hok). split; [intros (b' & ? & ?); congruence|eauto]. Qed.

Lemma journaled_iff w s b :
  cache_ok w -> bufs w !! s = Some b -> s ∈ journaled_buffers w <-> bstate b = BUFFER_JOURNALED.
Proof. intros Hok Hb. rewrite (journaled_elem w Hok). split; [intros (b' & ? & ?); congruence|eauto]. Qed.

Lemma wp_get_buf s b w (Q : buffer -> world -> Prop) : bufs w !! s = Some b -> Q b w -> wp (get_buf s) Q w.
Proof. intros Hb HQ. unfold get_buf. wp_steps. by rewrite Hb. Qed.

Lemma wp_upd_buf s b f w (Q : unit -> world -> Prop) :
  bufs w !! s = Some b -> Q tt (put_buf s (f b) (dirty_buffers w) (journaled_buffers w) w) -> wp (upd_buf s f) Q w.
Proof. intros Hb HQ. unfold upd_buf. wp_step. apply (wp_get_buf s b); [done|]. by wp_steps. Qed.

Lemma wp_get_data s w (Q : block -> world -> Prop) :
  usable w s -> (forall d, view w s = Some d -> Q d w) -> wp (get_data s) Q w.
Proof.
  intros (b & Hb & Hst & _) HQ. unfold get_data. wp_step. apply (wp_get_buf s b); [done|]. wp_steps.
  apply HQ. unfold view. rewrite Hb. by rewrite decide_False.
Qed.

(** ** Releasing, changing and marking a buffer *)

Lemma brelse_spec n s w :
  cache_ok w -> sized n w -> 0 < pins w s -> in_sync w s ->
  wp (brelse s) (fun _ w' => cache_ok w' /\ sized n w' /\ cstep w w' /\ pins_add w w' s (-1)) w.
Proof.
  intros Hok Hsz Hp Hsync. unfold pins in Hp. destruct (bufs w !! s) as [b|] eqn:Hb; [|lia].
  unfold brelse. wp_step. apply (wp_get_buf s b); [done|]. wp_steps.
  { apply negb_true_iff, Z.eqb_neq. lia. }
  apply (wp_upd_buf s b); [done|].
  set (b' := b <| bcount ::= fun n => n - 1 |>).
  split; [|split; [|split]].
  - eapply put_buf_ok; [done|done| | | |]; cbn; [| |lia|].
    + apply relinked_same; [apply Hok|]. by apply dirty_iff.
    + apply relinked_same; [apply Hok|]. by apply journaled_iff.
    + intros _ Hst. by apply Hsync.
  - apply put_buf_sized; [done|]. exact (sized_bufs n w Hsz s b Hb).
  - constructor; [by constructor| | |].
    + intros x. rewrite (put_buf_view w s b) by done. case_decide; [|done]. subst x. unfold view. by rewrite Hb.
    + intros x (c & Hc & Hst & Hcc) Hpx. rewrite (put_buf_pins w s b) in Hpx by done.
      unfold usable. cbn. destruct (decide (x = s)) as [->|Hx].
      * rewrite lookup_insert_eq. assert (c = b) as -> by congruence. eexists. split; [done|]. cbn. split; [done|].
        unfold pins in Hpx. rewrite Hb in Hpx. cbn in Hpx. lia.
      * rewrite lookup_insert_ne by done. eauto.
    + intros x Hx c. cbn. intros [[<- <-]|[? ?]]%lookup_insert_Some; [|by apply Hx]. cbn. intros. by apply Hsync.
  - intros x. rewrite (put_buf_pins w s b) by done. cbn. destruct (decide (x = s)); lia.
Qed.

(** Everything but the cache is the same. *)
Record same_ext (w w' : world) : Prop := {
  ext_sb : sb w' = sb w;
  ext_disk : disk w' = disk w;
  ext_disk_super : disk_super w' = disk_super w;
  ext_org : org_data w' = org_data w;
  ext_snap : snap_data w' = snap_data w;
  ext_writes : writes w' = writes w;
  ext_now : now w' = now w;
  ext_max : maxb w' = maxb w }.

#[export] Instance same_ext_preorder : PreOrder same_ext.
Proof. split; [by constructor|]. intros w1 w2 w3 [] []. constructor; congruence. Qed.

Lemma same_store_ext w w' : same_store w w' -> same_ext w w'.
Proof. intros []. by constructor. Qed.

(** [w'] is [w] with the block of [s] changed to [d] in its buffer, which is
    now dirty. *)
Record estep (w w' : world) (s : Z) (d : block) : Prop := {
  es_ext : same_ext w w';
  es_view : forall x, view w' x = if decide (x = s) then Some d else view w x;
  es_pins : forall x, pins w' x = pins w x;
  es_usable : forall x, usable w x -> usable w' x;
  es_sync : forall x, in_sync w x -> in_sync w' x;
  es_this : usable w' s /\ in_sync w' s;
  es_dirty : forall x, x ∈ dirty_buffers w' <-> x ∈ dirty_buffers w \/ x = s;
  es_busy : forall x, busy w' x -> busy w x }.

Lemma put_buf_id w s b :
  bufs w !! s = Some b -> put_buf s b (dirty_buffers w) (journaled_buffers w) w = w.
Proof. intros Hb. unfold put_buf. rewrite insert_id by done. by destruct w. Qed.

Lemma set_buffer_dirty_run s b w (Q : unit -> world -> Prop) :
  bufs w !! s = Some b -> cache_ok w ->
  (forall D J, relinked (dirty_buffers w) D s True -> relinked (journaled_buffers w) J s False ->
     Q tt (put_buf s (b <| bstate := BUFFER_DIRTY |>) D J w)) ->
  wp (set_buffer_dirty s) Q w.
Proof.
  intros Hb Hok HQ. unfold set_buffer_dirty. wp_step. apply (wp_get_buf s b); [done|].
  pose proof (dirty_iff w s b Hok Hb) as HD. pose proof (journaled_iff w s b Hok Hb) as HJ.
  unfold buffer_dirty. case_bool_decide as Hd.
  - wp_steps. specialize (HQ (dirty_buffers w) (journaled_buffers w)).
    replace (b <| bstate := BUFFER_DIRTY |>) with b in HQ by (destruct b; cbn in *; by subst).
    rewrite (put_buf_id w s b Hb) in HQ. apply HQ; apply relinked_same; try apply Hok; [tauto|].
    rewrite HJ, Hd. split; [congruence|done].
  - unfold buffer_journaled, remove_buffer_journaled. wp_step. case_bool_decide as Hj; wp_steps.
    + apply (wp_upd_buf s b); [done|]. apply HQ.
      * apply relinked_snoc; [apply Hok|tauto|done].
      * cbn. apply relinked_unlink; [apply Hok|tauto].
    + apply (wp_upd_buf s b); [done|]. apply HQ.
      * apply relinked_snoc; [apply Hok|tauto|done].
      * cbn. apply relinked_same; [apply Hok|tauto].
Qed.

Lemma put_buf_twice w s b1 b2 D1 J1 D2 J2 :
  put_buf s b2 D2 J2 (put_buf s b1 D1 J1 w) = put_buf s b2 D2 J2 w.
Proof. unfold put_buf. cbn [bufs]. by rewrite insert_insert_eq. Qed.

(** New data for a buffer in use, which is then marked dirty. *)
Lemma edit_spec n s d w :
  cache_ok w -> sized n w -> 0 < pins w s -> length d = n ->
  wp (set_data s d) (fun _ => wp (set_buffer_dirty s)
    (fun _ w' => cache_ok w' /\ sized n w' /\ estep w w' s d)) w.
Proof.
  intros Hok Hsz Hp Hd. unfold pins in Hp. destruct (bufs w !! s) as [b|] eqn:Hb; [|lia].
  unfold set_data. apply (wp_upd_buf s b); [done|].
  set (b1 := b <| bdata := d |>). set (w1 := put_buf s b1 _ _ w).
  assert (Hb1 : bufs w1 !! s = Some b1) by (cbn; by rewrite lookup_insert_eq).
  assert (Hok1 : cache_ok w1).
  { eapply put_buf_ok; [done|done| | | |]; cbn; [| |lia|lia].
    - apply relinked_same; [apply Hok|]. by apply dirty_iff.
    - apply relinked_same; [apply Hok|]. by apply journaled_iff. }
  apply (set_buffer_dirty_run s b1); [done|done|]. intros D J HD HJ. cbn in HD, HJ.
  unfold w1. rewrite put_buf_twice. set (b2 := b1 <| bstate := BUFFER_DIRTY |>).
  split; [|split].
  - eapply put_buf_ok; [done|done| | | |]; cbn; [| |lia|lia].
    + by eapply relinked_iff.
    + by eapply relinked_iff.
  - apply put_buf_sized; [done|]. done.
  - constructor; [by constructor| | | | | | |].
    + intros x. rewrite (put_buf_view w s b) by done. by case_decide.
    + intros x. rewrite (put_buf_pins w s b) by done. cbn. case_decide; lia.
    + intros x (c & Hc & Hst & Hcc). unfold usable. cbn. destruct (decide (x = s)) as [->|Hx].
      * rewrite lookup_insert_eq. eexists. split; [done|]. cbn. split; [done|]. congruence.
      * rewrite lookup_insert_ne by done. eauto.
    + intros x Hx c. cbn. intros [[<- <-]|[? ?]]%lookup_insert_Some; [done|by apply Hx].
    + split.
      * unfold usable. cbn. rewrite lookup_insert_eq. by eexists.
      * intros c. cbn. intros [[_ <-]|[? ?]]%lookup_insert_Some; [done|done].
    + cbn. intros x. destruct HD as [_ HD]. rewrite HD. case_decide; tauto.
    + intros x (c & Hc & Hst). cbn in Hc. apply lookup_insert_Some in Hc as [[<- <-]|[? ?]]; [|by exists c].
      exists b. split; [done|]. left. lia.
Qed.

(** ** Reading a block *)

Lemma set_buffer_uptodate_run s b w (Q : unit -> world -> Prop) :
  bufs w !! s = Some b -> cache_ok w ->
  (forall D J, relinked (dirty_buffers w) D s False -> relinked (journaled_buffers w) J s False ->
     (bstate b = BUFFER_INVAL -> D = dirty_buffers w /\ J = journaled_buffers w) ->
     Q tt (put_buf s (b <| bstate := BUFFER_CLEAN |>) D J w)) ->
  wp (set_buffer_uptodate s) Q w.
Proof.
  intros Hb Hok HQ. unfold set_buffer_uptodate. wp_step. apply (wp_get_buf s b); [done|].
  pose proof (dirty_iff w s b Hok Hb) as HD. pose proof (journaled_iff w s b Hok Hb) as HJ.
  unfold buffer_dirty, buffer_journaled, remove_buffer_journaled.
  wp_step. case_bool_decide as Hd; wp_steps.
  - rewrite bool_decide_false by congruence. wp_steps. apply (wp_upd_buf s b); [done|]. apply HQ.
    + apply relinked_unlink; [apply Hok|tauto].
    + apply relinked_same; [apply Hok|]. rewrite HJ, Hd. split; [congruence|done].
    + congruence.
  - case_bool_decide as Hj; wp_steps; apply (wp_upd_buf s b); try done; apply HQ; cbn.
    + apply relinked_same; [apply Hok|tauto].
    + apply relinked_unlink; [apply Hok|tauto].
    + congruence.
    + apply relinked_same; [apply Hok|tauto].
    + apply relinked_same; [apply Hok|tauto].
    + done.
Qed.

(** What a read of [s] leaves behind. *)
Definition bread_post (n : nat) (s : Z) (w : world) (r : option Z) (w' : world) : Prop :=
  cache_ok w' /\ sized n w' /\ cstep w w' /\
  match r with
  | Some x => x = s /\ usable w' s /\ pins_add w w' s 1 /\ is_Some (view w s)
  | None => forall x, pins w' x = pins w x
  end.

Lemma cstep_trans w1 w2 w3 :
  cstep w1 w2 -> cstep w2 w3 -> (forall x, usable w1 x -> 0 < pins w3 x -> 0 < pins w2 x) -> cstep w1 w3.
Proof.
  intros [S1 V1 U1 Y1] [S2 V2 U2 Y2] Hp. constructor; [by etrans| | |by auto].
  - intros x. by rewrite V2.
  - intros x Hu H3. apply U2; [apply U1; [done|by apply Hp]|done].
Qed.

Lemma usable_view w s : usable w s -> is_Some (view w s).
Proof. intros (b & Hb & Hst & _). unfold view. rewrite Hb, decide_False by done. by eexists. Qed.

(** Loading the block of an invalid buffer. *)
Lemma load_spec n s b d w :
  cache_ok w -> sized n w -> bufs w !! s = Some b -> bstate b = BUFFER_INVAL -> 0 < bcount b ->
  disk w !! s = Some d ->
  let w' := put_buf s (b <| bdata := d |> <| bstate := BUFFER_CLEAN |>) (dirty_buffers w) (journaled_buffers w) w in
  cache_ok w' /\ sized n w' /\ cstep w w' /\ usable w' s /\ forall x, pins w' x = pins w x.
Proof.
  intros Hok Hsz Hb Hst Hc Hd w'.
  pose proof (dirty_iff w s b Hok Hb) as HD. pose proof (journaled_iff w s b Hok Hb) as HJ. rewrite Hst in HD, HJ.
  split; [|split; [|split; [|split]]].
  - eapply put_buf_ok; [done|done| | | |]; cbn; [| |lia|done].
    + apply relinked_same; [apply Hok|]. rewrite HD. split; congruence.
    + apply relinked_same; [apply Hok|]. rewrite HJ. split; congruence.
  - apply put_buf_sized; [done|]. exact (sized_disk n w Hsz s d Hd).
  - constructor; [by constructor| | |].
    + intros x. unfold w'. rewrite (put_buf_view w s b) by done. case_decide; [|done]. subst x.
      rewrite decide_False by done. unfold view. by rewrite Hb, decide_True, Hd by done.
    + intros x (c & Hx & ? & ?) _. unfold usable, w'. cbn. destruct (decide (x = s)) as [->|?].
      * congruence.
      * rewrite lookup_insert_ne by done. eauto.
    + intros x Hx c. unfold w'. cbn. intros [[<- <-]|[? ?]]%lookup_insert_Some; [done|by apply Hx].
  - unfold usable, w'. cbn. rewrite lookup_insert_eq. eexists. split; [done|]. split; [done|]. cbn. lia.
  - intros x. unfold w'. rewrite (put_buf_pins w s b) by done. cbn. case_decide; lia.
Qed.

Lemma bread_spec n s w : cache_ok w -> sized n w -> wp (bread s n) (bread_post n s w) w.
Proof.
  intros Hok Hsz. unfold bread. wp_step. eapply wp_mono; [by apply getblk_spec|]. cbv beta.
  intros [x|] w1 (Hok1 & Hsz1 & Hr).
  2:{ wp_steps. split; [done|]. split; [done|]. split; [by apply evicted_cstep|]. intros y. by apply pins_evicted. }
  destruct Hr as [-> Hpin]. pose proof (pinned_cstep w w1 s Hok Hpin) as Hcs.
  pose proof (pinned_pins w w1 s Hpin) as Hpa.
  destruct (pin_this w w1 s Hpin) as (b & Hb & _).
  assert (Hcount : 0 < bcount b).
  { specialize (Hpa s). unfold pins in Hpa at 1. rewrite Hb, decide_True in Hpa by done.
    assert (0 <= pins w s); [|lia]. unfold pins. destruct (bufs w !! s) as [b0|] eqn:E; [|done]. by eapply Hok. }
  wp_step. apply (wp_get_buf s b); [done|]. case_bool_decide as Hst; cbn [negb].
  - wp_step. unfold read_buffer. wp_steps. destruct (disk w1 !! s) as [d|] eqn:Ed.
    + wp_step. unfold set_data. apply (wp_upd_buf s b); [done|]. wp_step.
      set (b1 := b <| bdata := d |>).
      destruct (load_spec n s b d w1 Hok1 Hsz1 Hb Hst Hcount Ed) as (Hok2 & Hsz2 & Hcs2 & Hu2 & Hp2).
      apply (set_buffer_uptodate_run s b1).
      { cbn. by rewrite lookup_insert_eq. }
      { eapply put_buf_ok; [done|done| | | |]; cbn; [| |lia|congruence].
        - apply relinked_same; [apply Hok1|]. by apply (dirty_iff w1).
        - apply relinked_same; [apply Hok1|]. by apply (journaled_iff w1). }
      intros D J _ _ HDJ. destruct (HDJ Hst) as [-> ->]. rewrite put_buf_twice. wp_steps. cbn [Z.eqb negb].
      wp_step. eapply wp_get_buf; [cbn; by rewrite lookup_insert_eq|]. cbn. wp_steps.
      split; [exact Hok2|]. split; [exact Hsz2|]. split; [|split; [done|split; [exact Hu2|split]]].
      * eapply cstep_trans; [done|exact Hcs2|]. intros x _ Hx. by rewrite <- Hp2.
      * intros x. rewrite <- Hpa. apply Hp2.
      * rewrite <- (cs_view _ _ Hcs). rewrite <- (cs_view _ _ Hcs2). by apply usable_view.
    + wp_steps. change (- EIO =? 0) with false. cbn [negb]. wp_step.
      assert (Hp1 : 0 < pins w1 s) by (unfold pins; by rewrite Hb).
      eapply wp_mono; [apply (brelse_spec n); [done|done|done|]|].
      { intros c Hc ?. congruence. }
      cbv beta. intros _ w2 (Hok2 & Hsz2 & Hcs2 & Hpa2). wp_steps.
      split; [done|]. split; [done|]. split.
      * eapply cstep_trans; [done|done|]. intros x _ Hx. rewrite Hpa2 in Hx. case_decide; subst; lia.
      * intros x. rewrite Hpa2, Hpa. destruct (decide (x = s)); lia.
  - wp_steps. assert (Hu : usable w1 s) by (by exists b).
    split; [done|]. split; [done|]. split; [done|]. split; [done|]. split; [done|]. split; [done|].
    rewrite <- (cs_view _ _ Hcs). by apply usable_view.
Qed.
