(* ===== verification/CacheRoom.v ===== *)
(** * When the cache has room

    [getblk] returns no buffer only when every buffer of a full cache is in use
    or waits to be written; with fewer such buffers than the cache may have a
    read of a block of the device succeeds. *)

From S2P Require Import Prelude Bytes State Buffer CacheInv.

(** Every buffer of a full cache is in use or waits to be written. *)
Definition crowded (w : world) : Prop :=
  Z.of_nat (length (lru_buffers w)) = maxb w /\ forall x, x ∈ lru_buffers w -> busy w x.

(** ** Eviction finds a buffer when there is one *)

Lemma not_evictable b :
  (bcount b =? 0) && negb (buffer_dirty b) && negb (buffer_journaled b) = false ->
  bcount b <> 0 \/ bstate b = BUFFER_DIRTY \/ bstate b = BUFFER_JOURNALED.
Proof.
  unfold buffer_dirty, buffer_journaled. destruct (Z.eqb_spec (bcount b) 0); [|by left]. cbn.
  case_bool_decide; [by right; left|]. case_bool_decide; [by right; right|done].
Qed.

Lemma evict_lru_room l count w :
  NoDup l -> (forall x, x ∈ l -> is_Some (bufs w !! x)) ->
  wp (evict_lru l count) (fun _ w' => (w' = w /\ forall x, x ∈ l -> busy w x) \/ free_buffers w' <> []) w.
Proof.
  revert count w. induction l as [|s l IH]; intros count w Hnd Hin; cbn [evict_lru].
  { wp_steps. left. split; [done|]. by intros x ?%elem_of_nil. }
  apply NoDup_cons in Hnd as [Hs Hnd]. destruct (Hin s) as [b Hb]; [by left|].
  wp_step. unfold get_buf. wp_steps. rewrite Hb. wp_steps. destruct (_ && _ && _) eqn:Et.
  - assert (Hst : bstate b = BUFFER_CLEAN \/ bstate b = BUFFER_INVAL).
    { apply andb_true_iff in Et as [Et Hj%negb_true_iff]. apply andb_true_iff in Et as [_ Hd%negb_true_iff]. by apply not_dirty_journaled. }
    unfold remove_buffer_lru, remove_buffer_hash, add_buffer_free. wp_steps. cbn. rewrite Hb. wp_steps.
    { by destruct Hst as [-> | ->]. }
    destruct_if; [wp_steps; right; cbn; by destruct (free_buffers w)|].
    eapply wp_mono; [apply IH; [done|]|].
    + intros x Hx. cbn. rewrite lookup_delete_ne by (intros ->; done). apply Hin. by right.
    + cbv beta. intros _ w' [[-> _]|?]; right; [cbn; by destruct (free_buffers w)|done].
  - eapply wp_mono; [apply IH; [done|]; intros x Hx; apply Hin; by right|].
    cbv beta. intros _ w' [[-> H]|?]; [left|by right]. split; [done|].
    intros x Hx. apply elem_of_cons in Hx as [->|Hx]; [|by apply H]. exists b. split; [done|]. by apply not_evictable.
Qed.

Lemma new_buffer_room sector n w :
  cache_ok w -> wp (new_buffer sector n) (fun r _ => r = None -> crowded w) w.
Proof.
  intros Hok. unfold new_buffer. wp_step. wp_step.
  set (w0 := if max_buffers w <? MIN_BUFFERS then _ else w).
  assert (H0 : max_buffers w0 = maxb w /\ bufs w0 = bufs w /\ lru_buffers w0 = lru_buffers w /\ free_buffers w0 = free_buffers w).
  { unfold w0, maxb. destruct (Z.ltb_spec (max_buffers w) MIN_BUFFERS); cbn; split_and!; try done; lia. }
  clearbody w0. destruct H0 as (Hmax & Hb & Hl & Hf).
  wp_step. unfold remove_buffer_free at 1. wp_steps. destruct (free_buffers w0) as [|d l] eqn:Ef; wp_steps.
  2:{ unfold add_buffer_lru. by wp_steps. }
  destruct (Z.ltb_spec (buffer_count w0) (max_buffers w0)).
  { wp_steps. rewrite (proj2 (Z.eqb_neq _ _)) by lia. unfold add_buffer_lru. by wp_steps. }
  wp_step. eapply wp_mono.
  { apply evict_lru_room; [rewrite Hl; apply Hok|]. intros x. rewrite Hl, Hb. apply Hok. }
  cbv beta. intros _ w1 Hcase. unfold remove_buffer_free. wp_steps.
  destruct (free_buffers w1) as [|d l] eqn:E1; wp_steps.
  2:{ unfold add_buffer_lru. by wp_steps. }
  destruct Hcase as [[-> Hbusy]|?]; [|done].
  destruct (Z.eqb_spec (buffer_count w0) (max_buffers w0)) as [Ec|Ec]; unfold add_buffer_lru; wp_steps; [|done].
  intros _. unfold buffer_count in Ec. rewrite Hl in Ec. split; [lia|]. intros x Hx. rewrite <- Hl in Hx.
  destruct (Hbusy x Hx) as (b & Hxb & ?). exists b. by rewrite <- Hb.
Qed.

Lemma getblk_room s n w :
  cache_ok w -> wp (getblk s n) (fun r _ => r = None -> crowded w) w.
Proof.
  intros Hok. unfold getblk. wp_steps. destruct (bufs w !! s) as [b|] eqn:Eb.
  - unfold upd_buf, get_buf. wp_steps. rewrite Eb. by wp_steps.
  - wp_step. eapply wp_mono; [by apply new_buffer_room|]. cbv beta. intros [d|] w' Hc; wp_steps; [done|]. intros _. by apply Hc.
Qed.

(** A read fails only in a crowded cache or past the end of the device. *)
Lemma bread_room s n w :
  cache_ok w -> sized n w ->
  wp (bread s n) (fun r _ => r = None -> crowded w \/ disk w !! s = None) w.
Proof.
  intros Hok Hsz. unfold bread. wp_step. eapply wp_mono.
  { apply wp_conj; [by apply getblk_spec|by apply (getblk_room s n)]. }
  cbv beta. intros [x|] w1 ((Hok1 & Hsz1 & Hr) & Hc); [|wp_steps; intros _; left; by apply Hc].
  destruct Hr as [-> Hpin]. destruct (pin_this w w1 s Hpin) as (b & Hb & _).
  wp_step. apply (wp_get_buf s b); [done|]. case_bool_decide as Hst; cbn [negb]; [|by wp_steps].
  wp_step. unfold read_buffer. wp_steps. rewrite (same_disk _ _ (pin_store _ _ _ Hpin)).
  destruct (disk w !! s) as [d|] eqn:Hd.
  - wp_step. unfold set_data. apply (wp_upd_buf s b); [done|]. wp_step. apply (set_buffer_uptodate_run s (b <| bdata := d |>)).
    { cbn. by rewrite lookup_insert_eq. }
    { eapply put_buf_ok; [done|done| | | |]; cbn.
      - apply relinked_same; [apply Hok1|]. by apply (dirty_iff w1).
      - apply relinked_same; [apply Hok1|]. by apply (journaled_iff w1).
      - by eapply Hok1.
      - congruence. }
    intros D J _ _ _. wp_steps. cbn [Z.eqb negb]. wp_step. eapply wp_get_buf; [cbn; by rewrite lookup_insert_eq|].
    cbn. by wp_steps.
  - wp_steps. change (- EIO =? 0) with false. cbn [negb]. wp_step. unfold brelse. wp_step. apply (wp_get_buf s b); [done|].
    wp_steps.
    + apply negb_true_iff, Z.eqb_neq. pose proof (pinned_pins w w1 s Hpin s) as Hp. unfold pins in Hp. rewrite Hb, decide_True in Hp by done.
      destruct (bufs w !! s) as [b0|] eqn:E; [pose proof (count_nonneg w Hok s b0 E)|]; lia.
    + apply (wp_upd_buf s b); [done|]. wp_steps. by right.
Qed.

(** ** Counting the buffers that cannot be evicted *)

#[export] Instance busy_dec w x : Decision (busy w x).
Proof.
  unfold busy. destruct (bufs w !! x) as [b|]; [|right; by intros (? & ? & _)].
  destruct (decide (bcount b <> 0 \/ bstate b = BUFFER_DIRTY \/ bstate b = BUFFER_JOURNALED)) as [H|H].
  - left. eauto.
  - right. intros (? & [= <-] & ?). done.
Defined.

Definition load (w : world) : Z := Z.of_nat (length (filter (busy w) (lru_buffers w))).

(** The cache cannot take [k] buffers more. *)
Definition no_room (w : world) (k : Z) : Prop := maxb w < load w + k.

Lemma crowded_no_room w : crowded w -> no_room w 1.
Proof.
  intros [Hl Hb]. unfold no_room, load.
  assert (E : forall l : list Z, (forall x, x ∈ l -> busy w x) -> filter (busy w) l = l).
  { induction l as [|x l IH]; intros H; [done|]. rewrite filter_cons_True by (apply H; by left).
    f_equal. apply IH. intros y Hy. apply H. by right. }
  rewrite E by done. lia.
Qed.

(** Only the buffers of [l] are busy that were not before. *)
Definition busies (w w' : world) (l : list Z) : Prop := forall x, busy w' x -> busy w x \/ x ∈ l.

Lemma busies_load w w' l : cache_ok w -> cache_ok w' -> busies w w' l -> load w' <= load w + Z.of_nat (length l).
Proof.
  intros Hok Hok' Hb. unfold load.
  assert (H : (length (filter (busy w') (lru_buffers w')) <= length (filter (busy w) (lru_buffers w) ++ l))%nat).
  { apply submseteq_length, NoDup_submseteq; [apply NoDup_filter, Hok'|]. intros x [Hx _]%list_elem_of_filter.
    apply elem_of_app. destruct (Hb x Hx) as [Hw|]; [left|by right]. apply list_elem_of_filter. split; [done|].
    destruct Hw as (b & Hb' & _). apply Hok. eauto. }
  rewrite length_app in H. lia.
Qed.

Lemma busies_refl w : busies w w [].
Proof. by left. Qed.

Lemma busies_trans w1 w2 w3 l1 l2 : busies w1 w2 l1 -> busies w2 w3 l2 -> busies w1 w3 (l1 ++ l2).
Proof. intros H1 H2 x Hx. rewrite elem_of_app. destruct (H2 x Hx) as [H|]; [|tauto]. destruct (H1 x H); tauto. Qed.

Lemma busy_iff w x : cache_ok w -> busy w x <-> 0 < pins w x \/ x ∈ dirty_buffers w \/ x ∈ journaled_buffers w.
Proof.
  intros Hok. rewrite (dirty_elem w Hok), (journaled_elem w Hok). unfold busy, pins. split.
  - intros (b & Hb & [Hc|[Hd|Hj]]); [left|eauto|eauto]. rewrite Hb. pose proof (count_nonneg w Hok x b Hb). lia.
  - intros [Hp|[(b & Hb & Hd)|(b & Hb & Hj)]]; [|eauto|eauto]. destruct (bufs w !! x) as [b|]; [|lia].
    exists b. split; [done|]. left. lia.
Qed.
