(* ===== verification/CacheMem.v ===== *)
(** * The rules for the users of the cache

    The state of the cache between operations, the references that an operation
    takes and gives back, and the rules for reading and releasing a block. *)

From S2P Require Import Prelude Bytes State Buffer CacheInv CacheRoom.

(** ** The state of the cache between operations *)

(** The cache is well formed, its blocks have the size of a metadata block, and
    every clean buffer has what the disk has. *)
Record mem_ok (w : world) : Prop := {
  mem_cache : cache_ok w;
  mem_sized : sized (Z.to_nat (allocsize (metadata (sb w)))) w;
  mem_sync : forall x, in_sync w x }.

(** How often [x] is in a list of sectors. *)
Definition occ (x : Z) (l : list Z) : Z := Z.of_nat (length (List.filter (Z.eqb x) l)).

Lemma occ_nil x : occ x [] = 0.
Proof. done. Qed.
Lemma occ_cons x y l : occ x (y :: l) = (if decide (x = y) then 1 else 0) + occ x l.
Proof.
  unfold occ. cbn. case_decide as E; [subst; by rewrite Z.eqb_refl; cbn; lia|].
  by rewrite (proj2 (Z.eqb_neq x y) E).
Qed.
Lemma occ_app x l1 l2 : occ x (l1 ++ l2) = occ x l1 + occ x l2.
Proof. unfold occ. rewrite List.filter_app. len. Qed.
Lemma occ_nonneg x l : 0 <= occ x l.
Proof. unfold occ. lia. Qed.
Lemma occ_elem x l : x ∈ l -> 0 < occ x l.
Proof.
  intros Hx. induction Hx as [|y l Hx IH]; rewrite occ_cons.
  - rewrite decide_True by done. pose proof (occ_nonneg x l). lia.
  - case_decide; lia.
Qed.

Lemma occ_not x l : x ∉ l -> occ x l = 0.
Proof.
  induction l as [|y l IH]; [done|]. intros [Hne Hl]%not_elem_of_cons. by rewrite occ_cons, decide_False, IH.
Qed.

(** One more reference on each element of [l]. *)
Definition took (w w' : world) (l : list Z) : Prop := forall x, pins w' x = pins w x + occ x l.

Lemma took_busies w w' l : cache_ok w -> cache_ok w' -> cstep w w' -> took w w' l -> busies w w' l.
Proof.
  intros Hok Hok' Hc Ht x. rewrite (busy_iff w' x Hok'), (busy_iff w x Hok).
  rewrite (same_dirty _ _ (cs_store _ _ Hc)), (same_journaled _ _ (cs_store _ _ Hc)), (Ht x).
  destruct (decide (x ∈ l)) as [|Hn]; [tauto|]. rewrite (occ_not x l Hn), Z.add_0_r. tauto.
Qed.

Lemma gave_busies w w' l : cache_ok w -> cache_ok w' -> cstep w w' -> took w' w l -> busies w w' [].
Proof.
  intros Hok Hok' Hc Ht x. rewrite (busy_iff w' x Hok'), (busy_iff w x Hok).
  rewrite (same_dirty _ _ (cs_store _ _ Hc)), (same_journaled _ _ (cs_store _ _ Hc)), (Ht x).
  pose proof (occ_nonneg x l). intros [?|?]; [left; left; lia|tauto].
Qed.

(** A cache without room for one more buffer after [l] were taken had none for
    one more than these. *)
Lemma no_room_busies w w' l k :
  cache_ok w -> cache_ok w' -> maxb w' = maxb w -> busies w w' l -> no_room w' k -> no_room w (k + Z.of_nat (length l)).
Proof. intros Hok Hok' Em Hb. unfold no_room. rewrite Em. pose proof (busies_load w w' l Hok Hok' Hb). lia. Qed.

Lemma no_room_mono w k k' : no_room w k -> k <= k' -> no_room w k'.
Proof. unfold no_room. lia. Qed.

Lemma cstep_up w1 w2 w3 : cstep w1 w2 -> cstep w2 w3 -> (forall x, pins w1 x <= pins w2 x) -> cstep w1 w3.
Proof.
  intros H1 H2 Hp. eapply cstep_trans; [done|done|]. intros x Hu _. apply usable_pins in Hu. specialize (Hp x). lia.
Qed.

Lemma cstep_down w1 w2 w3 : cstep w1 w2 -> cstep w2 w3 -> (forall x, pins w3 x <= pins w2 x) -> cstep w1 w3.
Proof. intros H1 H2 Hp. eapply cstep_trans; [done|done|]. intros x _ H3. specialize (Hp x). lia. Qed.

Lemma took_cstep w1 w2 w3 l : cstep w1 w2 -> cstep w2 w3 -> took w1 w2 l -> cstep w1 w3.
Proof. intros H1 H2 Ht. eapply cstep_up; [done|done|]. intros x. rewrite Ht. pose proof (occ_nonneg x l). lia. Qed.

Lemma mem_ok_cstep n w w' :
  mem_ok w -> cstep w w' -> cache_ok w' -> n = Z.to_nat (allocsize (metadata (sb w))) -> sized n w' -> mem_ok w'.
Proof.
  intros Hm Hc Hok -> Hsz. constructor; [done| |].
  - by rewrite (same_sb _ _ (cs_store _ _ Hc)).
  - intros x. apply (cs_sync _ _ Hc), Hm.
Qed.

(** The rule for a read of a metadata block. *)
Lemma bread_mem s w :
  mem_ok w ->
  wp (bread s (Z.to_nat (allocsize (metadata (sb w))))) (fun r w' => mem_ok w' /\ cstep w w' /\
    match r with
    | Some x => x = s /\ usable w' s /\ took w w' [s] /\ is_Some (view w s)
    | None => took w w' [] /\ (no_room w 1 \/ disk w !! s = None)
    end) w.
Proof.
  intros Hm. eapply wp_mono; [apply wp_conj; [apply bread_spec|apply bread_room]; apply Hm|]. cbv beta.
  intros r w' ((Hok & Hsz & Hc & Hr) & Hn). split; [by eapply mem_ok_cstep|]. split; [done|].
  destruct r as [x|].
  - destruct Hr as (-> & Hu & Hp & Hv). split; [done|]. split; [done|]. split; [|done].
    intros x. rewrite Hp, occ_cons, occ_nil. destruct (decide (x = s)); lia.
  - split; [intros x; rewrite Hr, occ_nil; lia|]. destruct (Hn eq_refl) as [H|]; [left|by right]. by apply crowded_no_room.
Qed.

(** The rule for the release of a buffer. *)
Lemma brelse_mem s w :
  mem_ok w -> 0 < pins w s ->
  wp (brelse s) (fun _ w' => mem_ok w' /\ cstep w w' /\ took w' w [s]) w.
Proof.
  intros Hm Hp. eapply wp_mono; [apply (brelse_spec (Z.to_nat (allocsize (metadata (sb w))))); try apply Hm; done|]. cbv beta.
  intros _ w' (Hok & Hsz & Hc & Ht). split; [by eapply mem_ok_cstep|]. split; [done|].
  intros x. rewrite Ht, occ_cons, occ_nil. destruct (decide (x = s)); lia.
Qed.

Lemma took_no_room w w' l k :
  mem_ok w -> mem_ok w' -> cstep w w' -> took w w' l -> no_room w' k -> no_room w (k + Z.of_nat (length l)).
Proof.
  intros Hm Hm' Hc Ht. apply no_room_busies; [apply Hm|apply Hm'|apply Hc|]. apply took_busies; [apply Hm|apply Hm'|done|done].
Qed.

(** Every block that is seen is on the device. *)
Definition on_device (w : world) : Prop := forall x, is_Some (view w x) -> is_Some (disk w !! x).

Lemma on_device_cstep w w' : on_device w -> cstep w w' -> on_device w'.
Proof. intros Hd Hc x. rewrite (cs_view _ _ Hc), (same_disk _ _ (cs_store _ _ Hc)). apply Hd. Qed.

(** C23: [bread] through the cache is a read of the device: it does not fail
    whatever is cached, evicts only buffers that nobody uses and that need no
    writing, so that no sector changes what it holds, and takes one reference
    on the sector it returns, whose data is then what the sector holds.  It
    returns none only when all buffers that the cache may have are in use or wait
    to be written, or when the sector is not on the device, and then leaves no
    reference. *)
Theorem bread_correct s w :
  mem_ok w ->
  wp (bread s (Z.to_nat (allocsize (metadata (sb w))))) (fun r w' => mem_ok w' /\ same_store w w' /\
    (forall x, view w' x = view w x) /\
    match r with
    | Some x => x = s /\ (exists b, bufs w' !! s = Some b /\ view w s = Some (bdata b)) /\
        forall x, pins w' x = pins w x + if decide (x = s) then 1 else 0
    | None => (forall x, pins w' x = pins w x) /\ (no_room w 1 \/ disk w !! s = None)
    end) w.
Proof.
  intros Hm. eapply wp_mono; [by apply bread_mem|]. cbv beta. intros [x|] w' (Hm' & [Hs Hv _ _] & Hr); split_and!; try done.
  - by destruct Hr as [-> _].
  - destruct Hr as (-> & (b & Hb & Hst & _) & _). exists b. split; [done|]. rewrite <- Hv. unfold view.
    by rewrite Hb, decide_False.
  - destruct Hr as (-> & _ & Ht & _). intros y. rewrite (Ht y), occ_cons, occ_nil. case_decide; lia.
  - destruct Hr as [Hr _]. intros y. rewrite (Hr y), occ_nil. lia.
  - apply Hr.
Qed.
