(* ===== verification/BitmapInv.v ===== *)
(** * The bits of an allocation bitmap

    The bit operations of [Bitmap] as operations on a function from chunks to
    bits. *)

From S2P Require Import Prelude Bytes State Buffer Bitmap.

(** A bit number that lies in the block *)
Definition bit_in (d : block) (bit : Z) : Prop := 0 <= bit < 8 * Z.of_nat (length d).

Lemma bit_in_byte_eq bit : bit_in_byte bit = 2 ^ (bit mod 8).
Proof.
  unfold bit_in_byte. change 7 with (Z.ones 3). rewrite Z.land_ones by lia. by rewrite Z.shiftl_1_l.
Qed.

Lemma byte_index_eq bit : byte_index bit = Z.to_nat (bit / 8).
Proof. unfold byte_index. by rewrite Z.shiftr_div_pow2. Qed.

Lemma land_pow2_bit x k : 0 <= k -> (Z.land x (2 ^ k) =? 0) = negb (Z.testbit x k).
Proof.
  intros Hk. destruct (Z.eqb_spec (Z.land x (2 ^ k)) 0) as [E|E].
  - apply (f_equal (fun z => Z.testbit z k)) in E. rewrite Z.land_spec, Z.pow2_bits_true, Z.bits_0 in E by done.
    rewrite andb_true_r in E. by rewrite E.
  - destruct (Z.testbit x k) eqn:Ek; [done|]. exfalso. apply E. apply Z.bits_inj'. intros i Hi.
    rewrite Z.land_spec, Z.bits_0. destruct (decide (i = k)) as [->|Hne]; [by rewrite Ek|].
    rewrite (Z.pow2_bits_false k i) by lia. apply andb_false_r.
Qed.

Lemma get_bitmap_bit_eq d bit :
  get_bitmap_bit d bit = Z.testbit (byte_at d (Z.to_nat (bit / 8))) (bit mod 8).
Proof.
  unfold get_bitmap_bit. rewrite bit_in_byte_eq, byte_index_eq, land_pow2_bit.
  - apply negb_involutive.
  - apply Z.mod_pos_bound. lia.
Qed.

Lemma byte_at_set d i v j :
  (i < length d)%nat -> byte_at (set_byte d i v) j = if decide (j = i) then u8 v else byte_at d j.
Proof.
  intros Hi. unfold byte_at, set_byte. case_decide as E.
  - subst. by rewrite list_lookup_insert_eq.
  - by rewrite list_lookup_insert_ne.
Qed.

Lemma length_set_byte d i v : length (set_byte d i v) = length d.
Proof. apply length_insert. Qed.
#[export] Hint Rewrite length_set_byte : len.

Lemma length_set_bitmap_bit d bit : length (set_bitmap_bit d bit) = length d.
Proof. apply length_set_byte. Qed.
Lemma length_clear_bitmap_bit d bit : length (clear_bitmap_bit d bit) = length d.
Proof. apply length_set_byte. Qed.
#[export] Hint Rewrite length_set_bitmap_bit length_clear_bitmap_bit : len.

Lemma u8_testbit x i : 0 <= i < 8 -> Z.testbit (u8 x) i = Z.testbit x i.
Proof. intros. unfold u8. apply Z.mod_pow2_bits_low. lia. Qed.

Lemma bit_split bit bit' :
  bit' <> bit -> 0 <= bit -> 0 <= bit' -> Z.to_nat (bit' / 8) = Z.to_nat (bit / 8) -> bit' mod 8 <> bit mod 8.
Proof.
  intros Hne H1 H2 Hq Hr. apply Hne.
  rewrite (Z.div_mod bit 8), (Z.div_mod bit' 8) by lia. rewrite Hr. f_equal. f_equal.
  apply Z2Nat.inj; [apply Z.div_pos; lia|apply Z.div_pos; lia|done].
Qed.

Lemma byte_in d bit : bit_in d bit -> (Z.to_nat (bit / 8) < length d)%nat.
Proof. intros [H0 H1]. assert (bit / 8 < Z.of_nat (length d)); [apply Z.div_lt_upper_bound; lia|lia]. Qed.

(** Setting a bit sets that bit and no other. *)
Lemma get_set_bitmap_bit d bit bit' :
  bit_in d bit -> 0 <= bit' ->
  get_bitmap_bit (set_bitmap_bit d bit) bit' = (bit' =? bit) || get_bitmap_bit d bit'.
Proof.
  intros Hin H'. pose proof (byte_in d bit Hin) as Hb. destruct Hin as [H0 H1].
  rewrite !get_bitmap_bit_eq. unfold set_bitmap_bit. rewrite byte_index_eq, bit_in_byte_eq, byte_at_set by done.
  pose proof (Z.mod_pos_bound bit 8 ltac:(lia)). pose proof (Z.mod_pos_bound bit' 8 ltac:(lia)).
  case_decide as E.
  - rewrite u8_testbit, Z.lor_spec by lia. destruct (Z.eqb_spec bit' bit) as [->|Hne].
    + rewrite Z.pow2_bits_true by lia. apply orb_true_r.
    + rewrite Z.pow2_bits_false by (apply not_eq_sym; by apply bit_split). rewrite orb_false_r. by rewrite E.
  - destruct (Z.eqb_spec bit' bit) as [->|Hne]; [done|]. done.
Qed.

(** Clearing a bit clears that bit and no other. *)
Lemma get_clear_bitmap_bit d bit bit' :
  bit_in d bit -> 0 <= bit' ->
  get_bitmap_bit (clear_bitmap_bit d bit) bit' = negb (bit' =? bit) && get_bitmap_bit d bit'.
Proof.
  intros Hin H'. pose proof (byte_in d bit Hin) as Hb. destruct Hin as [H0 H1].
  rewrite !get_bitmap_bit_eq. unfold clear_bitmap_bit. rewrite byte_index_eq, bit_in_byte_eq, byte_at_set by done.
  pose proof (Z.mod_pos_bound bit 8 ltac:(lia)). pose proof (Z.mod_pos_bound bit' 8 ltac:(lia)).
  case_decide as E.
  - rewrite u8_testbit, Z.land_spec, Z.lnot_spec by lia. destruct (Z.eqb_spec bit' bit) as [->|Hne].
    + rewrite Z.pow2_bits_true by lia. apply andb_false_r.
    + rewrite Z.pow2_bits_false by (apply not_eq_sym; by apply bit_split). rewrite andb_true_r. by rewrite E.
  - destruct (Z.eqb_spec bit' bit) as [->|Hne]; [done|]. done.
Qed.

(** ** Counting *)

(** The number of bits set in the lowest [n] bits of [c]. *)
Definition popcount (n : nat) (c : Z) : Z := Z.of_nat (length (List.filter (Z.testbit c) (Z.of_nat <$> seq 0 n))).

Lemma popcount_succ n c : popcount (S n) c = (if Z.odd c then 1 else 0) + popcount n (Z.shiftr c 1).
Proof.
  assert (Hshift : forall l, List.filter (Z.testbit c) (Z.of_nat <$> (S <$> l)) =
    Z.succ <$> List.filter (Z.testbit (Z.shiftr c 1)) (Z.of_nat <$> l)).
  { induction l as [|j l IHl]; [done|]. cbn [fmap list_fmap List.filter].
    rewrite Z.shiftr_spec by lia. replace (Z.of_nat j + 1) with (Z.of_nat (S j)) by lia.
    rewrite IHl. destruct (Z.testbit c (Z.of_nat (S j))); [|done]. cbn. f_equal. lia. }
  unfold popcount. rewrite <- cons_seq, <- (fmap_S_seq 0 n). cbn [fmap list_fmap List.filter]. change (Z.of_nat 0) with 0.
  rewrite Hshift, Z.bit0_odd. destruct (Z.odd c); [cbn [length]|]; rewrite length_fmap; lia.
Qed.

Lemma popcount_0 n : popcount n 0 = 0.
Proof. induction n as [|n IH]; [done|]. rewrite popcount_succ. by rewrite Z.shiftr_0_l, IH. Qed.

Lemma shiftr_1_bound n c : 0 <= c < 2 ^ Z.of_nat (S n) -> 0 <= Z.shiftr c 1 < 2 ^ Z.of_nat n.
Proof.
  intros Hc. rewrite Z.shiftr_div_pow2 by lia. split; [apply Z.div_pos; lia|].
  apply Z.div_lt_upper_bound; [lia|]. rewrite Nat2Z.inj_succ, Z.pow_succ_r in Hc by lia. lia.
Qed.

Lemma land_1_odd c : Z.land c 1 = if Z.odd c then 1 else 0.
Proof. change 1 with (Z.ones 1) at 1. rewrite Z.land_ones by lia. change (2 ^ 1) with 2. by rewrite Zmod_odd. Qed.

Lemma bytebits_loop_spec n c : 0 <= c < 2 ^ Z.of_nat n -> bytebits_loop n c = popcount n c.
Proof.
  revert c. induction n as [|n IH]; intros c Hc; [done|]. cbn [bytebits_loop].
  destruct (Z.eqb_spec c 0) as [->|Hne]; [by rewrite popcount_0|].
  rewrite popcount_succ, <- IH by by apply shiftr_1_bound. by rewrite land_1_odd.
Qed.

Lemma bytebits_popcount c : bytebits c = popcount 8 (u8 c).
Proof. unfold bytebits. apply bytebits_loop_spec. apply Z.mod_pos_bound. lia. Qed.
