(* ===== verification/AllocInv.v ===== *)
(** * The allocator claims a free chunk

    The search of [Alloc] over the bitmap blocks, and what an allocation does
    to the bitmap, the counters and the rest of the state. *)

From S2P Require Import Prelude Bytes State Buffer Bitmap Leaf Node Alloc CacheInv CacheRoom CacheMem BitmapInv.

(** ** The scan of a bitmap block *)

Definition bytes_ok (d : block) : Prop := Forall is_byte d.

Lemma byte_at_range d i : bytes_ok d -> 0 <= byte_at d i < 256.
Proof.
  intros Hd. unfold byte_at. destruct (d !! i) as [v|] eqn:E; cbn; [|lia].
  by apply (Forall_lookup_1 _ _ _ _ Hd E).
Qed.

Lemma get_bit_of_byte d p i :
  (i < 8)%nat -> get_bitmap_bit d (Z.of_nat p * 8 + Z.of_nat i) = Z.testbit (byte_at d p) (Z.of_nat i).
Proof.
  intros Hi. rewrite get_bitmap_bit_eq. rewrite Z.div_add_l, Z.div_small, Z.add_0_r, Nat2Z.id by lia.
  rewrite Z.add_comm, Z_mod_plus_full, Z.mod_small by lia. done.
Qed.

(** The chunk that [scan_bytes] finds is free and not set aside. *)
Lemma scan_bytes_Some s d p n base c :
  scan_bytes s d p n base = Some c ->
  exists bit, 8 * Z.of_nat p <= bit < 8 * Z.of_nat (p + n) /\ c = u64 (base + bit) /\
    get_bitmap_bit d bit = false /\ is_deferred_alloc s c = false.
Proof.
  revert p. induction n as [|n IH]; intros p H; [done|]. cbn [scan_bytes] in H.
  assert (Hnext : scan_bytes s d (S p) n base = Some c ->
    exists bit, 8 * Z.of_nat p <= bit < 8 * Z.of_nat (p + S n) /\ c = u64 (base + bit) /\
      get_bitmap_bit d bit = false /\ is_deferred_alloc s c = false).
  { intros Hn. destruct (IH (S p) Hn) as (bit & Hb & ?). exists bit. split; [lia|done]. }
  destruct (negb _); [|by apply Hnext].
  destruct (scan_byte s _ _) as [i|] eqn:E; [|by apply Hnext]. injection H as <-.
  unfold scan_byte in E. apply find_index_Some in E as (Hi & Ht & _).
  apply andb_true_iff in Ht as [Hz Hd%negb_true_iff]. rewrite Z.shiftl_mul_pow2 in Hd |- * by lia.
  change (2 ^ 3) with 8 in *.
  exists (Z.of_nat p * 8 + Z.of_nat i). split; [lia|].
  assert (E : Z.of_nat i + (Z.of_nat p * 8 + base) = base + (Z.of_nat p * 8 + Z.of_nat i)) by lia.
  rewrite E in *. split; [done|]. split; [|done]. rewrite get_bit_of_byte by done.
  rewrite Z.shiftl_1_l, land_pow2_bit in Hz by lia. by apply negb_true_iff in Hz.
Qed.

(** When it finds none, every chunk of the bytes is in use or set aside. *)
Lemma scan_bytes_None s d p n base bit :
  bytes_ok d -> scan_bytes s d p n base = None -> 8 * Z.of_nat p <= bit < 8 * Z.of_nat (p + n) ->
  get_bitmap_bit d bit = true \/ is_deferred_alloc s (u64 (base + bit)) = true.
Proof.
  intros Hd. revert p. induction n as [|n IH]; intros p H Hb; [lia|]. cbn [scan_bytes] in H.
  destruct (Z.lt_decidable bit (8 * Z.of_nat (S p))) as [Hlt|Hge].
  - assert (Hbit : bit = Z.of_nat p * 8 + Z.of_nat (Z.to_nat (bit - 8 * Z.of_nat p))) by lia.
    set (i := Z.to_nat (bit - 8 * Z.of_nat p)) in *. assert (Hi : (i < 8)%nat) by lia.
    rewrite Hbit, get_bit_of_byte by done. pose proof (byte_at_range d p Hd) as Hr.
    destruct (Z.eqb_spec (byte_at d p) 0xff) as [E|E]; cbn [negb] in H.
    + left. rewrite E. change 0xff with (Z.ones 8). apply Z.ones_spec_low. lia.
    + destruct (scan_byte s _ _) as [j|] eqn:Es; [done|]. unfold scan_byte in Es.
      rewrite find_index_None in Es. specialize (Es i Hi). apply andb_false_iff in Es as [Hz|Hdef].
      * left. rewrite Z.shiftl_1_l, land_pow2_bit in Hz by lia. by apply negb_false_iff in Hz.
      * right. apply negb_false_iff in Hdef. rewrite Z.shiftl_mul_pow2 in Hdef by lia. change (2 ^ 3) with 8 in Hdef.
        rewrite <- Hdef. do 2 f_equal. lia.
  - apply (IH (S p)); [|lia]. destruct (negb _); [|done]. by destruct (scan_byte s _ _).
Qed.

(** ** Geometry *)

(** The sizes that [setup_sb] derives, and an allocation space that fits. *)
Record geometry (s : superblock) : Prop := {
  geo_sel : asi_sel (metadata s) = METADATA;
  geo_bits : 9 <= allocsize_bits (img_metadata (image s)) <= 24;
  geo_size : allocsize (metadata s) = 2 ^ allocsize_bits (img_metadata (image s));
  geo_csb : chunk_sectors_bits (metadata s) = allocsize_bits (img_metadata (image s)) - 9 }.

(** Chunks per bitmap block *)
Definition per_block (s : superblock) : Z := 8 * allocsize (metadata s).

Record space_ok (s : superblock) (which : space) : Prop := {
  sp_chunks : 0 < chunks (asi which s) < 2 ^ 48;
  sp_blocks : bitmap_blocks (asi which s) * per_block s < 2 ^ 50 /\
    chunks (asi which s) <= bitmap_blocks (asi which s) * per_block s;
  sp_base : 0 <= bitmap_base (asi which s) < 2 ^ 60;
  sp_last : 0 <= last_alloc (asi which s) <= chunks (asi which s) }.

(** The sector of bitmap block [k] *)
Definition bitmap_sector (s : superblock) (which : space) (k : Z) : Z :=
  u64 (bitmap_base (asi which s) + Z.shiftl k (chunk_sectors_bits (metadata s))).

Lemma asi_metadata s : geometry s -> asi METADATA s = img_metadata (image s).
Proof. intros Hg. unfold asi. cbn. by rewrite (geo_sel s Hg). Qed.

Lemma shift_eq s : geometry s -> 2 ^ bitmap_shift s = per_block s /\ 0 <= bitmap_shift s.
Proof.
  intros Hg. unfold bitmap_shift, per_block. rewrite asi_metadata, (geo_size s Hg) by done.
  pose proof (geo_bits s Hg). rewrite Z.pow_add_r by lia. lia.
Qed.

Lemma mask_eq s x : geometry s -> Z.land x (bitmap_mask s) = x mod per_block s.
Proof.
  intros Hg. destruct (shift_eq s Hg) as [E H0]. unfold bitmap_mask.
  rewrite Z.shiftl_1_l, u32_id.
  - rewrite Z.sub_1_r, <- Z.ones_equiv, Z.land_ones by done. by rewrite E.
  - unfold is_u32. pose proof (geo_bits s Hg). unfold bitmap_shift. rewrite asi_metadata by done.
    assert (0 < 2 ^ (allocsize_bits (img_metadata (image s)) + 3)) by (apply Z.pow_pos_nonneg; lia).
    assert (2 ^ (allocsize_bits (img_metadata (image s)) + 3) <= 2 ^ 27) by (apply Z.pow_le_mono_r; lia). lia.
Qed.

Lemma per_block_pos s : geometry s -> 0 < allocsize (metadata s) /\ per_block s = 8 * allocsize (metadata s).
Proof.
  intros Hg. split; [|done]. rewrite (geo_size s Hg). pose proof (geo_bits s Hg). apply Z.pow_pos_nonneg; lia.
Qed.

(** ** Steps that change the superblock or a buffer *)

(** Nothing outside the cache and the superblock in memory changes, and buffers
    in use stay usable. *)
Record xstep (w w' : world) : Prop := {
  xs_disk : disk w' = disk w;
  xs_super : disk_super w' = disk_super w;
  xs_org : org_data w' = org_data w;
  xs_snap : snap_data w' = snap_data w;
  xs_writes : writes w' = writes w;
  xs_now : now w' = now w;
  xs_max : maxb w' = maxb w;
  xs_usable : forall x, usable w x -> 0 < pins w' x -> usable w' x }.

Lemma cstep_xstep w w' : cstep w w' -> xstep w w'.
Proof. intros [[] _ ? _]. by constructor. Qed.

Lemma estep_xstep w w' s d : estep w w' s d -> xstep w w'.
Proof. intros [[] _ _ ? _ _ _]. constructor; auto. Qed.

Lemma xstep_trans w1 w2 w3 :
  xstep w1 w2 -> xstep w2 w3 -> (forall x, usable w1 x -> 0 < pins w3 x -> 0 < pins w2 x) -> xstep w1 w3.
Proof. intros [] [] Hp. constructor; [congruence..|]. intros x Hu H3. auto. Qed.

Lemma xstep_same_pins w1 w2 w3 :
  xstep w1 w2 -> xstep w2 w3 -> took w1 w2 [] -> xstep w1 w3.
Proof.
  intros H1 H2 Ht. eapply xstep_trans; [done|done|]. intros x Hu _. rewrite Ht, occ_nil.
  apply usable_pins in Hu. lia.
Qed.

Lemma took_nil w : took w w [].
Proof. intros x. rewrite occ_nil. lia. Qed.

Lemma took_trans w1 w2 w3 l1 l2 : took w1 w2 l1 -> took w2 w3 l2 -> took w1 w3 (l1 ++ l2).
Proof. intros H1 H2 x. rewrite H2, H1, occ_app. lia. Qed.

(** A change of the superblock that keeps the block size. *)
Lemma mem_ok_modsb w f :
  mem_ok w -> allocsize (metadata (f (sb w))) = allocsize (metadata (sb w)) -> mem_ok (w <| sb ::= f |>).
Proof.
  intros [[] Hsz Hs] Hf. constructor; [by constructor| |done]. cbn. rewrite Hf. destruct Hsz. by constructor.
Qed.

Lemma xstep_modsb w f : xstep w (w <| sb ::= f |>).
Proof. by constructor. Qed.

(** New data for a buffer in use, marked dirty. *)
Lemma edit_mem s d w :
  mem_ok w -> 0 < pins w s -> length d = Z.to_nat (allocsize (metadata (sb w))) ->
  wp (set_data s d) (fun _ => wp (set_buffer_dirty s) (fun _ w' => mem_ok w' /\ estep w w' s d)) w.
Proof.
  intros Hm Hp Hd. eapply wp_mono; [eapply edit_spec; [apply Hm|apply Hm|done|done]|].
  cbv beta. intros _ w1 H1. eapply wp_mono; [exact H1|]. cbv beta. intros _ w' (Hok & Hsz & He).
  split; [|done]. constructor; [done| |].
  - by rewrite (ext_sb _ _ (es_ext _ _ _ _ He)).
  - intros x. apply He, Hm.
Qed.

(** ** What the bitmap says *)

Definition bit_used (V : Z -> option block) (s : superblock) (which : space) (c : Z) : Prop :=
  exists d, V (bitmap_sector s which (c / per_block s)) = Some d /\ get_bitmap_bit d (c mod per_block s) = true.
Definition bit_free (V : Z -> option block) (s : superblock) (which : space) (c : Z) : Prop :=
  exists d, V (bitmap_sector s which (c / per_block s)) = Some d /\ get_bitmap_bit d (c mod per_block s) = false.

(** A chunk that an allocation can take: its bit is clear in a bitmap block of
    bytes, and it is not set aside. *)
Definition available (w : world) (which : space) (c : Z) : Prop :=
  exists d, view w (bitmap_sector (sb w) which (c / per_block (sb w))) = Some d /\ bytes_ok d /\
    get_bitmap_bit d (c mod per_block (sb w)) = false /\ is_deferred_alloc (sb w) c = false.

(** A bitmap block that is not on the device *)
Definition bitmap_lost (w : world) (which : space) : Prop :=
  exists k, 0 <= k < bitmap_blocks (asi which (sb w)) /\ disk w !! bitmap_sector (sb w) which k = None.

(** ** Claiming a chunk *)

Definition count_alloc (which : space) (s : superblock) : superblock :=
  (upd_asi which (fun a => a <| freechunks ::= fun n => u64 (n - 1) |>) s) <| runflags ::= Z.lor RUN_SB_DIRTY |>.

(** Chunk [c] was free and is now marked in use: only its bit, the counter and
    the flag that the superblock needs saving have changed. *)
Record claimed (w w' : world) (which : space) (c : Z) : Prop := {
  cm_mem : mem_ok w';
  cm_x : xstep w w';
  cm_took : took w w' [];
  cm_sb : sb w' = count_alloc which (sb w);
  cm_defer : is_deferred_alloc (sb w) c = false;
  cm_busy : busies w w' [bitmap_sector (sb w) which (c / per_block (sb w))];
  cm_view : exists d, view w (bitmap_sector (sb w) which (c / per_block (sb w))) = Some d /\
    get_bitmap_bit d (c mod per_block (sb w)) = false /\
    forall x, view w' x = if decide (x = bitmap_sector (sb w) which (c / per_block (sb w)))
                          then Some (set_bitmap_bit d (c mod per_block (sb w))) else view w x }.

Lemma view_length w x d : mem_ok w -> view w x = Some d -> length d = Z.to_nat (allocsize (metadata (sb w))).
Proof.
  intros Hm. unfold view. destruct (bufs w !! x) as [b|] eqn:E; [case_decide|].
  - by apply (sized_disk _ _ (mem_sized w Hm)).
  - intros [= <-]. by apply (sized_bufs _ _ (mem_sized w Hm) x).
  - by apply (sized_disk _ _ (mem_sized w Hm)).
Qed.

Lemma claim_chunk_spec buf c d w :
  mem_ok w -> usable w buf -> view w buf = Some d -> geometry (sb w) -> deferring (sb w) = false ->
  get_bitmap_bit d (c mod per_block (sb w)) = false ->
  wp (claim_chunk buf c) (fun _ w' => mem_ok w' /\
    estep w w' buf (set_bitmap_bit d (c mod per_block (sb w)))) w.
Proof.
  intros Hm Hu Hv Hg Hdef Hbit. unfold claim_chunk, getsb. wp_steps.
  apply wp_get_data; [done|]. rewrite Hv. intros ? [= <-]. wp_steps.
  { by rewrite mask_eq, Hbit. }
  rewrite Hdef. cbn [andb]. rewrite mask_eq by done. wp_step. apply edit_mem; [done|by apply usable_pins|].
  rewrite length_set_bitmap_bit. by eapply view_length.
Qed.

(** ** The search over the bitmap blocks *)

Section search.
Context (which : space) (w : world).
Abbreviation s := (sb w).
Context (Hm : mem_ok w) (Hg : geometry s) (Hsp : space_ok s which) (Hdef : deferring s = false).
Abbreviation size := (allocsize (metadata s)).

(** The search has read nothing but bitmap blocks; it is at byte [off] of
    block [k], with [len] bytes to go up to byte [endb] of the bitmap. *)
Definition searching (startb endb : Z) (st : Z * Z * Z) (w1 : world) : Prop :=
  let '(k, off, len) := st in
  mem_ok w1 /\ cstep w w1 /\ took w w1 [] /\
  0 <= k /\ 0 <= off < size /\ 0 <= len /\ k * size + off + len = endb /\ startb <= k * size + off /\
  forall c, 8 * startb <= c < 8 * (k * size + off) -> ~ available w which c.

(** Why a search up to byte [endb] finds nothing *)
Definition search_failed (startb endb : Z) : Prop :=
  no_room w 1 \/ bitmap_lost w which \/ forall c, 8 * startb <= c < 8 * endb -> ~ available w which c.

(** The end of a search: the chunk lies in the bytes that were searched. *)
Definition search_post (startb endb : Z) (c : Z) (w' : world) : Prop :=
  (c = NOCHUNK /\ mem_ok w' /\ cstep w w' /\ took w w' [] /\ search_failed startb endb) \/
  (claimed w w' which c /\ 8 * startb <= c < 8 * endb /\ c <> NOCHUNK).

Lemma claim_found startb endb k off n w1 w2 d c :
  searching startb endb (k, off, n) w1 -> mem_ok w2 -> cstep w1 w2 ->
  took w1 w2 [bitmap_sector s which k] -> usable w2 (bitmap_sector s which k) ->
  view w (bitmap_sector s which k) = Some d ->
  endb <= bitmap_blocks (asi which s) * size ->
  scan_bytes s d (Z.to_nat off) (Z.to_nat (Z.min n (size - off))) (Z.shiftl k (bitmap_shift s)) = Some c ->
  wp (claim_chunk (bitmap_sector s which k) c) (fun _ => wp (brelse (bitmap_sector s which k))
    (fun _ w' => search_post startb endb c (w' <| sb ::= count_alloc which |>))) w2.
Proof.
  intros (Hm1 & Hc1 & Ht1 & Hk & Hoff & Hn & Hend & Hst & _) Hm2 Hc2 Ht2 Hu Hd Hblocks Hscan.
  destruct (per_block_pos s Hg) as [Hsize Hper]. destruct (shift_eq s Hg) as [Hshift Hsh0].
  pose proof (sp_blocks s which Hsp) as [Hb50 _]. rewrite Hper in Hb50.
  apply scan_bytes_Some in Hscan as (bit & Hbit & Hc & Hfree & Hdf).
  rewrite Z.shiftl_mul_pow2, Hshift, Hper in Hc by done.
  assert (Hcr : 0 <= k * (8 * size) + bit < 2 ^ 50) by nia.
  rewrite u64_id in Hc by (unfold is_u64; lia).
  assert (Hdiv : c / per_block s = k) by (rewrite Hper, Hc, Z.div_add_l, Z.div_small by lia; lia).
  assert (Hmod : c mod per_block s = bit)
    by (rewrite Hper, Hc, Z.add_comm, Z_mod_plus_full, Z.mod_small by lia; done).
  assert (Hsb2 : sb w2 = s) by (rewrite (same_sb _ _ (cs_store _ _ Hc2)); apply Hc1).
  assert (Hv2 : forall x, view w2 x = view w x) by (intros; rewrite (cs_view _ _ Hc2); apply Hc1).
  set (x := bitmap_sector s which k) in *.
  eapply wp_mono.
  { apply (claim_chunk_spec x c d); [done|done|by rewrite Hv2|by rewrite Hsb2|by rewrite Hsb2|].
    by rewrite Hsb2, Hmod. }
  cbv beta. intros _ w3 (Hm3 & He3). rewrite Hsb2, Hmod in He3.
  eapply wp_mono.
  { apply brelse_mem; [done|]. rewrite (es_pins _ _ _ _ He3). by apply usable_pins. }
  cbv beta. intros _ w4 (Hm4 & Hc4 & Ht4). right.
  assert (Hpins : took w w4 []).
  { intros y. specialize (Ht4 y). rewrite (es_pins _ _ _ _ He3), Ht2, Ht1 in Ht4. lia. }
  assert (Hx : xstep w w4).
  { eapply xstep_trans; [apply cstep_xstep, Hc1| |intros y Hy _; rewrite Ht1, occ_nil; apply usable_pins in Hy; lia].
    eapply xstep_trans; [apply cstep_xstep, Hc2| |].
    2:{ intros y Hy _. rewrite Ht2. apply usable_pins in Hy. pose proof (occ_nonneg y [x]). lia. }
    eapply xstep_trans; [eapply estep_xstep; exact He3|apply cstep_xstep, Hc4|].
    intros y _ Hy. specialize (Ht4 y). pose proof (occ_nonneg y [x]). lia. }
  split; [|split; [rewrite Hc; lia|]].
  - assert (Hsb4 : sb w4 = s).
    { rewrite (same_sb _ _ (cs_store _ _ Hc4)), (ext_sb _ _ (es_ext _ _ _ _ He3)). done. }
    constructor.
    + apply mem_ok_modsb; [done|]. by rewrite Hsb4.
    + eapply xstep_same_pins; [exact Hx|apply xstep_modsb|done].
    + exact Hpins.
    + cbn. by rewrite Hsb4.
    + done.
    + rewrite Hdiv. fold x. change (busies w w4 [x]). change [x] with ([] ++ ([x] ++ ([] ++ []))). eapply busies_trans.
      { eapply took_busies; [apply Hm|apply Hm1|exact Hc1|exact Ht1]. }
      eapply busies_trans; [eapply took_busies; [apply Hm1|apply Hm2|exact Hc2|exact Ht2]|].
      eapply busies_trans; [intros y Hy; left; exact (es_busy _ _ _ _ He3 y Hy)|].
      eapply gave_busies; [apply Hm3|apply Hm4|exact Hc4|exact Ht4].
    + rewrite Hdiv, Hmod. fold x. exists d. split; [done|]. split; [done|].
      intros y. change (view (w4 <| sb ::= count_alloc which |>) y) with (view w4 y).
      rewrite (cs_view _ _ Hc4), (es_view _ _ _ _ He3), Hv2. done.
  - unfold NOCHUNK, u64. change ((-1) mod 2 ^ 64) with (2 ^ 64 - 1). lia.
Qed.

(** No chunk of the bytes that were scanned is available. *)
Lemma scanned startb endb k off n w1 d :
  searching startb endb (k, off, n) w1 -> endb <= bitmap_blocks (asi which s) * size ->
  view w (bitmap_sector s which k) = Some d ->
  scan_bytes s d (Z.to_nat off) (Z.to_nat (Z.min n (size - off))) (Z.shiftl k (bitmap_shift s)) = None ->
  forall c, 8 * startb <= c < 8 * (k * size + off + Z.min n (size - off)) -> ~ available w which c.
Proof.
  intros (_ & _ & _ & Hk & Hoff & Hn & Hend & Hst & Hno) Hblocks Hd Hscan c Hc (d' & Hd' & Hbytes & Hfree & Hdf).
  destruct (per_block_pos s Hg) as [Hsize Hper]. destruct (shift_eq s Hg) as [Hshift Hsh0].
  pose proof (sp_blocks s which Hsp) as [Hb50 _]. rewrite Hper in Hb50.
  destruct (Z.lt_decidable c (8 * (k * size + off))) as [Hlt|Hge]; [eapply Hno; [split; [apply Hc|done]|by exists d']|].
  assert (Hdiv : c / per_block s = k).
  { rewrite Hper. symmetry. apply (Z.div_unique c (8 * size) k (c - k * (8 * size))); lia. }
  assert (Hmod : c mod per_block s = c - k * (8 * size)).
  { rewrite Hper. symmetry. apply (Z.mod_unique c (8 * size) k); lia. }
  rewrite Hdiv, Hd in Hd'. injection Hd' as <-. rewrite Hmod in Hfree.
  destruct (scan_bytes_None s d _ _ _ (c - k * (8 * size)) Hbytes Hscan) as [Hb|Hb]; [lia|congruence|].
  rewrite Z.shiftl_mul_pow2, Hshift, Hper in Hb by done.
  replace (k * (8 * size) + (c - k * (8 * size))) with c in Hb by lia.
  rewrite u64_id in Hb by (unfold is_u64; nia). congruence.
Qed.

Lemma alloc_chunk_from_range_spec start n :
  0 <= start -> 0 <= n -> start / 8 + (n + start mod 8 + 7) / 8 <= bitmap_blocks (asi which s) * size ->
  wp (alloc_chunk_from_range which start n)
    (search_post (start / 8) (start / 8 + (n + start mod 8 + 7) / 8)) w.
Proof.
  intros Hstart Hn Hend. destruct (per_block_pos s Hg) as [Hsize Hper].
  destruct (shift_eq s Hg) as [Hshift Hsh0]. pose proof (sp_blocks s which Hsp) as [Hb50 _]. rewrite Hper in Hb50.
  pose proof (Z.mod_pos_bound start 8 ltac:(lia)) as Hmod8.
  assert (Hlen : u64 (n + start mod 8 + 7) = n + start mod 8 + 7).
  { apply u64_id. unfold is_u64. pose proof (Z.div_mod (n + start mod 8 + 7) 8 ltac:(lia)).
    pose proof (Z.mod_pos_bound (n + start mod 8 + 7) 8 ltac:(lia)).
    assert (0 <= start / 8) by (apply Z.div_pos; lia). lia. }
  unfold alloc_chunk_from_range, getsb. wp_steps.
  rewrite (mask_eq s start Hg), (Z.shiftr_div_pow2 start (bitmap_shift s)), Hshift by done.
  assert (Hl7 : Z.land start 7 = start mod 8) by (change 7 with (Z.ones 3); by rewrite Z.land_ones).
  rewrite Hl7, !(Z.shiftr_div_pow2 _ 3) by lia. change (2 ^ 3) with 8. rewrite Hlen.
  set (len := (n + start mod 8 + 7) / 8) in *. set (endb := start / 8 + len) in *.
  assert (Hlen0 : 0 <= len) by (apply Z.div_pos; lia).
  eapply (wp_loop (searching (start / 8) endb)
    (fun '(k, off, l) _ => Z.to_nat ((off + l + size - 1) / size - 1))).
  - clear -Hm Hg Hsp Hdef Hend Hper Hsize Hshift Hsh0 Hb50.
    intros [[k off] l] w1 Hs. pose proof Hs as (Hm1 & Hc1 & Ht1 & Hk & Hoff & Hl & He & Hst & Hno).
    assert (Hsb1 : sb w1 = s) by apply Hc1.
    wp_step. unfold snapread, getsb. wp_steps. change (bsize (sb w1)) with (Z.to_nat (allocsize (metadata (sb w1)))).
    eapply wp_mono; [by apply bread_mem|]. cbv beta. fold (bitmap_sector s which k).
    intros [x|] w2 (Hm2 & Hc2 & Hr2).
    2:{ wp_steps. left. split; [done|]. split; [done|]. split.
        - eapply took_cstep; [exact Hc1|exact Hc2|exact Ht1].
        - destruct Hr2 as [Ht2 Hwhy]. split; [exact (took_trans _ _ _ [] [] Ht1 Ht2)|]. destruct Hwhy as [Hwhy|Hwhy]; [left|].
          { exact (took_no_room w w1 [] 1 Hm Hm1 Hc1 Ht1 Hwhy). }
          rewrite (same_disk _ _ (cs_store _ _ Hc1)) in Hwhy. destruct (Z.lt_decidable k (bitmap_blocks (asi which s))) as [Hkb|Hkb].
          + right. left. by exists k.
          + right. right. intros c Hcr. apply Hno. nia. }
    destruct Hr2 as (-> & Hu & Ht2 & [d Hd1]).
    assert (Hd : view w (bitmap_sector s which k) = Some d) by (by rewrite <- (cs_view _ _ Hc1)).
    wp_step. apply wp_get_data; [done|]. rewrite (cs_view _ _ Hc2), Hd1. intros ? [= <-].
    assert (Hmin : (if l <? size - off then l else size - off) = Z.min l (size - off))
      by (destruct (Z.ltb_spec l (size - off)); lia).
    rewrite Hmin. destruct (scan_bytes s d _ _ _) as [c|] eqn:Escan.
    + wp_step. eapply wp_mono.
      { eapply (claim_found (start / 8) endb k off l w1 w2 d c); eauto. }
      cbv beta. intros _ w3 H3. wp_step. eapply wp_mono; [exact H3|]. cbv beta. intros _ w4 H4.
      unfold modsb, set_sb_dirty. wp_steps. exact H4.
    + wp_step. eapply wp_mono; [apply brelse_mem; [done|by apply usable_pins]|].
      cbv beta. intros _ w3 (Hm3 & Hc3 & Ht3).
      assert (Ht13 : took w w3 []).
      { intros y. specialize (Ht3 y). rewrite Ht2, Ht1 in Ht3. lia. }
      assert (Hc13 : cstep w w3).
      { eapply took_cstep; [exact Hc1| |exact Ht1]. eapply cstep_down; [exact Hc2|exact Hc3|].
        intros y. specialize (Ht3 y). pose proof (occ_nonneg y [bitmap_sector s which k]). lia. }
      destruct (Z.eqb_spec (l - Z.min l (size - off)) 0) as [E0|E0]; wp_steps.
      * left. split_and!; try done. right. right. intros c Hcr. eapply (scanned (start / 8) endb k off l w1 d); eauto. lia.
      * pose proof (scanned (start / 8) endb k off l w1 d Hs Hend Hd Escan) as Hno'.
        assert (Hmin2 : Z.min l (size - off) = size - off) by lia. rewrite Hmin2.
        assert (Hkb : k + 1 < bitmap_blocks (asi which s)) by nia.
        rewrite (proj2 (Z.eqb_neq (k + 1) (bitmap_blocks (asi which s)))) by lia.
        split.
        -- split_and!; try done; try lia. intros c Hcr. apply Hno'. lia.
        -- assert (Hdiv : (0 + (l - (size - off)) + size - 1) / size = (off + l + size - 1) / size - 1).
           { replace (off + l + size - 1) with ((0 + (l - (size - off)) + size - 1) + 1 * size) by lia.
             rewrite Z.div_add by lia. lia. }
           rewrite Hdiv. assert (1 <= (0 + (l - (size - off)) + size - 1) / size).
           { apply Z.div_le_lower_bound; lia. }
           lia.
  - assert (Hk : start / per_block s * size + start mod per_block s / 8 = start / 8).
    { rewrite Hper. pose proof (Z.div_mod start (8 * size) ltac:(lia)) as E.
      set (q := start / (8 * size)) in *. set (r := start mod (8 * size)) in *.
      replace (start / 8) with ((r + (size * q) * 8) / 8) by (f_equal; lia). rewrite Z.div_add by lia. lia. }
    pose proof (Z.mod_pos_bound start (per_block s) ltac:(lia)) as Hmod.
    split_and!; try done.
    + apply took_nil.
    + apply Z.div_pos; lia.
    + apply Z.div_pos; lia.
    + apply Z.div_lt_upper_bound; lia.
    + unfold endb. lia.
    + lia.
    + intros c Hcr. lia.
  - pose proof (Z.mod_pos_bound start (per_block s) ltac:(lia)) as Hmod.
    assert (start mod per_block s / 8 < size) by (apply Z.div_lt_upper_bound; lia).
    assert (0 <= start mod per_block s / 8) by (apply Z.div_pos; lia).
    assert (0 <= len / size) by (apply Z.div_pos; lia).
    assert ((start mod per_block s / 8 + len + size - 1) / size <= len / size + 2).
    { apply Z.lt_succ_r, Z.div_lt_upper_bound; [lia|]. pose proof (Z.div_mod len size ltac:(lia)).
      pose proof (Z.mod_pos_bound len size ltac:(lia)). nia. }
    lia.
Qed.
End search.

(** ** Allocating a chunk *)

(** The bits past the last chunk in the last byte are set, so that no search
    finds them. *)
Definition tail_set (w : world) (which : space) : Prop :=
  let a := asi which (sb w) in
  forall c, chunks a <= c < 8 * ((chunks a + 7) / 8) -> bit_used (view w) (sb w) which c.

(** The superblock after the allocation of [c]. *)
Definition record_alloc (which : space) (c : Z) (s : superblock) : superblock :=
  (upd_asi which (fun a => a <| last_alloc := c |>) (count_alloc which s)) <| runflags ::= Z.lor RUN_SB_DIRTY |>.

(** Chunk [c] was free and is now in use and the last one allocated. *)
Record allocated (w w' : world) (which : space) (c : Z) : Prop := {
  al_mem : mem_ok w';
  al_x : xstep w w';
  al_took : took w w' [];
  al_sb : sb w' = record_alloc which c (sb w);
  al_range : 0 <= c < chunks (asi which (sb w));
  al_defer : is_deferred_alloc (sb w) c = false;
  al_busy : busies w w' [bitmap_sector (sb w) which (c / per_block (sb w))];
  al_view : exists d, view w (bitmap_sector (sb w) which (c / per_block (sb w))) = Some d /\
    get_bitmap_bit d (c mod per_block (sb w)) = false /\
    forall x, view w' x = if decide (x = bitmap_sector (sb w) which (c / per_block (sb w)))
                          then Some (set_bitmap_bit d (c mod per_block (sb w))) else view w x }.

Lemma claimed_cstep w w1 w2 which c :
  mem_ok w -> mem_ok w1 -> cstep w w1 -> took w w1 [] -> claimed w1 w2 which c -> claimed w w2 which c.
Proof.
  intros Hm0 Hm1 Hc Ht [Hm Hx Ht2 Hsb Hd Hb Hv].
  assert (Es : sb w1 = sb w) by apply Hc. rewrite Es in *. constructor; try done.
  - eapply xstep_same_pins; [by apply cstep_xstep|done|done].
  - exact (took_trans _ _ _ [] [] Ht Ht2).
  - eapply (busies_trans w w1 w2 []); [eapply took_busies; [apply Hm0|apply Hm1|done|done]|done].
  - destruct Hv as (d & H1 & H2 & H3). exists d. rewrite <- (cs_view _ _ Hc). split_and!; try done.
    intros x. rewrite H3. case_decide; [done|]. apply Hc.
Qed.

Lemma claimed_range w w' which c lo hi :
  claimed w w' which c -> tail_set w which -> 0 <= lo ->
  8 * lo <= c < 8 * hi -> hi <= (chunks (asi which (sb w)) + 7) / 8 -> 0 <= c < chunks (asi which (sb w)).
Proof.
  intros [_ _ _ _ _ _ (d & Hd & Hf & _)] Htail Hlo Hc Hhi. split; [lia|].
  destruct (Z.lt_decidable c (chunks (asi which (sb w)))) as [?|Hge]; [done|].
  destruct (Htail c ltac:(lia)) as (d' & Hd' & Hu). congruence.
Qed.

Lemma claimed_allocated w w1 which c :
  claimed w w1 which c -> 0 <= c < chunks (asi which (sb w)) ->
  allocated w (w1 <| sb ::= upd_asi which (fun a => a <| last_alloc := c |>) |>
                  <| sb ::= fun s => s <| runflags ::= Z.lor RUN_SB_DIRTY |> |>) which c.
Proof.
  intros [Hm Hx Ht Hsb Hd Hb Hv] Hr. constructor; try done.
  - apply mem_ok_modsb; [|done]. apply mem_ok_modsb; [done|done].
  - by destruct Hx.
  - cbn. by rewrite Hsb.
Qed.

(** Why no chunk can be allocated *)
Definition alloc_failed (w : world) (which : space) : Prop :=
  no_room w 1 \/ bitmap_lost w which \/ forall c, 0 <= c < chunks (asi which (sb w)) -> ~ available w which c.

Lemma searches_failed which w w1 last :
  mem_ok w -> mem_ok w1 -> cstep w w1 -> took w w1 [] -> 0 <= last ->
  search_failed which w (last / 8) ((chunks (asi which (sb w)) + 7) / 8) ->
  search_failed which w1 0 ((last + 7) / 8) -> alloc_failed w which.
Proof.
  intros Hm Hm1 Hc Ht Hl [H|[H|H1]]; [by left|by right; left|]. assert (Es : sb w1 = sb w) by apply Hc.
  intros [H|[H|H2]].
  - left. exact (took_no_room w w1 [] 1 Hm Hm1 Hc Ht H).
  - right. left. destruct H as (k & Hk & Hd). rewrite Es, (same_disk _ _ (cs_store _ _ Hc)) in *. by exists k.
  - right. right. intros c Hr Ha. pose proof (Z.div_mod last 8 ltac:(lia)). pose proof (Z.mod_pos_bound last 8 ltac:(lia)).
    destruct (Z.lt_decidable c (8 * (last / 8))) as [Hlt|Hge].
    + apply (H2 c); [split; [lia|]|].
      * assert (last / 8 <= (last + 7) / 8) by (apply Z.div_le_mono; lia). lia.
      * unfold available in *. rewrite Es. destruct Ha as (d & ? & ? & ?). exists d. by rewrite (cs_view _ _ Hc).
    + apply (H1 c); [|done]. pose proof (Z.div_mod (chunks (asi which (sb w)) + 7) 8 ltac:(lia)).
      pose proof (Z.mod_pos_bound (chunks (asi which (sb w)) + 7) 8 ltac:(lia)). lia.
Qed.

Lemma alloc_chunk_spec which w :
  mem_ok w -> geometry (sb w) -> space_ok (sb w) which -> deferring (sb w) = false -> tail_set w which ->
  wp (alloc_chunk which) (fun c w' =>
    (c = NOCHUNK /\ mem_ok w' /\ cstep w w' /\ took w w' [] /\ alloc_failed w which) \/
    (c <> NOCHUNK /\ allocated w w' which c)) w.
Proof.
  intros Hm Hg Hsp Hdef Htail. unfold alloc_chunk, getsb. wp_steps.
  destruct (per_block_pos (sb w) Hg) as [Hsize Hper].
  pose proof (sp_chunks _ _ Hsp) as Hch. pose proof (sp_last _ _ Hsp) as Hl. pose proof (sp_blocks _ _ Hsp) as [_ Hb].
  rewrite Hper in Hb. set (last := last_alloc (asi which (sb w))) in *. set (total := chunks (asi which (sb w))) in *.
  rewrite u64_id by (unfold is_u64; lia).
  assert (Htot : (total + 7) / 8 <= bitmap_blocks (asi which (sb w)) * allocsize (metadata (sb w))).
  { apply Z.lt_succ_r, Z.div_lt_upper_bound; lia. }
  assert (E1 : last / 8 + (total - last + last mod 8 + 7) / 8 = (total + 7) / 8).
  { pose proof (Z.div_mod last 8 ltac:(lia)). replace (total + 7) with ((total - last + last mod 8 + 7) + last / 8 * 8) by lia.
    rewrite Z.div_add by lia. lia. }
  assert (E2 : 0 / 8 + (last + 0 mod 8 + 7) / 8 <= (total + 7) / 8).
  { change (0 / 8) with 0. change (0 mod 8) with 0. rewrite Z.add_0_l, Z.add_0_r. apply Z.div_le_mono; lia. }
  assert (Hdone : forall c w1, claimed w w1 which c -> 0 <= c < total -> c <> NOCHUNK ->
    wp (if negb (c =? NOCHUNK) then
          modsb (upd_asi which (fun a => a <| last_alloc := c |>));; set_sb_dirty;; mret c else mret NOCHUNK)
      (fun c w' => (c = NOCHUNK /\ mem_ok w' /\ cstep w w' /\ took w w' [] /\ alloc_failed w which) \/
                   (c <> NOCHUNK /\ allocated w w' which c)) w1).
  { intros c w1 Hcl Hr Hn. rewrite (proj2 (Z.eqb_neq c NOCHUNK) Hn). cbn [negb].
    unfold modsb, set_sb_dirty. wp_steps. right. split; [done|]. by apply claimed_allocated. }
  eapply wp_mono; [apply (alloc_chunk_from_range_spec which w Hm Hg Hsp Hdef last (total - last)); lia|].
  rewrite E1. cbv beta. intros c w1 [(-> & Hm1 & Hc1 & Ht1 & Hwhy)|(Hcl & Hr & Hn)].
  - wp_step. rewrite Z.eqb_refl. cbn [negb]. assert (Es : sb w1 = sb w) by apply Hc1.
    eapply wp_mono.
    { apply (alloc_chunk_from_range_spec which w1); rewrite ?Es; try done; lia. }
    cbv beta. intros c w2 [(-> & Hm2 & Hc2 & Ht2 & Hwhy2)|(Hcl & Hr & Hn)].
    + rewrite Z.eqb_refl. cbn [negb]. wp_steps. left. split_and!; try done.
      * by eapply took_cstep.
      * exact (took_trans _ _ _ [] [] Ht1 Ht2).
      * change (0 / 8) with 0 in Hwhy2. change (0 mod 8) with 0 in Hwhy2. rewrite Z.add_0_l, Z.add_0_r in Hwhy2.
        eapply (searches_failed which w w1 last); try done. apply Hl.
    + apply Hdone; [by eapply (claimed_cstep w w1)| |done]. eapply claimed_range; [by eapply (claimed_cstep w w1)|done| |exact Hr|exact E2].
      by apply Z.div_pos.
  - wp_step. rewrite (proj2 (Z.eqb_neq c NOCHUNK) Hn) at 1. cbn [negb]. wp_steps. apply Hdone; [done| |done].
    eapply claimed_range; [done|done| |exact Hr|apply Z.le_refl]. apply Z.div_pos; lia.
Qed.

(** ** New blocks of the btree *)

Lemma getblk_mem s w :
  mem_ok w ->
  wp (getblk s (Z.to_nat (allocsize (metadata (sb w))))) (fun r w' => mem_ok w' /\ cstep w w' /\
    match r with
    | Some x => x = s /\ took w w' [s] /\ exists b, bufs w' !! s = Some b
    | None => took w w' [] /\ no_room w 1
    end) w.
Proof.
  intros Hm. eapply wp_mono; [apply wp_conj; [apply getblk_spec; apply Hm|apply getblk_room, Hm]|]. cbv beta.
  intros [x|] w' ((Hok & Hsz & Hr) & Hn).
  - destruct Hr as [-> Hp]. assert (Hc : cstep w w') by (eapply pinned_cstep; [apply Hm|done]).
    split; [by eapply mem_ok_cstep|]. split; [done|]. split; [done|]. split.
    + intros x. rewrite (pinned_pins _ _ _ Hp), occ_cons, occ_nil. destruct (decide (x = s)); lia.
    + destruct (pin_this _ _ _ Hp) as (b & Hb & _). eauto.
  - assert (Hc : cstep w w') by (eapply evicted_cstep; [apply Hm|done]).
    split; [by eapply mem_ok_cstep|]. split; [done|]. split; [|by apply crowded_no_room, Hn].
    intros x. rewrite occ_nil, (pins_evicted _ _ x Hr). lia.
Qed.

(** Block [x] was allocated and holds [d] in a buffer in use. *)
Record fresh_block (w w' : world) (x : Z) (d : block) : Prop := {
  fb_mem : mem_ok w';
  fb_x : xstep w w';
  fb_took : took w w' [x];
  fb_usable : usable w' x;
  fb_busy : exists y, busies w w' [y; x];
  fb_alloc : exists c w1, allocated w w1 METADATA c /\ sb w' = sb w1 /\
    x = u64 (Z.shiftl c (chunk_sectors_bits (metadata (sb w)))) /\
    forall y, view w' y = if decide (y = x) then Some d else view w1 y }.

(** Why no block can be had *)
Definition block_failed (w : world) : Prop := no_room w 2 \/ alloc_failed w METADATA.

(** No block could be had: at most a chunk is lost. *)
Definition no_block (w w' : world) : Prop :=
  mem_ok w' /\ xstep w w' /\ took w w' [] /\ block_failed w /\
  ((sb w' = sb w /\ (forall y, view w' y = view w y) /\ busies w w' []) \/
   (exists c w1, allocated w w1 METADATA c /\ sb w' = sb w1 /\ (forall y, view w' y = view w1 y) /\
      exists l, busies w w' l /\ (length l <= 2)%nat)).

(** Block [x] was allocated and its buffer is in use; its data is not set yet. *)
Record raw_block (w w' : world) (x : Z) : Prop := {
  rb_mem : mem_ok w';
  rb_x : xstep w w';
  rb_took : took w w' [x];
  rb_pins : 0 < pins w' x;
  rb_busy : exists y, busies w w' [y; x];
  rb_buf : exists b, bufs w' !! x = Some b /\ length (bdata b) = Z.to_nat (allocsize (metadata (sb w)));
  rb_alloc : exists c w1, allocated w w1 METADATA c /\ sb w' = sb w1 /\
    x = u64 (Z.shiftl c (chunk_sectors_bits (metadata (sb w)))) /\ forall y, view w' y = view w1 y }.

Lemma raw_block_size w w' x : raw_block w w' x -> allocsize (metadata (sb w')) = allocsize (metadata (sb w)).
Proof. intros Hr. destruct (rb_alloc _ _ _ Hr) as (c & w1 & Hal & -> & _). by rewrite (al_sb _ _ _ _ Hal). Qed.

Lemma fill_block w w' x d :
  raw_block w w' x -> length d = Z.to_nat (allocsize (metadata (sb w))) ->
  wp (set_data x d) (fun _ => wp (set_buffer_dirty x) (fun _ w'' => fresh_block w w'' x d)) w'.
Proof.
  intros Hr Hd. eapply wp_mono.
  { apply edit_mem; [apply Hr|apply Hr|]. by rewrite (raw_block_size _ _ _ Hr). }
  cbv beta. intros _ w3 H3. eapply wp_mono; [exact H3|]. cbv beta. intros _ w4 (Hm4 & He4).
  destruct Hr as [Hm Hx Ht Hp [z Hz] _ (c & w1 & Hal & Hs & Ex & Hv)]. constructor.
  - done.
  - apply (xstep_trans w w' w4); [done|eapply estep_xstep; exact He4|]. intros y _. by rewrite (es_pins _ _ _ _ He4).
  - intros y. by rewrite (es_pins _ _ _ _ He4).
  - apply (es_this _ _ _ _ He4).
  - exists z. intros y Hy. apply Hz. by apply (es_busy _ _ _ _ He4).
  - exists c, w1. split; [done|]. split; [by rewrite (ext_sb _ _ (es_ext _ _ _ _ He4))|]. split; [done|].
    intros y. by rewrite (es_view _ _ _ _ He4), Hv.
Qed.

Definition empty_leaf (s : superblock) : block :=
  init_leaf (replicate (Z.to_nat (allocsize (metadata s))) (u8 0)) (allocsize (metadata s)).
Definition empty_node (s : superblock) : block :=
  set_node_count 0 (replicate (Z.to_nat (allocsize (metadata s))) (u8 0)).

Section new_blocks.
Context (w : world) (Hm : mem_ok w) (Hg : geometry (sb w)) (Hsp : space_ok (sb w) METADATA)
  (Hdef : deferring (sb w) = false) (Htail : tail_set w METADATA).

Lemma new_block_spec :
  wp new_block (fun r w' => match r with Some x => raw_block w w' x | None => no_block w w' end) w.
Proof.
  unfold new_block, alloc_metablock. wp_steps.
  eapply wp_mono; [by apply alloc_chunk_spec|]. cbv beta. intros c w1 [(-> & Hm1 & Hc1 & Ht1 & Hwhy)|(Hn & Hal)].
  { rewrite Z.eqb_refl. wp_steps. split; [done|]. split; [by apply cstep_xstep|]. split; [done|]. split; [by right|].
    left. split_and!; [apply Hc1|apply Hc1|]. eapply took_busies; [apply Hm|apply Hm1|done|done]. }
  rewrite (proj2 (Z.eqb_neq c NOCHUNK) Hn). unfold getsb. wp_steps.
  assert (Hsz : allocsize (metadata (sb w1)) = allocsize (metadata (sb w))) by (by rewrite (al_sb _ _ _ _ Hal)).
  change (bsize (sb w1)) with (Z.to_nat (allocsize (metadata (sb w1)))).
  set (x := u64 _). eapply wp_mono; [apply getblk_mem, Hal|]. cbv beta. intros [y|] w2 (Hm2 & Hc2 & Hr2).
  - destruct Hr2 as (-> & Ht2 & b & Hb). constructor; [done| | | | | |].
    + eapply xstep_same_pins; [apply Hal|by apply cstep_xstep|apply Hal].
    + exact (took_trans _ _ _ [] _ (al_took _ _ _ _ Hal) Ht2).
    + rewrite Ht2, occ_cons, decide_True, occ_nil by done. assert (0 <= pins w1 x); [|lia].
      unfold pins. destruct (bufs w1 !! x) eqn:E; [|done]. eapply (count_nonneg w1); [apply Hal|done].
    + eexists. eapply (busies_trans w w1 w2 [_] [_]); [apply Hal|]. eapply took_busies; [apply Hal|apply Hm2|done|done].
    + exists b. split; [done|]. rewrite <- Hsz, <- (same_sb _ _ (cs_store _ _ Hc2)).
      by apply (sized_bufs _ _ (mem_sized w2 Hm2) x).
    + exists c, w1. split; [done|]. split; [apply Hc2|]. split; [|apply Hc2].
      unfold x. by rewrite (al_sb _ _ _ _ Hal).
  - destruct Hr2 as [Ht2 Hno]. split; [done|]. split; [|split; [|split]].
    + eapply xstep_same_pins; [apply Hal|by apply cstep_xstep|apply Hal].
    + exact (took_trans _ _ _ [] [] (al_took _ _ _ _ Hal) Ht2).
    + left. eapply (no_room_busies w w1 [_] 1); [apply Hm|apply Hal|apply Hal|apply Hal|done].
    + right. exists c, w1. split_and!; [done|apply Hc2|apply Hc2|]. eexists. split; [eapply (busies_trans w w1 w2)|].
      * apply Hal.
      * eapply took_busies; [apply Hal|apply Hm2|done|exact Ht2].
      * cbn. lia.
Qed.

Lemma new_leaf_spec :
  wp new_leaf (fun r w' => match r with
    | Some x => fresh_block w w' x (empty_leaf (sb w)) | None => no_block w w' end) w.
Proof.
  unfold new_leaf, getsb. wp_step. eapply wp_mono; [apply new_block_spec|]. cbv beta.
  intros [x|] w1 Hr; wp_steps; [|done]. unfold get_data. wp_step.
  destruct (rb_buf _ _ _ Hr) as (b & Hb & Hlen). apply (wp_get_buf x b); [done|]. wp_steps.
  rewrite (raw_block_size _ _ _ Hr). unfold memset. rewrite Hlen.
  assert (E : init_leaf (replicate (Z.to_nat (allocsize (metadata (sb w)))) (u8 0)) (allocsize (metadata (sb w))) =
              empty_leaf (sb w)) by (unfold empty_leaf; reflexivity).
  rewrite E. clear E.
  eapply wp_mono; [apply (fill_block w w1); [done|]|].
  { unfold empty_leaf, init_leaf, set_map_offset, set_leaf_count. by len. }
  cbv beta. intros _ w2 H2. wp_step. eapply wp_mono; [exact H2|]. cbv beta. intros. by wp_steps.
Qed.

Lemma new_node_spec :
  wp new_node (fun r w' => match r with
    | Some x => fresh_block w w' x (empty_node (sb w)) | None => no_block w w' end) w.
Proof.
  unfold new_node. wp_step. eapply wp_mono; [apply new_block_spec|]. cbv beta.
  intros [x|] w1 Hr; wp_steps; [|done]. unfold get_data. wp_step.
  destruct (rb_buf _ _ _ Hr) as (b & Hb & Hlen). apply (wp_get_buf x b); [done|]. wp_steps.
  unfold memset. rewrite Hlen.
  assert (E : set_node_count 0 (replicate (Z.to_nat (allocsize (metadata (sb w)))) (u8 0)) = empty_node (sb w))
    by (unfold empty_node; reflexivity).
  rewrite E. clear E.
  eapply wp_mono; [apply (fill_block w w1); [done|]|].
  { unfold empty_node, set_node_count. by len. }
  cbv beta. intros _ w2 H2. wp_step. eapply wp_mono; [exact H2|]. cbv beta. intros. by wp_steps.
Qed.
End new_blocks.

(** C20: [alloc_chunk] returns a chunk of its space that was free and is now
    marked in use; no other bit of a bitmap and no other block changes, the
    free count goes down by one, and the search goes on from there the next
    time.  It returns -1, and has changed nothing, only when no chunk of the
    space is available, or when a bitmap block cannot be read. *)
Theorem alloc_chunk_correct which w :
  mem_ok w -> geometry (sb w) -> space_ok (sb w) which -> deferring (sb w) = false -> tail_set w which ->
  wp (alloc_chunk which) (fun c w' => mem_ok w' /\ took w w' [] /\
    ((c = NOCHUNK /\ sb w' = sb w /\ (forall x, view w' x = view w x) /\ alloc_failed w which) \/
     (0 <= c < chunks (asi which (sb w)) /\ bit_free (view w) (sb w) which c /\ bit_used (view w') (sb w) which c /\
      (forall x, x <> bitmap_sector (sb w) which (c / per_block (sb w)) -> view w' x = view w x) /\
      (forall c', c' <> c -> 0 <= c' -> c' / per_block (sb w) = c / per_block (sb w) ->
         bit_used (view w') (sb w) which c' <-> bit_used (view w) (sb w) which c') /\
      last_alloc (asi which (sb w')) = c /\
      freechunks (asi which (sb w')) = u64 (freechunks (asi which (sb w)) - 1)))) w.
Proof.
  intros Hm Hg Hsp Hdef Ht. destruct (per_block_pos (sb w) Hg) as [Hsz Hper].
  eapply wp_mono; [by apply alloc_chunk_spec|]. cbv beta. intros c w' [(-> & Hm' & Hc & Htk & Hwhy)|(_ & Ha)].
  { split_and!; try done. left. split_and!; [done|apply Hc|apply Hc|done]. }
  split_and!; [apply Ha|apply Ha|]. right. destruct (al_view _ _ _ _ Ha) as (d & Hd & Hfree & Hv).
  assert (Hin : bit_in d (c mod per_block (sb w))).
  { unfold bit_in. rewrite (view_length w _ _ Hm Hd), Z2Nat.id by lia. rewrite <- Hper. apply Z.mod_pos_bound. lia. }
  split_and!.
  - apply Ha.
  - apply Ha.
  - by exists d.
  - eexists. rewrite Hv, decide_True by done. split; [done|].
    by rewrite get_set_bitmap_bit, Z.eqb_refl; [|done|apply Z.mod_pos_bound; lia].
  - intros x Hx. by rewrite Hv, decide_False.
  - intros c' Hne Hc' Eq. unfold bit_used. rewrite Eq. rewrite Hv, decide_True, Hd by done.
    assert (Hmod : (c mod per_block (sb w) =? c' mod per_block (sb w)) = false /\
                   (c' mod per_block (sb w) =? c mod per_block (sb w)) = false).
    { pose proof (Z.div_mod c (per_block (sb w)) ltac:(lia)). pose proof (Z.div_mod c' (per_block (sb w)) ltac:(lia)).
      rewrite !Z.eqb_neq. split; intros E; apply Hne; congruence. }
    split; intros (d' & [= <-] & Hb); eexists; (split; [done|]); revert Hb;
      rewrite get_set_bitmap_bit by (try done; apply Z.mod_pos_bound; lia); destruct Hmod as [E1 E2]; rewrite ?E1, ?E2; done.
  - rewrite (al_sb _ _ _ _ Ha). unfold record_alloc, count_alloc, upd_asi, asi, as_of. cbn.
    destruct which, (asi_sel (metadata (sb w))) eqn:E1, (asi_sel (snapdata (sb w))) eqn:E2; cbn; rewrite ?E1, ?E2; done.
  - rewrite (al_sb _ _ _ _ Ha). unfold record_alloc, count_alloc, upd_asi, asi, as_of. cbn.
    destruct which, (asi_sel (metadata (sb w))) eqn:E1, (asi_sel (snapdata (sb w))) eqn:E2; cbn; rewrite ?E1, ?E2; done.
Qed.
