(* ===== verification/JournalSpec.v ===== *)
(** * The steps of a commit

    Writes to the device as a log, the positions in the journal, and what the
    three steps of [commit_transaction] do: the copies in the journal, the commit
    block, and the blocks themselves. *)

From S2P Require Import Prelude Bytes State Buffer Bitmap Journal CacheInv CacheRoom CacheMem.

(** ** Logs of writes *)

(** The device after some writes *)
Definition apply_writes (l : list (Z * block)) (m : gmap Z block) : gmap Z block :=
  foldl (fun m p => <[p.1 := p.2]> m) m l.

#[global] Arguments apply_writes : simpl never.

Lemma apply_writes_cons p l m : apply_writes (p :: l) m = apply_writes l (<[p.1 := p.2]> m).
Proof. done. Qed.

Lemma apply_writes_app l1 l2 m : apply_writes (l1 ++ l2) m = apply_writes l2 (apply_writes l1 m).
Proof. apply foldl_app. Qed.

Lemma apply_writes_other l m x : x ∉ l.*1 -> apply_writes l m !! x = m !! x.
Proof.
  revert m. induction l as [|p l IH]; intros m Hx; [done|]. cbn in Hx. apply not_elem_of_cons in Hx as [Hx ?].
  rewrite apply_writes_cons, IH by done. by rewrite lookup_insert_ne.
Qed.

Lemma apply_writes_this l m x d : NoDup l.*1 -> (x, d) ∈ l -> apply_writes l m !! x = Some d.
Proof.
  revert m. induction l as [|p l IH]; intros m Hnd Hx; [by apply elem_of_nil in Hx|].
  cbn in Hnd. apply NoDup_cons in Hnd as [Hp Hnd]. rewrite apply_writes_cons. apply elem_of_cons in Hx as [<-|Hx]; [|by apply IH].
  rewrite apply_writes_other by done. apply lookup_insert_eq.
Qed.

Lemma apply_writes_some l m x : is_Some (m !! x) -> is_Some (apply_writes l m !! x).
Proof.
  revert m. induction l as [|p l IH]; intros m Hx; [done|]. rewrite apply_writes_cons. apply IH.
  destruct (decide (p.1 = x)) as [->|]; [by rewrite lookup_insert_eq|by rewrite lookup_insert_ne].
Qed.

(** The state after the device was written; the newest write is the first of
    [writes]. *)
Definition logged (l : list (Z * block)) (w : world) : world :=
  w <| disk := apply_writes l (disk w) |> <| writes := reverse ((fun p => WrBlock p.1 p.2) <$> l) ++ writes w |>.

Lemma logged_nil w : logged [] w = w.
Proof. by destruct w. Qed.

Lemma logged_app l1 l2 w : logged (l1 ++ l2) w = logged l2 (logged l1 w).
Proof.
  unfold logged, set. cbn. rewrite apply_writes_app. f_equal. by rewrite fmap_app, reverse_app, app_assoc.
Qed.

(** A block is written where no clean buffer has another one. *)
Definition loggable (w : world) (p : Z * block) : Prop :=
  length p.2 = Z.to_nat (allocsize (metadata (sb w))) /\
  forall b, bufs w !! p.1 = Some b -> bstate b = BUFFER_CLEAN -> bdata b = p.2.

Lemma mem_ok_write w p : mem_ok w -> loggable w p -> mem_ok (logged [p] w).
Proof.
  intros [[] [] Hsync] [Hlen Hcl].
  assert (Hd : forall x b, bufs w !! x = Some b -> bstate b = BUFFER_CLEAN -> <[p.1 := p.2]> (disk w) !! x = Some (bdata b)).
  { intros x b Hb Hst. destruct (decide (p.1 = x)) as [<-|Hne]; [|rewrite lookup_insert_ne by done; by apply Hsync].
    rewrite lookup_insert_eq. f_equal. symmetry. by apply Hcl. }
  constructor; [constructor; try done|constructor; try done|].
  - intros x b Hb _ Hst. by apply Hd.
  - intros x d. change (disk (logged [p] w)) with (<[p.1 := p.2]> (disk w)).
    intros [[_ <-]|[_ Hx]]%lookup_insert_Some; [done|by eapply sized_disk].
  - intros x b Hb Hst. by apply Hd.
Qed.

Lemma mem_ok_logged l w : mem_ok w -> Forall (loggable w) l -> mem_ok (logged l w).
Proof.
  revert w. induction l as [|p l IH]; intros w Hm Hl; [by rewrite logged_nil|]. apply Forall_cons in Hl as [Hp Hl].
  rewrite (logged_app [p] l). apply IH; [by apply mem_ok_write|]. eapply Forall_impl; [exact Hl|]. done.
Qed.

Lemma view_logged l w x :
  (x ∈ l.*1 -> exists b, bufs w !! x = Some b /\ bstate b <> BUFFER_INVAL) -> view (logged l w) x = view w x.
Proof.
  intros Hx. unfold view. change (bufs (logged l w)) with (bufs w). change (disk (logged l w)) with (apply_writes l (disk w)).
  destruct (decide (x ∈ l.*1)) as [Hin|Hno]; [|by rewrite apply_writes_other].
  destruct (Hx Hin) as (b & -> & Hb). by rewrite !decide_False.
Qed.

Lemma wp_write_block x d w (Q : Z -> world -> Prop) :
  is_Some (disk w !! x) -> Q 0 (logged [(x, d)] w) -> wp (write_block x d) Q w.
Proof. intros [d0 Hd] HQ. unfold write_block. wp_steps. rewrite Hd. by wp_steps. Qed.

Lemma wp_write_buffer_to s x b w (Q : Z -> world -> Prop) :
  bufs w !! s = Some b -> is_Some (disk w !! x) -> Q 0 (logged [(x, bdata b)] w) -> wp (write_buffer_to s x) Q w.
Proof.
  intros Hb Hx HQ. unfold write_buffer_to, get_data. wp_steps. apply (wp_get_buf s b); [done|]. wp_steps.
  by apply wp_write_block.
Qed.

(** ** The journal *)

(** Block [i] after the next one, round the end of the journal *)
Definition jblock (s : superblock) (i : Z) : Z := (journal_next (image s) + i) mod journal_size (image s).

(** The journal is on the device, and its blocks are not cached: they are written
    through buffers that never become valid. *)
Record journal_ok (w : world) : Prop := {
  jk_next : 0 <= journal_next (image (sb w)) < journal_size (image (sb w));
  jk_bits : 0 <= chunk_sectors_bits (metadata (sb w));
  jk_span : journal_size (image (sb w)) * 2 ^ chunk_sectors_bits (metadata (sb w)) <= 2 ^ 32;
  jk_base : 0 <= journal_base (image (sb w)) < 2 ^ 63;
  jk_device : forall i, 0 <= i < journal_size (image (sb w)) -> is_Some (disk w !! journal_sector (sb w) i);
  jk_idle : forall i b, 0 <= i < journal_size (image (sb w)) -> bufs w !! journal_sector (sb w) i = Some b ->
    bstate b = BUFFER_INVAL }.

Definition in_journal (s : superblock) (x : Z) : Prop :=
  exists i, 0 <= i < journal_size (image s) /\ x = journal_sector s i.

Lemma journal_sector_eq w i :
  journal_ok w -> 0 <= i < journal_size (image (sb w)) ->
  journal_sector (sb w) i = journal_base (image (sb w)) + i * 2 ^ chunk_sectors_bits (metadata (sb w)).
Proof.
  intros [_ Hb Hs Hbase _ _] Hi. unfold journal_sector. rewrite Z.shiftl_mul_pow2 by done.
  assert (0 < 2 ^ chunk_sectors_bits (metadata (sb w))) by (apply Z.pow_pos_nonneg; lia).
  assert (0 <= i * 2 ^ chunk_sectors_bits (metadata (sb w)) < 2 ^ 32) by nia.
  rewrite u32_id by done. apply u64_id. unfold is_u64. lia.
Qed.

Lemma journal_sector_inj w i j :
  journal_ok w -> 0 <= i < journal_size (image (sb w)) -> 0 <= j < journal_size (image (sb w)) ->
  journal_sector (sb w) i = journal_sector (sb w) j -> i = j.
Proof.
  intros Hj Hi Hj' E. rewrite !(journal_sector_eq w) in E by done.
  assert (0 < 2 ^ chunk_sectors_bits (metadata (sb w))) by (apply Z.pow_pos_nonneg; [lia|apply Hj]).
  apply (Z.mul_reg_r i j (2 ^ chunk_sectors_bits (metadata (sb w)))); lia.
Qed.

Lemma jblock_range s i : 0 < journal_size (image s) -> 0 <= jblock s i < journal_size (image s).
Proof. intros. by apply Z.mod_pos_bound. Qed.

Lemma jblock_inj s i j :
  0 <= i < journal_size (image s) -> 0 <= j < journal_size (image s) -> jblock s i = jblock s j -> i = j.
Proof.
  unfold jblock. set (n := journal_size (image s)). set (a := journal_next (image s)). intros Hi Hj E.
  pose proof (Z.div_mod (a + i) n ltac:(lia)) as H1. pose proof (Z.div_mod (a + j) n ltac:(lia)) as H2. rewrite E in H1.
  assert (Hk : n * ((a + i) / n - (a + j) / n) = i - j) by lia.
  revert Hk. generalize ((a + i) / n - (a + j) / n). intros k Hk. clear E H1 H2. clearbody n.
  destruct (Z.lt_trichotomy k 0) as [Hlt|[->|Hgt]]; [|lia|]; nia.
Qed.

(** A dirty block is not one of the journal. *)
Lemma dirty_apart w x : cache_ok w -> journal_ok w -> x ∈ dirty_buffers w -> ~ in_journal (sb w) x.
Proof.
  intros Hok Hj Hx (i & Hi & ->). apply (dirty_elem w Hok) in Hx as (b & Hb & Hst).
  pose proof (jk_idle w Hj i b Hi Hb). congruence.
Qed.

(** The superblock with the next journal block moved by [n] *)
Definition skip (n : Z) (s : superblock) : superblock := s <| image; journal_next := jblock s n |>.

Lemma skip_skip s n m : 0 < journal_size (image s) -> skip m (skip n s) = skip (n + m) s.
Proof.
  intros Hs. unfold skip, jblock, set. cbn. by rewrite Zplus_mod_idemp_l, Z.add_assoc.
Qed.

Lemma next_journal_block_run w (Q : Z -> world -> Prop) :
  0 <= journal_next (image (sb w)) < journal_size (image (sb w)) ->
  Q (jblock (sb w) 0) (w <| sb ::= skip 1 |>) -> wp next_journal_block Q w.
Proof.
  intros Hn HQ. unfold next_journal_block, getsb, modsb. wp_steps. unfold jblock in HQ at 1. rewrite Z.add_0_r, Z.mod_small in HQ by done.
  replace (if journal_next (image (sb w)) + 1 =? journal_size (image (sb w)) then 0 else journal_next (image (sb w)) + 1)
    with (jblock (sb w) 1); [done|].
  unfold jblock. destruct (Z.eqb_spec (journal_next (image (sb w)) + 1) (journal_size (image (sb w)))) as [->|Hne].
  - apply Z.mod_same. lia.
  - apply Z.mod_small. lia.
Qed.

Lemma skip_none s : 0 <= journal_next (image s) < journal_size (image s) -> skip 0 s = s.
Proof.
  intros Hn. unfold skip, jblock. rewrite Z.add_0_r, Z.mod_small by done. destruct s as [i]. by destruct i.
Qed.

Lemma jblock_skip s n i : jblock (skip n s) i = jblock s (n + i).
Proof. unfold jblock, skip. cbn. unfold jblock. by rewrite Zplus_mod_idemp_l, Z.add_assoc. Qed.

(** ** The copies in the journal *)

(** The data of a buffer *)
Definition block_of (w : world) (x : Z) : block := from_option bdata [] (bufs w !! x).

(** The first writes: the dirty blocks go to the journal, one after the other. *)
Definition journal_copies (w : world) (l : list Z) : list (Z * block) :=
  imap (fun i x => (journal_sector (sb w) (jblock (sb w) (Z.of_nat i)), block_of w x)) l.

Lemma journal_copies_snoc w l x :
  journal_copies w (l ++ [x]) =
  journal_copies w l ++ [(journal_sector (sb w) (jblock (sb w) (Z.of_nat (length l))), block_of w x)].
Proof. unfold journal_copies. rewrite imap_app. cbn. by rewrite Nat.add_0_r. Qed.

Lemma journal_copies_sectors w l x : 0 < journal_size (image (sb w)) -> x ∈ (journal_copies w l).*1 -> in_journal (sb w) x.
Proof.
  intros Hs ([y d] & -> & Hin)%list_elem_of_fmap. apply elem_of_lookup_imap in Hin as (i & z & [= -> ->] & _).
  exists (jblock (sb w) (Z.of_nat i)). split; [by apply jblock_range|done].
Qed.

Lemma dirty_block w x : cache_ok w -> x ∈ dirty_buffers w ->
  exists b, bufs w !! x = Some b /\ bstate b = BUFFER_DIRTY /\ bdata b = block_of w x /\ view w x = Some (block_of w x).
Proof.
  intros Hok (b & Hb & Hst)%(dirty_elem w Hok). exists b. unfold block_of, view. rewrite Hb. cbn. by rewrite Hst.
Qed.

Lemma journal_dirty_buffers_run w :
  mem_ok w -> journal_ok w ->
  wp journal_dirty_buffers (fun _ w' =>
    w' = logged (journal_copies w (dirty_buffers w)) (w <| sb ::= skip (Z.of_nat (length (dirty_buffers w))) |>)) w.
Proof.
  intros Hm Hj. pose proof (jk_next w Hj) as Hn. unfold journal_dirty_buffers. wp_steps.
  apply (wp_foreach (fun l w' => exists l0, dirty_buffers w = l0 ++ l /\
    w' = logged (journal_copies w l0) (w <| sb ::= skip (Z.of_nat (length l0)) |>))).
  - exists []. split; [done|]. cbn [journal_copies imap length]. change (Z.of_nat 0) with 0. rewrite logged_nil.
    unfold set. rewrite skip_none by done. by destruct w.
  - intros x l w1 Hx (l0 & E & ->). destruct (dirty_block w x (mem_cache _ Hm) Hx) as (b & Hb & Hst & Hd & _).
    set (w1 := w <| sb ::= skip (Z.of_nat (length l0)) |>).
    wp_step. apply next_journal_block_run; [apply (jblock_range (sb w) (Z.of_nat (length l0))); lia|].
    wp_step. apply (wp_get_buf x b); [done|]. unfold buffer_dirty. rewrite bool_decide_true by done. cbn [negb].
    unfold getsb. wp_steps. apply (wp_write_buffer_to x _ b); [done| |].
    + apply apply_writes_some, (jk_device w Hj), (jblock_range (skip (Z.of_nat (length l0)) (sb w))). cbn. lia.
    + wp_steps. exists (l0 ++ [x]). split; [by rewrite <- app_assoc|]. rewrite journal_copies_snoc, logged_app, length_app, <- Hd. cbn [length].
      change (sb (logged (journal_copies w l0) w1)) with (skip (Z.of_nat (length l0)) (sb w)). rewrite jblock_skip, Z.add_0_r.
      replace (Z.of_nat (length l0 + 1)) with (Z.of_nat (length l0) + 1) by lia. unfold set at 2. cbn.
      unfold set. rewrite <- skip_skip by lia. done.
  - intros w1 (l0 & E & ->). rewrite app_nil_r in E. by rewrite E.
Qed.

(** ** The commit block *)

(** The superblock after the commit block was numbered *)
Definition numbered (s : superblock) : superblock := s <| image; sequence ::= fun n => u32 (n + 1) |>.

(** [w'] is [w] with the block [d] written to the sector [x] of the journal. *)
Record journaled (w w' : world) (x : Z) (d : block) : Prop := {
  jd_mem : mem_ok w';
  jd_disk : disk w' = <[x := d]> (disk w);
  jd_writes : writes w' = WrBlock x d :: writes w;
  jd_dirty : dirty_buffers w' = dirty_buffers w;
  jd_journaled : journaled_buffers w' = journaled_buffers w;
  jd_view : forall y, y <> x -> view w' y = view w y;
  jd_pins : forall y, pins w' y = pins w y;
  jd_usable : forall y, usable w y -> usable w' y;
  jd_this : forall b, bufs w' !! x = Some b -> bstate b = BUFFER_INVAL;
  jd_others : forall y b, y <> x -> bufs w' !! y = Some b -> bufs w !! y = Some b;
  jd_rest : disk_super w' = disk_super w /\ org_data w' = org_data w /\ snap_data w' = snap_data w /\
    now w' = now w /\ maxb w' = maxb w }.

Lemma wp_brelse s b w (Q : unit -> world -> Prop) :
  bufs w !! s = Some b -> bcount b <> 0 ->
  Q tt (put_buf s (b <| bcount ::= fun n => n - 1 |>) (dirty_buffers w) (journaled_buffers w) w) -> wp (brelse s) Q w.
Proof.
  intros Hb Hc HQ. unfold brelse. wp_step. apply (wp_get_buf s b); [done|]. wp_steps; [by apply negb_true_iff, Z.eqb_neq|].
  by apply (wp_upd_buf s b).
Qed.

(** The buffer of a journal block: it is never valid. *)
Lemma getblk_journal s w :
  mem_ok w -> ~ no_room w 1 -> (forall b, bufs w !! s = Some b -> bstate b = BUFFER_INVAL) ->
  wp (getblk s (Z.to_nat (allocsize (metadata (sb w))))) (fun r w' => r = Some s /\ mem_ok w' /\ pinned w w' s /\
    exists b, bufs w' !! s = Some b /\ bstate b = BUFFER_INVAL /\ bcount b = pins w s + 1) w.
Proof.
  intros Hm Hroom Hinv. eapply wp_mono; [apply wp_conj; [apply getblk_spec|apply getblk_room]; apply Hm|]. cbv beta.
  intros [x|] w' ((Hok & Hsz & Hr) & Hn); [|by destruct Hroom; apply crowded_no_room, Hn].
  destruct Hr as [-> Hp]. split; [done|]. split; [|split; [done|]].
  - eapply mem_ok_cstep; [done|eapply pinned_cstep; [apply Hm|done]|done|done|done].
  - destruct (pin_this _ _ _ Hp) as (b' & Hb' & Hcase). exists b'. split; [done|]. unfold pins.
    destruct (bufs w !! s) as [b|] eqn:E; [|by destruct Hcase]. subst b'. cbn. split; [by apply Hinv|lia].
Qed.

Lemma wp_modsb_id f w (Q : unit -> world -> Prop) : f (sb w) = sb w -> Q tt w -> wp (modsb f) Q w.
Proof. intros Hf HQ. unfold modsb. wp_steps. unfold set. rewrite Hf. by destruct w. Qed.

(** A block of the journal is filled through its buffer. *)
Lemma journaled_intro w w2 x d b :
  mem_ok w -> (forall b, bufs w !! x = Some b -> bstate b = BUFFER_INVAL) -> mem_ok w2 -> pinned w w2 x ->
  bufs w2 !! x = Some b -> bstate b = BUFFER_INVAL -> bcount b = pins w x + 1 ->
  length d = Z.to_nat (allocsize (metadata (sb w2))) ->
  let w4 := put_buf x (b <| bdata := d |> <| bcount ::= fun n => n - 1 |>) (dirty_buffers w2) (journaled_buffers w2) (logged [(x, d)] w2) in
  journaled w w4 x d.
Proof.
  intros Hm Hinv Hm2 Hp Hb Hst Hc Hlen w4. pose proof (pin_store _ _ _ Hp) as Hs.
  assert (Hpos : 0 <= pins w x). { unfold pins. destruct (bufs w !! x) as [b0|] eqn:E; [|done]. by eapply (count_nonneg w (mem_cache _ Hm)). }
  assert (Hm3 : mem_ok (logged [(x, d)] w2)).
  { apply mem_ok_write; [done|]. split; [done|]. cbn. intros b' Hb' Hcl. congruence. }
  pose proof (mem_cache _ Hm3) as Hok3. assert (Hb3 : bufs (logged [(x, d)] w2) !! x = Some b) by done.
  assert (Hv : forall y, y <> x -> view w4 y = view w y).
  { intros y Hy. unfold w4. rewrite (put_buf_view _ _ b), decide_False by done. rewrite view_logged.
    - eapply pinned_view; [apply Hm|done].
    - cbn. by intros ->%list_elem_of_singleton. }
  constructor; try done.
  - constructor.
    + eapply put_buf_ok; [exact Hok3|exact Hb3| | |cbn; lia|cbn; congruence].
      * apply relinked_same; [apply Hok3|]. exact (dirty_iff _ _ b Hok3 Hb3).
      * apply relinked_same; [apply Hok3|]. exact (journaled_iff _ _ b Hok3 Hb3).
    + apply put_buf_sized; [apply Hm3|done].
    + intros y c Hc'. cbn in Hc'. apply lookup_insert_Some in Hc' as [[<- <-]|[Hne Hc']]; [cbn; congruence|].
      intros Hcl. by apply (mem_sync _ Hm3).
  - cbn. change (<[x := d]> (disk w2) = <[x := d]> (disk w)). by rewrite (same_disk _ _ Hs).
  - cbn. change (WrBlock x d :: writes w2 = WrBlock x d :: writes w). by rewrite (same_writes _ _ Hs).
  - apply Hs.
  - apply Hs.
  - intros y. unfold w4. rewrite (put_buf_pins _ _ b) by done. change (pins (logged [(x, d)] w2) y) with (pins w2 y).
    rewrite (pinned_pins _ _ _ Hp). cbn. case_decide; lia.
  - intros y (c & Hy & Hys & Hyc). destruct (decide (y = x)) as [->|Hne]; [by rewrite (Hinv c Hy) in Hys|].
    exists c. cbn. rewrite lookup_insert_ne by done. split; [|done]. eapply pinned_keeps; [done|done|done|]. left. lia.
  - intros c. cbn. rewrite lookup_insert_eq. by intros [= <-].
  - intros y c Hne. cbn. rewrite lookup_insert_ne by done. by apply Hp.
  - cbn. destruct Hs. by split_and!.
Qed.

(** The commit block of a state *)
Definition commit_of (w : world) (barrier : bool) : block :=
  commit_body (sb w) barrier (commit_header (bsize (sb w)) (sequence (image (sb w))) (dirty_buffers w)).

(** The superblock does not matter for it. *)
Lemma mem_ok_sb s w : allocsize (metadata s) = allocsize (metadata (sb w)) -> mem_ok w -> mem_ok (w <| sb := s |>).
Proof. intros E [[] [] ?]. constructor; [by constructor|constructor; cbn; by rewrite E|done]. Qed.

Lemma journaled_sb w w' x d s s' :
  allocsize (metadata s') = allocsize (metadata (sb w')) ->
  journaled (w <| sb := s |>) w' x d -> journaled w (w' <| sb := s' |>) x d.
Proof. intros E []. constructor; try done. by apply mem_ok_sb. Qed.

Lemma write_commit_block_run barrier w :
  mem_ok w -> journal_ok w -> ~ no_room w 1 -> ar_count (defer (sb w)) = 0 ->
  Z.of_nat (length (dirty_buffers w)) <= max_commit_blocks (sb w) ->
  length (commit_of w barrier) = Z.to_nat (allocsize (metadata (sb w))) ->
  wp (write_commit_block barrier) (fun _ w' => sb w' = numbered (skip 1 (sb w)) /\
    journaled w w' (journal_sector (sb w) (jblock (sb w) 0)) (commit_of w barrier)) w.
Proof.
  intros Hm Hj Hroom Hdef Hmax Hlen. pose proof (jk_next w Hj) as Hn. unfold write_commit_block. wp_step.
  apply next_journal_block_run; [done|]. unfold jgetblk, getsb. wp_steps.
  set (w1 := w <| sb ::= skip 1 |>). set (x := journal_sector (sb w) (jblock (sb w) 0)).
  assert (Hinv : forall b, bufs w !! x = Some b -> bstate b = BUFFER_INVAL).
  { intros b. apply (jk_idle w Hj). apply jblock_range. lia. }
  assert (Hm1 : mem_ok w1) by (destruct Hm as [[] [] ?]; constructor; [by constructor|by constructor|done]).
  change (journal_sector (sb w1) (jblock (sb w) 0)) with x.
  eapply wp_mono; [apply (getblk_journal x w1 Hm1 Hroom Hinv)|]. cbv beta.
  intros r w2 (-> & Hm2 & Hp & b & Hb & Hst & Hc). pose proof (pin_store _ _ _ Hp) as Hs. wp_steps. unfold modsb at 1. wp_steps.
  { apply Z.leb_le. rewrite (same_dirty _ _ Hs), (same_sb _ _ Hs). exact Hmax. }
  set (d := commit_body _ _ _). assert (Ed : d = commit_of w barrier).
  { unfold d, commit_of. by rewrite (same_sb _ _ Hs), (same_dirty _ _ Hs). }
  unfold set_data. apply (wp_upd_buf x b); [done|]. wp_steps. apply wp_modsb_id.
  { cbn. rewrite (same_sb _ _ Hs). cbn. by rewrite Hdef. }
  wp_steps. set (b4 := b <| bdata := d |>). set (w4 := put_buf x b4 _ _ _).
  assert (Ex : journal_sector (sb w4) (jblock (sb w) 0) = x) by (cbn; by rewrite (same_sb _ _ Hs)).
  rewrite Ex. apply (wp_write_buffer_to x _ b4); [apply lookup_insert_eq| |].
  { cbn. rewrite (same_disk _ _ Hs). apply (jk_device w Hj). apply jblock_range. lia. }
  wp_steps. assert (Hp0 : 0 <= pins w1 x).
  { unfold pins. destruct (bufs w1 !! x) eqn:E; [|done]. by eapply (count_nonneg w1 (mem_cache _ Hm1)). }
  apply (wp_brelse x b4); [apply lookup_insert_eq|cbn; lia|]. rewrite <- Ed. split; [by cbn; rewrite (same_sb _ _ Hs)|].
  pose proof (journaled_intro w1 w2 x d b Hm1 Hinv Hm2 Hp Hb Hst Hc) as Hjd. cbv zeta in Hjd.
  apply (journaled_sb w _ _ _ (skip 1 (sb w)) (numbered (sb w2))) in Hjd; [|done|by rewrite Ed, (same_sb _ _ Hs)].
  unfold w4, put_buf, logged, set in *. cbn in *. by rewrite insert_insert_eq.
Qed.

(** ** The blocks go home *)

Definition home_writes (w : world) (l : list Z) : list (Z * block) := (fun x => (x, block_of w x)) <$> l.

(** The state after the first buffer of the dirty list was written *)
Definition at_home (x : Z) (b : buffer) (l : list Z) (w : world) : world :=
  put_buf x (b <| bstate := BUFFER_CLEAN |>) l (journaled_buffers w) (logged [(x, bdata b)] w).

Lemma unlink_absent x l : x ∉ l -> unlink x l = l.
Proof.
  unfold unlink. induction l as [|y l IH]; [done|]. intros [Hne Hx]%not_elem_of_cons. cbn.
  rewrite (proj2 (Z.eqb_neq y x)) by done. cbn. by rewrite IH.
Qed.

Lemma unlink_head x l : x ∉ l -> unlink x (x :: l) = l.
Proof. intros Hx. rewrite <- (unlink_absent x l Hx) at 2. unfold unlink. cbn. by rewrite Z.eqb_refl. Qed.

Lemma write_buffer_run x l b w (Q : Z -> world -> Prop) :
  cache_ok w -> dirty_buffers w = x :: l -> bufs w !! x = Some b -> is_Some (disk w !! x) ->
  Q 0 (at_home x b l w) -> wp (write_buffer x) Q w.
Proof.
  intros Hok Hd Hb Hx HQ. assert (Hst : bstate b = BUFFER_DIRTY) by (apply (dirty_iff w x b Hok Hb); rewrite Hd; by left).
  pose proof (dirty_nodup w Hok) as Hnd. rewrite Hd in Hnd. apply NoDup_cons in Hnd as [Hxl _].
  unfold write_buffer. wp_steps. apply (wp_write_buffer_to x _ b); [done|done|]. cbn [Z.eqb]. wp_steps.
  unfold set_buffer_uptodate. wp_step. apply (wp_get_buf x b); [done|]. unfold buffer_dirty, buffer_journaled.
  rewrite (bool_decide_true (bstate b = BUFFER_DIRTY)), (bool_decide_false (bstate b = BUFFER_JOURNALED)) by congruence. wp_steps.
  apply (wp_upd_buf x b); [done|]. wp_steps. unfold at_home in HQ. unfold put_buf, set in *. cbn in *.
  rewrite Hd, unlink_head by done. exact HQ.
Qed.

(** [w'] is [w] with the first [l] of its dirty blocks written. *)
Record homed (w : world) (l : list Z) (w' : world) : Prop := {
  hm_mem : mem_ok w';
  hm_log : exists w0, w' = logged (home_writes w l) w0 /\ disk w0 = disk w /\ writes w0 = writes w;
  hm_dirty : dirty_buffers w = l ++ dirty_buffers w';
  hm_sb : sb w' = sb w;
  hm_view : forall x, view w' x = view w x;
  hm_pins : forall x, pins w' x = pins w x;
  hm_usable : forall x, usable w x -> usable w' x;
  hm_others : forall x, x ∉ l -> bufs w' !! x = bufs w !! x;
  hm_journaled : journaled_buffers w' = journaled_buffers w;
  hm_rest : disk_super w' = disk_super w /\ org_data w' = org_data w /\ snap_data w' = snap_data w /\
    now w' = now w /\ maxb w' = maxb w }.

Lemma homed_refl w : mem_ok w -> homed w [] w.
Proof. intros Hm. constructor; try done. exists w. by rewrite logged_nil. Qed.

Lemma homed_step w l x l' w1 b :
  mem_ok w -> homed w l w1 -> dirty_buffers w1 = x :: l' -> bufs w1 !! x = Some b -> homed w (l ++ [x]) (at_home x b l' w1).
Proof.
  intros Hm0 [Hm (w0 & E0 & Ed & Ew) Hd Hsb Hv Hp Hu Ho Hj Hr] Hl Hb. pose proof (mem_cache _ Hm) as Hok.
  assert (Hst : bstate b = BUFFER_DIRTY) by (apply (dirty_iff w1 x b Hok Hb); rewrite Hl; by left).
  pose proof (dirty_nodup w (mem_cache _ Hm0)) as Hnd. rewrite Hd, Hl in Hnd. apply NoDup_app in Hnd as (_ & Hdis & Hnd).
  apply NoDup_cons in Hnd as [Hxl Hnd]. assert (Hx : x ∉ l) by (intros Hx; apply (Hdis x Hx); by left).
  assert (Hm1 : mem_ok (logged [(x, bdata b)] w1)).
  { apply mem_ok_write; [done|]. split; [by eapply (sized_bufs _ _ (mem_sized _ Hm))|]. cbn. intros c Hc. congruence. }
  assert (Eb : bdata b = block_of w x) by (unfold block_of; by rewrite <- (Ho x Hx), Hb).
  assert (Hb1 : bufs (logged [(x, bdata b)] w1) !! x = Some b) by done.
  unfold at_home. constructor; try done.
  - constructor.
    + eapply put_buf_ok; [apply Hm1|exact Hb1| | |cbn; by eapply (count_nonneg w1 Hok)|intros _ _; exact (lookup_insert_eq (disk w1) x (bdata b))].
      * split; [done|]. intros y. change (dirty_buffers (logged [(x, bdata b)] w1)) with (dirty_buffers w1). rewrite Hl.
        cbn. case_decide as Hy; [subst y; split; [done|congruence]|]. rewrite elem_of_cons. split; [by right|]. by intros [->|].
      * apply relinked_same; [apply Hm1|]. split; [|cbn; congruence]. intros Hy%(journaled_iff w1 x b Hok Hb). cbn. congruence.
    + apply put_buf_sized; [apply Hm1|]. exact (sized_bufs _ _ (mem_sized _ Hm) x b Hb).
    + intros y c. cbn. intros [[<- <-]|[Hne Hc]]%lookup_insert_Some; [intros _; exact (lookup_insert_eq (disk w1) x (bdata b))|].
      intros Hcl. by apply (mem_sync _ Hm1).
  - unfold home_writes. rewrite fmap_app. cbn [fmap list_fmap]. fold (home_writes w l). rewrite <- Eb. subst w1.
    eexists (put_buf x _ l' _ w0). rewrite logged_app. split; [done|]. done.
  - rewrite <- app_assoc. cbn. by rewrite <- Hl.
  - intros y. rewrite (put_buf_view _ _ b), <- Hv by done. cbn. case_decide as Hy.
    + subst y. unfold view. by rewrite Hb, Hst.
    + apply view_logged. cbn. by intros ->%list_elem_of_singleton.
  - intros y. rewrite (put_buf_pins _ _ b) by done. cbn. rewrite <- Hp. change (pins (logged [(x, bdata b)] w1) y) with (pins w1 y). case_decide; lia.
  - intros y Hy%Hu. destruct Hy as (c & Hc & Hcs & Hcc). destruct (decide (y = x)) as [->|Hne].
    + eexists. cbn. rewrite lookup_insert_eq. split; [done|]. cbn. split; [done|]. congruence.
    + exists c. cbn. by rewrite lookup_insert_ne.
  - intros y [Hy1 Hy2]%not_elem_of_app. rewrite list_elem_of_singleton in Hy2. cbn. rewrite lookup_insert_ne by done. by apply Ho.
Qed.

Lemma write_all_dirty_run w :
  mem_ok w -> (forall x, x ∈ dirty_buffers w -> is_Some (disk w !! x)) ->
  wp write_all_dirty (fun _ w' => homed w (dirty_buffers w) w' /\ dirty_buffers w' = []) w.
Proof.
  intros Hm Hdev. unfold write_all_dirty. wp_steps.
  apply (wp_loop (fun _ w1 => exists l, homed w l w1) (fun _ w1 => length (dirty_buffers w1))); [|by exists []; apply homed_refl|lia].
  intros [] w1 [l Hh]. wp_steps. destruct (dirty_buffers w1) as [|x l'] eqn:El.
  - wp_steps. pose proof (hm_dirty _ _ _ Hh) as E. rewrite El, app_nil_r in E. by rewrite E.
  - pose proof (hm_mem _ _ _ Hh) as Hm1. destruct (dirty_block w1 x (mem_cache _ Hm1)) as (b & Hb & Hst & _ & _); [rewrite El; by left|].
    wp_step. apply (wp_get_buf x b); [done|]. wp_steps; [by apply bool_decide_true|].
    assert (Hx : is_Some (disk w1 !! x)).
    { destruct (hm_log _ _ _ Hh) as (w0 & -> & E & _). apply apply_writes_some. rewrite E. apply Hdev. rewrite (hm_dirty _ _ _ Hh), El.
      apply elem_of_app. right. by left. }
    apply (write_buffer_run x l' b); [apply Hm1|done|done|done|]. wp_steps. split; [|cbn; lia].
    exists (l ++ [x]). by apply homed_step.
Qed.
