(* ===== verification/MetaInv.v ===== *)
(** * Who owns which metadata block

    The invariant that keeps the blocks of the btree, the bitmap blocks and new
    blocks apart, and its preservation by the steps of the server: allocation,
    edits of tree blocks, reads and releases. *)

From S2P Require Import Prelude Bytes State Buffer Bitmap Leaf Node Alloc Journal CacheInv CacheRoom CacheMem BitmapInv AllocInv JournalSpec.

(** The sector of a metadata chunk *)
Definition sector_of (s : superblock) (c : Z) : Z := u64 (Z.shiftl c (chunk_sectors_bits (metadata s))).

(** The block numbers of a bitmap *)
Definition bitmap_index (s : superblock) (which : space) (k : Z) : Prop := 0 <= k < bitmap_blocks (asi which s).

(** What [setup_sb] derives from the sizes of the store. *)
Record layout (s : superblock) : Prop := {
  ly_geo : geometry s;
  ly_sp : forall which, space_ok s which;
  ly_node : alloc_per_node (metadata s) = (allocsize (metadata s) - 8) / 16;
  ly_defer : deferring s = false }.

(** [G] are metadata blocks in use: none is a bitmap block, and the bitmap says
    that they, and the bitmap blocks, are in use. *)
Record meta_ok (w : world) (G : list Z) : Prop := {
  mo_mem : mem_ok w;
  mo_layout : layout (sb w);
  mo_tail : forall which, tail_set w which;
  mo_bitmap : forall which k, bitmap_index (sb w) which k -> bitmap_sector (sb w) which k ∉ G;
  mo_used : forall c, 0 <= c < chunks (asi METADATA (sb w)) ->
    sector_of (sb w) c ∈ G \/ (exists which k, bitmap_index (sb w) which k /\ sector_of (sb w) c = bitmap_sector (sb w) which k) ->
    bit_used (view w) (sb w) METADATA c;
  (* so are the blocks of the journal *)
  mo_journal : forall x, in_journal (sb w) x -> x ∉ G;
  mo_jbitmap : forall which k, bitmap_index (sb w) which k -> ~ in_journal (sb w) (bitmap_sector (sb w) which k);
  mo_jused : forall c, 0 <= c < chunks (asi METADATA (sb w)) -> in_journal (sb w) (sector_of (sb w) c) ->
    bit_used (view w) (sb w) METADATA c }.

(** ** The fields that an allocation does not change *)

(** The journal and the tables of the server *)
Definition fixed (s : superblock) :=
  (journal_base (image s), journal_size (image s), max_commit_blocks s, snaplock_hash_bits s).

(** What the snapshots, the copyout and the deferred allocations need. *)
Definition rest (s : superblock) :=
  (snapmask s, snaplist (image s), snaptail (image s), source_chunk s, dest_exception s, copy_chunks s,
   copybuf_size s, copybuf s, usecounts s, deferred_alloc s, defer s, fixed s).

(** [s'] is [s] but for counters, flags and the root of the tree. *)
Record same_layout (s s' : superblock) : Prop := {
  sl_meta : metadata s' = metadata s;
  sl_snap : snapdata s' = snapdata s;
  sl_defer : deferring s' = deferring s;
  sl_bits : allocsize_bits (img_metadata (image s')) = allocsize_bits (img_metadata (image s));
  sl_snapbits : allocsize_bits (asi SNAPDATA s') = allocsize_bits (asi SNAPDATA s);
  sl_asi : forall which, chunks (asi which s') = chunks (asi which s) /\
    bitmap_blocks (asi which s') = bitmap_blocks (asi which s) /\
    bitmap_base (asi which s') = bitmap_base (asi which s);
  sl_last : forall which, 0 <= last_alloc (asi which s') <= chunks (asi which s');
  sl_rest : rest s' = rest s }.

Lemma sl_sector s s' c : same_layout s s' -> sector_of s' c = sector_of s c.
Proof. intros H. unfold sector_of. by rewrite (sl_meta _ _ H). Qed.

Lemma sl_per_block s s' : same_layout s s' -> per_block s' = per_block s.
Proof. intros H. unfold per_block. by rewrite (sl_meta _ _ H). Qed.

Lemma sl_bitmap_sector s s' which k : same_layout s s' -> bitmap_sector s' which k = bitmap_sector s which k.
Proof.
  intros H. unfold bitmap_sector. destruct (sl_asi _ _ H which) as (_ & _ & ->). by rewrite (sl_meta _ _ H).
Qed.

Lemma sl_index s s' which k : same_layout s s' -> bitmap_index s' which k <-> bitmap_index s which k.
Proof. intros H. unfold bitmap_index. by destruct (sl_asi _ _ H which) as (_ & -> & _). Qed.

Lemma sl_fixed s s' : same_layout s s' -> fixed s' = fixed s.
Proof. intros H. exact (f_equal snd (sl_rest _ _ H)). Qed.

Lemma sl_journal s s' x : same_layout s s' -> in_journal s' x <-> in_journal s x.
Proof.
  intros H. pose proof (sl_fixed _ _ H) as E. unfold fixed in E. injection E as E1 E2 _ _.
  unfold in_journal, journal_sector. by rewrite E1, E2, (sl_meta _ _ H).
Qed.

Lemma sl_layout s s' : same_layout s s' -> layout s -> layout s'.
Proof.
  intros H [Hg Hsp Hn Hd]. constructor.
  - destruct Hg. constructor; rewrite ?(sl_meta _ _ H), ?(sl_bits _ _ H); done.
  - intros which. destruct (sl_asi _ _ H which) as (Ec & Eb & Ebase). destruct (Hsp which) as [H1 H2 H3 H4].
    constructor; rewrite ?(sl_per_block _ _ H), ?Ec, ?Eb, ?Ebase; try done. rewrite <- Ec. apply (sl_last _ _ H).
  - by rewrite (sl_meta _ _ H).
  - by rewrite (sl_defer _ _ H).
Qed.

Lemma sl_bit_used V s s' which c : same_layout s s' -> bit_used V s' which c <-> bit_used V s which c.
Proof.
  intros H. unfold bit_used. by rewrite (sl_per_block _ _ H), (sl_bitmap_sector _ _ _ _ H).
Qed.

Lemma same_layout_refl s : layout s -> same_layout s s.
Proof. intros H. constructor; try done. intros which. apply (sp_last _ _ (ly_sp s H which)). Qed.

Lemma same_layout_trans s1 s2 s3 : same_layout s1 s2 -> same_layout s2 s3 -> same_layout s1 s3.
Proof.
  intros [] []. constructor; try congruence; [|done]. intros which.
  destruct (sl_asi0 which) as (? & ? & ?), (sl_asi1 which) as (? & ? & ?). split_and!; congruence.
Qed.

(** ** Steps that leave the bitmaps alone *)

(** A step to a state with the same layout, where no bitmap block has
    changed. *)
Lemma meta_ok_step w w' G :
  meta_ok w G -> mem_ok w' -> same_layout (sb w) (sb w') ->
  (forall which k, bitmap_index (sb w) which k ->
     view w' (bitmap_sector (sb w) which k) = view w (bitmap_sector (sb w) which k)) ->
  meta_ok w' G.
Proof.
  intros [Hm Hl Ht Hb Hu Hj Hjb Hju] Hm' Hs Hv.
  assert (Hidx : forall which c, 0 <= c < 8 * ((chunks (asi which (sb w)) + 7) / 8) ->
    bitmap_index (sb w) which (c / per_block (sb w))).
  { intros which c Hc. destruct (per_block_pos (sb w) (ly_geo _ Hl)) as [Hsz Hper].
    pose proof (sp_blocks _ _ (ly_sp _ Hl which)) as [_ Hch].
    split; [apply Z.div_pos; lia|]. apply Z.div_lt_upper_bound; [lia|]. rewrite Hper in Hch |- *.
    assert ((chunks (asi which (sb w)) + 7) / 8 <= bitmap_blocks (asi which (sb w)) * allocsize (metadata (sb w))).
    { apply Z.lt_succ_r, Z.div_lt_upper_bound; lia. }
    lia. }
  assert (Hbit : forall which c, 0 <= c < 8 * ((chunks (asi which (sb w)) + 7) / 8) ->
    bit_used (view w) (sb w) which c -> bit_used (view w') (sb w') which c).
  { intros which c Hc Hused. rewrite (sl_bit_used _ _ _ _ _ Hs). unfold bit_used in *. rewrite Hv; [done|]. by apply Hidx. }
  assert (Hin8 : forall c, 0 <= c < chunks (asi METADATA (sb w)) -> 0 <= c < 8 * ((chunks (asi METADATA (sb w)) + 7) / 8)).
  { intros c Hc. pose proof (Z.div_mod (chunks (asi METADATA (sb w)) + 7) 8 ltac:(lia)).
    pose proof (Z.mod_pos_bound (chunks (asi METADATA (sb w)) + 7) 8 ltac:(lia)). lia. }
  constructor; [done|by eapply sl_layout| | | | | |].
  - intros which c. destruct (sl_asi _ _ Hs which) as (-> & _ & _). intros Hc. apply Hbit; [|by apply Ht].
    pose proof (sp_chunks _ _ (ly_sp _ Hl which)). lia.
  - intros which k. rewrite (sl_index _ _ _ _ Hs), (sl_bitmap_sector _ _ _ _ Hs). apply Hb.
  - intros c. destruct (sl_asi _ _ Hs METADATA) as (-> & _ & _). intros Hc Hin. apply Hbit; [by apply Hin8|]. apply Hu; [done|]. rewrite (sl_sector _ _ _ Hs) in Hin. destruct Hin as [?|(which & k & Hk & E)]; [by left|right].
    exists which, k. rewrite (sl_index _ _ _ _ Hs), (sl_bitmap_sector _ _ _ _ Hs) in *. done.
  - intros x. rewrite (sl_journal _ _ _ Hs). apply Hj.
  - intros which k. rewrite (sl_index _ _ _ _ Hs), (sl_bitmap_sector _ _ _ _ Hs), (sl_journal _ _ _ Hs). apply Hjb.
  - intros c. destruct (sl_asi _ _ Hs METADATA) as (-> & _ & _). rewrite (sl_sector _ _ _ Hs), (sl_journal _ _ _ Hs). intros Hc Hin.
    apply Hbit; [by apply Hin8|]. by apply Hju.
Qed.

Lemma meta_ok_cstep w w' G : meta_ok w G -> mem_ok w' -> cstep w w' -> meta_ok w' G.
Proof.
  intros H Hm' Hc. assert (Es : sb w' = sb w) by apply Hc. eapply meta_ok_step; [done|done| |].
  - rewrite Es. apply same_layout_refl, H.
  - intros. apply Hc.
Qed.

Lemma meta_ok_estep w w' G x d : meta_ok w G -> mem_ok w' -> x ∈ G -> estep w w' x d -> meta_ok w' G.
Proof.
  intros H Hm' Hx He. assert (Es : sb w' = sb w) by apply He. eapply meta_ok_step; [done|done| |].
  - rewrite Es. apply same_layout_refl, H.
  - intros which k Hk. rewrite (es_view _ _ _ _ He), decide_False; [done|]. intros E.
    apply (mo_bitmap w G H which k Hk). by rewrite E.
Qed.

Lemma meta_ok_perm w G G' : (forall x, x ∈ G' -> x ∈ G) -> meta_ok w G -> meta_ok w G'.
Proof.
  intros Hin [Hm Hl Ht Hb Hu Hj Hjb Hju]. constructor; [done|done|done| | | |done|done].
  - intros which k Hk Hx. by apply (Hb which k Hk), Hin.
  - intros c Hc [Hx|Hx]; apply Hu; auto.
  - intros x Hx Hx'. by apply (Hj x Hx), Hin.
Qed.

(** ** Allocation *)

Lemma asi_record_alloc which c s which' (f : allocspace_img -> Z) :
  (forall a n, f (a <| freechunks := n |>) = f a) -> (forall a n, f (a <| last_alloc := n |>) = f a) ->
  f (asi which' (record_alloc which c s)) = f (asi which' s).
Proof.
  intros H1 H2. unfold record_alloc, count_alloc, upd_asi, asi, as_of. cbn.
  destruct which, which', (asi_sel (metadata s)) eqn:E1, (asi_sel (snapdata s)) eqn:E2; cbn;
    rewrite ?E1, ?E2; cbn; try done;
    match goal with |- f ?x = f ?y => transitivity (f (y <| freechunks := u64 (freechunks y - 1) |>)); [apply H2|apply H1] end.
Qed.

Lemma last_record_alloc which c s which' :
  last_alloc (asi which' (record_alloc which c s)) = c \/
  last_alloc (asi which' (record_alloc which c s)) = last_alloc (asi which' s).
Proof.
  unfold record_alloc, count_alloc, upd_asi, asi, as_of. cbn.
  destruct which, which', (asi_sel (metadata s)) eqn:E1, (asi_sel (snapdata s)) eqn:E2; cbn;
    rewrite ?E1, ?E2; cbn; auto.
Qed.

(** When the last allocation of a space changes, its chunks are those of the
    space that was allocated from. *)
Lemma last_record_same which c s which' :
  last_alloc (asi which' (record_alloc which c s)) <> last_alloc (asi which' s) ->
  chunks (asi which' s) = chunks (asi which s).
Proof.
  unfold record_alloc, count_alloc, upd_asi, asi, as_of. cbn.
  destruct which, which', (asi_sel (metadata s)) eqn:E1, (asi_sel (snapdata s)) eqn:E2; cbn;
    rewrite ?E1, ?E2; cbn; done.
Qed.

Lemma record_alloc_layout which c s :
  layout s -> 0 <= c < chunks (asi which s) -> same_layout s (record_alloc which c s).
Proof.
  intros Hl Hc. constructor; [done|done| | | | | |].
  - unfold deferring, record_alloc, count_alloc. cbn. rewrite ?Z.land_lor_distr_l. done.
  - unfold record_alloc, count_alloc, upd_asi. cbn. by destruct which, (asi_sel (metadata s)) eqn:E1, (asi_sel (snapdata s)) eqn:E2; cbn; rewrite ?E1, ?E2.
  - by apply asi_record_alloc.
  - intros which'. split_and!; by apply asi_record_alloc.
  - intros which'. rewrite (asi_record_alloc which c s which' chunks) by done.
    pose proof (sp_last _ _ (ly_sp s Hl which')).
    destruct (decide (last_alloc (asi which' (record_alloc which c s)) = last_alloc (asi which' s))) as [->|Hne]; [done|].
    rewrite (last_record_same _ _ _ _ Hne). destruct (last_record_alloc which c s which') as [-> | ?]; [lia|done].
  - unfold record_alloc, count_alloc, upd_asi, rest. cbn.
    by destruct which, (asi_sel (metadata s)) eqn:E1, (asi_sel (snapdata s)) eqn:E2; cbn; rewrite ?E1, ?E2.
Qed.

(** The root of the tree and its height. *)
Definition root_of (s : superblock) := (etree_root (image s), etree_levels (image s)).

Lemma record_alloc_root which c s : root_of (record_alloc which c s) = root_of s.
Proof.
  unfold record_alloc, count_alloc, upd_asi, root_of. cbn.
  by destruct which, (asi_sel (metadata s)) eqn:E1, (asi_sel (snapdata s)) eqn:E2; cbn; rewrite ?E1, ?E2.
Qed.

Lemma sector_of_inj s c c' :
  layout s -> 0 <= c < chunks (asi METADATA s) -> 0 <= c' < chunks (asi METADATA s) ->
  sector_of s c = sector_of s c' -> c = c'.
Proof.
  intros Hl Hc Hc' E. pose proof (sp_chunks _ _ (ly_sp s Hl METADATA)) as Hch.
  pose proof (geo_bits s (ly_geo s Hl)) as Hb. unfold sector_of in E. rewrite (geo_csb s (ly_geo s Hl)) in E.
  set (k := allocsize_bits (img_metadata (image s)) - 9) in *.
  assert (Hk : 0 < 2 ^ k <= 2 ^ 15) by (split; [apply Z.pow_pos_nonneg|apply Z.pow_le_mono_r]; lia).
  rewrite !Z.shiftl_mul_pow2 in E by lia. rewrite !u64_id in E by (unfold is_u64; nia). nia.
Qed.

(** No bit goes away with an allocation. *)
Lemma allocated_bits w w' which c which' c' :
  meta_ok w [] -> allocated w w' which c -> bit_used (view w) (sb w) which' c' ->
  bit_used (view w') (sb w) which' c'.
Proof.
  intros H Ha (d' & Hd' & Hb). destruct (al_view _ _ _ _ Ha) as (d & Hd & Hf & Hv).
  unfold bit_used. rewrite Hv. case_decide as E; [|by eauto]. rewrite E, Hd in Hd'. injection Hd' as <-.
  eexists. split; [done|]. destruct (per_block_pos (sb w) (ly_geo _ (mo_layout _ _ H))) as [Hsz Hper].
  rewrite get_set_bitmap_bit, Hb; [apply orb_true_r| |apply Z.mod_pos_bound; lia].
  unfold bit_in. rewrite (view_length w _ _ (mo_mem _ _ H) Hd), Z2Nat.id by lia.
  rewrite <- Hper. apply Z.mod_pos_bound. lia.
Qed.

(** The chunk that was allocated is marked. *)
Lemma allocated_bit w w' which c :
  meta_ok w [] -> allocated w w' which c -> bit_used (view w') (sb w) which c.
Proof.
  intros H Ha. destruct (al_view _ _ _ _ Ha) as (d & Hd & Hf & Hv).
  unfold bit_used. rewrite Hv, decide_True by done. eexists. split; [done|].
  destruct (per_block_pos (sb w) (ly_geo _ (mo_layout _ _ H))) as [Hsz Hper].
  rewrite get_set_bitmap_bit, Z.eqb_refl; [done| |apply Z.mod_pos_bound; lia].
  unfold bit_in. rewrite (view_length w _ _ (mo_mem _ _ H) Hd), Z2Nat.id by lia.
  rewrite <- Hper. apply Z.mod_pos_bound. lia.
Qed.

Lemma meta_ok_nil w G : meta_ok w G -> meta_ok w [].
Proof. apply meta_ok_perm. intros x Hx. by apply elem_of_nil in Hx. Qed.

Lemma bitmap_index_chunk w which c :
  layout (sb w) -> 0 <= c < chunks (asi which (sb w)) -> bitmap_index (sb w) which (c / per_block (sb w)).
Proof.
  intros Hl Hc. destruct (per_block_pos (sb w) (ly_geo _ Hl)) as [Hsz Hper].
  pose proof (sp_blocks _ _ (ly_sp _ Hl which)) as [_ Hch].
  split; [apply Z.div_pos; lia|]. apply Z.div_lt_upper_bound; lia.
Qed.

Lemma meta_ok_allocated w w' which c G :
  meta_ok w G -> allocated w w' which c ->
  meta_ok w' G /\ same_layout (sb w) (sb w') /\ forall x, x ∈ G -> view w' x = view w x.
Proof.
  intros H Ha. pose proof (meta_ok_nil _ _ H) as H0. pose proof (mo_layout _ _ H) as Hl.
  assert (Hs : same_layout (sb w) (sb w')).
  { rewrite (al_sb _ _ _ _ Ha). apply record_alloc_layout; [done|apply Ha]. }
  assert (Hbit : forall which' c', bit_used (view w) (sb w) which' c' -> bit_used (view w') (sb w') which' c').
  { intros which' c' Hu. rewrite (sl_bit_used _ _ _ _ _ Hs). by eapply allocated_bits. }
  split; [|split; [done|]].
  - destruct H as [Hm _ Ht Hb Hu Hj Hjb Hju]. constructor; [apply Ha|by eapply sl_layout| | | | | |].
    + intros which' c'. destruct (sl_asi _ _ Hs which') as (-> & _ & _). intros Hc. by apply Hbit, Ht.
    + intros which' k. rewrite (sl_index _ _ _ _ Hs), (sl_bitmap_sector _ _ _ _ Hs). apply Hb.
    + intros c'. destruct (sl_asi _ _ Hs METADATA) as (-> & _ & _). intros Hc Hin. apply Hbit, Hu; [done|].
      rewrite (sl_sector _ _ _ Hs) in Hin. destruct Hin as [?|(which' & k & Hk & E)]; [by left|right].
      exists which', k. rewrite (sl_index _ _ _ _ Hs), (sl_bitmap_sector _ _ _ _ Hs) in *. done.
    + intros x. rewrite (sl_journal _ _ _ Hs). apply Hj.
    + intros which' k. rewrite (sl_index _ _ _ _ Hs), (sl_bitmap_sector _ _ _ _ Hs), (sl_journal _ _ _ Hs). apply Hjb.
    + intros c'. destruct (sl_asi _ _ Hs METADATA) as (-> & _ & _). rewrite (sl_sector _ _ _ Hs), (sl_journal _ _ _ Hs). intros Hc Hin.
      by apply Hbit, Hju.
  - intros x Hx. destruct (al_view _ _ _ _ Ha) as (d & Hd & Hf & Hv). rewrite Hv, decide_False; [done|].
    intros ->. eapply (mo_bitmap _ _ H which); [|exact Hx]. apply bitmap_index_chunk; [done|apply Ha].
Qed.

(** ** What steps use up *)

(** At most [n] blocks were allocated: all but [n] metadata chunks that were
    available still are, and each block made at most two more buffers busy. *)
Record spent (w w' : world) (n : nat) : Prop := {
  sp_avail : exists l, (length l <= n)%nat /\ forall c, 0 <= c < chunks (asi METADATA (sb w)) ->
    available w METADATA c -> available w' METADATA c \/ c ∈ l;
  sp_load : load w' <= load w + 2 * Z.of_nat n;
  sp_disk : disk w' = disk w;
  sp_max : maxb w' = maxb w }.

(** There are not enough buffers or chunks for [n] blocks. *)
Definition lack (w : world) (n : nat) : Prop :=
  no_room w (2 * Z.of_nat n) \/ bitmap_lost w METADATA \/
  exists l, (length l < n)%nat /\ forall c, 0 <= c < chunks (asi METADATA (sb w)) -> available w METADATA c -> c ∈ l.

Lemma spent_mono w w' m n : spent w w' m -> (m <= n)%nat -> spent w w' n.
Proof. intros [(l & Hl & Ha) Hb Hd Hx] Hn. constructor; [exists l; split; [lia|done]|lia|done|done]. Qed.

Lemma spent_trans w1 w2 w3 m n :
  same_layout (sb w1) (sb w2) -> spent w1 w2 m -> spent w2 w3 n -> spent w1 w3 (m + n).
Proof.
  intros Hs [(l & Hl & Ha) Hb Hd Hx] [(l' & Hl' & Ha') Hb' Hd' Hx']. constructor; [|lia|congruence|congruence].
  exists (l ++ l'). split; [rewrite length_app; lia|]. intros c Hc Hav. rewrite elem_of_app.
  destruct (Ha c Hc Hav) as [H|]; [|tauto]. destruct (sl_asi _ _ Hs METADATA) as (E & _).
  destruct (Ha' c) as [|]; [by rewrite E|done|by left|tauto].
Qed.

Lemma lack_spent w w' m n : same_layout (sb w) (sb w') -> spent w w' m -> lack w' n -> lack w (m + n).
Proof.
  intros Hs [(l & Hl & Ha) Hb Hd Hx] [H|[(k & Hk & Hkd)|(l' & Hl' & Ha')]].
  - left. unfold no_room in *. lia.
  - right. left. exists k. rewrite (sl_bitmap_sector _ _ _ _ Hs) in Hkd. apply (sl_index _ _ METADATA k Hs) in Hk.
    split; [exact Hk|congruence].
  - right. right. exists (l ++ l'). split; [rewrite length_app; lia|]. intros c Hc Hav. rewrite elem_of_app.
    destruct (Ha c Hc Hav) as [H|]; [|tauto]. right. destruct (sl_asi _ _ Hs METADATA) as (E & _). apply Ha'; [by rewrite E|done].
Qed.

Lemma lack_mono w m n : lack w m -> (m <= n)%nat -> lack w n.
Proof.
  intros [H|[H|(l & Hl & Ha)]] Hn; [left; unfold no_room in *; lia|by right; left|].
  right. right. exists l. split; [lia|done].
Qed.

(** No block can be had where one is lacking. *)
Lemma block_failed_lack w : block_failed w -> lack w 1.
Proof.
  intros [H|[H|[H|H]]]; [by left|left; unfold no_room in *; lia|by right; left|].
  right. right. exists []. split; [cbn; lia|]. intros c Hc Ha. by destruct (H c Hc).
Qed.

Lemma sl_deferred s s' c : same_layout s s' -> is_deferred_alloc s' c = is_deferred_alloc s c.
Proof.
  intros H. pose proof (sl_rest _ _ H) as E. unfold rest in E. unfold is_deferred_alloc.
  injection E as _ _ _ _ _ _ _ _ _ E1 E2 _. by rewrite E1, E2.
Qed.

Lemma spent_quiet w w' :
  mem_ok w -> mem_ok w' -> layout (sb w) -> same_layout (sb w) (sb w') ->
  (forall which k, bitmap_index (sb w) which k ->
     view w' (bitmap_sector (sb w) which k) = view w (bitmap_sector (sb w) which k)) ->
  busies w w' [] -> disk w' = disk w -> maxb w' = maxb w -> spent w w' 0.
Proof.
  intros Hm Hm' Hl Hs Hv Hb Hd Hx. constructor; try done.
  - exists []. split; [done|]. intros c Hc (d & Hdv & H1 & H2 & H3). left. exists d.
    rewrite (sl_per_block _ _ Hs), (sl_bitmap_sector _ _ _ _ Hs), (sl_deferred _ _ _ Hs).
    rewrite Hv by by apply bitmap_index_chunk. done.
  - pose proof (busies_load w w' [] (mem_cache w Hm) (mem_cache w' Hm') Hb) as H. cbn in H. lia.
Qed.

Lemma set_bitmap_bit_bytes d bit : bytes_ok d -> bytes_ok (set_bitmap_bit d bit).
Proof.
  intros Hd. unfold set_bitmap_bit, set_byte. apply Forall_insert; [done|]. unfold is_byte, u8.
  apply Z.mod_pos_bound. lia.
Qed.

(** At most one chunk of a space has its bit at a given place. *)
Lemma one_chunk w which x r :
  layout (sb w) -> exists c, forall c', 0 <= c' < chunks (asi which (sb w)) ->
    bitmap_sector (sb w) which (c' / per_block (sb w)) = x -> c' mod per_block (sb w) = r -> c' = c.
Proof.
  intros Hl. set (k := (x - bitmap_base (asi which (sb w))) / 2 ^ (allocsize_bits (img_metadata (image (sb w))) - 9)).
  exists (per_block (sb w) * k + r). intros c' Hc' E Er.
  pose proof (bitmap_index_chunk w which c' Hl Hc') as Hk'. set (k' := c' / per_block (sb w)) in *.
  pose proof (sp_base _ _ (ly_sp _ Hl which)) as Hb. pose proof (sp_blocks _ _ (ly_sp _ Hl which)) as [Hp _].
  destruct (per_block_pos (sb w) (ly_geo _ Hl)) as [Hsz Hper]. pose proof (geo_bits _ (ly_geo _ Hl)) as Hbits.
  assert (Ek : k = k').
  { unfold k. rewrite <- E. unfold bitmap_sector. rewrite (geo_csb _ (ly_geo _ Hl)). unfold bitmap_index in Hk'.
    rewrite Hper, (geo_size _ (ly_geo _ Hl)) in Hp. set (n := allocsize_bits (img_metadata (image (sb w)))) in *.
    assert (Hn : 0 < 2 ^ (n - 9) < 2 ^ n) by (split; [apply Z.pow_pos_nonneg; lia|apply Z.pow_lt_mono_r; lia]).
    rewrite Z.shiftl_mul_pow2 by lia. rewrite u64_id by (unfold is_u64; nia).
    replace (bitmap_base (asi which (sb w)) + k' * 2 ^ (n - 9) - bitmap_base (asi which (sb w))) with (k' * 2 ^ (n - 9)) by lia.
    apply Z.div_mul. lia. }
  rewrite Ek, <- Er. unfold k'. apply Z.div_mod. lia.
Qed.

(** A block was allocated and perhaps used: at most one metadata chunk is gone. *)
Lemma spent_allocated w w1 w' which c l :
  mem_ok w -> mem_ok w' -> layout (sb w) -> allocated w w1 which c -> same_layout (sb w) (sb w1) -> sb w' = sb w1 ->
  (forall k, bitmap_index (sb w) METADATA k ->
     view w' (bitmap_sector (sb w) METADATA k) = view w1 (bitmap_sector (sb w) METADATA k)) ->
  busies w w' l -> (length l <= 2)%nat -> xstep w w' -> spent w w' 1.
Proof.
  intros Hm Hm' Hl Ha Hs Es Hv' Hb Hlen Hx. destruct (al_view _ _ _ _ Ha) as (d & Hd & Hf & Hv).
  destruct (per_block_pos (sb w) (ly_geo _ Hl)) as [Hsz Hper]. constructor; [|pose proof (busies_load _ _ _ (mem_cache w Hm) (mem_cache w' Hm') Hb); lia|apply Hx|apply Hx].
  destruct (one_chunk w METADATA (bitmap_sector (sb w) which (c / per_block (sb w))) (c mod per_block (sb w)) Hl) as [c0 Hc0].
  exists [c0]. split; [done|]. intros c' Hc' (d' & Hd' & Hby & Hf' & Hdf).
  pose proof (bitmap_index_chunk w METADATA c' Hl Hc') as Hk'.
  unfold available. rewrite Es, (sl_per_block _ _ Hs), (sl_bitmap_sector _ _ _ _ Hs), (sl_deferred _ _ _ Hs), Hv', Hv by done.
  case_decide as E; [|left; by exists d']. rewrite E, Hd in Hd'. injection Hd' as <-.
  destruct (decide (c' mod per_block (sb w) = c mod per_block (sb w))) as [Em|Hne].
  { right. apply list_elem_of_singleton. by apply Hc0. }
  left. eexists. split; [done|]. split; [by apply set_bitmap_bit_bytes|]. split; [|done].
  rewrite get_set_bitmap_bit, Hf', orb_false_r; [by apply Z.eqb_neq| |apply Z.mod_pos_bound; lia].
  unfold bit_in. rewrite (view_length w _ _ Hm Hd), Z2Nat.id by lia. rewrite <- Hper. apply Z.mod_pos_bound. lia.
Qed.

(** ** Steps of the metadata

    From a state where [G] are the blocks in use to one where [G'] are, with at
    most [n] blocks allocated: nothing that was in use is free afterwards, and
    what is new was free before. *)
Record mstep (n : nat) (w w' : world) (G G' : list Z) : Prop := {
  ms_meta : meta_ok w' G';
  ms_same : same_layout (sb w) (sb w');
  ms_bits : forall which c, 0 <= c < chunks (asi which (sb w)) ->
    bit_used (view w) (sb w) which c -> bit_used (view w') (sb w') which c;
  ms_new : forall c, 0 <= c < chunks (asi METADATA (sb w)) -> sector_of (sb w) c ∈ G' ->
    sector_of (sb w) c ∈ G \/ ~ bit_used (view w) (sb w) METADATA c;
  ms_spent : spent w w' n }.

Lemma mstep_trans m n w1 w2 w3 G1 G2 G3 :
  mstep m w1 w2 G1 G2 -> mstep n w2 w3 G2 G3 -> mstep (m + n) w1 w3 G1 G3.
Proof.
  intros [Hm Hs Hb Hn Hp] [Hm' Hs' Hb' Hn' Hp']. constructor; [done|by eapply same_layout_trans| | |by eapply spent_trans].
  - intros which c Hc Hu. apply Hb'; [|by apply Hb]. by destruct (sl_asi _ _ Hs which) as (-> & _).
  - intros c Hc Hin. destruct (sl_asi _ _ Hs METADATA) as (Ec & _). rewrite Ec in Hn'.
    rewrite <- (sl_sector _ _ _ Hs) in Hin. destruct (Hn' c Hc Hin) as [H|H].
    + rewrite (sl_sector _ _ _ Hs) in H. by apply Hn.
    + right. intros Hu. by apply H, Hb.
Qed.

Lemma mstep_mono m n w w' G G' : mstep m w w' G G' -> (m <= n)%nat -> mstep n w w' G G'.
Proof. intros [Hm Hs Hb Hn Hp] Hle. constructor; try done. by eapply spent_mono. Qed.

(** After steps that allocate nothing, and before them *)
Lemma mstep_then n w1 w2 w3 G1 G2 G3 : mstep n w1 w2 G1 G2 -> mstep 0 w2 w3 G2 G3 -> mstep n w1 w3 G1 G3.
Proof. intros H1 H2. rewrite <- (Nat.add_0_r n). by eapply mstep_trans. Qed.

Lemma mstep_first n w1 w2 w3 G1 G2 G3 : mstep 0 w1 w2 G1 G2 -> mstep n w2 w3 G2 G3 -> mstep n w1 w3 G1 G3.
Proof. intros H1 H2. change n with (0 + n)%nat. by eapply mstep_trans. Qed.

Lemma mstep_lack m n w w' G G' : mstep m w w' G G' -> lack w' n -> lack w (m + n).
Proof. intros H. apply lack_spent; apply H. Qed.

Lemma mstep_sub n w w' G G' G'' : mstep n w w' G G' -> (forall x, x ∈ G'' -> x ∈ G') -> mstep n w w' G G''.
Proof.
  intros [Hm Hs Hb Hn Hp] Hin. constructor; [|done|done| |done].
  - by eapply meta_ok_perm.
  - intros c Hc Hx. apply Hn; auto.
Qed.

(** A step that leaves the bitmaps alone. *)
Lemma mstep_quiet w w' G :
  meta_ok w G -> mem_ok w' -> same_layout (sb w) (sb w') ->
  (forall which k, bitmap_index (sb w) which k ->
     view w' (bitmap_sector (sb w) which k) = view w (bitmap_sector (sb w) which k)) ->
  busies w w' [] -> disk w' = disk w -> maxb w' = maxb w -> mstep 0 w w' G G.
Proof.
  intros H Hm' Hs Hv Hb Hd Hx. constructor; [by eapply meta_ok_step|done| |by left|apply spent_quiet; try done; apply H].
  intros which c Hc Hu. rewrite (sl_bit_used _ _ _ _ _ Hs). unfold bit_used in *. rewrite Hv; [done|].
  apply bitmap_index_chunk; [apply H|done].
Qed.

(** Reads and releases. *)
Lemma mstep_cstep w w' G :
  meta_ok w G -> mem_ok w' -> cstep w w' -> busies w w' [] -> mstep 0 w w' G G.
Proof.
  intros H Hm' Hc Hb. assert (Es : sb w' = sb w) by apply Hc. apply mstep_quiet; try done; [|intros; apply Hc|apply Hc|apply Hc].
  rewrite Es. apply same_layout_refl, H.
Qed.

(** Any change of a block in use. *)
Lemma mstep_edit w w' G x d :
  meta_ok w G -> mem_ok w' -> x ∈ G -> same_ext w w' -> busies w w' [] ->
  (forall y, view w' y = if decide (y = x) then Some d else view w y) -> mstep 0 w w' G G.
Proof.
  intros H Hm' Hx Es Hb Hv. apply mstep_quiet; try done; [| |apply Es|apply Es].
  - rewrite (ext_sb _ _ Es). apply same_layout_refl, H.
  - intros which k Hk. rewrite Hv, decide_False; [done|]. intros E.
    apply (mo_bitmap w G H which k Hk). by rewrite E.
Qed.

Lemma mstep_estep w w' G x d : meta_ok w G -> mem_ok w' -> x ∈ G -> estep w w' x d -> mstep 0 w w' G G.
Proof.
  intros H Hm' Hx He. eapply mstep_edit; [done|done|done|apply He| |apply He].
  intros y Hy. left. by apply (es_busy _ _ _ _ He).
Qed.

(** An allocation in either space. *)
Lemma mstep_allocated w w' which c G : meta_ok w G -> allocated w w' which c -> mstep 1 w w' G G.
Proof.
  intros H Ha. destruct (meta_ok_allocated _ _ _ _ _ H Ha) as (Hm & Hs & Hv). constructor; [done|done| |by left|].
  - intros which' c' Hc' Hu. rewrite (sl_bit_used _ _ _ _ _ Hs).
    eapply allocated_bits; [by eapply meta_ok_nil|done|done].
  - eapply (spent_allocated w w' w' which c); try done; [apply H|apply Hm|apply H|apply Ha|cbn; lia|apply Ha].
Qed.

(** ** New blocks *)

(** What the users of a new block rely on: it is none of theirs. *)
Record new_owned (w w' : world) (G : list Z) (x : Z) (d : block) : Prop := {
  no_step : mstep 1 w w' G (x :: G);
  no_root : root_of (sb w') = root_of (sb w);
  no_fresh : x ∉ G;
  no_view : view w' x = Some d;
  no_others : forall y, y ∈ G -> view w' y = view w y;
  no_u64 : is_u64 x }.

Lemma fresh_owned w w' G x d : meta_ok w G -> fresh_block w w' x d -> new_owned w w' G x d.
Proof.
  intros H Hf. destruct (fb_alloc _ _ _ _ Hf) as (c & w1 & Ha & Es & Ex & Hv).
  destruct (meta_ok_allocated _ _ _ _ _ H Ha) as (H1 & Hs & Hv1).
  pose proof (mo_layout _ _ H) as Hl. fold (sector_of (sb w) c) in Ex.
  assert (Hfree : ~ bit_used (view w) (sb w) METADATA c).
  { intros (d' & Hd' & Hb). destruct (al_view _ _ _ _ Ha) as (d0 & Hd0 & Hf0 & _). congruence. }
  assert (Hx : x ∉ G).
  { intros Hin. apply Hfree, (mo_used _ _ H); [apply Ha|]. left. by rewrite <- Ex. }
  assert (Hxb : forall which k, bitmap_index (sb w) which k -> x <> bitmap_sector (sb w) which k).
  { intros which k Hk E. apply Hfree, (mo_used _ _ H); [apply Ha|]. right. exists which, k. by rewrite <- Ex. }
  assert (Hvb : forall which k, bitmap_index (sb w) which k ->
    view w' (bitmap_sector (sb w) which k) = view w1 (bitmap_sector (sb w) which k)).
  { intros which k Hk. rewrite Hv, decide_False; [done|]. intros E. by apply (Hxb which k). }
  assert (Hs' : same_layout (sb w) (sb w')) by by rewrite Es.
  assert (Hm' : meta_ok w' G).
  { eapply (meta_ok_step w1); [done|apply Hf|rewrite Es; apply same_layout_refl, H1|].
    intros which k. rewrite (sl_index _ _ _ _ Hs), (sl_bitmap_sector _ _ _ _ Hs). apply Hvb. }
  assert (Hb' : forall which c', 0 <= c' < chunks (asi which (sb w)) ->
    bit_used (view w) (sb w) which c' -> bit_used (view w') (sb w') which c').
  { intros which c' Hc' Hu. rewrite (sl_bit_used _ _ _ _ _ Hs'). pose proof (allocated_bits _ _ _ _ _ _ (meta_ok_nil _ _ H) Ha Hu) as Hu1.
    unfold bit_used in *. rewrite Hvb; [done|]. by apply bitmap_index_chunk. }
  assert (Hsp : spent w w' 1).
  { destruct (fb_busy _ _ _ _ Hf) as (y & Hy). eapply (spent_allocated w w1 w' METADATA c [y; x]); try done; [apply H|apply Hf|intros; by apply Hvb|apply Hf]. }
  constructor; [| |done| | |].
  - constructor; [|done|done| |done].
    + destruct Hm' as [Hm Hly Ht Hb Hu Hj Hjb Hju]. constructor; [done|done|done| | | |done|done].
      * intros which k Hk. rewrite not_elem_of_cons. split; [|by apply Hb].
        rewrite (sl_index _ _ _ _ Hs') in Hk. rewrite (sl_bitmap_sector _ _ _ _ Hs'). intros E. by apply (Hxb which k).
      * intros c' Hc' Hin. rewrite elem_of_cons in Hin.
        destruct (decide (sector_of (sb w') c' = x)) as [E|Hne]; [|apply Hu; tauto].
        rewrite (sl_sector _ _ _ Hs'), Ex in E. destruct (sl_asi _ _ Hs' METADATA) as (Ec & _ & _).
        rewrite Ec in Hc'. apply sector_of_inj in E; [|done|done|apply Ha]. subst c'.
        rewrite (sl_bit_used _ _ _ _ _ Hs'). pose proof (allocated_bit _ _ _ _ (meta_ok_nil _ _ H) Ha) as (d' & Hd' & Hb2).
        exists d'. split; [|done]. rewrite Hv, decide_False; [done|]. intros E.
        apply (Hxb METADATA (c / per_block (sb w))); [by apply bitmap_index_chunk|done].
      * intros y Hy. rewrite not_elem_of_cons. split; [|by apply Hj]. intros ->. apply Hfree, (mo_jused _ _ H); [apply Ha|].
        rewrite <- Ex. by apply (sl_journal _ _ _ Hs').
    + intros c' Hc' [Hin|Hin]%elem_of_cons; [|by left]. right. rewrite Ex in Hin.
      apply sector_of_inj in Hin; [|done|done|apply Ha]. by subst c'.
  - rewrite Es, (al_sb _ _ _ _ Ha). apply record_alloc_root.
  - by rewrite Hv, decide_True.
  - intros y Hy. rewrite Hv, decide_False by (intros ->; done). by apply Hv1.
  - rewrite Ex. apply u64_range.
Qed.

Lemma no_block_meta w w' G :
  meta_ok w G -> no_block w w' ->
  mstep 1 w w' G G /\ root_of (sb w') = root_of (sb w) /\ (forall y, y ∈ G -> view w' y = view w y) /\ lack w 1.
Proof.
  intros H (Hm & Hx & Ht & Hwhy & Hr). apply block_failed_lack in Hwhy. 
  cut (mstep 1 w w' G G /\ root_of (sb w') = root_of (sb w) /\ forall y, y ∈ G -> view w' y = view w y); [intros (? & ? & ?); by split_and!|].
  destruct Hr as [(Es & Hv & Hb)|(c & w1 & Ha & Es & Hv & Hb)].
  - split; [|split; [by rewrite Es|by intros]]. apply (mstep_mono 0); [|lia].
    apply mstep_quiet; [done|done|rewrite Es; apply same_layout_refl, H|by intros|done|apply Hx|apply Hx].
  - destruct (meta_ok_allocated _ _ _ _ _ H Ha) as (H1 & Hs & Hv1). split; [|split].
    + constructor; [|by rewrite Es| |by left|].
      * eapply (meta_ok_step w1); [done|done|rewrite Es; apply same_layout_refl, H1|by intros].
      * intros which c' Hc' Hu. rewrite Es, (sl_bit_used _ _ _ _ _ Hs).
        pose proof (allocated_bits _ _ _ _ _ _ (meta_ok_nil _ _ H) Ha Hu) as Hu1. unfold bit_used in *. by rewrite Hv.
      * destruct Hb as (l & Hb & Hl). eapply (spent_allocated w w1 w' METADATA c l); try done; [apply H|apply H].
    + rewrite Es, (al_sb _ _ _ _ Ha). apply record_alloc_root.
    + intros y Hy. rewrite Hv. by apply Hv1.
Qed.
