(* ===== verification/Tree.v ===== *)
(** * The btree as one sorted list of entries

    [subtree] relates the blocks of a subtree to the list of the entries of its
    leaves, one after the other, and to the sectors of its blocks.  On that
    list a lookup in the tree is a lookup in a list: the theorems show that
    [probe] finds the leaf that decides the question for a chunk, and that
    [test_unique] answers it. *)

From S2P Require Import Prelude Bytes State Buffer Bitmap Leaf LeafSpec LeafInv LeafView Node Alloc Journal Btree Snapshot CacheInv CacheRoom CacheMem.
From Stdlib Require Import Sorted.

(** ** Subtrees *)

Abbreviation treeP := (Z -> Z -> Z -> aleaf -> list Z -> Prop).

(** The first key of a list of entries, if any, is [k]. *)
Definition head_key (es : list (Z * Z)) (k : Z) : Prop :=
  match es with [] => True | (k', _) :: _ => k' = k end.

(** The children [es] cover the chunks from [lo] to [hi], each from its key on;
    no range is empty; the key of the first one is not looked at. *)
Fixpoint kids (P : treeP) (lo hi : Z) (es : list (Z * Z)) (C : aleaf) (F : list Z) : Prop :=
  match es with
  | [] => lo = hi /\ C = [] /\ F = []
  | (_, s) :: es' =>
      exists mid C1 C2 F1 F2, C = C1 ++ C2 /\ F = F1 ++ F2 /\ lo < mid /\
        P lo mid s C1 F1 /\ head_key es' mid /\ kids P mid hi es' C2 F2
  end.

Definition within (lo hi : Z) (C : aleaf) : Prop := Forall (fun d => lo <= d.1 < hi) C.

(** The subtree of [n] levels of nodes above its leaves at sector [s]: [C] are
    its entries, all from [lo] to below [hi], and [F] are its sectors. *)
Fixpoint subtree (V : Z -> option block) (n : nat) (lo hi s : Z) (C : aleaf) (F : list Z) : Prop :=
  match n with
  | O => exists b, V s = Some b /\ leaf_rep b C /\ leaf_wf C /\ within lo hi C /\ F = [s]
  | S n' => exists b es F', V s = Some b /\ node_rep b es /\ F = s :: F' /\ kids (subtree V n') lo hi es C F'
  end.

(** Chunks of the origin are 32-bit numbers in the leaves, so the keys of the
    tree end there. *)
Definition KEY_TOP : Z := 2 ^ 32.

(** The btree of the superblock. *)
Definition tree_ok (w : world) (C : aleaf) (F : list Z) : Prop :=
  let i := image (sb w) in
  subtree (view w) (etree_levels i) 0 KEY_TOP (etree_root i) C F /\ NoDup F /\ is_u64 (etree_root i).

(** ** Lists of children *)

Lemma kids_le P lo hi es C F : kids P lo hi es C F -> lo <= hi.
Proof.
  revert lo C F. induction es as [|[k s] es IH]; intros lo C F; cbn; [lia|].
  intros (mid & ? & ? & ? & ? & _ & _ & Hle & _ & _ & Hk). apply IH in Hk. lia.
Qed.

Lemma within_weaken lo hi lo' hi' C : within lo hi C -> lo' <= lo -> hi <= hi' -> within lo' hi' C.
Proof. intros H ? ?. eapply Forall_impl; [exact H|]. cbn. intros. lia. Qed.

Lemma kids_within (P : treeP) lo hi es C F :
  (forall lo hi s C F, P lo hi s C F -> within lo hi C) ->
  kids P lo hi es C F -> within lo hi C.
Proof.
  intros HP. revert lo C F. induction es as [|[k s] es IH]; intros lo C F; cbn.
  - intros (_ & -> & _). constructor.
  - intros (mid & C1 & C2 & F1 & F2 & -> & -> & Hle & H1 & _ & Hk).
    apply Forall_app. split.
    + eapply within_weaken; [by eapply HP|lia|]. by eapply kids_le.
    + eapply within_weaken; [by eapply IH|lia|lia].
Qed.

Lemma kids_mono (P Q : treeP) lo hi es C F :
  (forall lo hi s C F', (forall x, x ∈ F' -> x ∈ F) -> P lo hi s C F' -> Q lo hi s C F') ->
  kids P lo hi es C F -> kids Q lo hi es C F.
Proof.
  revert lo C F. induction es as [|[k s] es IH]; intros lo C F HPQ; cbn; [done|].
  intros (mid & C1 & C2 & F1 & F2 & -> & -> & Hle & H1 & Hh & Hk).
  exists mid, C1, C2, F1, F2. split; [done|]. split; [done|]. split; [done|]. split; [|split; [done|]].
  - apply HPQ; [|done]. intros. apply elem_of_app. by left.
  - apply IH; [|done]. intros lo' hi' s' C' F' Hin. apply HPQ. intros. apply elem_of_app. right. by apply Hin.
Qed.

Lemma subtree_within V n lo hi s C F : subtree V n lo hi s C F -> within lo hi C.
Proof.
  revert lo hi s C F. induction n as [|n IH]; intros lo hi s C F; cbn.
  - by intros (b & _ & _ & _ & H & _).
  - intros (b & es & F' & _ & _ & _ & Hk). by eapply kids_within.
Qed.

(** A subtree only depends on the blocks of its own sectors. *)
Lemma subtree_ext V V' n lo hi s C F :
  (forall x, x ∈ F -> V' x = V x) -> subtree V n lo hi s C F -> subtree V' n lo hi s C F.
Proof.
  revert lo hi s C F. induction n as [|n IH]; intros lo hi s C F HV; cbn.
  - intros (b & Hb & Hr & Hw & Hi & ->). exists b. rewrite HV; [done|]. by left.
  - intros (b & es & F' & Hb & Hr & -> & Hk). exists b, es, F'. rewrite HV by by left.
    split; [done|]. split; [done|]. split; [done|].
    eapply kids_mono; [|exact Hk]. intros lo' hi' s' C' F'' Hin. apply IH.
    intros x Hx. apply HV. right. by apply Hin.
Qed.

(** The range of a subtree can be extended to the right. *)
Lemma kids_widen (P : treeP) lo hi hi' es C F :
  (forall lo hi s C F, lo < hi -> hi <= hi' -> P lo hi s C F -> P lo hi' s C F) ->
  lo < hi -> hi <= hi' -> kids P lo hi es C F -> kids P lo hi' es C F.
Proof.
  intros HP. revert lo C F. induction es as [|[k s] es IH]; intros lo C F Hlt Hle; cbn; [lia|].
  intros (mid & C1 & C2 & F1 & F2 & -> & -> & Hm & H1 & Hh & Hk).
  destruct es as [|[k' s'] es].
  - cbn in Hk. destruct Hk as (-> & -> & ->). exists hi', C1, [], F1, []. split_and!; try done; [lia|].
    apply (HP _ hi); done.
  - exists mid, C1, C2, F1, F2. split_and!; try done. apply IH; [|done|done].
    cbn in Hk. destruct Hk as (mid' & ? & ? & ? & ? & _ & _ & ? & _ & _ & Hk%kids_le). lia.
Qed.

Lemma subtree_widen V n lo hi hi' s C F :
  lo < hi -> hi <= hi' -> subtree V n lo hi s C F -> subtree V n lo hi' s C F.
Proof.
  revert lo hi s C F. induction n as [|n IH]; intros lo hi s C F Hlt Hle; cbn.
  - intros (b & Hb & Hr & Hw & Hin & ->). exists b. split_and!; try done. eapply within_weaken; [done|lia|lia].
  - intros (b & es & F' & Hb & Hr & -> & Hk). exists b, es, F'. split_and!; try done.
    eapply kids_widen; [|done|done|done]. intros. by eapply IH.
Qed.

Lemma subtree_head V n lo hi s C F : subtree V n lo hi s C F -> exists F', F = s :: F'.
Proof.
  destruct n; cbn; [intros (b & _ & _ & _ & _ & ->)|intros (b & es & F' & _ & _ & -> & _)]; eauto.
Qed.

Lemma kids_app P lo hi es1 es2 C F :
  kids P lo hi (es1 ++ es2) C F <->
  exists mid C1 C2 F1 F2, C = C1 ++ C2 /\ F = F1 ++ F2 /\ kids P lo mid es1 C1 F1 /\
    (es1 <> [] -> head_key es2 mid) /\ kids P mid hi es2 C2 F2.
Proof.
  revert lo C F. induction es1 as [|[k s] es1 IH]; intros lo C F; cbn [app kids].
  - split.
    + intros H. exists lo, [], C, [], F. done.
    + by intros (mid & C1 & C2 & F1 & F2 & -> & -> & (-> & -> & ->) & _ & H).
  - split.
    + intros (mid & C1 & C2 & F1 & F2 & -> & -> & Hle & H1 & Hh & Hk).
      apply IH in Hk as (mid2 & C3 & C4 & F3 & F4 & -> & -> & Hk1 & Hh2 & Hk2).
      exists mid2, (C1 ++ C3), C4, (F1 ++ F3), F4. rewrite <- !app_assoc.
      split; [done|]. split; [done|]. split; [|split; [|done]].
      * exists mid, C1, C3, F1, F3. split; [done|]. split; [done|]. split; [done|]. split; [done|].
        split; [|done]. destruct es1; [done|]. exact Hh.
      * intros _. destruct es1; [|by apply Hh2]. cbn in Hk1. destruct Hk1 as (-> & _). exact Hh.
    + intros (mid2 & C0 & C4 & F0 & F4 & -> & -> & (mid & C1 & C3 & F1 & F3 & -> & -> & Hle & H1 & Hh & Hk1) & Hh2 & Hk2).
      exists mid, C1, (C3 ++ C4), F1, (F3 ++ F4). rewrite <- !app_assoc.
      split; [done|]. split; [done|]. split; [done|]. split; [done|]. split.
      * destruct es1; [|exact Hh]. cbn in Hk1. destruct Hk1 as (-> & _). by apply Hh2.
      * apply IH. exists mid2, C3, C4, F3, F4. split; [done|]. split; [done|]. split; [done|].
        split; [|done]. intros _. by apply Hh2.
Qed.

(** ** The scan of a node *)

(** How many entries from the front have a key up to [c]. *)
Fixpoint run_keys (c : Z) (es : list (Z * Z)) : nat :=
  match es with
  | [] => 0
  | (k, _) :: es' => if c <? k then 0 else S (run_keys c es')
  end.

Lemma find_from_keys b all es c i :
  node_rep b all -> (forall j, es !! j = all !! (i + j)%nat) ->
  default (i + length es)%nat (find_from (fun j => c <? entry_key b j) i (length es)) = (i + run_keys c es)%nat.
Proof.
  intros Hrep. revert i. induction es as [|[k s] es IH]; intros i Hes; cbn [length find_from run_keys].
  - cbn. lia.
  - assert (Hi : all !! i = Some (k, s)) by (specialize (Hes 0%nat); rewrite Nat.add_0_r in Hes; by rewrite <- Hes).
    destruct (node_rep_entry b all i k s Hrep Hi) as [-> _].
    destruct (c <? k); [cbn; lia|]. replace (i + S (length es))%nat with (S i + length es)%nat by lia.
    rewrite IH; [lia|]. intros j. specialize (Hes (S j)). rewrite Nat.add_succ_r in Hes. done.
Qed.

Lemma probe_scan_rep b es c k s :
  node_rep b ((k, s) :: es) -> probe_scan b c = S (run_keys c es).
Proof.
  intros Hrep. unfold probe_scan. rewrite (node_rep_count _ _ Hrep). cbn [length].
  replace (S (length es) - 1)%nat with (length es) by lia.
  pose proof (find_from_keys b ((k, s) :: es) es c 1 Hrep) as H.
  specialize (H ltac:(intros j; done)).
  destruct (find_from _ 1 (length es)) as [i|]; cbn [default] in H; unfold id in H; lia.
Qed.

Lemma run_keys_le c es : (run_keys c es <= length es)%nat.
Proof. induction es as [|[k s] es IH]; cbn; [lia|]. destruct_if; lia. Qed.

(** The child that covers [c] is the one the scan chooses. *)
Lemma kids_pick (P : treeP) lo hi k s es C F c :
  kids P lo hi ((k, s) :: es) C F -> lo <= c < hi ->
  exists es1 k1 s1 es2 mid1 mid2 C1 C2 C3 F1 F2 F3,
    (k, s) :: es = es1 ++ (k1, s1) :: es2 /\ run_keys c es = length es1 /\
    C = C1 ++ C2 ++ C3 /\ F = F1 ++ F2 ++ F3 /\
    kids P lo mid1 es1 C1 F1 /\ P mid1 mid2 s1 C2 F2 /\ kids P mid2 hi es2 C3 F3 /\
    head_key es2 mid2 /\ (es1 <> [] -> k1 = mid1) /\ mid1 <= c < mid2.
Proof.
  revert k s lo C F. induction es as [|[k' s'] es IH]; intros k s lo C F Hk Hc.
  - cbn in Hk. destruct Hk as (mid & C1 & C2 & F1 & F2 & -> & -> & Hle & H1 & _ & (-> & -> & ->)).
    exists [], k, s, [], lo, hi, [], C1, [], [], F1, []. rewrite !app_nil_r. split_and!; try done; lia.
  - cbn [kids run_keys] in *. destruct Hk as (mid & C1 & C2 & F1 & F2 & -> & -> & Hle & H1 & Hh & Hk).
    cbn in Hh. subst k'. destruct (Z.ltb_spec c mid) as [Hlt|Hge].
    + exists [], k, s, ((mid, s') :: es), lo, mid, [], C1, C2, [], F1, F2.
      split_and!; try done; lia.
    + destruct (IH mid s' mid C2 F2 Hk ltac:(lia)) as
        (es1 & k1 & s1 & es2 & m1 & m2 & D1 & D2 & D3 & G1 & G2 & G3 & E1 & E2 & -> & -> & K1 & K2 & K3 & Hh2 & Hk1 & Hc').
      exists ((k, s) :: es1), k1, s1, es2, m1, m2, (C1 ++ D1), D2, D3, (F1 ++ G1), G2, G3.
      rewrite <- !app_assoc. cbn [app length]. rewrite E1, E2. split; [done|]. split; [done|]. split; [done|].
      split; [done|]. split; [|split; [done|split; [done|split; [done|split; [|done]]]]].
      * exists mid, C1, D1, F1, G1. split; [done|]. split; [done|]. split; [done|]. split; [done|]. split; [|done].
        destruct es1 as [|[kk ss] es1]; [done|]. cbn in E1. injection E1 as <- _ _. done.
      * intros _. destruct es1; [|by apply Hk1]. cbn in E1, K1. injection E1 as <- <- <-. by destruct K1.
Qed.

(** ** Contexts

    The tree of [n] levels at [root] with a hole of [m] levels at the end of
    [path]: the hole is the subtree at [s] for the chunks from [lo] to [hi];
    [CL] and [CR] are the entries before and after it, and [Fo] the sectors
    outside it.  [c] is the chunk that the path was made for. *)
Inductive ctx (V : Z -> option block) (n : nat) (root c : Z)
    : nat -> list etree_path -> Z -> Z -> Z -> aleaf -> aleaf -> list Z -> Prop :=
  | ctx_nil : 0 <= c < KEY_TOP -> ctx V n root c n [] root 0 KEY_TOP [] [] []
  | ctx_snoc m path s lo hi CL CR Fo b es1 k s1 es2 mid1 mid2 C1 C3 F1 F3 :
      ctx V n root c (S m) path s lo hi CL CR Fo ->
      V s = Some b -> node_rep b (es1 ++ (k, s1) :: es2) ->
      kids (subtree V m) lo mid1 es1 C1 F1 -> kids (subtree V m) mid2 hi es2 C3 F3 ->
      head_key es2 mid2 -> (es1 <> [] -> k = mid1) -> mid1 <= c < mid2 ->
      ctx V n root c m (path ++ [(s, S (length es1))]) s1 mid1 mid2 (CL ++ C1) (C3 ++ CR) (s :: F1 ++ F3 ++ Fo).

Lemma ctx_range V n root c m path s lo hi CL CR Fo :
  ctx V n root c m path s lo hi CL CR Fo -> lo <= c < hi /\ 0 <= lo /\ hi <= KEY_TOP.
Proof.
  induction 1 as [|m path s lo hi CL CR Fo b es1 k s1 es2 mid1 mid2 C1 C3 F1 F3 _ IH _ _ H1 H3 _ _ Hc]; [lia|].
  apply kids_le in H1, H3. lia.
Qed.

Lemma ctx_length V n root c m path s lo hi CL CR Fo :
  ctx V n root c m path s lo hi CL CR Fo -> n = (length path + m)%nat.
Proof. induction 1 as [|? ? ? ? ? ? ? ? ? ? ? ? ? ? ? ? ? ? ? _ IH]; len. Qed.

Lemma ctx_path_sectors V n root c m path s lo hi CL CR Fo :
  ctx V n root c m path s lo hi CL CR Fo -> forall x, x ∈ path.*1 -> x ∈ Fo.
Proof.
  induction 1 as [|m path s lo hi CL CR Fo b es1 k s1 es2 mid1 mid2 C1 C3 F1 F3 _ IH]; intros x; [done|].
  rewrite fmap_app, elem_of_app. cbn. rewrite list_elem_of_singleton. intros [Hx| ->]; [|by left].
  right. apply elem_of_app. right. apply elem_of_app. right. by apply IH.
Qed.

(** A context only depends on the blocks of its own sectors. *)
Lemma ctx_ext V V' n root c m path s lo hi CL CR Fo :
  (forall x, x ∈ Fo -> V' x = V x) ->
  ctx V n root c m path s lo hi CL CR Fo -> ctx V' n root c m path s lo hi CL CR Fo.
Proof.
  intros HV H. revert HV.
  induction H as [|m path s lo hi CL CR Fo b es1 k s1 es2 mid1 mid2 C1 C3 F1 F3 _ IH Hb Hr H1 H3 Hh Hk Hc]; intros HV.
  - by constructor.
  - econstructor; [| |exact Hr| | |done|done|done].
    + apply IH. intros x Hx. apply HV. right. apply elem_of_app. right. apply elem_of_app. by right.
    + rewrite HV; [done|]. by left.
    + eapply kids_mono; [|exact H1]. intros lo' hi' s' C' F' Hin. apply subtree_ext.
      intros x Hx. apply HV. right. apply elem_of_app. left. by apply Hin.
    + eapply kids_mono; [|exact H3]. intros lo' hi' s' C' F' Hin. apply subtree_ext.
      intros x Hx. apply HV. right. apply elem_of_app. right. apply elem_of_app. left. by apply Hin.
Qed.

(** A subtree put into the hole makes the whole tree. *)
Lemma ctx_plug V n root c m path s lo hi CL CR Fo D G :
  ctx V n root c m path s lo hi CL CR Fo -> subtree V m lo hi s D G ->
  exists F, subtree V n 0 KEY_TOP root (CL ++ D ++ CR) F /\ F ≡ₚ G ++ Fo.
Proof.
  intros H. revert D G.
  induction H as [|m path s lo hi CL CR Fo b es1 k s1 es2 mid1 mid2 C1 C3 F1 F3 _ IH Hb Hr H1 H3 Hh Hk Hc]; intros D G HD.
  - exists G. rewrite !app_nil_r. done.
  - destruct (IH (C1 ++ D ++ C3) (s :: F1 ++ G ++ F3)) as (F & HF & Hp).
    + exists b, (es1 ++ (k, s1) :: es2), (F1 ++ G ++ F3). split_and!; try done.
      apply kids_app. exists mid1, C1, (D ++ C3), F1, (G ++ F3). split_and!; try done.
      exists mid2, D, C3, G, F3. split_and!; try done. lia.
    + exists F. rewrite <- !app_assoc in HF. rewrite <- !app_assoc. split; [done|].
      rewrite Hp. clear. rewrite <- (Permutation_middle G). cbn. f_equiv. solve_Permutation.
Qed.

(** The entries outside the hole are not of the chunk. *)
Lemma ctx_within V n root c m path s lo hi CL CR Fo :
  ctx V n root c m path s lo hi CL CR Fo ->
  within 0 lo CL /\ within hi KEY_TOP CR.
Proof.
  induction 1 as [|m path s lo hi CL CR Fo b es1 k s1 es2 mid1 mid2 C1 C3 F1 F3 Hctx IH Hb Hr H1 H3 Hh Hk Hc].
  - split; constructor.
  - destruct IH as [IHL IHR]. pose proof (kids_le _ _ _ _ _ _ H1). pose proof (kids_le _ _ _ _ _ _ H3).
    pose proof (ctx_range _ _ _ _ _ _ _ _ _ _ _ _ Hctx).
    pose proof (kids_within _ _ _ _ _ _ (subtree_within V m) H1) as W1.
    pose proof (kids_within _ _ _ _ _ _ (subtree_within V m) H3) as W3.
    split; apply Forall_app; split.
    + eapply within_weaken; [exact IHL|lia|lia].
    + eapply within_weaken; [exact W1|lia|lia].
    + eapply within_weaken; [exact W3|lia|lia].
    + eapply within_weaken; [exact IHR|lia|lia].
Qed.

(** ** Lookup *)

Lemma snapread_mem s w :
  mem_ok w ->
  wp (snapread s) (fun r w' => mem_ok w' /\ cstep w w' /\
    match r with
    | Some x => x = s /\ usable w' s /\ took w w' [s] /\ is_Some (view w s)
    | None => took w w' [] /\ (no_room w 1 \/ disk w !! s = None)
    end) w.
Proof. intros Hm. unfold snapread, getsb. wp_steps. by apply bread_mem. Qed.

Lemma brelse_path_mem path w :
  mem_ok w -> (forall x, occ x path.*1 <= pins w x) ->
  wp (brelse_path path) (fun _ w' => mem_ok w' /\ cstep w w' /\ took w' w path.*1) w.
Proof.
  revert w. induction path as [|[s p] path IH]; intros w Hm Hp.
  - wp_steps. split; [done|]. split; [apply cstep_refl|]. intros x. cbn. rewrite occ_nil. lia.
  - change (wp (brelse s ≫= fun _ => brelse_path path)
      (fun _ w' => mem_ok w' /\ cstep w w' /\ took w' w (s :: path.*1)) w).
    cbn [fmap list_fmap fst] in Hp. wp_step. eapply wp_mono.
    { apply brelse_mem; [done|]. specialize (Hp s). rewrite occ_cons, decide_True in Hp by done.
      pose proof (occ_nonneg s path.*1). lia. }
    cbv beta. intros _ w1 (Hm1 & Hc1 & Ht1). eapply wp_mono.
    { apply IH; [done|]. intros x. specialize (Hp x). specialize (Ht1 x). rewrite occ_cons in Hp, Ht1.
      rewrite occ_nil in Ht1. lia. }
    cbv beta. intros _ w2 (Hm2 & Hc2 & Ht2). split; [done|].
    assert (Ht : took w2 w (s :: path.*1)).
    { intros x. rewrite Ht1, Ht2, !occ_cons, occ_nil. lia. }
    split; [|done]. eapply cstep_down; [done|done|]. intros x. rewrite Ht2.
    pose proof (occ_nonneg x path.*1). lia.
Qed.

Lemma excs_of_app_l C1 C2 c : Forall (fun d => d.1 <> c) C2 -> excs_of (C1 ++ C2) c = excs_of C1 c.
Proof.
  intros H2. induction C1 as [|[r es] C1 IH]; cbn [app].
  - rewrite <- (app_nil_r C2), excs_of_app by done. done.
  - rewrite !excs_of_cons. by rewrite IH.
Qed.

(** The entries of a chunk are those of the child that covers it. *)
Lemma excs_of_pick C1 C2 C3 lo mid1 mid2 hi c :
  within lo mid1 C1 -> within mid2 hi C3 -> mid1 <= c < mid2 ->
  excs_of (C1 ++ C2 ++ C3) c = excs_of C2 c.
Proof.
  intros H1 H3 Hc. rewrite excs_of_app, excs_of_app_l; [done| |].
  - eapply Forall_impl; [exact H3|]. cbn. intros. lia.
  - eapply Forall_impl; [exact H1|]. cbn. intros. lia.
Qed.

(** Why a walk down that needs [q] more buffers cannot go on *)
Definition walk_failed (w : world) (F : list Z) (q : nat) : Prop :=
  no_room w (Z.of_nat q) \/ exists x, x ∈ F /\ disk w !! x = None.

Lemma walk_failed_after w w' F F' q l :
  mem_ok w -> mem_ok w' -> cstep w w' -> took w w' l -> (forall x, x ∈ F' -> x ∈ F) ->
  walk_failed w' F' q -> walk_failed w F (q + length l).
Proof.
  intros Hm Hm' Hc Ht Hin [H|(x & Hx & Hd)].
  - left. rewrite Nat2Z.inj_add. by eapply took_no_room.
  - right. exists x. rewrite (same_disk _ _ (cs_store _ _ Hc)) in Hd. auto.
Qed.

Lemma subtree_top V n lo hi s C F : subtree V n lo hi s C F -> s ∈ F /\ is_Some (V s).
Proof.
  destruct n; cbn; [intros (b & -> & _ & _ & _ & ->)|intros (b & es & F' & -> & _ & -> & _)]; (split; [by left|eauto]).
Qed.

(** What [probe_levels] leaves behind: the leaf for [c] as the hole of a context
    of the whole tree, with references taken on the way. *)
Definition probe_post (n m : nat) (root c s : Z) (C : aleaf) (F : list Z) (path : list etree_path) (w : world)
    (r : option (Z * list etree_path)) (w' : world) : Prop :=
  mem_ok w' /\ cstep w w' /\
  match r with
  | Some (leaf, path') => exists lo hi CL CR Fo b L,
      ctx (view w) n root c 0 path' leaf lo hi CL CR Fo /\
      view w leaf = Some b /\ leaf_rep b L /\ leaf_wf L /\ within lo hi L /\
      C = CL ++ L ++ CR /\ F ≡ₚ leaf :: Fo /\ usable w' leaf /\ (forall x, x ∈ path'.*1 -> usable w' x) /\
      (forall x, pins w' x + occ x path.*1 + occ x [s] = pins w x + occ x path'.*1 + occ x [leaf])
  | None => (exists y, forall x, pins w' x + occ x path.*1 + occ x [s] = pins w x + occ x [y]) /\ walk_failed w F m
  end.

Lemma probe_levels_mem n m root lo hi c s C F CL CR Fo path w :
  mem_ok w -> ctx (view w) n root c m path s lo hi CL CR Fo -> subtree (view w) m lo hi s C F ->
  usable w s -> (forall x, x ∈ path.*1 -> usable w x) -> (forall x, occ x (path.*1 ++ [s]) <= pins w x) ->
  wp (probe_levels m c s path) (probe_post n m root c s (CL ++ C ++ CR) (F ++ Fo) path w) w.
Proof.
  revert lo hi s C F CL CR Fo path w.
  induction m as [|m IH]; intros lo hi s C F CL CR Fo path w Hm Hctx Ht Hu Hup Hocc; cbn [probe_levels].
  - cbn in Ht. destruct Ht as (b & Hb & Hr & Hw & Hin & ->). wp_steps.
    split; [done|]. split; [apply cstep_refl|]. exists lo, hi, CL, CR, Fo, b, C. split_and!; try done.
  - pose proof (ctx_range _ _ _ _ _ _ _ _ _ _ _ _ Hctx) as (Hc & _ & _).
    cbn in Ht. destruct Ht as (b & es & F' & Hb & Hr & -> & Hk).
    destruct es as [|[k0 s0] es]; [cbn in Hk; destruct Hk; lia|].
    destruct (kids_pick _ _ _ _ _ _ _ _ c Hk Hc) as
      (es1 & k & s1 & es2 & m1 & m2 & C1 & C2 & C3 & F1 & F2 & F3 & E & Er & -> & -> & K1 & K2 & K3 & Hh & Hk1 & Hm12).
    wp_step. apply wp_get_data; [done|]. rewrite Hb. intros d [= <-].
    rewrite (probe_scan_rep b es c k0 s0 Hr). rewrite Er.
    replace (S (length es1) - 1)%nat with (length es1) by lia.
    assert (Hes : ((k0, s0) :: es) !! length es1 = Some (k, s1)) by (rewrite E; by apply list_lookup_middle).
    destruct (node_rep_entry b _ _ _ _ Hr Hes) as [_ ->]. rewrite E in Hr.
    wp_step. eapply wp_mono; [by apply snapread_mem|]. cbv beta. intros [x|] w1 (Hm1 & Hc1 & Hr1).
    + destruct Hr1 as (-> & Hu1 & Ht1 & _).
      assert (Hv : forall y, view w1 y = view w y) by apply Hc1.
      pose proof (ctx_snoc _ _ _ _ _ _ _ _ _ _ _ _ b es1 k s1 es2 m1 m2 C1 C3 F1 F3 Hctx Hb Hr K1 K3 Hh Hk1 Hm12) as Hctx2.
      eapply wp_mono.
      { eapply (IH m1 m2 s1 C2 F2); [done| | |done| |].
        - eapply ctx_ext; [|exact Hctx2]. intros; apply Hv.
        - eapply subtree_ext; [|exact K2]. intros; apply Hv.
        - intros y Hy. assert (Huy : usable w y).
          { rewrite fmap_app, elem_of_app in Hy. destruct Hy as [Hy|Hy]; [by apply Hup|].
            apply list_elem_of_singleton in Hy. by subst y. }
          apply (cs_usable _ _ Hc1); [done|]. rewrite Ht1. apply usable_pins in Huy.
          pose proof (occ_nonneg y [s1]). lia.
        - intros y. specialize (Hocc y). rewrite fmap_app, !occ_app in *. cbn [fmap list_fmap fst].
          rewrite Ht1. lia. }
      cbv beta. intros r w2 (Hm2 & Hc2 & Hr2). split; [done|].
      split; [by eapply took_cstep|]. destruct r as [[leaf path']|].
      * destruct Hr2 as (lo' & hi' & CL' & CR' & Fo' & bl & L & Hctx' & Hvl & Hrl & Hwl & Hin & EC & HF & Hul & Hup' & Hp).
        exists lo', hi', CL', CR', Fo', bl, L. split_and!; try done.
        -- eapply ctx_ext; [|exact Hctx']. intros. symmetry. apply Hv.
        -- by rewrite <- Hv.
        -- rewrite <- EC. rewrite <- !app_assoc. done.
        -- rewrite <- HF. clear. rewrite <- (Permutation_middle F2). cbn. f_equiv. solve_Permutation.
        -- intros x. specialize (Hp x). rewrite Ht1, fmap_app, occ_app in Hp. cbn [fmap list_fmap fst] in Hp. lia.
      * destruct Hr2 as ((y & Hy) & Hwhy). split.
        -- exists y. intros x. specialize (Hy x). rewrite fmap_app, occ_app in Hy.
           cbn [fmap list_fmap fst] in Hy. rewrite Ht1 in Hy. lia.
        -- replace (S m) with (m + length [s1])%nat by (cbn; lia).
           eapply (walk_failed_after w w1); [done|done|done|done| |exact Hwhy]. intros x. in_list.
    + destruct Hr1 as [Hr1 Hwhy]. wp_step. eapply wp_mono.
      { apply brelse_path_mem; [done|]. intros x. specialize (Hocc x). rewrite occ_app in Hocc.
        rewrite Hr1, occ_nil. pose proof (occ_nonneg x [s]). lia. }
      cbv beta. intros _ w2 (Hm2 & Hc2 & Ht2). wp_steps. split; [done|]. split.
      * eapply took_cstep; [done|done|]. done.
      * split; [exists s; intros x; specialize (Ht2 x); rewrite Hr1, occ_nil in Ht2; lia|].
        destruct Hwhy as [H|H]; [left; eapply no_room_mono; [exact H|lia]|right]. exists s1. split; [|done].
        destruct (subtree_top _ _ _ _ _ _ _ K2) as [Hs1 _]. in_list.
Qed.

(** What [probe] leaves behind: the leaf for [c] with the path to it, one
    reference on each; when there is no room for the path, or a block is not on
    the device, at most one reference is left over. *)
Definition found (c : Z) (C : aleaf) (F : list Z) (w : world)
    (r : option (Z * list etree_path)) (w' : world) : Prop :=
  mem_ok w' /\ cstep w w' /\
  match r with
  | Some (leaf, path) => exists lo hi CL CR Fo b L,
      ctx (view w) (etree_levels (image (sb w))) (etree_root (image (sb w))) c 0 path leaf lo hi CL CR Fo /\
      view w leaf = Some b /\ leaf_rep b L /\ leaf_wf L /\ within lo hi L /\
      C = CL ++ L ++ CR /\ F ≡ₚ leaf :: Fo /\ (forall x, x ∈ path.*1 ++ [leaf] -> usable w' x) /\
      took w w' (path.*1 ++ [leaf])
  | None => (exists l, (length l <= 1)%nat /\ took w w' l) /\ walk_failed w F (etree_levels (image (sb w)) + 1)
  end.

Lemma pins_nonneg w x : cache_ok w -> 0 <= pins w x.
Proof. intros Hok. unfold pins. destruct (bufs w !! x) eqn:E; [|done]. by eapply Hok. Qed.

Lemma probe_mem c C F w :
  mem_ok w -> tree_ok w C F -> 0 <= c < KEY_TOP -> wp (probe c) (found c C F w) w.
Proof.
  intros Hm [Ht _] Hc. unfold probe, getsb. wp_steps.
  eapply wp_mono; [by apply snapread_mem|]. cbv beta. intros [x|] w1 (Hm1 & Hc1 & Hr1).
  2:{ destruct Hr1 as [Ht1 Hwhy]. wp_steps. split; [done|]. split; [done|]. split; [exists []; split; [cbn; lia|done]|].
      destruct Hwhy as [H|H]; [left; eapply no_room_mono; [exact H|lia]|right]. eexists. split; [|exact H].
      by apply (subtree_top _ _ _ _ _ _ _ Ht). }
  destruct Hr1 as (-> & Hu1 & Ht1 & _). pose proof (cs_view _ _ Hc1) as Hv.
  wp_step. eapply wp_mono.
  { eapply (probe_levels_mem _ _ _ _ _ c _ C F [] [] [] []); [done|by apply ctx_nil| |done| |].
    - eapply subtree_ext; [|exact Ht]. intros. apply Hv.
    - intros x Hx. by apply elem_of_nil in Hx.
    - intros x. cbn. rewrite Ht1. pose proof (pins_nonneg w x (mem_cache w Hm)). lia. }
  cbv beta. intros r w2 (Hm2 & Hc2 & Hr2). assert (Hc12 : cstep w w2) by by eapply took_cstep.
  destruct r as [[leaf path]|].
  - destruct Hr2 as (lo & hi & CL & CR & Fo & b & L & Hctx & Hvl & Hrl & Hwl & Hin & EC & HF & Hul & Hup & Hp).
    wp_step. apply wp_get_data; [done|]. rewrite (cs_view _ _ Hc2), Hvl. intros d [= <-]. wp_steps.
    { apply Z.eqb_eq. by eapply leaf_rep_magic. }
    cbn [app] in EC. rewrite app_nil_r in EC, HF.
    split; [done|]. split; [done|]. exists lo, hi, CL, CR, Fo, b, L. split_and!; try done.
    + eapply ctx_ext; [|exact Hctx]. intros. symmetry. apply Hv.
    + by rewrite <- Hv.
    + intros x. rewrite elem_of_app, list_elem_of_singleton. intros [Hx| ->]; [by apply Hup|done].
    + intros x. specialize (Hp x). rewrite Ht1 in Hp. cbn [fmap list_fmap] in Hp. rewrite occ_nil in Hp.
      rewrite occ_app. lia.
  - wp_steps. split; [done|]. split; [done|]. destruct Hr2 as ((y & Hy) & Hwhy). split.
    + exists [y]. split; [cbn; lia|].
      intros x. specialize (Hy x). cbn [fmap list_fmap] in Hy. rewrite Ht1, occ_nil in Hy. lia.
    + eapply (walk_failed_after w w1 F (F ++ []) _ [_]); [done|done|done|done| |exact Hwhy]. intros x. by rewrite app_nil_r.
Qed.

(** The entries of a chunk are those in its leaf. *)
Lemma ctx_excs V n root c path leaf lo hi CL L CR Fo :
  ctx V n root c 0 path leaf lo hi CL CR Fo -> excs_of (CL ++ L ++ CR) c = excs_of L c.
Proof.
  intros Hctx. pose proof (ctx_range _ _ _ _ _ _ _ _ _ _ _ _ Hctx) as (Hc & _).
  destruct (ctx_within _ _ _ _ _ _ _ _ _ _ _ _ Hctx). by eapply excs_of_pick.
Qed.

(** ** The test of a chunk *)

Lemma chunk_unique_rep b L c s m :
  leaf_rep b L -> is_u32 c -> is_u64 m -> -1 <= s < 64 ->
  chunk_unique b c s m =
  (already_unique L c s m, if s =? -1 then 0 else from_option chunk_of 0 (exc_for L c s)).
Proof.
  intros Hr Hc Hm Hs. unfold chunk_unique, already_unique. destruct (Z.eqb_spec s (-1)) as [->|Hne].
  - by rewrite (origin_chunk_unique_rep b L c m Hr Hc Hm).
  - rewrite (snapshot_chunk_unique_rep b L c s Hr Hc) by lia. unfold exc_for. by destruct (find _ _).
Qed.

Lemma already_unique_ext L C c s m : excs_of L c = excs_of C c -> already_unique L c s m = already_unique C c s m.
Proof. unfold already_unique. by intros ->. Qed.

Lemma exc_for_ext L C c s : excs_of L c = excs_of C c -> exc_for L c s = exc_for C c s.
Proof. unfold exc_for. by intros ->. Qed.

(** The rule for [test_unique] *)
Lemma test_unique_spec w C F c snapbit :
  mem_ok w -> tree_ok w C F -> 0 <= c < KEY_TOP -> -1 <= snapbit < 64 -> is_u64 (snapmask (sb w)) ->
  wp (test_unique c snapbit) (fun r w' => mem_ok w' /\ cstep w w' /\
    ((r = (if already_unique C c snapbit (snapmask (sb w)) then 1 else 0,
           if snapbit =? -1 then 0 else from_option chunk_of 0 (exc_for C c snapbit)) /\
      took w w' []) \/
     (r = (-1, 0) /\ walk_failed w F (etree_levels (image (sb w)) + 1) /\ exists l, (length l <= 1)%nat /\ took w w' l))) w.
Proof.
  intros Hm Ht Hc Hs Hmask. unfold test_unique. wp_step.
  eapply wp_mono; [by apply probe_mem|]. cbv beta. intros [[leaf path]|] w1 (Hm1 & Hc1 & Hr1).
  2:{ destruct Hr1. wp_steps. split; [done|]. split; [done|]. by right. }
  destruct Hr1 as (lo & hi & CL & CR & Fo & b & L & Hctx & Hvl & Hrl & Hwl & Hin & -> & HF & Hus & Htk).
  assert (Hul : usable w1 leaf) by (apply Hus; in_list).
  unfold getsb. wp_steps. apply wp_get_data; [done|]. rewrite (cs_view _ _ Hc1), Hvl. intros d [= <-].
  rewrite (same_sb _ _ (cs_store _ _ Hc1)).
  rewrite (chunk_unique_rep b L c snapbit (snapmask (sb w)) Hrl) by (try done; unfold is_u32, KEY_TOP in *; lia).
  wp_step. eapply wp_mono; [apply brelse_mem; [done|by apply usable_pins]|].
  cbv beta. intros _ w2 (Hm2 & Hc2 & Ht2). wp_step. eapply wp_mono.
  { apply brelse_path_mem; [done|]. intros x. specialize (Ht2 x). rewrite Htk, occ_app in Ht2.
    pose proof (pins_nonneg w x (mem_cache w Hm)). lia. }
  cbv beta. intros _ w3 (Hm3 & Hc3 & Ht3). wp_steps.
  pose proof (ctx_excs _ _ _ _ _ _ _ _ _ L _ _ Hctx) as Hex.
  split; [done|]. split.
  - eapply took_cstep; [exact Hc1| |exact Htk]. eapply cstep_down; [exact Hc2|exact Hc3|].
    intros x. rewrite Ht3. pose proof (occ_nonneg x path.*1). lia.
  - left. split.
    + by rewrite <- (already_unique_ext _ _ _ _ _ Hex), <- (exc_for_ext _ _ _ _ Hex).
    + intros x. specialize (Ht2 x). rewrite Ht3, Htk, !occ_app in Ht2. rewrite occ_nil. lia.
Qed.

(** C13: [test_unique] answers from the entries of the whole tree: for the origin
    whether every snapshot of the mask has an exception for the chunk, for a
    snapshot whether it alone holds the exception, which is returned (0 when
    the snapshot shares the chunk with the origin).  It does not fail, changes
    no block and no other state, and gives back every reference it took.  Only
    when the cache has no room for a path of the tree, or a block of the tree is
    not on the device, does it say -1, and at most one reference is left over. *)
Theorem test_unique_correct w C F c snapbit :
  mem_ok w -> tree_ok w C F -> 0 <= c < KEY_TOP -> -1 <= snapbit < 64 -> is_u64 (snapmask (sb w)) ->
  wp (test_unique c snapbit) (fun r w' => mem_ok w' /\ cstep w w' /\
    ((r = (if already_unique C c snapbit (snapmask (sb w)) then 1 else 0,
           if snapbit =? -1 then 0 else from_option chunk_of 0 (exc_for C c snapbit)) /\
      took w w' []) \/
     (r = (-1, 0) /\ walk_failed w F (etree_levels (image (sb w)) + 1) /\ exists l, (length l <= 1)%nat /\ took w w' l))) w.
Proof. apply test_unique_spec. Qed.

(** ** The entries of the whole tree *)

Lemma leaf_sorted_app L1 L2 mid lo hi :
  leaf_sorted L1 -> leaf_sorted L2 -> within lo mid L1 -> within mid hi L2 -> leaf_sorted (L1 ++ L2).
Proof.
  intros H1 H2 W1 W2. induction L1 as [|d L1 IH]; [done|]. apply StronglySorted_inv in H1 as [H1 Hd].
  apply Forall_cons in W1 as [Wd W1]. cbn. constructor; [by apply IH|]. apply Forall_app. split; [done|].
  eapply Forall_impl; [exact W2|]. cbn. intros. lia.
Qed.

Definition entries_ok (C : aleaf) : Prop := leaf_wf C /\ Forall ent_ok C.

Lemma kids_entries P lo hi es C F :
  (forall lo hi s C F, P lo hi s C F -> within lo hi C /\ entries_ok C) ->
  kids P lo hi es C F -> entries_ok C.
Proof.
  intros HP. revert lo C F. induction es as [|[k s] es IH]; intros lo C F; cbn.
  - intros (_ & -> & _). by repeat constructor.
  - intros (mid & C1 & C2 & F1 & F2 & -> & -> & Hlt & H1 & _ & Hk).
    destruct (HP _ _ _ _ _ H1) as (W1 & [[S1 N1] O1]). destruct (IH _ _ _ Hk) as [[S2 N2] O2].
    assert (W2 : within mid hi C2) by (eapply kids_within; [|exact Hk]; intros; by eapply HP).
    split; [split|]; [by eapply leaf_sorted_app|by apply Forall_app|by apply Forall_app].
Qed.

Lemma subtree_entries V n lo hi s C F : subtree V n lo hi s C F -> entries_ok C.
Proof.
  revert lo hi s C F. induction n as [|n IH]; intros lo hi s C F; cbn.
  - intros (b & _ & (_ & Hok & _) & Hw & _). by split.
  - intros (b & es & F' & _ & _ & _ & Hk). eapply kids_entries; [|exact Hk].
    intros lo' hi' s' C' F'' Hs. split; [by eapply subtree_within|by eapply IH].
Qed.

Lemma tree_entries w C F : tree_ok w C F -> entries_ok C.
Proof. intros [Ht _]. by eapply subtree_entries. Qed.
