(* ===== verification/TreeInsert.v ===== *)
(** * Insertion into the btree

    [add_exception_to_tree] adds an exception to the list of entries of the
    whole tree: in the leaf of its chunk, in one of the two halves of a leaf
    that was full, with the new leaf linked into its parent, which is split in
    its turn when it is full, up to a new root. *)

From S2P Require Import Prelude Bytes State Buffer Bitmap Leaf LeafSpec LeafInv LeafView Node Alloc Journal Btree Snapshot CacheInv CacheRoom CacheMem BitmapInv AllocInv MetaInv Tree.
From Stdlib Require Import Sorted.

(** ** Edits before the buffer is marked dirty *)

(** As [mem_ok], but the buffers of [S] may have data that is on neither the
    disk nor the list of dirty buffers. *)
Record loose (w : world) (S : list Z) : Prop := {
  lo_cache : cache_ok w;
  lo_sized : sized (Z.to_nat (allocsize (metadata (sb w)))) w;
  lo_sync : forall x, x ∉ S -> in_sync w x }.

Lemma loose_mem w : loose w [] <-> mem_ok w.
Proof.
  split; intros [H1 H2 H3]; constructor; try done. intros x. apply H3. apply not_elem_of_nil.
Qed.

(** The block of [s] is [d]; everything else is as it was. *)
Record dstep (w w' : world) (s : Z) (d : block) : Prop := {
  ds_ext : same_ext w w';
  ds_view : forall x, view w' x = if decide (x = s) then Some d else view w x;
  ds_pins : forall x, pins w' x = pins w x;
  ds_usable : forall x, usable w x -> usable w' x;
  ds_busy : busies w w' [] }.

Lemma set_data_loose s d w S :
  loose w S -> usable w s -> length d = Z.to_nat (allocsize (metadata (sb w))) ->
  wp (set_data s d) (fun _ w' => loose w' (s :: S) /\ dstep w w' s d) w.
Proof.
  intros [Hok Hsz Hsy] (b & Hb & Hst & Hc) Hd. unfold set_data. apply (wp_upd_buf s b); [done|].
  split; constructor.
  - eapply put_buf_ok; [done|done| | | |]; cbn; [| |lia|lia].
    + apply relinked_same; [apply Hok|]. by apply dirty_iff.
    + apply relinked_same; [apply Hok|]. by apply journaled_iff.
  - by apply put_buf_sized.
  - intros x Hx c. apply not_elem_of_cons in Hx as [Hne Hx]. cbn. rewrite lookup_insert_ne by done. by apply Hsy.
  - by constructor.
  - intros x. rewrite (put_buf_view w s b) by done. cbn. by rewrite (decide_False (P := bstate b = _)).
  - intros x. rewrite (put_buf_pins w s b) by done. cbn. case_decide; lia.
  - intros x (c & Hxc & Hx1 & Hx2). unfold usable. cbn. destruct (decide (x = s)) as [->|Hne].
    + rewrite lookup_insert_eq. eexists. split; [done|]. by split.
    + rewrite lookup_insert_ne by done. eauto.
  - intros x (c & Hxc & Hx1). left. cbn in Hxc. apply lookup_insert_Some in Hxc as [[<- <-]|[_ ?]]; [|by exists c]. by exists b.
Qed.

Lemma dirty_loose s w S S' :
  loose w S -> usable w s -> (forall x, x ∈ S -> x = s \/ x ∈ S') ->
  wp (set_buffer_dirty s) (fun _ w' => loose w' S' /\ same_ext w w' /\ (forall x, view w' x = view w x) /\
    (forall x, pins w' x = pins w x) /\ (forall x, usable w x -> usable w' x) /\ busies w w' []) w.
Proof.
  intros [Hok Hsz Hsy] (b & Hb & Hst & Hc) HS. apply (set_buffer_dirty_run s b); [done|done|].
  intros D J HD HJ. split_and!.
  - constructor.
    + eapply put_buf_ok; [done|done| | | |]; cbn; [| |lia|lia]; by eapply relinked_iff.
    + apply put_buf_sized; [done|]. exact (sized_bufs _ _ Hsz s b Hb).
    + intros x Hx c. cbn. intros [[<- <-]|[Hne Hl]]%lookup_insert_Some; [done|].
      apply Hsy; [|done]. intros Hin. destruct (HS x Hin); congruence.
  - by constructor.
  - intros x. rewrite (put_buf_view w s b) by done. cbn. case_decide as E; [|done].
    subst x. unfold view. by rewrite Hb, !decide_False.
  - intros x. rewrite (put_buf_pins w s b) by done. cbn. case_decide; lia.
  - intros x (c & Hxc & Hx1 & Hx2). unfold usable. cbn. destruct (decide (x = s)) as [->|Hne].
    + rewrite lookup_insert_eq. eexists. split; [done|]. split; [done|]. cbn. lia.
    + rewrite lookup_insert_ne by done. eauto.
  - intros x (c & Hxc & Hx1). left. cbn in Hxc. apply lookup_insert_Some in Hxc as [[<- <-]|[_ ?]]; [|by exists c].
    exists b. split; [done|]. left. lia.
Qed.

Lemma brelse_loose s w S :
  loose w S -> 0 < pins w s -> s ∉ S ->
  wp (brelse s) (fun _ w' => loose w' S /\ cstep w w' /\ took w' w [s]) w.
Proof.
  intros [Hok Hsz Hsy] Hp Hs. eapply wp_mono; [apply brelse_spec; [done|exact Hsz|done|by apply Hsy]|].
  cbv beta. intros _ w' (Hok' & Hsz' & Hc & Hp'). split; [|split; [done|]].
  - constructor; [done| |].
    + by rewrite (same_sb _ _ (cs_store _ _ Hc)).
    + intros x Hx. by apply Hc, Hsy.
  - intros x. rewrite Hp', occ_cons, occ_nil. case_decide; lia.
Qed.

(** ** Nodes *)

Lemma split_node_rep b b2 es half :
  node_rep b es -> node_rep b2 [] -> length b2 = length b -> (half <= length es)%nat ->
  let '(b', b2') := split_node b b2 half in
  node_rep b' (take half es) /\ node_rep b2' (drop half es) /\ length b' = length b /\ length b2' = length b.
Proof.
  intros Hr Hr2 Hlen Hhalf. unfold split_node. rewrite (node_rep_count _ _ Hr).
  destruct Hr as (Hn & Hok & u & gap & E). destruct Hr2 as (_ & _ & u2 & gap2 & E2).
  unfold node_bytes in E, E2. cbn in E2. fold (le_split 4 0) in E2.
  assert (Hsp : es = take half es ++ drop half es) by by rewrite take_drop.
  set (e1 := take half es) in *. set (e2 := drop half es) in *.
  assert (H1 : length e1 = half) by (unfold e1; rewrite length_take; lia).
  assert (H2 : length e2 = (length es - half)%nat) by (unfold e2; by rewrite length_drop).
  assert (Henc : enc_idxs es = enc_idxs e1 ++ enc_idxs e2) by (rewrite <- enc_idxs_app; by rewrite <- Hsp).
  rewrite Henc in E. rewrite Hsp in Hok. apply Forall_app in Hok as [Hok1 Hok2].
  rewrite <- H2. set (n2 := length e2) in *.
  assert (Hlb : length b = (8 + 16 * (half + n2) + length gap)%nat).
  { rewrite E. autorewrite with len. lia. }
  assert (Hlb2 : length b2 = (8 + length gap2)%nat) by (rewrite E2; autorewrite with len; lia).
  destruct (split_length gap2 (16 * n2)) as (g1 & g & -> & Hg); [lia|].
  split; [|split; [|split; unfold set_node_count, memcpy; len]].
  - split; [lia|]. split; [done|]. exists u, (enc_idxs e2 ++ gap). rewrite E, set_node_count_bytes.
    unfold node_bytes. rewrite H1. app_norm.
  - split; [lia|]. split; [done|]. exists u2, g. rewrite E2, set_node_count_bytes. unfold memcpy.
    rewrite (slice_eq b (le_split 4 (Z.of_nat (length es)) ++ le_split 4 u ++ enc_idxs e1) (enc_idxs e2) gap);
      [|rewrite E; app_norm|unfold entry_addr, sizeof_index_entry; len|
       unfold sizeof_index_entry; len].
    rewrite (splice_eq _ (le_split 4 (Z.of_nat n2) ++ le_split 4 u2) g1 g); [|app_norm|done|len].
    unfold node_bytes. app_norm.
Qed.

Lemma empty_node_rep s : 8 <= allocsize (metadata s) -> node_rep (empty_node s) [].
Proof.
  intros Hs. unfold empty_node. split; [done|]. split; [constructor|].
  replace (Z.to_nat (allocsize (metadata s))) with (4 + (4 + (Z.to_nat (allocsize (metadata s)) - 8)))%nat by lia.
  rewrite !replicate_add. exists 0. eexists. apply (set_node_count_bytes 0 0 _ 0).
Qed.

(** The new root that [add_tree_level] writes. *)
Definition new_root (s : superblock) (root key child : Z) : block :=
  set_entry_sector 1 child (set_entry_key 1 key (set_entry_sector 0 root (set_node_count 2 (empty_node s)))).

Lemma length_new_root s root key child :
  length (new_root s root key child) = Z.to_nat (allocsize (metadata s)).
Proof. unfold new_root, empty_node, set_entry_sector, set_entry_key, set_node_count. len. Qed.

Lemma new_root_rep s root key child :
  is_u64 root -> is_u64 key -> is_u64 child -> 40 <= allocsize (metadata s) ->
  node_rep (new_root s root key child) [(0, root); (key, child)].
Proof.
  intros Hr Hk Hc Hl. split; [done|]. split.
  { constructor; [by split; cbn|]. constructor; [by split; cbn|constructor]. }
  unfold new_root, empty_node. set (n := (Z.to_nat (allocsize (metadata s)) - 40)%nat).
  replace (Z.to_nat (allocsize (metadata s))) with (4 + (4 + (8 + (8 + (8 + (8 + n))))))%nat by lia.
  rewrite !replicate_add. exists 0, (replicate n 0). set (z8 := replicate 8 (u8 0)).
  assert (Hz : length z8 = 8%nat) by done.
  change (replicate 4 (u8 0)) with (le_split 4 0). rewrite !set_node_count_bytes.
  unfold set_entry_sector, set_entry_key, st.
  rewrite (splice_eq _ (le_split 4 (Z.of_nat 2) ++ le_split 4 0 ++ z8) z8 (z8 ++ z8 ++ replicate n (u8 0)) (le_split 8 root) (entry_addr 0 + 8))
    by (first [app_norm | done]).
  rewrite (splice_eq _ (le_split 4 (Z.of_nat 2) ++ le_split 4 0 ++ z8 ++ le_split 8 root) z8 (z8 ++ replicate n (u8 0)) (le_split 8 key) (entry_addr 1))
    by (first [app_norm | done]).
  rewrite (splice_eq _ (le_split 4 (Z.of_nat 2) ++ le_split 4 0 ++ z8 ++ le_split 8 root ++ le_split 8 key) z8 (replicate n (u8 0)))
    by (first [app_norm | done]).
  unfold node_bytes. rewrite !enc_idxs_cons. cbn [enc_idxs flat_map]. rewrite app_nil_r.
  change z8 with (le_split 8 0). change (u8 0) with 0. app_norm.
Qed.

(** ** Edits and releases of blocks in use *)

Lemma edit_owned s d w G :
  meta_ok w G -> s ∈ G -> usable w s -> length d = Z.to_nat (allocsize (metadata (sb w))) ->
  wp (set_data s d) (fun _ => wp (set_buffer_dirty s) (fun _ w' => mstep 0 w w' G G /\ estep w w' s d)) w.
Proof.
  intros H Hs Hu Hd. eapply wp_mono; [apply edit_mem; [apply H|by apply usable_pins|done]|].
  cbv beta. intros _ w1 H1. eapply wp_mono; [exact H1|]. cbv beta. intros _ w2 [Hm2 He2].
  split; [by eapply mstep_estep|done].
Qed.

Lemma brelse_owned s w G :
  meta_ok w G -> 0 < pins w s ->
  wp (brelse s) (fun _ w' => mstep 0 w w' G G /\ cstep w w' /\ took w' w [s]) w.
Proof.
  intros H Hp. eapply wp_mono; [apply brelse_mem; [apply H|done]|]. cbv beta. intros _ w' (Hm & Hc & Ht).
  split; [|done]. apply mstep_cstep; try done. eapply gave_busies; [apply H|apply Hm|done|done].
Qed.

Lemma xstep_up w1 w2 w3 : xstep w1 w2 -> xstep w2 w3 -> (forall x, pins w1 x <= pins w2 x) -> xstep w1 w3.
Proof.
  intros H1 H2 Hp. eapply xstep_trans; [done|done|]. intros x Hu _. apply usable_pins in Hu. specialize (Hp x). lia.
Qed.

(** ** The children of a node with a new child *)

Lemma kids_insert V m lo mid1 mid key hi es1 k s1 child es2 C1 D1 D2 C3 F1 G1 G2 F3 :
  kids (subtree V m) lo mid1 es1 C1 F1 -> (es1 <> [] -> k = mid1) ->
  subtree V m mid1 key s1 D1 G1 -> subtree V m key mid child D2 G2 -> mid1 < key < mid ->
  head_key es2 mid -> kids (subtree V m) mid hi es2 C3 F3 ->
  kids (subtree V m) lo hi (es1 ++ (k, s1) :: (key, child) :: es2) (C1 ++ D1 ++ D2 ++ C3) (F1 ++ G1 ++ G2 ++ F3).
Proof.
  intros K1 Hk H1 H2 Hle Hh K3. apply kids_app. exists mid1, C1, (D1 ++ D2 ++ C3), F1, (G1 ++ G2 ++ F3).
  split_and!; try done. exists key, D1, (D2 ++ C3), G1, (G2 ++ F3). split_and!; try done; [lia|].
  exists mid, D2, C3, G2, F3. split_and!; try done. lia.
Qed.

Lemma kids_ext V V' n lo hi es C F :
  (forall x, x ∈ F -> V' x = V x) -> kids (subtree V n) lo hi es C F -> kids (subtree V' n) lo hi es C F.
Proof.
  intros HV. apply kids_mono. intros lo' hi' s' C' F' Hin. apply subtree_ext. intros x Hx. by apply HV, Hin.
Qed.

(** ** Up the path *)

(** What an insertion that needs at most [q] blocks leaves behind: the tree has
    the entries [C], unless these could not be had, when entries are missing.
    [G] were the blocks in use. *)
Definition inserted (q : nat) (w : world) (G : list Z) (C : aleaf) (r : Z) (w' : world) : Prop :=
  exists C' F', tree_ok w' C' F' /\ mstep q w w' G F' /\ xstep w w' /\ took w w' [] /\
    ((r = 0 /\ C' = C) \/ (r = - ENOMEM /\ C' `sublist_of` C /\ lack w q)).

Lemma inserted_after p q w w1 G G1 C r w2 :
  mstep p w w1 G G1 -> xstep w w1 -> took w w1 [] -> inserted q w1 G1 C r w2 -> inserted (p + q) w G C r w2.
Proof.
  intros Hs Hx Ht (C' & F' & Htr & Hs' & Hx' & Ht' & Hr). exists C', F'. split_and!; try done.
  - by eapply mstep_trans.
  - by eapply xstep_same_pins.
  - exact (took_trans _ _ _ [] [] Ht Ht').
  - destruct Hr as [?|(? & ? & ?)]; [by left|right]. split_and!; try done. by eapply mstep_lack.
Qed.

Lemma layout_size s : layout s -> 512 <= allocsize (metadata s) < 2 ^ 32.
Proof.
  intros [Hg _ _ _]. destruct Hg. rewrite geo_size. split.
  - apply (Z.pow_le_mono_r 2 9); lia.
  - apply Z.pow_lt_mono_r; lia.
Qed.

Lemma new_node_owned w G :
  meta_ok w G ->
  wp new_node (fun r w' => xstep w w' /\ root_of (sb w') = root_of (sb w) /\ match r with
    | Some x => new_owned w w' G x (empty_node (sb w)) /\ usable w' x /\ took w w' [x]
    | None => mstep 1 w w' G G /\ (forall y, y ∈ G -> view w' y = view w y) /\ took w w' [] /\ lack w 1 end) w.
Proof.
  intros H. pose proof (mo_layout _ _ H) as [Hg Hsp _ Hd]. eapply wp_mono.
  { apply new_node_spec; [apply H|done|apply Hsp|done|apply H]. }
  cbv beta. intros [x|] w' Hr.
  - pose proof (fresh_owned _ _ _ _ _ H Hr) as Ho. destruct Hr. split_and!; try done. apply Ho.
  - destruct (no_block_meta _ _ _ H Hr) as (Hs & Hroot & Hv & Hlk). destruct Hr as (? & ? & ? & _). by split_and!.
Qed.

Lemma tree_ok_sub w w' C F :
  tree_ok w C F -> root_of (sb w') = root_of (sb w) -> (forall x, x ∈ F -> view w' x = view w x) -> tree_ok w' C F.
Proof.
  intros (Ht & Hnd & Hu) [= Er El] Hv. unfold tree_ok. rewrite Er, El. split_and!; try done.
  by eapply subtree_ext.
Qed.

(** The superblock that [add_tree_level] makes. *)
Definition grow_root (x : Z) (s : superblock) : superblock :=
  s <| image; etree_root := x |> <| image; etree_levels ::= S |> <| runflags ::= Z.lor RUN_SB_DIRTY |>.

Lemma grow_root_layout x s : layout s -> same_layout s (grow_root x s).
Proof.
  intros Hl. constructor; try done.
  - unfold deferring, grow_root. cbn. rewrite Z.land_lor_distr_l. done.
  - intros which. apply (sp_last _ _ (ly_sp s Hl which)).
Qed.

(** The new root is filled, linked and released. *)
Lemma link_root w x d G :
  meta_ok w G -> x ∈ G -> usable w x -> length d = Z.to_nat (allocsize (metadata (sb w))) ->
  wp (set_data x d;; modsb (fun s => s <| image; etree_root := x |> <| image; etree_levels ::= S |>);;
      set_sb_dirty;; brelse_dirty x;; mret 0)
    (fun r w' => r = 0 /\ mstep 0 w w' G G /\ xstep w w' /\ took w' w [x] /\ sb w' = grow_root x (sb w) /\
      forall y, view w' y = if decide (y = x) then Some d else view w y) w.
Proof.
  intros H Hx Hu Hd. unfold set_sb_dirty, modsb, brelse_dirty. wp_steps.
  eapply wp_mono; [apply (set_data_loose x d w []); [by apply loose_mem, H|done|done]|].
  cbv beta. intros _ w2 [Hl2 Hd2]. wp_steps.
  match goal with |- wp _ _ ?w3 => set (w3' := w3) end.
  assert (Hs3 : sb w3' = grow_root x (sb w)).
  { unfold w3'. cbn. by rewrite (ext_sb _ _ (ds_ext _ _ _ _ Hd2)). }
  assert (Hl3 : loose w3' [x]).
  { destruct Hl2 as [[] [] Hs2]. constructor; [by constructor|by constructor|exact Hs2]. }
  assert (Hu3 : usable w3' x) by exact (ds_usable _ _ _ _ Hd2 x Hu).
  assert (Hx3 : xstep w w3').
  { destruct Hd2 as [[] _ _ Hus]. constructor; try done. intros y Hy _. exact (Hus y Hy). }
  assert (Hp3 : forall y, pins w3' y = pins w y) by exact (ds_pins _ _ _ _ Hd2).
  assert (Hb3 : busies w w3' []) by exact (ds_busy _ _ _ _ Hd2).
  assert (Hv3 : forall y, view w3' y = if decide (y = x) then Some d else view w y) by exact (ds_view _ _ _ _ Hd2).
  clearbody w3'. clear Hl2 Hd2 w2.
  eapply wp_mono; [apply (dirty_loose x w3' [x] []); [done|done|]|].
  { intros y Hy. left. by apply list_elem_of_singleton in Hy. }
  cbv beta. intros _ w4 (Hl4 & He4 & Hv4 & Hp4 & Hu4 & Hb4).
  apply loose_mem in Hl4 as Hm4. eapply wp_mono.
  { apply brelse_mem; [done|]. rewrite Hp4. by apply usable_pins. }
  cbv beta. intros _ w5 (Hm5 & Hc5 & Ht5). wp_steps. assert (Hs5 : sb w5 = grow_root x (sb w)).
  { rewrite (same_sb _ _ (cs_store _ _ Hc5)), (ext_sb _ _ He4). done. }
  assert (Hv5 : forall y, view w5 y = if decide (y = x) then Some d else view w y).
  { intros y. by rewrite (cs_view _ _ Hc5), Hv4, Hv3. }
  assert (Hx5 : xstep w w5).
  { eapply (xstep_trans w w3'); [done| |].
    + eapply (xstep_trans w3' w4); [|by apply cstep_xstep|].
      * destruct He4. constructor; try done. intros y Hy _. auto.
      * intros y Hy _. rewrite Hp4. by apply usable_pins.
    + intros y Hy _. rewrite Hp3. by apply usable_pins. }
  split_and!; [done| |done| |done|done].
  - apply mstep_quiet; [done|done|rewrite Hs5; apply grow_root_layout, H| | |apply Hx5|apply Hx5].
    + intros which k Hk. rewrite Hv5, decide_False; [done|]. intros E. apply (mo_bitmap _ _ H which k Hk). by rewrite E.
    + apply (busies_trans w w3' w5 [] []); [done|]. apply (busies_trans w3' w4 w5 [] []); [done|].
      eapply gave_busies; [apply Hm4|apply Hm5|done|done].
  - intros y. rewrite <- Hp3, <- Hp4. apply Ht5.
Qed.

Lemma add_tree_level_ok w child key D1 D2 G1 G2 :
  let i := image (sb w) in
  meta_ok w (G1 ++ G2) -> NoDup (G1 ++ G2) -> is_u64 (etree_root i) -> is_u64 child -> 0 < key < KEY_TOP ->
  subtree (view w) (etree_levels i) 0 key (etree_root i) D1 G1 ->
  subtree (view w) (etree_levels i) key KEY_TOP child D2 G2 ->
  wp (add_tree_level child key) (inserted 1 w (G1 ++ G2) (D1 ++ D2)) w.
Proof.
  intros i H Hnd Hroot Hchild Hkey H1 H2. unfold add_tree_level. wp_step.
  eapply wp_mono; [by apply new_node_owned|]. cbv beta. intros [x|] w1 (Hx1 & Er & Hr).
  2:{ destruct Hr as (Hs & Hv & Ht & Hlk). wp_steps. exists D1, G1. split_and!; try done.
      - apply (tree_ok_sub w); [|done|].
        + split; [|split; [by apply NoDup_app in Hnd as (? & _)|done]]. apply (subtree_widen _ _ _ key); [lia|lia|done].
        + intros y Hy. apply Hv, elem_of_app. by left.
      - eapply mstep_sub; [done|]. intros y Hy. apply elem_of_app. by left.
      - right. split; [done|]. split; [|done]. by apply sublist_inserts_r. }
  destruct Hr as (Ho & Hu1 & Ht1). unfold getsb. wp_steps.
  apply wp_get_data; [done|]. rewrite (no_view _ _ _ _ _ Ho). intros d [= <-].
  injection Er as Er El. rewrite Er. fold i.
  assert (E : set_entry_sector 1 child (set_entry_key 1 key (set_entry_sector 0 (etree_root i) (set_node_count 2 (empty_node (sb w))))) =
    new_root (sb w) (etree_root i) key child) by (unfold new_root; reflexivity).
  rewrite E. clear E. destruct (no_step _ _ _ _ _ Ho) as [Hm1 Hs1 _ _ _].
  pose proof (layout_size _ (mo_layout _ _ H)) as Hsz.
  eapply wp_mono.
  { apply (link_root w1 x _ (x :: G1 ++ G2)); [done|by left|done|].
    rewrite length_new_root. by rewrite (sl_meta _ _ Hs1). }
  cbv beta. intros r w2 (-> & Hs2 & Hx2 & Ht2 & Es2 & Hv2).
  assert (Hsub : forall y, y ∈ G1 ++ G2 -> view w2 y = view w y).
  { intros y Hy. rewrite Hv2, decide_False; [by apply (no_others _ _ _ _ _ Ho)|].
    intros ->. by apply (no_fresh _ _ _ _ _ Ho). }
  exists (D1 ++ D2), (x :: G1 ++ G2). split_and!.
  - unfold tree_ok. rewrite Es2. cbn. rewrite El. fold i.
    split; [|split; [constructor; [apply Ho|done]|apply Ho]].
    exists (new_root (sb w) (etree_root i) key child), [(0, etree_root i); (key, child)], (G1 ++ G2).
    rewrite Hv2, decide_True by done. split_and!; try done.
    { apply new_root_rep; try done; [unfold is_u64, KEY_TOP in *; lia|lia]. }
    exists key, D1, D2, G1, G2. split_and!; try done; [lia| |].
    { eapply subtree_ext; [|exact H1]. intros y Hy. apply Hsub, elem_of_app. by left. }
    exists KEY_TOP, D2, [], G2, []. rewrite !app_nil_r. split_and!; try done; [lia|].
    eapply subtree_ext; [|exact H2]. intros y Hy. apply Hsub, elem_of_app. by right.
  - eapply mstep_then; [apply Ho|done].
  - eapply xstep_up; [done|done|]. intros y. rewrite Ht1. pose proof (occ_nonneg y [x]). lia.
  - intros y. specialize (Ht1 y). specialize (Ht2 y). rewrite occ_nil. lia.
  - by left.
Qed.

(** The two halves of a full node with the new child in one of them. *)
Record halves (w w' : world) (s x : Z) (es : list (Z * Z)) (newkey : Z) : Prop := {
  hv_sb : sb w' = sb w;
  hv_x : xstep w w';
  hv_pins : took w w' [];
  hv_usable : forall y, usable w y -> usable w' y;
  hv_others : forall y, y <> s -> y <> x -> view w' y = view w y;
  hv_split : exists bl br esl sec esr, view w' s = Some bl /\ node_rep bl esl /\ view w' x = Some br /\
    node_rep br ((newkey, sec) :: esr) /\ es = esl ++ (newkey, sec) :: esr /\ esl <> [] }.

(** Both halves are written, in either order. *)
Lemma edit_two w G s d x e :
  meta_ok w G -> s ∈ G -> x ∈ G -> s <> x -> usable w s -> usable w x ->
  length d = Z.to_nat (allocsize (metadata (sb w))) -> length e = Z.to_nat (allocsize (metadata (sb w))) ->
  wp (set_data s d;; set_buffer_dirty s;; set_data x e;; set_buffer_dirty x) (fun _ w' =>
    mstep 0 w w' G G /\ sb w' = sb w /\ xstep w w' /\ took w w' [] /\ (forall y, usable w y -> usable w' y) /\
    view w' s = Some d /\ view w' x = Some e /\ forall y, y <> s -> y <> x -> view w' y = view w y) w.
Proof.
  intros H Hs Hx Hne Hus Hux Hd He. wp_step. eapply wp_mono; [by apply (edit_owned s d w G)|].
  cbv beta. intros _ w0 H0. wp_step. eapply wp_mono; [exact H0|]. cbv beta. intros _ w1 [Hm1 He1]. clear H0 w0.
  assert (Es1 : sb w1 = sb w) by apply He1.
  wp_step. eapply wp_mono; [apply (edit_owned x e w1 G); [apply Hm1|done|by apply He1|by rewrite Es1]|].
  cbv beta. intros _ w0 H0. eapply wp_mono; [exact H0|]. cbv beta. intros _ w2 [Hm2 He2]. clear H0 w0.
  assert (Es2 : sb w2 = sb w1) by apply He2.
  split_and!.
  - by eapply mstep_then.
  - congruence.
  - eapply xstep_same_pins; [by eapply estep_xstep|by eapply estep_xstep|].
    intros y. rewrite (es_pins _ _ _ _ He1), occ_nil. lia.
  - intros y. rewrite (es_pins _ _ _ _ He2), (es_pins _ _ _ _ He1), occ_nil. lia.
  - intros y Hy. by apply He2, He1.
  - rewrite (es_view _ _ _ _ He2), decide_False, (es_view _ _ _ _ He1), decide_True by done. done.
  - by rewrite (es_view _ _ _ _ He2), decide_True.
  - intros y H1 H2. by rewrite (es_view _ _ _ _ He2), decide_False, (es_view _ _ _ _ He1), decide_False.
Qed.

Section split_insert.
Context (w : world) (G : list Z) (s x : Z) (b bx : block) (es1 es2 : list (Z * Z)) (k s1 child key : Z).
Abbreviation es := (es1 ++ (k, s1) :: es2).
Abbreviation half := (length es / 2)%nat.
Abbreviation pnext := (S (length es1)).
Context (H : meta_ok w G) (Hs : s ∈ G) (Hx : x ∈ G) (Hne : s <> x) (Hus : usable w s) (Hux : usable w x)
  (Hb : view w s = Some b) (Hbx : view w x = Some bx) (Hr : node_rep b es) (Hrx : node_rep bx [])
  (Hbig : (2 <= length es)%nat) (Hchild : is_u64 child) (Hkey : is_u64 key).

Lemma half_bounds : (1 <= half /\ half + 1 <= length es)%nat.
Proof.
  pose proof (Nat.div_mod (length es) 2 ltac:(lia)). pose proof (Nat.mod_upper_bound (length es) 2 ltac:(lia)). lia.
Qed.

Lemma half_entry : exists sec rest, drop half es = (entry_key b half, sec) :: rest.
Proof.
  pose proof half_bounds. destruct (lookup_lt_is_Some_2 es half ltac:(lia)) as [[kh sec] Hl].
  destruct (node_rep_entry _ _ _ _ _ Hr Hl) as [-> _]. exists sec, (drop (S half) es). by apply drop_S.
Qed.

Lemma split_insert_upper :
  (half < pnext)%nat ->
  exists sec rest, (drop half es1 ++ [(k, s1)]) ++ (key, child) :: es2 = (entry_key b half, sec) :: rest.
Proof.
  intros Hlt. destruct half_entry as (sec & rest & E). rewrite drop_app_le in E by lia.
  revert E. generalize (entry_key b half), (drop half es1). intros kk dl E.
  destruct dl as [|e l]; cbn [app] in E |- *.
  - injection E as E1 _ _. exists s1, ((key, child) :: es2). by rewrite <- E1.
  - injection E as E1 _. exists sec. eexists. rewrite E1. reflexivity.
Qed.

Lemma split_insert_lower :
  (pnext <= half)%nat ->
  exists sec rest, drop (half - pnext) es2 = (entry_key b half, sec) :: rest.
Proof.
  intros Hle. destruct half_entry as (sec & rest & E). exists sec, rest. rewrite <- E.
  rewrite drop_app_ge by lia. replace (half - length es1)%nat with (S (half - pnext)) by lia. done.
Qed.

Lemma split_insert_spec parent newnode :
  split_node b bx half = (parent, newnode) ->
  wp (if (half <? pnext)%nat then
        set_data s parent;; set_buffer_dirty s;;
        set_data x (insert_child newnode (pnext - half) child key);; set_buffer_dirty x
      else
        set_data x newnode;; set_buffer_dirty x;;
        set_data s (insert_child parent pnext child key);; set_buffer_dirty s)
    (fun _ w' => mstep 0 w w' G G /\
      halves w w' s x (es1 ++ (k, s1) :: (key, child) :: es2) (entry_key b half)) w.
Proof.
  intros E. pose proof half_bounds as Hhalf. pose proof split_insert_upper as HU. pose proof split_insert_lower as HL.
  remember half as h eqn:Eh. clear Eh.
  pose proof (mo_mem _ _ H) as Hm. pose proof (view_length w _ _ Hm Hb) as Hlb.
  pose proof (view_length w _ _ Hm Hbx) as Hlx. pose proof (layout_size _ (mo_layout _ _ H)) as Hsz.
  pose proof (node_rep_fits _ _ Hr) as Hfit.
  pose proof (split_node_rep b bx es h Hr Hrx ltac:(congruence) ltac:(lia)) as Hsp. rewrite E in Hsp.
  destruct Hsp as (Hrl & Hrr & Hll & Hlr). destruct (Nat.ltb_spec h pnext) as [Hlt|Hge].
  - rewrite drop_app_le in Hrr by lia. rewrite take_app_le in Hrl by lia.
    change ((k, s1) :: es2) with ([(k, s1)] ++ es2) in Hrr. rewrite app_assoc in Hrr.
    assert (Hpos : (pnext - h)%nat = length (drop h es1 ++ [(k, s1)])) by (rewrite length_app, length_drop; cbn; lia).
    rewrite Hpos. destruct (insert_child_rep newnode _ es2 child key Hrr Hchild Hkey) as [Hri Hli].
    { rewrite !length_app, length_drop, Hlr. cbn [length]. rewrite length_app in *. cbn [length] in *. lia. }
    { rewrite Hlr, Hlb. lia. }
    eapply wp_mono; [apply (edit_two w G s _ x _); congruence|].
    cbv beta. intros _ w' (Hm' & Es & Hx' & Ht & Hu' & Hvs & Hvx & Ho). split; [done|]. constructor; try done.
    destruct (HU Hlt) as (sec & r & Er). rewrite Er in Hri.
    eexists _, _, _, sec, r. split_and!; [exact Hvs|exact Hrl|exact Hvx|exact Hri| |].
    + rewrite <- Er, <- app_assoc. cbn [app]. by rewrite app_assoc, take_drop.
    + intros En. apply (f_equal length) in En. rewrite length_take in En. cbn [length] in En. lia.
  - rewrite drop_app_ge in Hrr by lia. rewrite take_app_ge in Hrl by lia.
    replace (h - length es1)%nat with (S (h - pnext)) in Hrr, Hrl by lia. cbn [drop take] in Hrr, Hrl.
    change ((k, s1) :: take (h - pnext) es2) with ([(k, s1)] ++ take (h - pnext) es2) in Hrl.
    rewrite app_assoc in Hrl.
    assert (Hpos : pnext = length (es1 ++ [(k, s1)])) by (rewrite length_app; cbn; lia).
    destruct (insert_child_rep parent _ (take (h - pnext) es2) child key Hrl Hchild Hkey) as [Hri Hli].
    { rewrite !length_app, length_take, Hll. cbn [length]. rewrite length_app in *. cbn [length] in *. lia. }
    { rewrite Hll, Hlb. lia. }
    rewrite <- Hpos in Hri, Hli.
    eapply wp_mono; [apply (edit_two w G x _ s _); congruence|].
    cbv beta. intros _ w' (Hm' & Es & Hx' & Ht & Hu' & Hvx & Hvs & Ho). split; [done|].
    constructor; try done; [by intros; apply Ho|].
    destruct (HL Hge) as (sec & r & Er). rewrite Er in Hrr.
    eexists _, _, _, sec, r. split_and!; [exact Hvs|exact Hri|exact Hvx|exact Hrr| |].
    + rewrite <- Er, <- !app_assoc. cbn [app]. by rewrite take_drop.
    + by destruct es1.
Qed.
End split_insert.

(** A subtree in its context is the whole tree. *)
Lemma plug_inserted q w w' Gold c m path s lo hi CL CR Fo D G C r :
  ctx (view w') (etree_levels (image (sb w'))) (etree_root (image (sb w'))) c m path s lo hi CL CR Fo ->
  subtree (view w') m lo hi s D G -> NoDup (G ++ Fo) -> is_u64 (etree_root (image (sb w'))) ->
  mstep q w w' Gold (G ++ Fo) -> xstep w w' -> took w w' [] ->
  ((r = 0 /\ CL ++ D ++ CR = C) \/ (r = - ENOMEM /\ CL ++ D ++ CR `sublist_of` C /\ lack w q)) ->
  inserted q w Gold C r w'.
Proof.
  intros Hctx Ht Hnd Hu Hs Hx Htk Hr. destruct (ctx_plug _ _ _ _ _ _ _ _ _ _ _ _ _ _ Hctx Ht) as (F & HF & Hp).
  exists (CL ++ D ++ CR), F. split_and!; try done.
  - split; [done|]. split; [|done]. by rewrite Hp.
  - eapply mstep_sub; [done|]. intros x. by rewrite Hp.
Qed.

(** A node in its context, with the edits that made room in it. *)
Lemma node_room s n : layout s -> Z.of_nat n < alloc_per_node (metadata s) ->
  (8 + 16 * (n + 1) <= Z.to_nat (allocsize (metadata s)))%nat.
Proof.
  intros Hl Hn. rewrite (ly_node s Hl) in Hn. pose proof (layout_size s Hl).
  pose proof (Z.div_mod (allocsize (metadata s) - 8) 16 ltac:(lia)).
  pose proof (Z.mod_pos_bound (allocsize (metadata s) - 8) 16 ltac:(lia)). lia.
Qed.

Lemma node_full s n : layout s -> alloc_per_node (metadata s) <= Z.of_nat n -> (2 <= n)%nat.
Proof.
  intros Hl Hn. rewrite (ly_node s Hl) in Hn. pose proof (layout_size s Hl).
  pose proof (Z.div_mod (allocsize (metadata s) - 8) 16 ltac:(lia)).
  pose proof (Z.mod_pos_bound (allocsize (metadata s) - 8) 16 ltac:(lia)). lia.
Qed.

Section insert_node.
Context (V : Z -> option block) (n : nat) (root c : Z) (m : nat) (path : list etree_path) (s lo hi : Z)
  (CL CR : aleaf) (Fo : list Z) (b : block) (es1 : list (Z * Z)) (k s1 : Z) (es2 : list (Z * Z))
  (mid1 mid2 : Z) (C1 C3 : aleaf) (F1 F3 : list Z)
  (w : world) (child key : Z) (D1 D2 : aleaf) (G1 G2 : list Z).
Abbreviation Gall := (G1 ++ G2 ++ s :: F1 ++ F3 ++ Fo).
Abbreviation es := (es1 ++ (k, s1) :: es2).
Abbreviation es' := (es1 ++ (k, s1) :: (key, child) :: es2).
Context (Hctx : ctx V n root c (S m) path s lo hi CL CR Fo) (Hb : V s = Some b) (Hr : node_rep b es)
  (H1 : kids (subtree V m) lo mid1 es1 C1 F1) (H3 : kids (subtree V m) mid2 hi es2 C3 F3)
  (Hh : head_key es2 mid2) (Hk : es1 <> [] -> k = mid1) (Hc : mid1 <= c < mid2)
  (Eroot : root_of (sb w) = (root, n)) (Hroot : is_u64 root)
  (HV : forall x, x ∈ s :: F1 ++ F3 ++ Fo -> view w x = V x)
  (Hm : meta_ok w Gall) (Hnd : NoDup Gall)
  (Hus : forall x, x ∈ (path ++ [(s, S (length es1))]).*1 -> usable w x)
  (Hd1 : subtree (view w) m mid1 key s1 D1 G1) (Hd2 : subtree (view w) m key mid2 child D2 G2)
  (Hkey : mid1 < key < mid2) (Hch : is_u64 child).

Lemma in_node_here : s ∈ Gall /\ usable w s /\ view w s = Some b /\ is_u64 key.
Proof.
  split; [in_list|]. split.
  - apply Hus. rewrite fmap_app, elem_of_app. right. by left.
  - split; [rewrite HV; [done|in_list]|]. pose proof (ctx_range _ _ _ _ _ _ _ _ _ _ _ _ Hctx) as (_ & Hlo & Hhi).
    apply kids_le in H1, H3. unfold is_u64, KEY_TOP in *. lia.
Qed.

(** The children with the new one, and what is outside the node, in a later
    state. *)
Lemma in_node_kids w' :
  (forall x, x ∈ Gall -> x <> s -> view w' x = view w x) ->
  kids (subtree (view w') m) lo hi es' (C1 ++ D1 ++ D2 ++ C3) (F1 ++ G1 ++ G2 ++ F3).
Proof.
  intros Hv. assert (Hv' : forall x, x ∈ F1 \/ x ∈ F3 \/ x ∈ G1 \/ x ∈ G2 -> view w' x = view w x).
  { intros x Hx. apply Hv; [in_list|]. intros ->. apply NoDup_app in Hnd as (_ & Hn1 & Hn).
    apply NoDup_app in Hn as (_ & Hn2 & Hn). apply NoDup_cons in Hn as [Hn3 _].
    specialize (Hn1 s). specialize (Hn2 s). repeat rewrite ?elem_of_app, ?elem_of_cons in *. tauto. }
  eapply kids_insert; try done.
  - eapply kids_ext; [|exact H1]. intros x Hx. rewrite Hv', HV; [done|in_list|tauto].
  - eapply subtree_ext; [|exact Hd1]. intros x Hx. rewrite Hv'; [done|tauto].
  - eapply subtree_ext; [|exact Hd2]. intros x Hx. rewrite Hv'; [done|tauto].
  - eapply kids_ext; [|exact H3]. intros x Hx. rewrite Hv', HV; [done|in_list|tauto].
Qed.

Lemma in_node_outer x : x ∈ Fo -> x ∈ Gall /\ x <> s.
Proof.
  intros Hx. split; [in_list|]. intros ->. apply NoDup_app in Hnd as (_ & _ & Hn).
  apply NoDup_app in Hn as (_ & _ & Hn). apply NoDup_cons in Hn as [Hn _]. apply Hn. in_list.
Qed.

Lemma in_node_ctx w' :
  (forall x, x ∈ Fo -> view w' x = view w x) -> ctx (view w') n root c (S m) path s lo hi CL CR Fo.
Proof. intros Hv. eapply ctx_ext; [|exact Hctx]. intros x Hx. rewrite Hv, HV; [done|in_list|done]. Qed.

(** The node has room. *)
Lemma insert_node_room q :
  Z.of_nat (length es) < alloc_per_node (metadata (sb w)) ->
  wp (set_data s (insert_child b (S (length es1)) child key);; set_buffer_dirty s;; mret 0)
    (inserted q w Gall ((CL ++ C1) ++ D1 ++ D2 ++ C3 ++ CR)) w.
Proof.
  intros Hroom. destruct in_node_here as (Hin & Hu & Hvs & Hk64).
  pose proof (view_length w _ _ (mo_mem _ _ Hm) Hvs) as Hlb. pose proof (mo_layout _ _ Hm) as Hl.
  pose proof (layout_size _ Hl) as Hsz. pose proof (node_room _ _ Hl Hroom) as Hfit.
  assert (Hpos : S (length es1) = length (es1 ++ [(k, s1)])) by (rewrite length_app; cbn; lia). rewrite Hpos.
  assert (Ees : es = (es1 ++ [(k, s1)]) ++ es2) by (rewrite <- app_assoc; done). rewrite Ees in Hr, Hfit.
  destruct (insert_child_rep b (es1 ++ [(k, s1)]) es2 child key Hr Hch Hk64) as [Hri Hli]; [lia|lia|].
  wp_step. eapply wp_mono; [apply (edit_owned s _ w Gall); [done|done|done|congruence]|].
  cbv beta. intros _ w0 H0. wp_step. eapply wp_mono; [exact H0|]. cbv beta. intros _ w1 [Hm1 He1]. wp_steps.
  assert (Es : sb w1 = sb w) by apply He1.
  assert (Hv : forall x, x <> s -> view w1 x = view w x) by (intros x Hx; by rewrite (es_view _ _ _ _ He1), decide_False).
  injection Eroot as E1 E2.
  eapply (plug_inserted q w w1 _ c (S m) path s lo hi CL CR Fo (C1 ++ D1 ++ D2 ++ C3) (s :: F1 ++ G1 ++ G2 ++ F3)).
  - rewrite Es, E1, E2. apply in_node_ctx. intros x Hx. by apply Hv, in_node_outer.
  - eexists _, _, _. rewrite (es_view _ _ _ _ He1), decide_True by done. split_and!; [done| |done|].
    + rewrite <- app_assoc in Hri. exact Hri.
    + apply in_node_kids. intros x _. by apply Hv.
  - eapply NoDup_Permutation_proper; [|exact Hnd]. solve_Permutation.
  - by rewrite Es, E1.
  - eapply mstep_sub; [by apply (mstep_mono 0); [|lia]|]. intros x. in_list.
  - by eapply estep_xstep.
  - intros x. rewrite (es_pins _ _ _ _ He1), occ_nil. lia.
  - left. split; [done|]. by rewrite <- !app_assoc.
Qed.

(** No block could be had: the new child is not in the tree. *)
Lemma insert_node_fail q w' :
  mstep q w w' Gall Gall -> lack w q -> root_of (sb w') = root_of (sb w) -> (forall y, y ∈ Gall -> view w' y = view w y) ->
  xstep w w' -> took w w' [] ->
  inserted q w Gall ((CL ++ C1) ++ D1 ++ D2 ++ C3 ++ CR) (- ENOMEM) w'.
Proof.
  intros Hm1 Hlk Er Hv Hx Ht. rewrite Eroot in Er. injection Er as E1 E2.
  eapply (plug_inserted q w w' _ c m (path ++ [(s, S (length es1))]) s1 mid1 mid2 _ _ (s :: F1 ++ F3 ++ Fo) D1 G1).
  - rewrite E1, E2. eapply ctx_ext; [|by eapply (ctx_snoc V)]. intros x Hx'. rewrite Hv, HV; [done|done|in_list].
  - apply (subtree_widen _ _ _ key); [lia|lia|]. eapply subtree_ext; [|exact Hd1]. intros x Hx'. apply Hv. in_list.
  - eapply sublist_NoDup; [exact Hnd|]. apply sublist_app; [done|]. by apply sublist_inserts_l.
  - by rewrite E1.
  - eapply mstep_sub; [done|]. intros x. in_list.
  - done.
  - done.
  - right. split; [done|]. split; [|done]. do 2 (apply sublist_app; [done|]). by apply sublist_inserts_l.
Qed.

(** The node was full: its halves are the subtrees to put in its place. *)
Lemma insert_node_halves x w1 w2 newkey :
  new_owned w w1 Gall x (empty_node (sb w)) -> halves w1 w2 s x es' newkey ->
  exists Cl Cr Fl Fr, subtree (view w2) (S m) lo newkey s Cl (s :: Fl) /\
    subtree (view w2) (S m) newkey hi x Cr (x :: Fr) /\ lo < newkey < hi /\
    C1 ++ D1 ++ D2 ++ C3 = Cl ++ Cr /\ F1 ++ G1 ++ G2 ++ F3 = Fl ++ Fr.
Proof.
  intros Ho Hv. destruct (hv_split _ _ _ _ _ _ Hv) as (bl & br & esl & sec & esr & Hvl & Hrl & Hvr & Hrr & E & Hne).
  assert (Hkids : kids (subtree (view w2) m) lo hi es' (C1 ++ D1 ++ D2 ++ C3) (F1 ++ G1 ++ G2 ++ F3)).
  { apply in_node_kids. intros y Hy Hys. rewrite (hv_others _ _ _ _ _ _ Hv); [by apply Ho|done|].
    intros ->. by apply (no_fresh _ _ _ _ _ Ho). }
  rewrite E in Hkids. apply kids_app in Hkids as (mid & Cl & Cr & Fl & Fr & EC & EF & Hkl & Hhead & Hkr).
  specialize (Hhead Hne). cbn in Hhead. subst mid. exists Cl, Cr, Fl, Fr. split_and!; try done.
  - exists bl, esl, Fl. split_and!; done.
  - eexists br, _, Fr. split_and!; done.
  - destruct esl as [|[k0 s0] esl]; [done|]. cbn in Hkl.
    destruct Hkl as (mid & ? & ? & ? & ? & _ & _ & Hlt & _ & _ & Hle%kids_le). lia.
  - cbn in Hkr. destruct Hkr as (mid & ? & ? & ? & ? & _ & _ & Hlt & _ & _ & Hle%kids_le). lia.
Qed.
End insert_node.

Lemma insert_up_ok V n root c m path s lo hi CL CR Fo :
  ctx V n root c m path s lo hi CL CR Fo ->
  forall w child key D1 D2 G1 G2,
  root_of (sb w) = (root, n) -> is_u64 root -> (forall x, x ∈ Fo -> view w x = V x) ->
  meta_ok w (G1 ++ G2 ++ Fo) -> NoDup (G1 ++ G2 ++ Fo) -> (forall x, x ∈ path.*1 -> usable w x) ->
  subtree (view w) m lo key s D1 G1 -> subtree (view w) m key hi child D2 G2 ->
  lo < key < hi -> is_u64 child ->
  wp (insert_up (reverse path) child key) (inserted (length path + 1) w (G1 ++ G2 ++ Fo) (CL ++ D1 ++ D2 ++ CR)) w.
Proof.
  induction 1 as [|m path s lo hi CL CR Fo b es1 k s1 es2 mid1 mid2 C1 C3 F1 F3 Hctx IH Hb Hr H1 H3 Hh Hk Hc];
    intros w child key D1 D2 G1 G2 Eroot Hroot HV Hm Hnd Hus Hd1 Hd2 Hkey Hch.
  { cbn [reverse rev app]. injection Eroot as <- <-. rewrite !app_nil_r in *. by apply add_tree_level_ok. }
  rewrite reverse_snoc. cbn [insert_up].
  edestruct (in_node_here V n root c m path s lo hi) as (Hin & Hu & Hvs & Hk64); try eassumption.
  unfold getsb. wp_steps. apply wp_get_data; [done|]. rewrite Hvs. intros d [= <-].
  rewrite (node_rep_count _ _ Hr).
  destruct (Z.ltb_spec (Z.of_nat (length (es1 ++ (k, s1) :: es2))) (alloc_per_node (metadata (sb w)))) as [Hroom|Hfull].
  { by eapply (insert_node_room V n root c m path). }
  replace (length (path ++ [(s, S (length es1))]) + 1)%nat with (1 + (length path + 1))%nat by (rewrite length_app; cbn [length]; lia).
  wp_steps. eapply wp_mono; [by apply new_node_owned|]. cbv beta. intros [x|] w1 (Hx1 & Er & Hr1).
  2:{ destruct Hr1 as (Hs1 & Hv1 & Ht1 & Hlk). wp_steps. eapply (insert_node_fail V n root c m path); try done.
      - apply (mstep_mono 1); [done|lia].
      - apply (lack_mono _ 1); [done|lia]. }
  destruct Hr1 as (Ho & Hu1 & Ht1). set (Gall := G1 ++ G2 ++ s :: F1 ++ F3 ++ Fo) in *.
  assert (Hsx : s <> x) by (intros ->; by apply (no_fresh _ _ _ _ _ Ho)).
  assert (Hus1 : forall y, usable w y -> usable w1 y).
  { intros y Hy. apply Hx1; [done|]. rewrite Ht1. apply usable_pins in Hy. pose proof (occ_nonneg y [x]). lia. }
  wp_steps. apply wp_get_data; [by apply Hus1|]. rewrite (no_others _ _ _ _ _ Ho s Hin), Hvs. intros d [= <-].
  wp_steps. apply wp_get_data; [done|]. rewrite (no_view _ _ _ _ _ Ho). intros d [= <-].
  destruct (split_node b (empty_node (sb w)) (length (es1 ++ (k, s1) :: es2) / 2)) as [parent newnode] eqn:Esp.
  pose proof (no_step _ _ _ _ _ Ho) as Hs1. pose proof (layout_size _ (mo_layout _ _ Hm)) as Hsz.
  wp_step. eapply wp_mono.
  { eapply (split_insert_spec w1 (x :: Gall) s x b (empty_node (sb w)) es1 es2 k s1 child key); try done.
    - apply Hs1.
    - by right.
    - by left.
    - by apply Hus1.
    - by rewrite (no_others _ _ _ _ _ Ho).
    - apply Ho.
    - apply empty_node_rep. lia.
    - eapply node_full; [apply Hm|done]. }
  cbv beta. intros _ w2 [Hs2 Hhv]. wp_step.
  assert (Hx2 : 0 < pins w2 x) by (apply usable_pins, (hv_usable _ _ _ _ _ _ Hhv); done).
  eapply wp_mono; [apply (brelse_owned x w2 (x :: Gall)); [apply Hs2|done]|].
  cbv beta. intros _ w3 (Hs3 & Hc3 & Ht3).
  edestruct insert_node_halves as (Cl & Cr & Fl & Fr & Hl & Hr' & Hnk & EC & EF);
    [exact H1|exact H3|exact Hh|exact Hk|exact Hc|exact HV|exact Hnd|exact Hd1|exact Hd2|exact Hkey|exact Ho|exact Hhv|].
  assert (Htk : took w w3 []).
  { intros y. specialize (Ht1 y). specialize (Ht3 y). pose proof (hv_pins _ _ _ _ _ _ Hhv y) as Ht2.
    rewrite occ_nil in *. lia. }
  assert (Hxw : xstep w w3).
  { eapply xstep_up; [exact Hx1| |intros y; rewrite Ht1; pose proof (occ_nonneg y [x]); lia].
    eapply xstep_same_pins; [apply Hhv|by apply cstep_xstep|apply Hhv]. }
  assert (Hvo : forall y, y ∈ Gall -> y <> s -> view w3 y = view w y).
  { intros y Hy Hys. rewrite (cs_view _ _ Hc3), (hv_others _ _ _ _ _ _ Hhv); [by apply Ho|done|].
    intros ->. by apply (no_fresh _ _ _ _ _ Ho). }
  assert (Hperm : (s :: Fl) ++ (x :: Fr) ++ Fo ≡ₚ x :: Gall).
  { unfold Gall. transitivity (x :: s :: (Fl ++ Fr) ++ Fo); [solve_Permutation|]. rewrite <- EF. solve_Permutation. }
  assert (Hw3 : mstep 1 w w3 Gall ((s :: Fl) ++ (x :: Fr) ++ Fo)).
  { eapply mstep_sub; [eapply mstep_then; [exact Hs1|eapply mstep_then; [exact Hs2|exact Hs3]]|].
    intros y. by rewrite Hperm. }
  eapply wp_mono.
  { apply (IH w3 x _ Cl Cr (s :: Fl) (x :: Fr)); [|done| |apply Hw3| | | | |done|apply Ho].
    - rewrite (same_sb _ _ (cs_store _ _ Hc3)), (hv_sb _ _ _ _ _ _ Hhv). by rewrite Er.
    - intros y Hy. edestruct in_node_outer as [Hy1 Hy2]; [exact Hc|exact Hnd|exact Hkey|exact Hy|]. rewrite Hvo, HV; [done|in_list|done|done].
    - rewrite Hperm. constructor; [apply Ho|done].
    - intros y Hy. apply (cs_usable _ _ Hc3).
      + apply (hv_usable _ _ _ _ _ _ Hhv), Hus1, Hus. rewrite fmap_app. in_list.
      + rewrite Htk. assert (usable w y) as Hy' by (apply Hus; rewrite fmap_app; in_list).
        apply usable_pins in Hy'. rewrite occ_nil. lia.
    - eapply subtree_ext; [|exact Hl]. intros. apply Hc3.
    - eapply subtree_ext; [|exact Hr']. intros. apply Hc3. }
  cbv beta. intros r w4 Hins.
  replace ((CL ++ C1) ++ D1 ++ D2 ++ C3 ++ CR) with (CL ++ Cl ++ Cr ++ CR).
  - by eapply inserted_after.
  - rewrite <- !app_assoc, (app_assoc Cl), <- EC. by rewrite <- !app_assoc.
Qed.

(** ** Leaves *)

Lemma new_leaf_owned w G :
  meta_ok w G ->
  wp new_leaf (fun r w' => xstep w w' /\ root_of (sb w') = root_of (sb w) /\ match r with
    | Some x => new_owned w w' G x (empty_leaf (sb w)) /\ usable w' x /\ took w w' [x]
    | None => mstep 1 w w' G G /\ (forall y, y ∈ G -> view w' y = view w y) /\ took w w' [] /\ lack w 1 end) w.
Proof.
  intros H. pose proof (mo_layout _ _ H) as [Hg Hsp _ Hd]. eapply wp_mono.
  { apply new_leaf_spec; [apply H|done|apply Hsp|done|apply H]. }
  cbv beta. intros [x|] w' Hr.
  - pose proof (fresh_owned _ _ _ _ _ H Hr) as Ho. destruct Hr. split_and!; try done. apply Ho.
  - destruct (no_block_meta _ _ _ H Hr) as (Hs & Hroot & Hv & Hlk). destruct Hr as (? & ? & ? & _). by split_and!.
Qed.

Lemma length_empty_leaf s : length (empty_leaf s) = Z.to_nat (allocsize (metadata s)).
Proof. unfold empty_leaf, init_leaf, set_map_offset, set_leaf_count. by len. Qed.

Lemma set_data_same s d w (Q : unit -> world -> Prop) :
  usable w s -> view w s = Some d -> Q tt w -> wp (set_data s d) Q w.
Proof.
  intros (b & Hb & Hst & Hc) Hv HQ. unfold view in Hv. rewrite Hb, decide_False in Hv by done.
  injection Hv as <-. unfold set_data. apply (wp_upd_buf s b); [done|].
  assert (E : b <| bdata := bdata b |> = b) by by destruct b. rewrite E. by rewrite put_buf_id.
Qed.

(** What one or two edits of blocks and the release of their buffers leave
    behind. *)
Record written (w w' : world) (G l : list Z) (V' : Z -> option block) : Prop := {
  wr_step : mstep 0 w w' G G;
  wr_x : xstep w w';
  wr_took : took w' w l;
  wr_sb : sb w' = sb w;
  wr_view : forall y, view w' y = V' y }.

Lemma edit_release w G s d :
  meta_ok w G -> s ∈ G -> usable w s -> length d = Z.to_nat (allocsize (metadata (sb w))) ->
  wp (set_data s d) (fun _ => wp (brelse_dirty s) (fun _ w' =>
    written w w' G [s] (fun y => if decide (y = s) then Some d else view w y))) w.
Proof.
  intros H Hs Hu Hd. eapply wp_mono; [by apply (edit_owned s d w G)|]. cbv beta. intros _ w0 H0.
  unfold brelse_dirty. wp_step. eapply wp_mono; [exact H0|]. cbv beta. intros _ w1 [Hs1 He1]. clear H0 w0.
  eapply wp_mono; [apply (brelse_owned s w1 G); [apply Hs1|]|].
  { rewrite (es_pins _ _ _ _ He1). by apply usable_pins. }
  cbv beta. intros _ w2 (Hs2 & Hc2 & Ht2). constructor.
  - by eapply mstep_then.
  - eapply xstep_same_pins; [by eapply estep_xstep|by apply cstep_xstep|].
    intros y. rewrite (es_pins _ _ _ _ He1), occ_nil. lia.
  - intros y. rewrite <- (es_pins _ _ _ _ He1). apply Ht2.
  - rewrite (same_sb _ _ (cs_store _ _ Hc2)). apply He1.
  - intros y. by rewrite (cs_view _ _ Hc2), (es_view _ _ _ _ He1).
Qed.

(** Blocks changed in their buffers, nothing released. *)
Record edited (w w' : world) (V' : Z -> option block) : Prop := {
  ed_ext : same_ext w w';
  ed_view : forall y, view w' y = V' y;
  ed_pins : forall y, pins w' y = pins w y;
  ed_usable : forall y, usable w y -> usable w' y;
  ed_busy : busies w w' [] }.

Lemma edited_data w w1 w2 V s d :
  edited w w1 V -> dstep w1 w2 s d -> edited w w2 (fun y => if decide (y = s) then Some d else V y).
Proof.
  intros [E1 V1 P1 U1 B1] [E2 V2 P2 U2 B2]. constructor.
  - by transitivity w1.
  - intros y. by rewrite V2, V1.
  - intros y. by rewrite P2.
  - auto.
  - exact (busies_trans _ _ _ [] [] B1 B2).
Qed.

Lemma edited_xstep w w1 w2 V :
  edited w w1 V -> xstep w1 w2 -> xstep w w2.
Proof.
  intros [[] _ P U _] Hx. eapply xstep_trans; [|exact Hx|].
  - constructor; try done. auto.
  - intros y Hy _. rewrite P. by apply usable_pins.
Qed.

(** Two edited buffers are marked dirty and released. *)
Lemma release_two w G s x w1 V1 S :
  meta_ok w G -> s ∈ G -> x ∈ G -> s <> x -> usable w s -> usable w x ->
  (forall y, y ∈ S -> y = s \/ y = x) -> loose w1 S -> edited w w1 V1 ->
  (forall y, y <> s -> y <> x -> V1 y = view w y) ->
  wp (brelse_dirty s;; brelse_dirty x) (fun _ w' => written w w' G [s; x] V1) w1.
Proof.
  intros H Hs Hx Hne Hus Hux HS Hl1 Hed Hoth. unfold brelse_dirty. wp_steps.
  eapply wp_mono; [apply (dirty_loose s w1 S [x]); [done|by apply Hed|]|].
  { intros y Hy. rewrite list_elem_of_singleton. by apply HS. }
  cbv beta. intros _ w2 (Hl2 & He2 & Hv2 & Hp2 & Hu2 & Hb2).
  eapply wp_mono; [apply (brelse_loose s w2 [x]); [done| |by rewrite list_elem_of_singleton]|].
  { rewrite Hp2, (ed_pins _ _ _ Hed). by apply usable_pins. }
  cbv beta. intros _ w3 (Hl3 & Hc3 & Ht3). wp_steps.
  assert (Hp3 : 0 < pins w3 x).
  { specialize (Ht3 x). rewrite Hp2, (ed_pins _ _ _ Hed), occ_cons, occ_nil, decide_False in Ht3 by done.
    apply usable_pins in Hux. lia. }
  assert (Hu3 : usable w3 x) by (apply (cs_usable _ _ Hc3); [by apply Hu2, Hed|done]).
  eapply wp_mono; [apply (dirty_loose x w3 [x] []); [done|done|]|].
  { intros y Hy. left. by apply list_elem_of_singleton in Hy. }
  cbv beta. intros _ w4 (Hl4 & He4 & Hv4 & Hp4 & Hu4 & Hb4). apply loose_mem in Hl4 as Hm4.
  eapply wp_mono; [apply brelse_mem; [done|by rewrite Hp4]|].
  cbv beta. intros _ w5 (Hm5 & Hc5 & Ht5).
  assert (Es : sb w5 = sb w).
  { rewrite (same_sb _ _ (cs_store _ _ Hc5)), (ext_sb _ _ He4), (same_sb _ _ (cs_store _ _ Hc3)), (ext_sb _ _ He2).
    apply Hed. }
  assert (Hv5 : forall y, view w5 y = V1 y).
  { intros y. by rewrite (cs_view _ _ Hc5), Hv4, (cs_view _ _ Hc3), Hv2, (ed_view _ _ _ Hed). }
  assert (Hx5 : xstep w w5).
  { eapply edited_xstep; [done|].
    apply (xstep_same_pins w1 w2 w5); [|apply (xstep_trans w2 w3 w5); [by apply cstep_xstep| |]|].
    + destruct He2. constructor; try done. auto.
    + apply (xstep_same_pins w3 w4 w5); [|by apply cstep_xstep|].
      * destruct He4. constructor; try done. auto.
      * intros y. rewrite Hp4, occ_nil. lia.
    + intros y _ Hy. specialize (Ht5 y). rewrite Hp4 in Ht5. pose proof (occ_nonneg y [x]). lia.
    + intros y. rewrite Hp2, occ_nil. lia. }
  constructor; [|done| |done|done].
  - apply mstep_quiet; [done|done|rewrite Es; apply same_layout_refl, H| | |apply Hx5|apply Hx5].
    + intros which k Hk. pose proof (mo_bitmap _ _ H which k Hk) as Hn.
      rewrite Hv5, Hoth; [done|intros E; by rewrite E in Hn|intros E; by rewrite E in Hn].
    + apply (busies_trans w w1 w5 [] []); [apply Hed|]. apply (busies_trans w1 w2 w5 [] []); [done|].
      apply (busies_trans w2 w3 w5 [] []); [eapply gave_busies; [apply Hl2|apply Hl3|done|done]|].
      apply (busies_trans w3 w4 w5 [] []); [done|]. eapply gave_busies; [apply Hm4|apply Hm5|done|done].
  - intros y. specialize (Ht3 y). specialize (Ht5 y). rewrite Hp4 in Ht5. rewrite Hp2, (ed_pins _ _ _ Hed) in Ht3.
    rewrite !occ_cons, occ_nil in *. lia.
Qed.

(** ** Adding an exception *)

Lemma add_entry_app_l t e s a L1 L2 :
  Forall (fun d => t < d.1) L2 -> add_entry t e s a (L1 ++ L2) = add_entry t e s a L1 ++ L2.
Proof.
  intros H2. induction L1 as [|[r es] L1 IH]; cbn.
  - destruct L2 as [|[r es] L2]; [done|]. apply Forall_cons in H2 as [Hr _]. cbn in Hr |- *.
    by rewrite (proj2 (Z.ltb_ge r t)), (proj2 (Z.eqb_neq r t)) by lia.
  - rewrite IH. by repeat destruct_if.
Qed.

Lemma add_entry_within t e s a L lo hi :
  leaf_sorted L -> within lo hi L -> lo <= t < hi -> within lo hi (add_entry t e s a L).
Proof. intros Hs Hw Ht. by apply add_entry_Forall. Qed.

Section add_exception.
Context (w : world) (F : list Z) (c e snapbit leaf : Z) (path : list etree_path) (lo hi : Z) (CL CR : aleaf)
  (Fo : list Z) (b : block) (L : aleaf).
Abbreviation i := (image (sb w)).
Abbreviation mask := (snapmask (sb w)).
Abbreviation add := (add_entry c e snapbit mask).
Context (Hctx : ctx (view w) (etree_levels i) (etree_root i) c 0 path leaf lo hi CL CR Fo)
  (Hvl : view w leaf = Some b) (Hrl : leaf_rep b L) (Hwl : leaf_wf L) (Hin : within lo hi L)
  (HF : F ≡ₚ leaf :: Fo) (Hnd : NoDup F) (Hm : meta_ok w F)
  (Hus : forall x, x ∈ path.*1 ++ [leaf] -> usable w x) (He : is_u64 e) (Hsn : -1 <= snapbit < 64)
  (Hmask : is_u64 mask) (Hroot : is_u64 (etree_root i)) (Huniq : already_unique L c snapbit mask = false)
  (Hsize : 1088 <= allocsize (metadata (sb w))).

(** What the insertion leaves behind: on success the exception is in the
    tree and the leaf is released.  Without a block for a new leaf nothing
    has changed; without one for a new node entries are missing. *)
Definition added (r : Z) (w' : world) : Prop :=
  exists C' F', tree_ok w' C' F' /\ mstep (length path + 2) w w' F F' /\ xstep w w' /\
    ((r = 0 /\ C' = add (CL ++ L ++ CR) /\ took w' w [leaf]) \/
     (r = - ENOMEM /\ lack w (length path + 2) /\ C' = CL ++ L ++ CR /\ took w w' []) \/
     (r = - ENOMEM /\ lack w (length path + 2) /\ C' `sublist_of` add (CL ++ L ++ CR) /\ took w' w [leaf])).

Lemma add_here : lo <= c < hi /\ 0 <= lo /\ hi <= KEY_TOP /\ is_u32 c /\ Forall ent_ok L /\
  usable w leaf /\ leaf ∈ F /\ length b = Z.to_nat (allocsize (metadata (sb w))).
Proof.
  pose proof (ctx_range _ _ _ _ _ _ _ _ _ _ _ _ Hctx) as (Hc & Hlo & Hhi). split_and!; try done; try lia.
  - unfold is_u32, KEY_TOP in *. lia.
  - by destruct Hrl as (_ & ? & _).
  - apply Hus. in_list.
  - rewrite HF. by left.
  - by eapply view_length; [apply Hm|].
Qed.

Lemma add_mid : add (CL ++ L ++ CR) = CL ++ add L ++ CR.
Proof.
  destruct add_here as (Hc & _). destruct (ctx_within _ _ _ _ _ _ _ _ _ _ _ _ Hctx) as [WL WR].
  rewrite add_entry_app, add_entry_app_l; [done| |].
  - eapply Forall_impl; [exact WR|]. cbn. intros. lia.
  - eapply Forall_impl; [exact WL|]. cbn. intros. lia.
Qed.

(** There is room in the leaf. *)
Lemma add_room b' :
  leaf_rep b' (add L) -> length b' = length b ->
  wp (set_data leaf b') (fun _ => wp (brelse_dirty leaf;; mret 0) added) w.
Proof.
  intros Hr' Hl'. destruct add_here as (Hc & Hlo & Hhi & Hc32 & Hok & Hu & Hinl & Hlb).
  eapply wp_mono; [apply (edit_release w F leaf b'); [done|done|done|congruence]|].
  cbv beta. intros _ w0 H0. wp_step. eapply wp_mono; [exact H0|]. cbv beta. intros _ w1 Hw1. wp_steps.
  assert (Es : sb w1 = sb w) by apply Hw1.
  assert (HnF : leaf ∉ Fo) by (rewrite HF in Hnd; by apply NoDup_cons in Hnd as [? _]).
  destruct (ctx_plug (view w1) (etree_levels i) (etree_root i) c 0 path leaf lo hi CL CR Fo (add L) [leaf]) as (F' & HF' & Hp).
  { eapply ctx_ext; [|exact Hctx]. intros x Hx. rewrite (wr_view _ _ _ _ _ Hw1), decide_False; [done|]. by intros ->. }
  { exists b'. rewrite (wr_view _ _ _ _ _ Hw1), decide_True by done. split_and!; try done.
    - by apply add_entry_wf.
    - apply add_entry_within; [apply Hwl|done|done]. }
  exists (add (CL ++ L ++ CR)), F'. rewrite add_mid. split_and!.
  - unfold tree_ok. rewrite Es. split_and!; try done. rewrite Hp. cbn [app]. by rewrite <- HF.
  - eapply mstep_sub; [apply (mstep_mono 0); [apply Hw1|lia]|]. intros x. rewrite Hp, HF. done.
  - apply Hw1.
  - left. split_and!; try done. apply Hw1.
Qed.

(** The entries of the two halves after the insertion. *)
Lemma add_halves L1 L2 key :
  L = L1 ++ L2 -> L1 <> [] -> L2 <> [] -> Forall (fun d => d.1 < key) L1 -> Forall (fun d => key <= d.1) L2 ->
  lo < key < hi /\ add L = (if c <? key then add L1 else L1) ++ (if c <? key then L2 else add L2) /\
  within lo key (if c <? key then add L1 else L1) /\ within key hi (if c <? key then L2 else add L2) /\
  leaf_wf (if c <? key then add L1 else L1) /\ leaf_wf (if c <? key then L2 else add L2).
Proof.
  intros E Hn1 Hn2 H1 H2. destruct add_here as (Hc & _ & _ & _ & Hok & _). rewrite E in *.
  apply Forall_app in Hin as [Hi1 Hi2]. apply Forall_app in Hok as [Hok1 Hok2]. destruct (leaf_wf_app _ _ Hwl) as [W1 W2].
  assert (Hkey : lo < key < hi).
  { destruct L1 as [|d1 L1']; [done|]. destruct L2 as [|d2 L2']; [done|].
    apply Forall_cons in H1 as [? _], H2 as [? _], Hi1 as [? _], Hi2 as [? _]. lia. }
  assert (Hr1 : within lo key L1) by (eapply Forall_impl; [apply Forall_and; split; [exact H1|exact Hi1]|]; cbn; lia).
  assert (Hr2 : within key hi L2) by (eapply Forall_impl; [apply Forall_and; split; [exact H2|exact Hi2]|]; cbn; lia).
  destruct (Z.ltb_spec c key) as [Hlt|Hge].
  - rewrite add_entry_app_l by (eapply Forall_impl; [exact H2|]; cbn; lia).
    assert (Hu1 : already_unique L1 c snapbit mask = false).
    { rewrite <- Huniq. apply already_unique_ext. symmetry. apply excs_of_app_l.
      eapply Forall_impl; [exact H2|]. cbn. lia. }
    split_and!; try done; try lia; [apply add_entry_within; [apply W1|done|lia]|by apply add_entry_wf].
  - rewrite add_entry_app by (eapply Forall_impl; [exact H1|]; cbn; lia).
    assert (Hu2 : already_unique L2 c snapbit mask = false).
    { rewrite <- Huniq. apply already_unique_ext. symmetry. apply excs_of_app.
      eapply Forall_impl; [exact H1|]. cbn. lia. }
    split_and!; try done; try lia; [apply add_entry_within; [apply W2|done|lia]|by apply add_entry_wf].
Qed.

(** The leaf was full: both halves are written and the new one is linked. *)
Lemma add_split x w1 b1 b2 key L1 L2 b' :
  xstep w w1 -> root_of (sb w1) = root_of (sb w) -> new_owned w w1 F x (empty_leaf (sb w)) -> usable w1 x ->
  took w w1 [x] -> L = L1 ++ L2 -> L1 <> [] -> L2 <> [] ->
  Forall (fun d => d.1 < key) L1 -> Forall (fun d => key <= d.1) L2 ->
  leaf_rep b1 L1 -> leaf_rep b2 L2 -> length b1 = length b -> length b2 = length b ->
  add_exception_to_leaf (if c <? key then b1 else b2) c e snapbit mask = (b', 0) ->
  leaf_rep b' (add (if c <? key then L1 else L2)) -> length b' = length b ->
  wp (set_data leaf b1;; set_data x b2;;
      let dst := if c <? key then leaf else x in
      d ← get_data dst;
      let '(d, err) := add_exception_to_leaf d c e snapbit mask in
      set_data dst d;;
      if negb (err =? 0) then mret (- ENOMEM)
      else
        brelse_dirty leaf;; brelse_dirty x;;
        insert_up (reverse (take (etree_levels i) path)) x key) added w1.
Proof.
  intros Hx1 Er Ho Hux Ht1 E Hn1 Hn2 H1 H2 Hr1 Hr2 Hl1 Hl2 Eadd Hr' Hl'.
  destruct (add_halves L1 L2 key E Hn1 Hn2 H1 H2) as (Hkey & Eadd2 & Hw1 & Hw2 & Hwf1 & Hwf2).
  destruct add_here as (Hc & Hlo & Hhi & Hc32 & Hok & Hu & Hinl & Hlb).
  pose proof (no_step _ _ _ _ _ Ho) as Hs1. set (dst := if c <? key then leaf else x).
  assert (Hlx : leaf <> x) by (intros ->; by apply (no_fresh _ _ _ _ _ Ho)).
  assert (Hus1 : forall y, usable w y -> usable w1 y).
  { intros y Hy. apply Hx1; [done|]. rewrite Ht1. apply usable_pins in Hy. pose proof (occ_nonneg y [x]). lia. }
  assert (Hsz : allocsize (metadata (sb w1)) = allocsize (metadata (sb w))) by by rewrite (sl_meta _ _ (ms_same _ _ _ _ _ Hs1)).
  wp_step. eapply wp_mono; [apply (set_data_loose leaf b1 w1 []); [apply loose_mem, Hs1|by apply Hus1|congruence]|].
  cbv beta. intros _ w2 [Hlo2 Hd2].
  assert (Hed2 : edited w1 w2 (fun y => if decide (y = leaf) then Some b1 else view w1 y)) by (destruct Hd2; by constructor).
  assert (Es2 : sb w2 = sb w1) by apply Hd2.
  wp_step. eapply wp_mono; [apply (set_data_loose x b2 w2 [leaf]); [done|by apply Hd2|congruence]|].
  cbv beta. intros _ w3 [Hlo3 Hd3]. pose proof (edited_data _ _ _ _ _ _ Hed2 Hd3) as Hed3.
  assert (Es3 : sb w3 = sb w1) by (rewrite <- Es2; apply Hd3).
  assert (Hud : usable w3 dst) by (unfold dst; destruct (c <? key); apply Hed3; [by apply Hus1|done]).
  cbv zeta. wp_step. apply wp_get_data; [done|]. intros d Hd.
  assert (d = if c <? key then b1 else b2) as ->.
  { rewrite (ed_view _ _ _ Hed3) in Hd. unfold dst in Hd. destruct (c <? key).
    - rewrite decide_False, decide_True in Hd by done. congruence.
    - rewrite decide_True in Hd by done. congruence. }
  rewrite Eadd. cbv beta iota. wp_step.
  eapply wp_mono; [apply (set_data_loose dst b' w3 [x; leaf]); [done|done|congruence]|].
  cbv beta. intros _ w4 [Hlo4 Hd4]. pose proof (edited_data _ _ _ _ _ _ Hed3 Hd4) as Hed4.
  change (negb (0 =? 0)) with false. cbv iota.
  assert (Hrel : wp (brelse_dirty leaf;; brelse_dirty x) (fun _ w' => written w1 w' (x :: F) [leaf; x]
    (fun y => if decide (y = dst) then Some b' else if decide (y = x) then Some b2 else
              if decide (y = leaf) then Some b1 else view w1 y)) w4).
  { eapply release_two; [apply Hs1|by right|by left|done|by apply Hus1|done| |exact Hlo4|exact Hed4|].
    - unfold dst. intros y. destruct (c <? key); in_list.
    - unfold dst. intros y Hy1 Hy2. rewrite decide_False by (by destruct (c <? key)). by rewrite !decide_False. }
  rewrite take_ge by (rewrite (ctx_length _ _ _ _ _ _ _ _ _ _ _ _ Hctx); lia).
  clear Hlo2 Hd2 Hed2 Es2 Hlo3 Hd3 Hed3 Es3 Hud Hd Hlo4 Hd4 Hed4. clear w2 w3.
  apply (wp_assoc (brelse_dirty leaf) (fun _ => brelse_dirty x) (fun _ => insert_up (reverse path) x key)).
  wp_step. eapply wp_mono; [exact Hrel|]. cbv beta. intros _ w5 Hw. clear Hrel.
  assert (Hv5 : forall y, y ∈ Fo -> view w5 y = view w y).
  { intros y Hy. assert (Hyl : y <> leaf).
    { intros ->. rewrite HF in Hnd. by apply NoDup_cons in Hnd as [? _]. }
    assert (HyF : y ∈ F) by (rewrite HF; by right).
    assert (Hyx : y <> x) by (intros ->; by apply (no_fresh _ _ _ _ _ Ho)).
    rewrite (wr_view _ _ _ _ _ Hw), decide_False by (unfold dst; by destruct (c <? key)).
    rewrite !decide_False by done. by apply (no_others _ _ _ _ _ Ho). }
  assert (Hst : mstep 1 w w5 F ([leaf] ++ [x] ++ Fo)).
  { eapply mstep_sub; [eapply mstep_then; [exact Hs1|apply Hw]|]. intros y. rewrite HF. in_list. }
  assert (Hx5 : xstep w w5).
  { eapply xstep_up; [done|apply Hw|]. intros y. rewrite Ht1. pose proof (occ_nonneg y [x]). lia. }
  assert (Ht5 : took w5 w [leaf]).
  { intros y. pose proof (wr_took _ _ _ _ _ Hw y) as H5. rewrite Ht1, !occ_cons, occ_nil in *. lia. }
  assert (Es5 : root_of (sb w5) = (etree_root i, etree_levels i)) by (rewrite (wr_sb _ _ _ _ _ Hw); exact Er).
  eapply wp_mono.
  { eapply (insert_up_ok (view w) _ _ _ _ _ _ _ _ _ _ _ Hctx w5 x key (if c <? key then add L1 else L1) (if c <? key then L2 else add L2)
      [leaf] [x]); try done; [apply Hst| | | | |apply Ho].
    - eapply NoDup_Permutation_proper; [|constructor; [exact (no_fresh _ _ _ _ _ Ho)|exact Hnd]].
      rewrite HF. cbn [app]. solve_Permutation.
    - intros y Hy. pose proof (ctx_path_sectors _ _ _ _ _ _ _ _ _ _ _ _ Hctx y Hy) as HyFo.
      assert (Huy : usable w y) by (apply Hus; in_list). apply (xs_usable _ _ Hx5); [done|].
      specialize (Ht5 y). rewrite occ_cons, occ_nil, decide_False in Ht5; [apply usable_pins in Huy; lia|].
      intros ->. rewrite HF in Hnd. by apply NoDup_cons in Hnd as [? _].
    - exists (if c <? key then b' else b1). split_and!; [|revert Hr'; by destruct (c <? key)|exact Hwf1|exact Hw1|done].
      rewrite (wr_view _ _ _ _ _ Hw). unfold dst. destruct (c <? key); [by rewrite decide_True|].
      do 2 rewrite decide_False by done. by rewrite decide_True.
    - exists (if c <? key then b2 else b'). split_and!; [|revert Hr'; by destruct (c <? key)|exact Hwf2|exact Hw2|done].
      rewrite (wr_view _ _ _ _ _ Hw). unfold dst. destruct (c <? key); [|by rewrite decide_True].
      by rewrite decide_False, decide_True. }
  cbv beta. intros r w6 (C' & F' & Htr & Hs6 & Hx6 & Ht6 & Hr). exists C', F'. split_and!; try done.
  - replace (length path + 2)%nat with (1 + (length path + 1))%nat by lia. by eapply mstep_trans.
  - eapply xstep_trans; [exact Hx5|exact Hx6|]. intros y _. rewrite Ht6, occ_nil. lia.
  - assert (Ht : took w6 w [leaf]) by (intros y; specialize (Ht6 y); rewrite occ_nil in Ht6; rewrite Ht5; lia).
    rewrite add_mid, Eadd2, <- app_assoc. destruct Hr as [[-> ->]|(-> & Hr & Hlk)]; [by auto|]. right. right. split_and!; try done.
    replace (length path + 2)%nat with (1 + (length path + 1))%nat by lia. by eapply mstep_lack.
Qed.

Lemma add_exception_to_tree_ok :
  wp (add_exception_to_tree leaf c e snapbit path (etree_levels i)) added w.
Proof.
  destruct add_here as (Hc & Hlo & Hhi & Hc32 & Hok & Hu & Hinl & Hlb).
  unfold add_exception_to_tree, getsb. wp_steps. apply wp_get_data; [done|]. rewrite Hvl. intros d [= <-].
  destruct (add_exception_to_leaf_rep b L c e snapbit mask Hrl Hc32 He Hmask) as [Hfits Hfull].
  destruct (Z.le_decidable (leaf_need (add L)) (Z.of_nat (length b))) as [Hn|Hn].
  { destruct (Hfits Hn) as (b' & -> & Hr' & Hl'). cbv beta iota. wp_step.
    change (0 =? 0) with true. cbv iota. by apply add_room. }
  specialize (Hfull ltac:(lia)). rewrite Hfull. cbv beta iota. wp_step. apply set_data_same; [done|done|].
  change (- EFULL =? 0) with false. cbv iota. wp_step. eapply wp_mono; [by apply new_leaf_owned|].
  cbv beta. intros [x|] w1 (Hx1 & Er & Hr1).
  - destruct Hr1 as (Ho & Hux & Ht1). 
    assert (Hus1 : usable w1 leaf).
    { apply Hx1; [done|]. rewrite Ht1. apply usable_pins in Hu. pose proof (occ_nonneg leaf [x]). lia. }
    wp_step. apply wp_get_data; [done|]. rewrite (no_others _ _ _ _ _ Ho leaf Hinl), Hvl. intros d [= <-].
    wp_step. apply wp_get_data; [done|]. rewrite (no_view _ _ _ _ _ Ho). intros d [= <-].
    destruct (split_has_room b (empty_leaf (sb w)) L c e snapbit mask) as
      (b1 & b2 & key & L1 & L2 & -> & EL & Hn1 & Hn2 & Hk1 & Hk2 & Hr1 & Hr2 & Hl1 & Hl2 & b' & Eb' & Hrb' & Hlb');
      try done; [by rewrite length_empty_leaf|lia|].
    cbv beta iota. by eapply add_split.
  - destruct Hr1 as (Hs1 & Hv1 & Ht1 & Hlk). wp_steps.
    destruct (ctx_plug (view w1) (etree_levels i) (etree_root i) c 0 path leaf lo hi CL CR Fo L [leaf]) as (F' & HF' & Hp).
    { eapply ctx_ext; [|exact Hctx]. intros y Hy. apply Hv1. rewrite HF. by right. }
    { exists b. rewrite Hv1 by done. by split_and!. }
    exists (CL ++ L ++ CR), F'. injection Er as Er El. split_and!.
    + unfold tree_ok. rewrite Er, El. split_and!; try done. rewrite Hp. cbn [app]. by rewrite <- HF.
    + eapply mstep_sub; [apply (mstep_mono 1); [exact Hs1|lia]|]. intros y. rewrite Hp, HF. done.
    + done.
    + right. left. split_and!; try done. apply (lack_mono _ 1); [done|lia].
Qed.
End add_exception.

(** C12: [add_exception_to_tree], called with the leaf and the path that [probe]
    found for a chunk that is not unique yet, adds the exception to the tree:
    on success the tree is again well formed (keys, ranges and levels, also
    after leaf and node splits and a new root), every snapshot holds what it
    held before, except for the new exception, no block in use was reused, and
    the leaf is released.  With a block for a new leaf and for a new node at
    every level, and buffers for them, it succeeds; else, when no block can be
    had for a new leaf the tree is as it was, and when none can be had for a
    node above it the tree is well formed but entries of the split are
    missing. *)
Theorem add_exception_to_tree_correct w0 w C F c e snapbit leaf path :
  meta_ok w F -> tree_ok w0 C F -> found c C F w0 (Some (leaf, path)) w ->
  is_u64 e -> -1 <= snapbit < 64 -> is_u64 (snapmask (sb w)) ->
  already_unique C c snapbit (snapmask (sb w)) = false -> 1088 <= allocsize (metadata (sb w)) ->
  wp (add_exception_to_tree leaf c e snapbit path (etree_levels (image (sb w)))) (fun r w' =>
    exists C' F', let q := (etree_levels (image (sb w)) + 2)%nat in
      tree_ok w' C' F' /\ meta_ok w' F' /\ mstep q w w' F F' /\ xstep w w' /\
      ((r = 0 /\ took w' w [leaf] /\
        forall c' n, 0 <= n < 64 -> held C' c' n = held_after C c e snapbit (snapmask (sb w)) c' n) \/
       (r = - ENOMEM /\ lack w q /\ C' = C /\ took w w' []) \/
       (r = - ENOMEM /\ lack w q /\ took w' w [leaf] /\
        C' `sublist_of` add_entry c e snapbit (snapmask (sb w)) C))) w.
Proof.
  intros Hm (Ht & Hnd & Hroot) (Hm1 & Hc & Hf) He Hsn Hmask Hun Hsz.
  destruct Hf as (lo & hi & CL & CR & Fo & b & L & Hctx & Hvl & Hrl & Hwl & Hin & -> & HF & Hus & Htk).
  pose proof (subtree_entries _ _ _ _ _ _ _ Ht) as [HwC HokC]. assert (Es : sb w = sb w0) by apply Hc.
  pose proof (ctx_excs _ _ _ _ _ _ _ _ _ L _ _ Hctx) as Hex.
  eapply wp_mono.
  { eapply (add_exception_to_tree_ok w F c e snapbit leaf path lo hi CL CR Fo b L); try done.
    - rewrite Es. eapply ctx_ext; [|exact Hctx]. intros. apply Hc.
    - by rewrite (cs_view _ _ Hc).
    - by rewrite Es.
    - rewrite <- Hun. symmetry. by apply already_unique_ext. }
  cbv beta. intros r w' (C' & F' & Htr & Hs & Hx & Hr). exists C', F'. cbv zeta.
  assert (Elen : etree_levels (image (sb w)) = length path).
  { rewrite Es, (ctx_length _ _ _ _ _ _ _ _ _ _ _ _ Hctx). lia. }
  rewrite Elen. split_and!; try done; [apply Hs|].
  destruct Hr as [(-> & -> & Ht1)|[(-> & Hlk & -> & Ht1)|(-> & Hlk & Hsub & Ht1)]]; [left|by auto 6|by auto 6].
  split_and!; try done. intros c' n Hn. by apply held_add.
Qed.
