(* ===== verification/StatusSpec.v ===== *)
(** * The status report counts what it says

    The bit count is the number of bits set, and the table that [calc_sharing]
    fills has, for each snapshot and each [k], the number of exceptions that
    the snapshot shares with [k] others. *)

From S2P Require Import Prelude Bytes State Buffer Bitmap Leaf LeafSpec LeafInv Alloc Journal Btree Snapshot Status BitmapInv.

Lemma bit_count_loop_spec n c : 0 <= c < 2 ^ Z.of_nat n -> bit_count_loop n c = popcount n c.
Proof.
  revert c. induction n as [|n IH]; intros c Hc; [done|]. cbn [bit_count_loop].
  destruct (Z.eqb_spec c 0) as [->|Hne]; [by rewrite popcount_0|].
  rewrite popcount_succ, <- IH by by apply shiftr_1_bound. rewrite land_1_odd. by destruct (Z.odd c).
Qed.

Lemma bit_count_popcount c : is_u64 c -> bit_count c = popcount 64 c.
Proof. apply (bit_count_loop_spec 64). Qed.

Lemma popcount_le n c : 0 <= popcount n c <= Z.of_nat n.
Proof.
  unfold popcount. split; [lia|]. apply Nat2Z.inj_le.
  etransitivity; [apply List.filter_length_le|]. by rewrite length_fmap, length_seq.
Qed.

Lemma popcount_pos c n : (exists i, (i < n)%nat /\ Z.testbit c (Z.of_nat i) = true) -> 0 < popcount n c.
Proof.
  intros (i & Hi & Hb). unfold popcount. apply (Nat2Z.inj_lt 0).
  assert (Hin : Z.of_nat i ∈ List.filter (Z.testbit c) (Z.of_nat <$> seq 0 n)).
  { apply list_elem_of_In, filter_In. split; [|done]. apply list_elem_of_In, list_elem_of_fmap.
    exists i. split; [done|]. apply elem_of_seq. lia. }
  destruct (List.filter _ _); [by apply elem_of_nil in Hin|]. cbn. lia.
Qed.

(** The cell of snapshot [bit] for chunks shared with [k] others *)
Definition cell (bit k : nat) : nat := (64 * bit + k)%nat.

(** Is an exception with share mask [share] counted there? *)
Definition counted (bit k : nat) (share : Z) : bool :=
  Z.testbit share (Z.of_nat bit) && (popcount 64 share =? Z.of_nat k + 1).

Lemma nonzero_popcount c : is_u64 c -> c <> 0 -> 1 <= popcount 64 c <= 64.
Proof.
  intros Hc Hnz. pose proof (popcount_le 64 c). destruct (decide (popcount 64 c = 0)) as [E|]; [|lia].
  exfalso. apply Hnz. apply (u64_zero_iff c Hc). intros i Hi.
  destruct (Z.testbit c i) eqn:Eb; [|done]. assert (0 < popcount 64 c); [|lia].
  apply popcount_pos. exists (Z.to_nat i). rewrite Z2Nat.id by lia. split; [lia|done].
Qed.

Lemma foldl_alter_cell (p : nat -> bool) (f : Z -> Z) (idx : nat -> nat) j l (table : list Z) bit k v :
  (forall b, idx b = cell b j) -> (j < 64)%nat -> (k < 64)%nat -> NoDup l -> table !! cell bit k = Some v ->
  foldl (fun t b => if p b then alter f (idx b) t else t) table l !! cell bit k =
  Some (if bool_decide (bit ∈ l) && p bit && (k =? j)%nat then f v else v).
Proof.
  intros Hidx Hj Hk. revert table v. induction l as [|b l IH]; intros table v Hnd Hv; cbn [foldl]; rewrite ?Hidx.
  { rewrite Hv. by rewrite bool_decide_false by apply not_elem_of_nil. }
  apply NoDup_cons in Hnd as [Hb Hnd].
  destruct (decide (bit = b)) as [->|Hne].
  - rewrite (bool_decide_true (b ∈ b :: l)) by by left. cbn [andb].
    assert (E : (if p b then alter f (cell b j) table else table) !! cell b k =
      Some (if p b && (k =? j)%nat then f v else v)).
    { destruct (p b); [|done]. cbn [andb]. destruct (Nat.eqb_spec k j) as [->|Hkj].
      - by rewrite list_lookup_alter_eq, Hv.
      - rewrite list_lookup_alter_ne by (unfold cell; lia). done. }
    rewrite (IH _ _ Hnd E). by rewrite bool_decide_false by done.
  - assert (E : (if p b then alter f (cell b j) table else table) !! cell bit k = Some v).
    { destruct (p b); [|done]. rewrite list_lookup_alter_ne; [done|]. unfold cell. lia. }
    rewrite (IH _ _ Hnd E). rewrite (bool_decide_ext (bit ∈ b :: l) (bit ∈ l)); [done|]. rewrite elem_of_cons. tauto.
Qed.

Lemma count_share_cell table share bit k v :
  is_u64 share -> share <> 0 -> (bit < 64)%nat -> (k < 64)%nat -> table !! cell bit k = Some v ->
  count_share table share !! cell bit k = Some (if counted bit k share then u64 (v + 1) else v).
Proof.
  intros Hs Hnz Hb Hk Hv. unfold count_share. rewrite bit_count_popcount by done.
  pose proof (nonzero_popcount share Hs Hnz) as Hp. set (j := Z.to_nat (popcount 64 share - 1)).
  rewrite (foldl_alter_cell _ _ _ j _ _ _ _ v); [|intros b; unfold cell, j, MAX_SNAPSHOTS; lia|lia|done|apply NoDup_seq|done].
  rewrite bool_decide_true by (apply elem_of_seq; unfold MAX_SNAPSHOTS; lia). cbn [andb]. unfold counted.
  rewrite land_bit_zero, negb_involutive by lia. f_equal.
  assert (E : (k =? j)%nat = (popcount 64 share =? Z.of_nat k + 1)).
  { apply eq_true_iff_eq. rewrite Nat.eqb_eq, Z.eqb_eq. unfold j. lia. }
  by rewrite E.
Qed.

(** How many of the exceptions are counted in a cell *)
Definition count_cell (bit k : nat) (shares : list Z) : Z := Z.of_nat (length (List.filter (counted bit k) shares)).

Lemma calc_sharing_shares_spec shares table w :
  Forall (fun s => is_u64 s /\ s <> 0) shares -> (forall bit k, (bit < 64)%nat -> (k < 64)%nat ->
    exists v, table !! cell bit k = Some v /\ is_u64 v) ->
  wp (calc_sharing_shares shares table) (fun table' w' => w' = w /\ forall bit k v, (bit < 64)%nat -> (k < 64)%nat ->
    table !! cell bit k = Some v -> table' !! cell bit k = Some (u64 (v + count_cell bit k shares))) w.
Proof.
  intros HF. revert table. induction HF as [|s l [Hs Hnz] HF IH]; intros table Ht; cbn [calc_sharing_shares].
  - wp_steps. split; [done|]. intros bit k v Hb Hk Hv. destruct (Ht bit k Hb Hk) as (v' & Hv' & Hu).
    rewrite Hv in Hv'. injection Hv' as <-. unfold count_cell. cbn. by rewrite Z.add_0_r, u64_id.
  - wp_steps; [by apply negb_true_iff, Z.eqb_neq|]. eapply wp_mono.
    { apply IH. intros bit k Hb Hk. destruct (Ht bit k Hb Hk) as (v & Hv & Hu).
      rewrite (count_share_cell _ _ _ _ v) by done. eexists. split; [done|]. destruct (counted bit k s); [apply u64_range|done]. }
    cbv beta. intros t' w' [-> Ht']. split; [done|]. intros bit k v Hb Hk Hv.
    rewrite (Ht' bit k _ Hb Hk (count_share_cell table s bit k v Hs Hnz Hb Hk Hv)). f_equal.
    unfold count_cell. cbn [List.filter]. destruct (counted bit k s); [|done]. cbn [length].
    unfold u64. rewrite Z.add_mod_idemp_l by lia. f_equal. lia.
Qed.

(** The status visitor on a leaf adds, to the cell of snapshot [bit] and
    [k], the number of exceptions of the leaf that the snapshot shares with
    exactly [k] other snapshots; it does not change the store, and its assertion
    holds on every leaf of a well-formed tree. *)
Lemma calc_sharing_correct b L table w :
  leaf_rep b L -> leaf_wf L -> length table = 4096%nat -> Forall is_u64 table ->
  wp (calc_sharing b table) (fun table' w' => w' = w /\ forall bit k v, (bit < 64)%nat -> (k < 64)%nat ->
    table !! cell bit k = Some v ->
    table' !! cell bit k = Some (u64 (v + Z.of_nat (length (List.filter
      (fun e => Z.testbit (share e) (Z.of_nat bit) && (popcount 64 (share e) =? Z.of_nat k + 1)) (all_excs L)))))) w.
Proof.
  intros Hr [_ Hw] Hlen Hu. unfold calc_sharing. rewrite (leaf_entries_shares b L Hr). eapply wp_mono.
  { apply calc_sharing_shares_spec.
    - apply Forall_fmap, Forall_forall. intros e He. unfold all_excs in He.
      apply list_elem_of_In, in_flat_map in He as (d & Hd & He). destruct Hr as (_ & Hok & _).
      rewrite List.Forall_forall in Hok, Hw. destruct (Hok d Hd) as [_ Hf]. destruct (Hw d Hd) as [_ [Hnz _]].
      rewrite List.Forall_forall in Hf, Hnz. split; [by apply Hf|by apply Hnz].
    - intros bit k Hb Hk. destruct (lookup_lt_is_Some_2 table (cell bit k)) as [v Hv].
      { unfold cell. lia. }
      exists v. split; [done|]. by eapply Forall_lookup_1. }
  cbv beta. intros t' w' [-> Ht]. split; [done|]. intros bit k v Hb Hk Hv. rewrite (Ht bit k v Hb Hk Hv).
  do 3 f_equal. unfold count_cell. f_equal. clear. induction (all_excs L) as [|e l IH]; [done|].
  cbn [fmap list_fmap List.filter]. unfold counted at 1. destruct (_ && _); cbn [length]; by rewrite IH.
Qed.
