(* ===== verification/SnapshotSpec.v ===== *)
(** * The snapshot list

    Which snapshot is chosen as a victim, the mask of active snapshots, and the
    creation of a snapshot: its bit is one that no other snapshot has. *)

From S2P Require Import Prelude Bytes State Buffer Bitmap Leaf LeafSpec Alloc Journal Btree Snapshot.

(** ** The choice of a victim *)

Section select.
Context (better : snapshot -> snapshot -> bool).
(** [better] is a strict weak order. *)
Context (better_trans : forall x y z, better x y = true -> better y z = true -> better x z = true).
Context (better_neg : forall x y z, better x y = false -> better y z = false -> better x z = false).
Context (better_irr : forall x, better x x = false).

(** The element at place [best.1] is as good as any so far and better than those
    before it. *)
Definition chosen (l : list snapshot) (best : nat * snapshot) : Prop :=
  l !! best.1 = Some best.2 /\
  (forall j x, l !! j = Some x -> better x best.2 = false) /\
  (forall j x, (j < best.1)%nat -> l !! j = Some x -> better best.2 x = true).

Lemma chosen_snoc l best snap :
  chosen l best -> chosen (l ++ [snap]) (if better snap best.2 then (length l, snap) else best).
Proof.
  destruct best as [i b]. cbn. intros (Hi & Hmin & Hfirst). cbn in *.
  pose proof (lookup_lt_Some _ _ _ Hi) as Hlt. destruct (better snap b) eqn:E; split_and!; cbn.
  - by rewrite lookup_app_r, Nat.sub_diag by lia.
  - intros j x Hj. apply lookup_snoc_Some in Hj as [[_ Hj]|[-> <-]]; [|apply better_irr].
    destruct (better x snap) eqn:Ex; [|done]. pose proof (better_trans _ _ _ Ex E) as T. by rewrite (Hmin j x Hj) in T.
  - intros j x Hj Hx. rewrite lookup_app_l in Hx by lia. destruct (better snap x) eqn:Ex; [done|].
    by rewrite (better_neg _ _ _ Ex (Hmin j x Hx)) in E.
  - by rewrite lookup_app_l.
  - intros j x Hj. apply lookup_snoc_Some in Hj as [[_ Hj]|[-> <-]]; [by eapply Hmin|done].
  - intros j x Hj Hx. rewrite lookup_app_l in Hx by lia. by eapply Hfirst.
Qed.

Lemma select_chosen rest done best :
  chosen done best -> chosen (done ++ rest) (select better rest (length done) best).
Proof.
  revert done best. induction rest as [|snap rest IH]; intros done best H; cbn [select].
  - by rewrite app_nil_r.
  - rewrite (cons_middle snap done rest), app_assoc.
    replace (S (length done)) with (length (done ++ [snap])) by (rewrite length_app; cbn; lia).
    by apply IH, chosen_snoc.
Qed.

Lemma select_from_chosen l w :
  l <> [] -> wp (select_from better l) (fun best w' => w' = w /\ chosen l best) w.
Proof.
  destruct l as [|first rest]; [done|]. intros _. cbn. split; [done|].
  apply (select_chosen rest [first]). split_and!; cbn; [done| |intros; lia].
  intros [|j] x; cbn; [|done]. intros [= <-]. apply better_irr.
Qed.
End select.

(** A snapshot in use *)
Definition in_use (s : superblock) (sn : snapshot) : bool := negb (usecount s sn =? 0).

(** The preference of [find_unused]: unused ones first, then by priority. *)
Definition use_before (s : superblock) (x y : snapshot) : Prop :=
  (in_use s x = false /\ in_use s y = true) \/ (in_use s x = in_use s y /\ sn_prio x < sn_prio y).

(** The preference of [find_victim]: a squashed snapshot is never preferred. *)
Definition victim_before (s : superblock) (x y : snapshot) : Prop :=
  is_squashed x = false /\ (is_squashed y = true \/ use_before s x y).

Lemma unused_better_iff s x y : unused_better s x y = true <-> use_before s x y.
Proof.
  unfold unused_better, use_before. fold (in_use s x) (in_use s y).
  destruct (in_use s x), (in_use s y); cbn; try destruct (Z.leb_spec (sn_prio y) (sn_prio x));
    intuition (try lia; try discriminate).
Qed.

Lemma victim_better_iff s x y : victim_better s x y = true <-> victim_before s x y.
Proof.
  unfold victim_better, victim_before, use_before. fold (in_use s x) (in_use s y).
  destruct (is_squashed x), (is_squashed y), (in_use s x), (in_use s y); cbn;
    try destruct (Z.leb_spec (sn_prio y) (sn_prio x)); intuition (try lia; try discriminate).
Qed.

Lemma not_better (better : snapshot -> snapshot -> bool) (R : snapshot -> snapshot -> Prop) x y :
  better x y = true <-> R x y -> better x y = false <-> ~ R x y.
Proof. intros <-. by rewrite not_true_iff_false. Qed.

Ltac solve_order iff :=
  intros; repeat match goal with
  | H : ?b _ _ _ = true |- _ => apply iff in H
  | H : ?b ?s ?x ?y = false |- _ => apply (not_better _ _ _ _ (iff s x y)) in H
  | |- _ = true => apply iff
  | |- ?b ?s ?x ?y = false => apply (not_better _ _ _ _ (iff s x y))
  end.

Lemma use_before_weak s x y z : ~ use_before s x y -> ~ use_before s y z -> ~ use_before s x z.
Proof. unfold use_before. destruct (in_use s x), (in_use s y), (in_use s z); intuition (try lia; try discriminate). Qed.
Lemma use_before_trans s x y z : use_before s x y -> use_before s y z -> use_before s x z.
Proof. unfold use_before. destruct (in_use s x), (in_use s y), (in_use s z); intuition (try lia; try discriminate). Qed.
Lemma use_before_irr s x : ~ use_before s x x.
Proof. unfold use_before. intuition (try lia; try congruence). Qed.

Lemma victim_before_weak s x y z : ~ victim_before s x y -> ~ victim_before s y z -> ~ victim_before s x z.
Proof.
  unfold victim_before. pose proof (use_before_weak s x y z).
  destruct (is_squashed x), (is_squashed y), (is_squashed z); intuition discriminate.
Qed.
Lemma victim_before_trans s x y z : victim_before s x y -> victim_before s y z -> victim_before s x z.
Proof.
  unfold victim_before. pose proof (use_before_trans s x y z).
  destruct (is_squashed x), (is_squashed y), (is_squashed z); intuition discriminate.
Qed.
Lemma victim_before_irr s x : ~ victim_before s x x.
Proof. unfold victim_before. pose proof (use_before_irr s x). intuition congruence. Qed.

(** The victim of an automatic deletion is the first snapshot of the list to
    which no other is to be preferred: it is squashed only when all snapshots
    are, it is in use only when every snapshot that is not squashed is, and among
    those of its kind it has the lowest priority; every snapshot before it in the
    list is a worse choice. *)
Theorem find_victim_correct w :
  snaplist (image (sb w)) <> [] ->
  wp find_victim (fun '(i, v) w' => w' = w /\ snaplist (image (sb w)) !! i = Some v /\
    (forall j x, snaplist (image (sb w)) !! j = Some x ->
       (is_squashed v = true -> is_squashed x = true) /\
       (is_squashed v = false -> is_squashed x = false ->
          (in_use (sb w) v = true -> in_use (sb w) x = true) /\
          (in_use (sb w) v = in_use (sb w) x -> sn_prio v <= sn_prio x))) /\
    (forall j x, (j < i)%nat -> snaplist (image (sb w)) !! j = Some x -> victim_before (sb w) v x)) w.
Proof.
  intros Hne. unfold find_victim, getsb. wp_steps. eapply wp_mono.
  { apply (select_from_chosen (victim_better (sb w))); [..|done].
    - solve_order victim_better_iff. by eapply victim_before_trans.
    - solve_order victim_better_iff. by eapply victim_before_weak.
    - solve_order victim_better_iff. apply victim_before_irr. }
  cbv beta. intros [i v] w' [-> (Hi & Hmin & Hfirst)]. cbn in *. split_and!; [done|done| |].
  - intros j x Hj. specialize (Hmin j x Hj). solve_order victim_better_iff.
    unfold victim_before, use_before in Hmin.
    destruct (is_squashed v), (is_squashed x), (in_use (sb w) v), (in_use (sb w) x); intuition (try lia; try discriminate).
  - intros j x Hj Hx. apply victim_better_iff. by eapply Hfirst.
Qed.

(** The snapshot that makes room for a new one is the first one to which no
    other is to be preferred: it is in use only when all are, and among those in
    use or not as it is it has the lowest priority. *)
Lemma find_unused_correct w :
  snaplist (image (sb w)) <> [] ->
  wp find_unused (fun '(i, v) w' => w' = w /\ snaplist (image (sb w)) !! i = Some v /\
    (forall j x, snaplist (image (sb w)) !! j = Some x ->
       (in_use (sb w) v = true -> in_use (sb w) x = true) /\
       (in_use (sb w) v = in_use (sb w) x -> sn_prio v <= sn_prio x)) /\
    (forall j x, (j < i)%nat -> snaplist (image (sb w)) !! j = Some x -> use_before (sb w) v x)) w.
Proof.
  intros Hne. unfold find_unused, getsb. wp_steps. eapply wp_mono.
  { apply (select_from_chosen (unused_better (sb w))); [..|done].
    - solve_order unused_better_iff. by eapply use_before_trans.
    - solve_order unused_better_iff. by eapply use_before_weak.
    - solve_order unused_better_iff. apply use_before_irr. }
  cbv beta. intros [i v] w' [-> (Hi & Hmin & Hfirst)]. cbn in *. split_and!; [done|done| |].
  - intros j x Hj. specialize (Hmin j x Hj). solve_order unused_better_iff.
    unfold use_before in Hmin.
    destruct (in_use (sb w) v), (in_use (sb w) x); intuition (try lia; try discriminate).
  - intros j x Hj Hx. apply unused_better_iff. by eapply Hfirst.
Qed.

(** ** The mask of active snapshots *)

(** The bits of the snapshots that are not squashed *)
Definition active_bits (l : list snapshot) : list Z := sn_bit <$> List.filter (fun sn => negb (is_squashed sn)) l.

Definition mask_of (l : list snapshot) : Z :=
  foldl (fun mask sn => if is_squashed sn then mask else Z.lor mask (bit64 (sn_bit sn))) 0 l.

Lemma active_bits_app l1 l2 : active_bits (l1 ++ l2) = active_bits l1 ++ active_bits l2.
Proof. unfold active_bits. by rewrite List.filter_app, fmap_app. Qed.

Lemma mask_of_snoc l sn :
  mask_of (l ++ [sn]) = if is_squashed sn then mask_of l else Z.lor (mask_of l) (bit64 (sn_bit sn)).
Proof. unfold mask_of. by rewrite foldl_app. Qed.

Lemma mask_of_testbit l i :
  Forall (fun b => 0 <= b < 64) (active_bits l) -> 0 <= i -> Z.testbit (mask_of l) i = true <-> i ∈ active_bits l.
Proof.
  induction l as [|sn l IH] using rev_ind; intros Hf Hi.
  - rewrite Z.bits_0. split; [done|]. by intros ?%elem_of_nil.
  - rewrite mask_of_snoc. rewrite active_bits_app in Hf |- *. apply Forall_app in Hf as [Hf Hs].
    rewrite elem_of_app, <- IH by done. unfold active_bits in *. cbn [List.filter] in *.
    destruct (is_squashed sn); cbn [negb fmap list_fmap] in *.
    + rewrite elem_of_nil. tauto.
    + apply Forall_cons in Hs as [Hs _]. rewrite Z.lor_spec, bit64_testbit, orb_true_iff, Z.eqb_eq by lia.
      by rewrite list_elem_of_singleton.
Qed.

Lemma mask_of_u64 l : Forall (fun b => 0 <= b < 64) (active_bits l) -> is_u64 (mask_of l).
Proof.
  induction l as [|sn l IH] using rev_ind; intros Hf; [split; cbn; lia|].
  rewrite mask_of_snoc. rewrite active_bits_app in Hf. apply Forall_app in Hf as [Hf _].
  destruct (is_squashed sn); [auto|]. apply u64_lor_range; [auto|]. apply u64_range.
Qed.

(** The part of the superblock that describes the snapshots is consistent: at
    most [MAX_SNAPSHOTS] of them in an array of that size, distinct tags,
    distinct bits below 64 for those that are not squashed, and [snapmask] the
    mask of those bits. *)
Record snaps_ok (s : superblock) : Prop := {
  so_size : length (snaplist (image s) ++ snaptail (image s)) = Z.to_nat MAX_SNAPSHOTS;
  so_tags : NoDup (sn_tag <$> snaplist (image s));
  so_bits : NoDup (active_bits (snaplist (image s)));
  so_range : Forall (fun b => 0 <= b < 64) (active_bits (snaplist (image s)));
  so_mask : snapmask s = calc_snapmask s }.

(** Fewer than 64 numbers leave one of the first 64 out. *)
Lemma free_bit (l : list Z) : (length l < 64)%nat -> exists i, 0 <= i < 64 /\ i ∉ l.
Proof.
  intros Hl. destruct (decide (Forall (fun i => Z.of_nat i ∈ l) (seq 0 64))) as [Hf|Hf].
  - exfalso. assert (H : (length (Z.of_nat <$> seq 0 64) <= length l)%nat); [|rewrite length_fmap, length_seq in H; lia].
    apply NoDup_incl_length; [apply NoDup_ListNoDup; apply NoDup_fmap; [apply _|apply NoDup_seq]|].
    intros x Hx. apply list_elem_of_In. apply list_elem_of_In, list_elem_of_fmap in Hx as (i & -> & Hi).
    rewrite Forall_forall in Hf. by apply Hf.
  - apply not_Forall_Exists in Hf; [|apply _]. apply Exists_exists in Hf as (i & Hi & Hn).
    apply elem_of_seq in Hi. exists (Z.of_nat i). split; [lia|done].
Qed.

Lemma length_active l : (length (active_bits l) <= length l)%nat.
Proof. unfold active_bits. rewrite length_fmap. apply List.filter_length_le. Qed.

(** The search for a bit finds one that no active snapshot has. *)
Lemma find_free_bit s :
  snaps_ok s -> (length (snaplist (image s)) < 64)%nat ->
  exists i, find_index (fun i => Z.land (snapmask s) (bit64 (Z.of_nat i)) =? 0) 64 = Some i /\
    0 <= Z.of_nat i < 64 /\ Z.of_nat i ∉ active_bits (snaplist (image s)).
Proof.
  intros Hs Hl. pose proof (so_range _ Hs) as Hr.
  assert (Hiff : forall i, (i < 64)%nat -> (Z.land (snapmask s) (bit64 (Z.of_nat i)) =? 0) = true <->
    Z.of_nat i ∉ active_bits (snaplist (image s))).
  { intros i Hi. rewrite land_bit_zero, negb_true_iff by lia. rewrite <- not_true_iff_false.
    rewrite (so_mask _ Hs). change (calc_snapmask s) with (mask_of (snaplist (image s))).
    by rewrite mask_of_testbit by (done || lia). }
  destruct (find_index _ 64) as [i|] eqn:E.
  - apply find_index_Some in E as (Hi & Hp & _). exists i. split; [done|]. split; [lia|]. by apply Hiff.
  - exfalso. rewrite find_index_None in E. destruct (free_bit (active_bits (snaplist (image s)))) as (i & Hi & Hn).
    { pose proof (length_active (snaplist (image s))). lia. }
    assert (Ei : Z.of_nat (Z.to_nat i) = i) by lia. specialize (E (Z.to_nat i) ltac:(lia)).
    apply not_true_iff_false in E. apply E, Hiff; [lia|]. by rewrite Ei.
Qed.

Lemma snaps_ok_create s sn f :
  snaps_ok s -> (length (snaplist (image s)) < 64)%nat -> is_squashed sn = false ->
  sn_tag sn ∉ sn_tag <$> snaplist (image s) -> 0 <= sn_bit sn < 64 -> sn_bit sn ∉ active_bits (snaplist (image s)) ->
  snaps_ok (s <| image; snaplist ::= fun l => l ++ [sn] |> <| image; snaptail ::= drop 1 |>
              <| snapmask ::= fun m => Z.lor m (bit64 (sn_bit sn)) |> <| runflags ::= f |>).
Proof.
  intros [Hl Ht Hb Hr Hm] Hlt Hsq Htag Hbit Hfree.
  assert (Ha : active_bits [sn] = [sn_bit sn]) by (unfold active_bits; cbn; by rewrite Hsq).
  rewrite length_app in Hl. unfold MAX_SNAPSHOTS in Hl. constructor; cbn -[active_bits mask_of drop].
  - rewrite !length_app, length_drop. cbn [length]. unfold MAX_SNAPSHOTS. lia.
  - rewrite fmap_app. apply NoDup_app. split; [done|]. split; [|apply NoDup_singleton].
    intros x Hx ->%list_elem_of_singleton. done.
  - rewrite active_bits_app, Ha. apply NoDup_app. split; [done|]. split; [|apply NoDup_singleton].
    intros x Hx ->%list_elem_of_singleton. done.
  - rewrite active_bits_app, Ha. apply Forall_app. split; [done|]. by apply Forall_singleton.
  - rewrite Hm. change (Z.lor (mask_of (snaplist (image s))) (bit64 (sn_bit sn)) =
      mask_of (snaplist (image s) ++ [sn])). by rewrite mask_of_snoc, Hsq.
Qed.

Lemma find_snap_None s tag : find_snap s tag = None <-> tag ∉ sn_tag <$> snaplist (image s).
Proof.
  unfold find_snap, find_snap_in. rewrite fmap_None, list_find_None, Forall_forall.
  rewrite list_elem_of_fmap. split; [intros H (sn & -> & Hin); by apply (H sn)|].
  intros H sn Hin Htag. apply H. by exists sn.
Qed.

(** C32: [create_snapshot] in a server with room: a tag that is in use is refused
    with -EEXIST and nothing changes; for a new tag a bit is always found, one
    that no active snapshot has, the new snapshot is appended to the list with
    the time, the tag, no use count, normal priority and the size of the origin,
    its bit joins the mask of active snapshots, the superblock is marked dirty
    and the list stays consistent. *)
Theorem create_snapshot_correct tag w :
  snaps_ok (sb w) -> snapshots (sb w) < MAX_SNAPSHOTS ->
  wp (create_snapshot tag) (fun r w' =>
    (r = - EEXIST /\ tag ∈ (sn_tag <$> snaplist (image (sb w))) /\ w' = w) \/
    (0 <= r < 64 /\ (tag ∉ sn_tag <$> snaplist (image (sb w))) /\
     (r ∉ active_bits (snaplist (image (sb w)))) /\ Z.testbit (snapmask (sb w)) r = false /\
     snaplist (image (sb w')) =
       snaplist (image (sb w)) ++ [mkSnapshot (now w) tag 0 r 0 (orgsectors (image (sb w)))] /\
     snapmask (sb w') = Z.lor (snapmask (sb w)) (2 ^ r) /\
     Z.testbit (runflags (sb w')) 0 = true /\ snaps_ok (sb w'))) w.
Proof.
  intros Hs Hl. unfold create_snapshot, getsb. wp_steps. rewrite (proj2 (Z.leb_gt _ _) Hl).
  wp_steps. rewrite (proj2 (Z.leb_gt _ _) Hl). destruct (find_snap (sb w) tag) as [i|] eqn:Ef.
  - wp_steps. left. split; [done|]. split; [|done]. destruct (decide (tag ∈ sn_tag <$> snaplist (image (sb w)))); [done|].
    exfalso. apply find_snap_None in n. by rewrite n in Ef.
  - apply find_snap_None in Ef. unfold snapshots, MAX_SNAPSHOTS in Hl.
    destruct (find_free_bit (sb w) Hs ltac:(lia)) as (i & Ei & Hi & Hfree).
    change (Z.to_nat MAX_SNAPSHOTS) with 64%nat. rewrite Ei. unfold set_sb_dirty, modsb. wp_steps. right.
    split; [lia|]. split; [done|]. split; [done|]. split_and!.
    + apply not_true_iff_false. rewrite (so_mask _ Hs). change (calc_snapmask (sb w)) with (mask_of (snaplist (image (sb w)))).
      by rewrite mask_of_testbit by (apply Hs || lia).
    + done.
    + cbn -[bit64]. by rewrite bit64_eq.
    + change (Z.testbit (Z.lor RUN_SB_DIRTY (runflags (sb w))) 0 = true). by rewrite Z.lor_spec.
    + apply (snaps_ok_create (sb w) (mkSnapshot (now w) tag 0 (Z.of_nat i) 0 (orgsectors (image (sb w))))
        (Z.lor RUN_SB_DIRTY)); try done; [lia|]. unfold is_squashed, SNAPSHOT_SQUASHED, MAX_SNAPSHOTS. cbn. lia.
Qed.
