(* ===== verification/CommitSpec.v ===== *)
(** * A commit writes ahead

    The commit block says which blocks the transaction has; [commit_transaction]
    writes it after the copies and before the blocks themselves, so that a crash
    leaves either the old blocks or a journal that has all the new ones.  What
    the replay then makes of that journal is the subject of [ReplaySpec]. *)

From S2P Require Import Prelude Bytes State Buffer Bitmap Journal CacheInv CacheRoom CacheMem JournalSpec.

(** ** The fields of the commit block *)

Definition with_sectors (l : list Z) (b : block) : block :=
  foldl (fun b e => st64 (52 + 8 * e.1) e.2 b) b (imap pair l).

Lemma with_sectors_snoc l x b : with_sectors (l ++ [x]) b = st64 (52 + 8 * length l) x (with_sectors l b).
Proof. unfold with_sectors. rewrite imap_app, foldl_app. cbn [imap foldl fst snd compose]. by rewrite Nat.add_0_r. Qed.

Lemma length_with_sectors l b : length (with_sectors l b) = length b.
Proof. induction l as [|x l IH] using rev_ind; [done|]. rewrite with_sectors_snoc. by len. Qed.

Lemma slice_with_sectors l b o n : (o + n <= 52)%nat -> slice o n (with_sectors l b) = slice o n b.
Proof.
  intros Ho. induction l as [|x l IH] using rev_ind; [done|]. rewrite with_sectors_snoc. unfold st.
  rewrite slice_splice_before by lia. exact IH.
Qed.

Lemma sector_with_sectors l b i x :
  (52 + 8 * length l <= length b)%nat -> l !! i = Some x -> ld64 (52 + 8 * i) (with_sectors l b) = u64 x.
Proof.
  intros Hl Hi. induction l as [|y l IH] using rev_ind; [done|]. rewrite with_sectors_snoc. rewrite length_app in Hl. cbn in Hl.
  destruct (decide (i < length l)%nat) as [Hlt|Hge].
  - rewrite lookup_app_l in Hi by done. rewrite ld_st_other by lia. apply IH; [lia|done].
  - pose proof (lookup_lt_Some _ _ _ Hi) as Hi'. rewrite length_app in Hi'. cbn in Hi'. assert (i = length l) as -> by lia.
    rewrite list_lookup_middle in Hi by done. injection Hi as ->. rewrite ld_st_same; [done|]. rewrite length_with_sectors. lia.
Qed.

(** Reading past stores to other fields *)
Lemma slice_st m off v b o n : (o + n <= off \/ off + m <= o)%nat -> slice o n (st m off v b) = slice o n b.
Proof.
  intros [|]; unfold st; [by apply slice_splice_before|apply slice_splice_after; by len].
Qed.

Ltac past_fields :=
  repeat match goal with
  | |- context [if ?c then _ else _] => destruct c
  end; unfold set_commit_barrier, set_commit_alloc; repeat rewrite slice_st by lia.

Lemma slice_commit_body s barrier b o n :
  (o + n <= 8 \/ 12 <= o /\ o + n <= 20 \/ 48 <= o)%nat -> slice o n (commit_body s barrier b) = slice o n b.
Proof. intros Ho. unfold commit_body. past_fields; done. Qed.

Lemma length_commit_body s barrier b : length (commit_body s barrier b) = length b.
Proof.
  unfold commit_body. repeat match goal with |- context [if ?c then _ else _] => destruct c end;
    unfold set_commit_barrier, set_commit_alloc; by autorewrite with len.
Qed.

Section fields.
Context (size : nat) (seqno : Z) (l : list Z) (s : superblock) (barrier : bool).
Context (Hsize : (52 + 8 * length l <= size)%nat).

Definition block_c : block := commit_body s barrier (commit_header size seqno l).

Lemma length_commit : length block_c = size.
Proof.
  unfold block_c, commit_header. rewrite length_commit_body. cbv zeta.
  change (foldl _ ?b (imap pair l)) with (with_sectors l b). autorewrite with len. rewrite length_with_sectors. by autorewrite with len.
Qed.

Lemma commit_is_commit : is_commit_block block_c = true.
Proof.
  apply bool_decide_true. unfold block_c, commit_header. cbv zeta. rewrite slice_commit_body by lia. rewrite slice_st by lia.
  change (foldl _ ?b (imap pair l)) with (with_sectors l b). rewrite slice_with_sectors, slice_st by lia.
  apply (slice_splice_same 0 JMAGIC). cbn [length JMAGIC]. rewrite length_replicate. lia.
Qed.

Lemma commit_has_sequence : commit_sequence block_c = u32 seqno.
Proof.
  unfold commit_sequence, ld, block_c, commit_header. cbv zeta. rewrite slice_commit_body by lia. rewrite slice_st by lia.
  change (foldl _ ?b (imap pair l)) with (with_sectors l b). rewrite slice_with_sectors by lia.
  apply (ld_st_same 4 12). len.
Qed.

Lemma commit_has_entries : commit_entries block_c = u32 (Z.of_nat (length l)).
Proof.
  unfold commit_entries, ld, block_c, commit_header. cbv zeta. rewrite slice_commit_body by lia.
  change (foldl _ ?b (imap pair l)) with (with_sectors l b). apply (ld_st_same 4 16). rewrite length_with_sectors. len.
Qed.

Lemma commit_has_sector i x : l !! i = Some x -> commit_sector block_c i = u64 x.
Proof.
  intros Hi. unfold commit_sector, ld, block_c, commit_header. cbv zeta. rewrite slice_commit_body by lia. rewrite slice_st by lia.
  change (foldl _ ?b (imap pair l)) with (with_sectors l b). apply sector_with_sectors; [len|done].
Qed.
End fields.

(** ** The transaction *)

(** What a commit needs: the transaction fits into the journal and into one
    commit block, its blocks are on the device, and nothing is deferred. *)
Record commit_ready (w : world) : Prop := {
  cr_mem : mem_ok w;
  cr_journal : journal_ok w;
  cr_room : ~ no_room w 1;
  cr_defer : deferring (sb w) = false /\ ar_count (defer (sb w)) = 0 /\ deferred_alloc (sb w) = [] /\ journaled_buffers w = [];
  cr_check : Z.land (runflags (sb w)) RUN_SELFCHECK = 0;
  cr_device : forall x, x ∈ dirty_buffers w -> is_Some (disk w !! x);
  cr_fits : Z.of_nat (length (dirty_buffers w)) + 1 <= journal_size (image (sb w));
  cr_max : Z.of_nat (length (dirty_buffers w)) <= max_commit_blocks (sb w);
  cr_block : 52 + 8 * max_commit_blocks (sb w) <= allocsize (metadata (sb w)) }.

(** Its writes in order: the copies in the journal, the commit block, and the
    blocks themselves. *)
Definition commit_log (w : world) (barrier : bool) : list (Z * block) :=
  let l := dirty_buffers w in
  journal_copies w l ++
  [(journal_sector (sb w) (jblock (sb w) (Z.of_nat (length l))), commit_of w barrier)] ++
  home_writes w l.

Record committed (w : world) (barrier : bool) (w' : world) : Prop := {
  cm_mem : mem_ok w';
  cm_journal : journal_ok w';
  cm_disk : disk w' = apply_writes (commit_log w barrier) (disk w);
  cm_writes : writes w' = reverse ((fun p => WrBlock p.1 p.2) <$> commit_log w barrier) ++ writes w;
  cm_dirty : dirty_buffers w' = [];
  cm_journaled : journaled_buffers w' = [];
  cm_sb : sb w' = numbered (skip (Z.of_nat (length (dirty_buffers w)) + 1) (sb w));
  cm_view : forall x, ~ in_journal (sb w) x -> view w' x = view w x;
  cm_pins : forall x, pins w' x = pins w x;
  cm_usable : forall x, usable w x -> usable w' x;
  cm_rest : disk_super w' = disk_super w /\ org_data w' = org_data w /\ snap_data w' = snap_data w /\
    now w' = now w /\ maxb w' = maxb w }.

Lemma reverse_log l1 l2 : reverse ((fun p : Z * block => WrBlock p.1 p.2) <$> l1 ++ l2) =
  reverse ((fun p => WrBlock p.1 p.2) <$> l2) ++ reverse ((fun p => WrBlock p.1 p.2) <$> l1).
Proof. by rewrite fmap_app, reverse_app. Qed.

Lemma length_commit_of w barrier : length (commit_of w barrier) = bsize (sb w).
Proof. apply length_commit. Qed.

Lemma commit_of_block w barrier :
  commit_of w barrier = block_c (bsize (sb w)) (sequence (image (sb w))) (dirty_buffers w) (sb w) barrier.
Proof. done. Qed.

(** The state after the copies *)
Definition copied (w : world) : world :=
  logged (journal_copies w (dirty_buffers w)) (w <| sb ::= skip (Z.of_nat (length (dirty_buffers w))) |>).

Lemma copies_loggable w l : mem_ok w -> journal_ok w -> (forall x, x ∈ l -> x ∈ dirty_buffers w) ->
  Forall (loggable w) (journal_copies w l).
Proof.
  intros Hm Hj Hl. pose proof (jk_next _ Hj). apply Forall_forall. intros p Hp.
  apply elem_of_lookup_imap in Hp as (i & x & -> & Hx%list_elem_of_lookup_2%Hl).
  destruct (dirty_block w x (mem_cache _ Hm) Hx) as (b & Hb & _ & Eb & _). split.
  - cbn. rewrite <- Eb. by eapply (sized_bufs _ _ (mem_sized _ Hm)).
  - cbn. intros c Hc Hst. assert (bstate c = BUFFER_INVAL); [|congruence].
    eapply (jk_idle w Hj); [|exact Hc]. apply jblock_range. lia.
Qed.

Lemma copied_ok w : mem_ok w -> journal_ok w -> mem_ok (copied w) /\ journal_ok (copied w).
Proof.
  intros Hm Hj. pose proof (jk_next _ Hj) as Hn. split.
  - apply (mem_ok_logged _ (w <| sb ::= skip _ |>)); [by apply mem_ok_sb|]. exact (copies_loggable w _ Hm Hj (fun x H => H)).
  - destruct Hj. constructor; try done; cbn.
    + apply (jblock_range (sb w)). lia.
    + intros i Hi. apply apply_writes_some. by apply jk_device.
Qed.

Lemma copied_view w x : journal_ok w -> ~ in_journal (sb w) x -> view (copied w) x = view w x.
Proof.
  intros Hj Hx. pose proof (jk_next _ Hj). unfold copied. rewrite view_logged; [done|]. intros Hin.
  destruct Hx. eapply journal_copies_sectors; [|exact Hin]. lia.
Qed.

Lemma copied_room w k : mem_ok w -> journal_ok w -> no_room (copied w) k -> no_room w k.
Proof.
  intros Hm Hj H. rewrite <- (Z.add_0_r k). apply (no_room_busies w (copied w) []); [apply Hm|by apply copied_ok|done| |done].
  intros x Hx. by left.
Qed.

Lemma commit_of_copied w barrier : commit_of (copied w) barrier = commit_of w barrier.
Proof. done. Qed.

(** The journal stays as it is when one of its blocks is written. *)
Lemma journal_ok_journaled w w' i d :
  journal_ok w -> 0 <= i < journal_size (image (sb w)) -> journaled w w' (journal_sector (sb w) i) d ->
  sb w' = numbered (skip 1 (sb w)) -> journal_ok w'.
Proof.
  intros [Hn Hb Hs Hba Hd Hidle] Hi Hjd E. pose proof (jd_disk _ _ _ _ Hjd) as Ed. constructor; rewrite E; try done.
  - apply (jblock_range (sb w)). lia.
  - intros j Hj. change (is_Some (disk w' !! journal_sector (sb w) j)). rewrite Ed.
    destruct (decide (journal_sector (sb w) i = journal_sector (sb w) j)) as [->|Hne]; [by rewrite lookup_insert_eq|].
    rewrite lookup_insert_ne by done. by apply Hd.
  - intros j b Hj. change (bufs w' !! journal_sector (sb w) j = Some b -> bstate b = BUFFER_INVAL). intros Hb'.
    destruct (decide (journal_sector (sb w) j = journal_sector (sb w) i)) as [E'|Hne].
    + rewrite E' in Hb'. by apply (jd_this _ _ _ _ Hjd).
    + apply (Hidle j); [done|]. by apply (jd_others _ _ _ _ Hjd).
Qed.

Lemma journal_ok_homed w l w' : journal_ok w -> homed w l w' -> (forall x, x ∈ l -> ~ in_journal (sb w) x) -> journal_ok w'.
Proof.
  intros [Hn Hb Hs Hba Hd Hidle] Hh Hl. constructor; rewrite (hm_sb _ _ _ Hh); try done.
  - intros i Hi. destruct (hm_log _ _ _ Hh) as (w0 & -> & E & _). apply apply_writes_some. rewrite E. by apply Hd.
  - intros i b Hi. rewrite (hm_others _ _ _ Hh); [by apply Hidle|]. intros Hin. apply (Hl _ Hin). by exists i.
Qed.

(** The three steps together *)
Lemma committed_intro w barrier w2 w3 :
  commit_ready w -> sb w2 = numbered (skip 1 (sb (copied w))) ->
  journaled (copied w) w2 (journal_sector (sb (copied w)) (jblock (sb (copied w)) 0)) (commit_of (copied w) barrier) ->
  homed w2 (dirty_buffers w2) w3 -> dirty_buffers w3 = [] -> committed w barrier w3.
Proof.
  intros Hr Es Hjd Hh Hd3. pose proof (cr_mem _ Hr) as Hm. pose proof (cr_journal _ Hr) as Hj. pose proof (jk_next _ Hj) as Hn.
  destruct (copied_ok w Hm Hj) as [Hm1 Hj1]. set (n := Z.of_nat (length (dirty_buffers w))).
  set (x := journal_sector (sb w) (jblock (sb w) n)).
  assert (Ex : journal_sector (sb (copied w)) (jblock (sb (copied w)) 0) = x).
  { change (sb (copied w)) with (skip n (sb w)). by rewrite jblock_skip, Z.add_0_r. }
  rewrite Ex in Hjd. assert (Hx : in_journal (sb w) x) by (exists (jblock (sb w) n); split; [apply jblock_range; lia|done]).
  assert (Ed : dirty_buffers w2 = dirty_buffers w) by apply Hjd.
  assert (Hv : forall y, ~ in_journal (sb w) y -> view w2 y = view w y).
  { intros y Hy. rewrite (jd_view _ _ _ _ Hjd) by (by intros ->). by apply copied_view. }
  assert (Eh : home_writes w2 (dirty_buffers w2) = home_writes w (dirty_buffers w)).
  { rewrite Ed. unfold home_writes. apply list_fmap_ext. intros i y Hy%list_elem_of_lookup_2. f_equal.
    destruct (dirty_block w y (mem_cache _ Hm) Hy) as (_ & _ & _ & _ & E1).
    rewrite <- Ed in Hy. destruct (dirty_block w2 y (mem_cache _ (jd_mem _ _ _ _ Hjd)) Hy) as (_ & _ & _ & _ & E2).
    rewrite Hv in E2; [congruence|]. rewrite Ed in Hy. by apply dirty_apart; [apply Hm|..]. }
  destruct (hm_log _ _ _ Hh) as (w0 & E3 & E4 & E5). rewrite Eh in E3.
  constructor.
  - apply Hh.
  - eapply journal_ok_homed; [|exact Hh|].
    + eapply (journal_ok_journaled _ _ (jblock (sb (copied w)) 0)); [exact Hj1|apply jblock_range; pose proof (jk_next _ Hj1); lia|by rewrite Ex|done].
    + intros y. rewrite Ed, Es. apply (dirty_apart w); [apply Hm|done].
  - rewrite E3. change (disk (logged ?l w0)) with (apply_writes l (disk w0)). rewrite E4, (jd_disk _ _ _ _ Hjd).
    unfold commit_log. cbv zeta. by rewrite !apply_writes_app.
  - rewrite E3. change (writes (logged ?l w0)) with (reverse ((fun p => WrBlock p.1 p.2) <$> l) ++ writes w0).
    rewrite E5, (jd_writes _ _ _ _ Hjd). unfold commit_log. cbv zeta. rewrite !reverse_log, <- !app_assoc. done.
  - done.
  - rewrite (hm_journaled _ _ _ Hh), (jd_journaled _ _ _ _ Hjd). apply (cr_defer _ Hr).
  - rewrite (hm_sb _ _ _ Hh), Es. f_equal. apply (skip_skip (sb w)). lia.
  - intros y Hy. rewrite (hm_view _ _ _ Hh). by apply Hv.
  - intros y. by rewrite (hm_pins _ _ _ Hh), (jd_pins _ _ _ _ Hjd).
  - intros y Hy. apply Hh, Hjd. exact Hy.
  - destruct (hm_rest _ _ _ Hh) as (-> & -> & -> & -> & ->). apply (jd_rest _ _ _ _ Hjd).
Qed.

Lemma commit_transaction_spec barrier w :
  commit_ready w -> dirty_buffers w <> [] ->
  wp (commit_transaction barrier) (fun _ w' => committed w barrier w') w.
Proof.
  intros Hr Hne. pose proof Hr as [Hm Hj Hroom (Hdf & Hcount & Hda & Hjb) Hchk Hdev Hfit Hmax Hblk]. pose proof (jk_next _ Hj) as Hn.
  assert (Hlen : (0 < length (dirty_buffers w))%nat) by (destruct (dirty_buffers w); [done|cbn; lia]).
  unfold commit_transaction. wp_steps. rewrite bool_decide_false by done. cbn [andb].
  assert (Hhalf : 1 <= Z.quot (journal_size (image (sb w))) 2) by (apply Z.quot_le_lower_bound; lia).
  unfold deferred_allocs, journaled_count. rewrite Hda, Hjb. cbn [length]. change (Z.of_nat 0) with 0.
  rewrite !(proj2 (Z.leb_gt _ 0)) by lia. cbn [orb]. wp_steps.
  eapply wp_mono; [by apply journal_dirty_buffers_run|]. cbv beta. intros _ w1 ->. fold (copied w). wp_steps.
  destruct (copied_ok w Hm Hj) as [Hm1 Hj1]. eapply wp_mono.
  { apply write_commit_block_run; [done|done| |done|done|].
    - intros H. by apply Hroom, copied_room.
    - apply length_commit_of. }
  cbv beta. intros _ w2 [Es2 Hjd]. unfold getsb. wp_steps.
  assert (Edf : deferring (sb w2) = false) by (rewrite Es2; exact Hdf). rewrite Edf. cbn [andb].
  eapply wp_mono.
  { apply write_all_dirty_run; [apply Hjd|]. rewrite (jd_dirty _ _ _ _ Hjd), (jd_disk _ _ _ _ Hjd). intros x Hx.
    apply (apply_writes_some [(_, commit_of (copied w) barrier)]), apply_writes_some. by apply Hdev. }
  cbv beta. intros _ w3 [Hh Hd3]. unfold selfcheck_freespace, getsb. wp_steps. rewrite (hm_sb _ _ _ Hh), Es2.
  change (runflags (numbered (skip 1 (sb (copied w))))) with (runflags (sb w)). rewrite Hchk. cbn [Z.eqb negb]. wp_steps.
  by eapply committed_intro.
Qed.

(** ** The order of the writes *)

(** The journal on the device [m] has all of the transaction that is open in [w]:
    a commit block with the sequence number of the transaction names its sectors,
    and the new contents of each lie in the blocks before it, where
    [replay_commit] looks for them. *)
Definition in_the_journal (w : world) (m : gmap Z block) : Prop :=
  let s := sb w in
  let n := Z.of_nat (length (dirty_buffers w)) in
  exists p c, 0 <= p < journal_size (image s) /\ m !! journal_sector s p = Some c /\
    is_commit_block c = true /\ commit_sequence c = sequence (image s) /\ commit_entries c = n /\
    forall i x, dirty_buffers w !! i = Some x -> commit_sector c i = x /\
      m !! journal_sector s ((p - n + Z.of_nat i) mod journal_size (image s)) = view w x.

Section crash.
Context (w : world) (barrier : bool) (Hr : commit_ready w).
Context (Hseq : is_u32 (sequence (image (sb w)))) (Hsec : Forall is_u64 (dirty_buffers w)).

Abbreviation D := (dirty_buffers w).
Abbreviation n := (Z.of_nat (length D)).
Abbreviation size := (journal_size (image (sb w))).
Abbreviation at_block i := (journal_sector (sb w) (jblock (sb w) i)).

(** The writes to the journal *)
Definition journal_part : list (Z * block) := journal_copies w D ++ [(at_block n, commit_of w barrier)].

Lemma commit_log_split : commit_log w barrier = journal_part ++ home_writes w D.
Proof. unfold commit_log, journal_part. cbv zeta. by rewrite <- app_assoc. Qed.

Lemma length_copies : length (journal_copies w D) = length D.
Proof. apply length_imap. Qed.

Lemma at_block_inj i j : 0 <= i <= n -> 0 <= j <= n -> at_block i = at_block j -> i = j.
Proof.
  intros Hi Hj E. pose proof (cr_fits _ Hr). pose proof (jk_next _ (cr_journal _ Hr)).
  apply journal_sector_inj in E; [|apply Hr|apply jblock_range; lia|apply jblock_range; lia].
  eapply jblock_inj; [| |exact E]; lia.
Qed.

Lemma copies_sectors : (journal_copies w D).*1 = (fun i => at_block (Z.of_nat i)) <$> seq 0 (length D).
Proof.
  apply list_eq. intros i. unfold journal_copies. rewrite !list_lookup_fmap, list_lookup_imap.
  destruct (decide (i < length D)%nat) as [Hi|Hi].
  - rewrite lookup_seq_lt by done. by destruct (lookup_lt_is_Some_2 D i Hi) as [x ->].
  - rewrite lookup_seq_ge by lia. by rewrite lookup_ge_None_2 by lia.
Qed.

Lemma journal_part_nodup : NoDup journal_part.*1.
Proof.
  unfold journal_part. rewrite fmap_app, copies_sectors. cbn. apply NoDup_app. split; [|split; [|apply NoDup_singleton]].
  - apply NoDup_fmap_2_strong; [|apply NoDup_seq]. intros i j Hi%elem_of_seq Hj%elem_of_seq E. apply at_block_inj in E; lia.
  - intros x (i & -> & Hi%elem_of_seq)%list_elem_of_fmap E%list_elem_of_singleton. apply at_block_inj in E; lia.
Qed.

Lemma home_apart x : x ∈ (home_writes w D).*1 -> ~ in_journal (sb w) x.
Proof.
  intros (p & -> & (y & -> & Hy)%list_elem_of_fmap)%list_elem_of_fmap. cbn. apply dirty_apart; [apply Hr|apply Hr|done].
Qed.

Lemma in_journal_part x : x ∈ journal_part.*1 -> in_journal (sb w) x.
Proof.
  pose proof (jk_next _ (cr_journal _ Hr)). unfold journal_part. rewrite fmap_app. intros [Hx|Hx%list_elem_of_singleton]%elem_of_app.
  - eapply journal_copies_sectors; [|exact Hx]. lia.
  - subst x. eexists. split; [|done]. apply jblock_range. lia.
Qed.

(** Before the commit block is written *)
Lemma crash_early k x : (k <= length D)%nat -> ~ in_journal (sb w) x ->
  apply_writes (take k (commit_log w barrier)) (disk w) !! x = disk w !! x.
Proof using Hr.
  intros Hk Hx. rewrite commit_log_split. unfold journal_part. rewrite <- app_assoc, take_app_le by (rewrite length_copies; done).
  apply apply_writes_other. rewrite fmap_take. intros Hin. apply Hx, in_journal_part. unfold journal_part. rewrite fmap_app.
  apply elem_of_app. left. apply elem_of_take in Hin as (q & Hq & _). by eapply list_elem_of_lookup_2.
Qed.

(** After that *)
Lemma home_prefix m j i :
  0 <= i < size -> apply_writes (take j (home_writes w D)) m !! journal_sector (sb w) i = m !! journal_sector (sb w) i.
Proof.
  intros Hi. apply apply_writes_other. rewrite fmap_take. intros Hin. apply elem_of_take in Hin as (q & Hq & _).
  apply (home_apart (journal_sector (sb w) i)); [by eapply list_elem_of_lookup_2|by exists i].
Qed.

Section late.
Context (j : nat).
Definition late : gmap Z block := apply_writes (take j (home_writes w D)) (apply_writes journal_part (disk w)).

Lemma late_journal i : 0 <= i < size -> late !! journal_sector (sb w) i = apply_writes journal_part (disk w) !! journal_sector (sb w) i.
Proof. intros Hi. by apply home_prefix. Qed.

Lemma late_copy i x : D !! i = Some x -> late !! at_block (Z.of_nat i) = Some (block_of w x).
Proof.
  intros Hi. pose proof (jk_next _ (cr_journal _ Hr)). rewrite late_journal by (apply jblock_range; lia).
  apply apply_writes_this; [apply journal_part_nodup|]. unfold journal_part. apply elem_of_app. left.
  apply (list_elem_of_lookup_2 _ i). unfold journal_copies. by rewrite list_lookup_imap, Hi.
Qed.

Lemma late_commit : late !! at_block n = Some (commit_of w barrier).
Proof.
  pose proof (jk_next _ (cr_journal _ Hr)). rewrite late_journal by (apply jblock_range; lia).
  apply apply_writes_this; [apply journal_part_nodup|]. unfold journal_part. apply elem_of_app. right. by left.
Qed.

Lemma sectors_fit : (52 + 8 * length D <= bsize (sb w))%nat.
Proof. pose proof (cr_max _ Hr). pose proof (cr_block _ Hr). unfold bsize. lia. Qed.

Lemma entries_fit : is_u32 n.
Proof.
  pose proof (cr_fits _ Hr). pose proof (jk_span _ (cr_journal _ Hr)) as Hs. pose proof (jk_bits _ (cr_journal _ Hr)) as Hb.
  assert (1 <= 2 ^ chunk_sectors_bits (metadata (sb w))) by (apply (Z.pow_le_mono_r 2 0); lia). unfold is_u32. nia.
Qed.

Lemma late_complete : in_the_journal w late.
Proof using Hr Hseq Hsec.
  pose proof (jk_next _ (cr_journal _ Hr)) as Hn. pose proof sectors_fit as Hfit.
  exists (jblock (sb w) n), (commit_of w barrier). split; [apply jblock_range; lia|]. split; [apply late_commit|].
  rewrite commit_of_block, (commit_is_commit _ _ _ _ _ Hfit), (commit_has_sequence _ _ _ _ _ Hfit), (commit_has_entries _ _ _ _ _ Hfit).
  rewrite !u32_id by (apply entries_fit || done). split_and!; [done|done|done|]. intros i x Hx.
  pose proof (list_elem_of_lookup_2 _ _ _ Hx) as Hin. split.
  - rewrite (commit_has_sector _ _ _ _ _ Hfit i x Hx). apply u64_id. rewrite Forall_forall in Hsec. by apply Hsec.
  - assert (Eb : (jblock (sb w) n - n + Z.of_nat i) mod size = jblock (sb w) (Z.of_nat i)).
    { unfold jblock. replace (_ - n + Z.of_nat i) with ((journal_next (image (sb w)) + n) mod size + (Z.of_nat i - n)) by lia.
      rewrite Zplus_mod_idemp_l. f_equal. lia. }
    rewrite Eb, (late_copy i x Hx). by destruct (dirty_block w x (mem_cache _ (cr_mem _ Hr)) Hin) as (_ & _ & _ & _ & ->).
Qed.

Lemma home_nodup : NoDup (home_writes w D).*1.
Proof using Hr.
  unfold home_writes. rewrite <- list_fmap_compose. rewrite (list_fmap_ext _ id) by done. rewrite list_fmap_id.
  apply (dirty_nodup w), mem_cache, Hr.
Qed.

(** Outside the journal a block is as it was, or it has its new contents. *)
Lemma late_home x : ~ in_journal (sb w) x -> late !! x = disk w !! x \/ x ∈ D /\ late !! x = view w x.
Proof using Hr.
  intros Hx. unfold late. destruct (decide (x ∈ (take j (home_writes w D)).*1)) as [Hin|Hno].
  - right. apply list_elem_of_fmap in Hin as ([y d] & Ey & Hin). cbn in Ey. subst y.
    pose proof Hin as (q & Hq & _)%elem_of_take. apply list_elem_of_lookup_2, list_elem_of_fmap in Hq as (y & E & Hy).
    injection E as -> ->. split; [done|]. destruct (dirty_block w y (mem_cache _ (cr_mem _ Hr)) Hy) as (_ & _ & _ & _ & ->).
    apply apply_writes_this; [|done]. pose proof home_nodup as Hnd. rewrite <- (take_drop j (home_writes w D)), fmap_app in Hnd.
    by apply NoDup_app in Hnd as [Hnd _].
  - left. rewrite apply_writes_other by done. apply apply_writes_other. intros Hin. by apply Hx, in_journal_part.
Qed.
End late.

(** Wherever the writes stop *)
Lemma crash_safe k :
  let m := apply_writes (take k (commit_log w barrier)) (disk w) in
  (forall x, ~ in_journal (sb w) x -> m !! x = disk w !! x) \/
  in_the_journal w m /\ (forall x, ~ in_journal (sb w) x -> m !! x = disk w !! x \/ x ∈ D /\ m !! x = view w x).
Proof using Hr Hseq Hsec.
  intros m. destruct (decide (k <= length D)%nat) as [Hk|Hk].
  - left. intros x Hx. by apply crash_early.
  - right. assert (m = late (k - length journal_part)) as ->; [|split; [apply late_complete|apply late_home]].
    unfold m, late. rewrite <- apply_writes_app, commit_log_split, take_app. rewrite (take_ge journal_part); [done|].
    unfold journal_part. rewrite length_app, length_copies. cbn. lia.
Qed.
End crash.

(** Without dirty blocks there is nothing to commit. *)
Lemma commit_nothing barrier w :
  dirty_buffers w = [] -> ar_count (defer (sb w)) = 0 -> wp (commit_transaction barrier) (fun _ w' => w' = w) w.
Proof. intros Hd Hc. unfold commit_transaction. wp_steps. rewrite Hd, Hc. cbn [Z.eqb]. rewrite bool_decide_true by done. by wp_steps. Qed.

Lemma committed_disk w barrier w' x :
  commit_ready w -> committed w barrier w' -> ~ in_journal (sb w) x ->
  disk w' !! x = if decide (x ∈ dirty_buffers w) then view w x else disk w !! x.
Proof.
  intros Hr Hc Hx. rewrite (cm_disk _ _ _ Hc), commit_log_split, apply_writes_app.
  assert (Ej : apply_writes (journal_part w barrier) (disk w) !! x = disk w !! x).
  { apply apply_writes_other. intros Hin. by apply Hx, (in_journal_part w barrier Hr). }
  assert (Hs : (home_writes w (dirty_buffers w)).*1 = dirty_buffers w).
  { unfold home_writes. rewrite <- list_fmap_compose. rewrite (list_fmap_ext _ id) by done. apply list_fmap_id. }
  case_decide as Hd.
  - destruct (dirty_block w x (mem_cache _ (cr_mem _ Hr)) Hd) as (_ & _ & _ & _ & ->). apply apply_writes_this.
    + rewrite Hs. apply (dirty_nodup w), mem_cache, Hr.
    + unfold home_writes. apply list_elem_of_fmap. by exists x.
  - rewrite apply_writes_other; [done|]. by rewrite Hs.
Qed.

(** C21: Committing a transaction puts every dirty metadata block where it belongs
    on the device and changes no other block outside the journal; no block is
    dirty then, the server sees the same blocks as before, and the cache and the
    journal are well formed again. *)
Theorem commit_transaction_correct barrier w :
  commit_ready w ->
  wp (commit_transaction barrier) (fun _ w' => mem_ok w' /\ journal_ok w' /\ dirty_buffers w' = [] /\
    forall x, ~ in_journal (sb w) x -> view w' x = view w x /\
      disk w' !! x = if decide (x ∈ dirty_buffers w) then view w x else disk w !! x) w.
Proof.
  intros Hr. destruct (decide (dirty_buffers w = [])) as [Hd|Hd].
  - eapply wp_mono; [apply commit_nothing; [done|apply Hr]|]. cbv beta. intros _ w' ->. split_and!; [apply Hr|apply Hr|done|].
    intros x _. rewrite Hd. split; [done|]. by rewrite decide_False by apply not_elem_of_nil.
  - eapply wp_mono; [by apply commit_transaction_spec|]. cbv beta. intros _ w' Hc. split_and!; [apply Hc|apply Hc|apply Hc|].
    intros x Hx. split; [by apply Hc|]. by apply (committed_disk w barrier).
Qed.

(** C2: A commit writes ahead.  Wherever a crash cuts off its writes, either no
    block outside the journal has changed, or the journal has the commit block of
    the transaction, and the new contents of every block that it names, in the
    blocks before it; the blocks outside the journal that have changed then are
    blocks of the transaction with their new contents. *)
Theorem commit_write_ahead barrier w :
  commit_ready w -> is_u32 (sequence (image (sb w))) -> Forall is_u64 (dirty_buffers w) ->
  wp (commit_transaction barrier) (fun _ w' => exists L,
    writes w' = reverse ((fun p => WrBlock p.1 p.2) <$> L) ++ writes w /\ disk w' = apply_writes L (disk w) /\
    forall k, let m := apply_writes (take k L) (disk w) in
      (forall x, ~ in_journal (sb w) x -> m !! x = disk w !! x) \/
      in_the_journal w m /\
      (forall x, ~ in_journal (sb w) x -> m !! x = disk w !! x \/ x ∈ dirty_buffers w /\ m !! x = view w x)) w.
Proof.
  intros Hr Hseq Hsec. destruct (decide (dirty_buffers w = [])) as [Hd|Hd].
  - eapply wp_mono; [apply commit_nothing; [done|apply Hr]|]. cbv beta. intros _ w' ->. exists []. split_and!; [done|done|].
    intros k. rewrite take_nil. by left.
  - eapply wp_mono; [by apply commit_transaction_spec|]. cbv beta. intros _ w' Hc. exists (commit_log w barrier).
    split_and!; [apply Hc|apply Hc|]. intros k. by apply crash_safe.
Qed.
