(* ===== verification/ReplaySpec.v ===== *)
(** * What the replay of the journal restores

    [replay_journal] writes every block of a commit to the sector with the number
    of the commit, not of the block.  This file shows what that means: a commit
    restores one sector, whatever it has. *)

From S2P Require Import Prelude Bytes State Buffer Bitmap Journal JournalSpec CommitSpec.

(** ** Operations that write nothing *)

Definition quiet {A} (m : prog A) : Prop := forall w a w', m w = Done a w' -> disk w' = disk w.

Lemma quiet_ret {A} (a : A) : quiet (mret a).
Proof. by intros w a' w' [= _ <-]. Qed.
Lemma quiet_get : quiet get.
Proof. by intros w a' w' [= _ <-]. Qed.
Lemma quiet_gets {A} (f : world -> A) : quiet (gets f).
Proof. by intros w a' w' [= _ <-]. Qed.
Lemma quiet_halt {A} h : @quiet A (halt_with h).
Proof. by intros w a w'. Qed.
Lemma quiet_assert b : quiet (assertM b).
Proof. destruct b; [apply quiet_ret|apply quiet_halt]. Qed.
Lemma quiet_modify f : (forall w, disk (f w) = disk w) -> quiet (modify f).
Proof. intros H w a w' [= _ <-]. apply H. Qed.
Lemma quiet_bind {A B} (m : prog A) (f : A -> prog B) : quiet m -> (forall a, quiet (f a)) -> quiet (m ≫= f).
Proof. intros Hm Hf w b w' (a & w1 & E1 & E2)%bind_done. rewrite (Hf a _ _ _ E2). by eapply Hm. Qed.

Create HintDb quiet discriminated.
#[export] Hint Resolve quiet_ret quiet_get quiet_gets quiet_halt quiet_assert : quiet.

(** Programs made of such operations by sequences and tests *)
Ltac quiet_solve :=
  repeat first
    [ solve [auto with quiet nocore]
    | apply quiet_bind; [|intros]
    | apply quiet_modify; intros; cbn; by repeat (destruct_if; cbn)
    | match goal with |- context [match ?x with _ => _ end] => destruct x end ].

Lemma quiet_get_buf s : quiet (get_buf s).
Proof. unfold get_buf. quiet_solve. Qed.
#[export] Hint Resolve quiet_get_buf : quiet.
Lemma quiet_upd_buf s f : quiet (upd_buf s f).
Proof. unfold upd_buf. quiet_solve. Qed.
#[export] Hint Resolve quiet_upd_buf : quiet.
Lemma quiet_get_data s : quiet (get_data s).
Proof. unfold get_data. quiet_solve. Qed.
Lemma quiet_brelse s : quiet (brelse s).
Proof. unfold brelse. quiet_solve. Qed.
#[export] Hint Resolve quiet_get_data quiet_brelse : quiet.

Lemma quiet_evict_lru l count : quiet (evict_lru l count).
Proof.
  revert count. induction l as [|s l IH]; intros count; cbn [evict_lru]; [quiet_solve|].
  unfold remove_buffer_lru, remove_buffer_hash, add_buffer_free. quiet_solve; apply IH.
Qed.
#[export] Hint Resolve quiet_evict_lru : quiet.

Lemma quiet_jread i : quiet (jread i).
Proof.
  unfold jread, getsb, bread, getblk, new_buffer, remove_buffer_free, add_buffer_lru, read_buffer, set_data, set_buffer_uptodate,
    remove_buffer_journaled. quiet_solve.
Qed.
#[export] Hint Resolve quiet_jread : quiet.

(** ** One sector *)

(** What may be written *)
Definition writes_at {A} (x : Z) (m : prog A) : Prop :=
  forall w a w', m w = Done a w' -> forall y, y <> x -> disk w' !! y = disk w !! y.

Lemma quiet_writes {A} x (m : prog A) : quiet m -> writes_at x m.
Proof. intros Hm w a w' E y _. by rewrite (Hm _ _ _ E). Qed.

Lemma writes_bind {A B} x (m : prog A) (f : A -> prog B) :
  writes_at x m -> (forall a, writes_at x (f a)) -> writes_at x (m ≫= f).
Proof. intros Hm Hf w b w' (a & w1 & E1 & E2)%bind_done y Hy. rewrite (Hf a _ _ _ E2) by done. by eapply Hm. Qed.

Lemma writes_foreach {A} x (l : list A) body : (forall a, writes_at x (body a)) -> writes_at x (foreach l body).
Proof.
  intros Hb. induction l as [|a l IH]; cbn; [by apply quiet_writes, quiet_ret|]. by apply (writes_bind x (body a)).
Qed.

Lemma writes_buffer s x : writes_at x (write_buffer_to s x).
Proof.
  apply writes_bind; [apply quiet_writes; quiet_solve|]. intros d w a w' E y Hy. unfold write_block in E.
  apply bind_done in E as (w1 & w2 & [= <- <-] & E). destruct (disk w !! x) eqn:Ex; [|by injection E as _ <-].
  injection E as _ <-. cbn. by rewrite lookup_insert_ne.
Qed.

(** C40: The replay of the commit with number [i] among those found changes no
    sector but the one that entry [i] of its table names: of the blocks that a
    transaction has, at most one is restored. *)
Theorem replay_commit_one_sector i p d w w' :
  replay_commit i p d w = Done tt w' -> forall x, x <> commit_sector d i -> disk w' !! x = disk w !! x.
Proof.
  revert w w'. cut (writes_at (commit_sector d i) (replay_commit i p d)); [intros H w w' E; by eapply H|].
  unfold replay_commit. apply writes_bind; [apply quiet_writes; unfold getsb; quiet_solve|]. intros s. apply writes_foreach. intros j.
  apply writes_bind; [apply quiet_writes; quiet_solve|]. intros [buf|]; [|apply quiet_writes; quiet_solve].
  apply writes_bind; [apply quiet_writes; quiet_solve|]. intros dd. destruct (is_commit_block dd); [apply quiet_writes; quiet_solve|].
  apply writes_bind; [apply writes_buffer|]. intros _. apply quiet_writes. quiet_solve.
Qed.
