(* ===== verification/CopyoutSpec.v ===== *)
(** * Deferred copies of chunks

    [copyout] does not copy at once: it collects copies of consecutive chunks
    to consecutive chunks, and [finish_copyout] does them with one read and one
    write.  The theorems say that this cannot be told from copying one chunk at
    a time. *)

From S2P Require Import Prelude Bytes State Buffer Bitmap Leaf LeafSpec Alloc Journal Btree Snapshot.

(** Bit 63 of a source marks a chunk of the snapshot store. *)
Definition is_snap_source (src : Z) : bool := Z.testbit src chunk_highbit.

Definition fetch (org snap : gmap Z Z) (src : Z) : option Z :=
  if is_snap_source src then snap !! (src - 2 ^ 63) else org !! src.

(** One chunk is copied. *)
Definition copy_one (org snap : gmap Z Z) (p : Z * Z) : gmap Z Z :=
  match fetch org snap p.1 with
  | Some v => <[p.2 := v]> snap
  | None => snap
  end.

(** [n] copies from consecutive chunks to consecutive chunks *)
Fixpoint run_of (src dst : Z) (n : nat) : list (Z * Z) :=
  match n with
  | O => []
  | S n' => (src, dst) :: run_of (src + 1) (dst + 1) n'
  end.

Definition pending_copies (s : superblock) : list (Z * Z) :=
  run_of (source_chunk s) (dest_exception s) (Z.to_nat (copy_chunks s)).

(** The snapshot store once the pending copies are done *)
Definition settled (w : world) : gmap Z Z := foldl (copy_one (org_data w)) (snap_data w) (pending_copies (sb w)).

(** The chunks that fit in the copy buffer *)
Definition copy_room (s : superblock) : Z := Z.shiftr (copybuf_size s) (allocsize_bits (asi SNAPDATA s)).

(** A run can be copied: its chunks exist, it stays inside one device, and it
    does not read what it writes. *)
Record run_ok (org snap : gmap Z Z) (src dst n : Z) : Prop := {
  ro_src : 0 <= src /\ src + n < 2 ^ 64;
  ro_side : src < 2 ^ 63 -> src + n < 2 ^ 63;
  ro_dst : 0 <= dst /\ dst + n <= 2 ^ 63;
  ro_fetch : forall i, 0 <= i < n -> is_Some (fetch org snap (src + i));
  ro_room : forall i, 0 <= i < n -> is_Some (snap !! (dst + i));
  ro_apart : forall i j, 0 <= i < n -> 0 <= j < n -> src + i <> 2 ^ 63 + (dst + j) }.

(** The devices have fewer than 2^62 chunks, the copy buffer has room for at
    least one chunk, and the pending run can be copied. *)
Record copies_ok (w : world) : Prop := {
  ck_org : forall x, is_Some (org_data w !! x) -> 0 <= x < 2 ^ 62;
  ck_snap : forall x, is_Some (snap_data w !! x) -> 0 <= x < 2 ^ 62;
  ck_bits : 0 <= allocsize_bits (asi SNAPDATA (sb w));
  ck_size : is_u32 (copybuf_size (sb w));
  ck_count : 0 <= copy_chunks (sb w) <= copy_room (sb w);
  ck_some : 1 <= copy_room (sb w);
  ck_buf : Z.of_nat (length (copybuf (sb w))) = copy_room (sb w);
  ck_run : run_ok (org_data w) (snap_data w) (source_chunk (sb w)) (dest_exception (sb w)) (copy_chunks (sb w)) }.

(** ** Reading and writing a run *)

Lemma is_snap_source_range src : 0 <= src < 2 ^ 64 -> is_snap_source src = (2 ^ 63 <=? src).
Proof.
  intros H. unfold is_snap_source, chunk_highbit. destruct (Z.leb_spec (2 ^ 63) src).
  - rewrite Z.testbit_true by lia. replace (src / 2 ^ 63) with 1; [done|].
    apply (Z.div_unique _ _ 1 (src - 2 ^ 63)); lia.
  - rewrite Z.testbit_false by lia. by rewrite Z.div_small by lia.
Qed.

Lemma source_split src :
  0 <= src < 2 ^ 64 -> (Z.shiftr src chunk_highbit =? 0) = negb (is_snap_source src) /\
  Z.land src (lnot64 (bit64 chunk_highbit)) = if is_snap_source src then src - 2 ^ 63 else src.
Proof.
  intros H. rewrite is_snap_source_range by done. split.
  - unfold chunk_highbit. rewrite Z.shiftr_div_pow2 by lia. destruct (Z.leb_spec (2 ^ 63) src); cbn [negb].
    + apply Z.eqb_neq. pose proof (Z.div_le_mono (2 ^ 63) src (2 ^ 63)). rewrite Z.div_same in * by lia. lia.
    + apply Z.eqb_eq, Z.div_small. lia.
  - assert (E : Z.land src (lnot64 (bit64 chunk_highbit)) = src mod 2 ^ 63).
    { change (lnot64 (bit64 chunk_highbit)) with (Z.ones 63). apply Z.land_ones. lia. }
    rewrite E. destruct (Z.leb_spec (2 ^ 63) src).
    + symmetry. apply (Z.mod_unique _ _ 1); lia.
    + apply Z.mod_small. lia.
Qed.

Lemma read_chunks_run dev src buf k vs :
  (k + length vs <= length buf)%nat -> (forall i v, vs !! i = Some v -> dev !! (src + Z.of_nat i) = Some v) ->
  read_chunks dev src (length vs) k buf = take k buf ++ vs ++ drop (k + length vs) buf.
Proof.
  revert src buf k. induction vs as [|v vs IH]; intros src buf k Hl Hv; cbn [length read_chunks] in *.
  - cbn [app]. by rewrite Nat.add_0_r, take_drop.
  - pose proof (Hv 0%nat v eq_refl) as H0. rewrite Z.add_0_r in H0. rewrite H0.
    rewrite IH; [| rewrite length_insert; lia |].
    + rewrite (take_S_r _ _ v) by (rewrite list_lookup_insert_eq; [done|lia]).
      rewrite take_insert_ge by lia. rewrite drop_insert_lt by lia.
      rewrite <- app_assoc. cbn [app]. do 4 f_equal. lia.
    + intros i x Hi. specialize (Hv (S i) x Hi). rewrite <- Hv. f_equal. lia.
Qed.

(** The chunks [dst], [dst + 1], ... receive the values *)
Fixpoint put_run (dst : Z) (vs : list Z) (m : gmap Z Z) : gmap Z Z :=
  match vs with
  | [] => m
  | v :: vs' => put_run (dst + 1) vs' (<[dst := v]> m)
  end.

Lemma write_chunks_run dev dst vs rest :
  (forall i, 0 <= i < Z.of_nat (length vs) -> is_Some (dev !! (dst + i))) ->
  write_chunks (vs ++ rest) dst (length vs) dev = put_run dst vs dev.
Proof.
  revert dst dev. induction vs as [|v vs IH]; intros dst dev Hd; cbn [length write_chunks put_run app].
  - by destruct rest.
  - destruct (Hd 0 ltac:(cbn [length]; lia)) as [x Hx]. rewrite Z.add_0_r in Hx. rewrite Hx. apply IH.
    intros i Hi. destruct (decide (dst + 1 + i = dst)) as [E|E]; [lia|]. rewrite lookup_insert_ne by lia.
    replace (dst + 1 + i) with (dst + (1 + i)) by lia. apply Hd. cbn [length]. lia.
Qed.

Lemma run_of_snoc src dst n :
  run_of src dst (S n) = run_of src dst n ++ [(src + Z.of_nat n, dst + Z.of_nat n)].
Proof.
  revert src dst. induction n as [|n IH]; intros src dst; [by cbn; rewrite !Z.add_0_r|].
  cbn [run_of app] in IH |- *. rewrite IH. cbn [app]. do 4 f_equal; lia.
Qed.

(** Copying one by one reads the values that were there at the start. *)
Lemma copy_run org src dst vs snap :
  (forall i v, vs !! i = Some v -> fetch org snap (src + Z.of_nat i) = Some v) -> 0 <= src ->
  src + Z.of_nat (length vs) <= 2 ^ 64 ->
  (forall i j, 0 <= i < Z.of_nat (length vs) -> 0 <= j < Z.of_nat (length vs) -> src + i <> 2 ^ 63 + (dst + j)) ->
  foldl (copy_one org) snap (run_of src dst (length vs)) = put_run dst vs snap.
Proof.
  revert src dst snap. induction vs as [|v vs IH]; intros src dst snap Hv H0 H1 Hap; cbn [length run_of put_run foldl] in *; [done|].
  unfold copy_one at 2. cbn [fst snd]. pose proof (Hv 0%nat v eq_refl) as Hf. rewrite Z.add_0_r in Hf. rewrite Hf.
  apply IH; [|lia|lia|].
  - intros i x Hi. specialize (Hv (S i) x Hi). rewrite <- Hv. replace (src + Z.of_nat (S i)) with (src + 1 + Z.of_nat i) by lia.
    unfold fetch. pose proof (lookup_lt_Some _ _ _ Hi). rewrite is_snap_source_range by lia.
    destruct (Z.leb_spec (2 ^ 63) (src + 1 + Z.of_nat i)); [|done].
    rewrite lookup_insert_ne; [done|]. specialize (Hap (1 + Z.of_nat i) 0 ltac:(lia) ltac:(lia)). lia.
  - intros i j Hi Hj. specialize (Hap (1 + i) (1 + j) ltac:(lia) ltac:(lia)). lia.
Qed.

(** The values a run reads *)
Lemma run_values org snap src n :
  (forall i, 0 <= i < Z.of_nat n -> is_Some (fetch org snap (src + i))) ->
  exists vs, length vs = n /\ forall i v, vs !! i = Some v -> fetch org snap (src + Z.of_nat i) = Some v.
Proof.
  induction n as [|n IH]; intros Hf; [by exists []|].
  destruct IH as (vs & Hl & Hv). { intros i Hi. apply Hf. lia. }
  destruct (Hf (Z.of_nat n) ltac:(lia)) as [v Hn]. exists (vs ++ [v]). split; [rewrite length_app; cbn; lia|].
  intros i x Hi. apply lookup_snoc_Some in Hi as [[_ Hi]|[-> <-]]; [by apply Hv|]. by rewrite Hl.
Qed.

Definition copy_state (s : superblock) (buf : list Z) (src dst n : Z) : superblock :=
  s <| copybuf := buf |> <| source_chunk := src |> <| dest_exception := dst |> <| copy_chunks := n |>.

(** [w'] is [w] but for the copies. *)
Definition only_copies (w w' : world) : Prop :=
  exists buf src dst n snap, length buf = length (copybuf (sb w)) /\
    w' = w <| sb := copy_state (sb w) buf src dst n |> <| snap_data := snap |>.

(** ** Finishing *)

Lemma finish_copyout_full w :
  copies_ok w ->
  wp finish_copyout (fun r w' => (r = 0 /\ only_copies w w' /\ snap_data w' = settled w /\ copy_chunks (sb w') = 0) /\
    source_chunk (sb w') = source_chunk (sb w) /\ dest_exception (sb w') = dest_exception (sb w)) w.
Proof.
  intros [_ _ Hb Hs Hc Hr Hbuf Hrun]. unfold finish_copyout, getsb. wp_steps.
  destruct (Z.eqb_spec (copy_chunks (sb w)) 0) as [E0|E0]; cbn [negb]; wp_steps.
  { split; [|done]. split; [done|]. split.
    - exists (copybuf (sb w)), (source_chunk (sb w)), (dest_exception (sb w)), (copy_chunks (sb w)), (snap_data w).
      split; [done|]. by destruct w as [[] ? ? ? ? ? ? ? ? ? ? ? ? ?].
    - unfold settled, pending_copies. by rewrite E0. }
  - unfold u32. apply Z.leb_le. rewrite Z.shiftl_mul_pow2 by lia. unfold copy_room in *. rewrite Z.shiftr_div_pow2 in Hc by lia.
    assert (Hm : copy_chunks (sb w) * 2 ^ allocsize_bits (asi SNAPDATA (sb w)) <= copybuf_size (sb w)).
    { etransitivity; [apply Z.mul_le_mono_nonneg_r; [|apply Hc]; lia|]. rewrite Z.mul_comm. apply Z.mul_div_le. lia. }
    rewrite Z.mod_small; [done|]. unfold is_u32 in Hs. split; [apply Z.mul_nonneg_nonneg; lia|lia].
  - unfold modsb. wp_steps. destruct Hrun as [Hsrc Hside Hdst Hf Hroom Hap].
    set (n := copy_chunks (sb w)) in *. set (src := source_chunk (sb w)) in *. set (dst := dest_exception (sb w)) in *.
    destruct (run_values (org_data w) (snap_data w) src (Z.to_nat n)) as (vs & Hl & Hv).
    { intros i Hi. apply Hf. lia. }
    assert (Hdev : forall i v, vs !! i = Some v -> (if is_snap_source src then snap_data w else org_data w) !!
        ((if is_snap_source src then src - 2 ^ 63 else src) + Z.of_nat i) = Some v).
    { intros i v Hi. rewrite <- (Hv i v Hi). pose proof (lookup_lt_Some _ _ _ Hi). unfold fetch.
      rewrite !is_snap_source_range by lia. destruct (Z.leb_spec (2 ^ 63) src), (Z.leb_spec (2 ^ 63) (src + Z.of_nat i));
        try lia; [f_equal; lia|done]. }
    destruct (source_split src ltac:(lia)) as [E1 E2]. rewrite E1, E2, negb_involutive, <- Hl.
    rewrite read_chunks_run by (done || lia). cbn [take app]. split; [|done]. split; [done|]. split_and!.
    + eexists (vs ++ drop (0 + length vs) (copybuf (sb w))), src, dst, 0, _. split; [|reflexivity].
      rewrite length_app, length_drop. lia.
    + change (write_chunks (vs ++ drop (0 + length vs) (copybuf (sb w))) dst (length vs) (snap_data w) = settled w).
      rewrite write_chunks_run by (intros i Hi; apply Hroom; lia). unfold settled, pending_copies.
      fold n src dst. rewrite <- Hl. symmetry. apply copy_run; [done|lia|lia|]. intros i j Hi Hj. apply Hap; lia.
    + done.
Qed.

Lemma finish_copyout_run w :
  copies_ok w ->
  wp finish_copyout (fun r w' => r = 0 /\ only_copies w w' /\ snap_data w' = settled w /\ copy_chunks (sb w') = 0) w.
Proof. intros Hw. eapply wp_mono; [by apply finish_copyout_full|]. cbv beta. tauto. Qed.

Lemma put_run_some dst vs (m : gmap Z Z) x : is_Some (m !! x) -> is_Some (put_run dst vs m !! x).
Proof.
  revert dst m. induction vs as [|v vs IH]; intros dst m Hm; cbn; [done|]. apply IH.
  destruct (decide (dst = x)) as [->|]; [by rewrite lookup_insert_eq|by rewrite lookup_insert_ne].
Qed.

Lemma copies_some org l snap x : is_Some (snap !! x) -> is_Some (foldl (copy_one org) snap l !! x).
Proof.
  revert snap. induction l as [|[src dst] l IH]; intros snap Hm; cbn; [done|]. apply IH. unfold copy_one.
  destruct (fetch org snap _); [|done]. cbn.
  destruct (decide (dst = x)) as [->|]; [by rewrite lookup_insert_eq|by rewrite lookup_insert_ne].
Qed.

Lemma copies_dom org l snap x :
  Forall (fun p => is_Some (snap !! p.2)) l -> is_Some (foldl (copy_one org) snap l !! x) -> is_Some (snap !! x).
Proof.
  revert snap. induction l as [|[src dst] l IH]; intros snap Hl Hx; cbn in Hx; [done|].
  apply Forall_cons in Hl as [Hd Hl]. cbn in Hd. unfold copy_one in Hx at 2.
  destruct (fetch org snap _) as [v|]; cbn in Hx; [|by apply IH].
  apply IH in Hx.
  - destruct (decide (dst = x)) as [<-|]; [done|]. by rewrite lookup_insert_ne in Hx.
  - eapply Forall_impl; [exact Hl|]. intros p Hp. destruct (decide (dst = p.2)) as [<-|]; [by rewrite lookup_insert_eq|].
    by rewrite lookup_insert_ne.
Qed.

Lemma fetch_some org snap snap' src :
  (forall x, is_Some (snap !! x) -> is_Some (snap' !! x)) -> is_Some (fetch org snap src) -> is_Some (fetch org snap' src).
Proof. intros H. unfold fetch. destruct (is_snap_source src); auto. Qed.

(** ** Adding a copy *)

(** A copy that may be added to the pending ones: its chunks exist, the
    destination is not a chunk that is to be read, and the source is not one
    that is to be written. *)
Record copy_ok (w : world) (chunk exception : Z) : Prop := {
  cp_src : is_u64 chunk;
  cp_dst : 0 <= exception < 2 ^ 63;
  cp_fetch : is_Some (fetch (org_data w) (snap_data w) chunk);
  cp_room : is_Some (snap_data w !! exception);
  cp_self : chunk <> 2 ^ 63 + exception;
  cp_written : Forall (fun p => chunk <> 2 ^ 63 + p.2) (pending_copies (sb w));
  cp_read : Forall (fun p => p.1 <> 2 ^ 63 + exception) (pending_copies (sb w)) }.

Lemma run_of_lookup src dst n i : (i < n)%nat -> run_of src dst n !! i = Some (src + Z.of_nat i, dst + Z.of_nat i).
Proof.
  revert src dst i. induction n as [|n IH]; intros src dst [|i] Hi; cbn; try lia; [by rewrite !Z.add_0_r|].
  rewrite IH by lia. do 2 f_equal; lia.
Qed.

Lemma pending_nth s i :
  0 <= i < copy_chunks s -> (source_chunk s + i, dest_exception s + i) ∈ pending_copies s.
Proof.
  intros Hi. unfold pending_copies. apply (list_elem_of_lookup_2 _ (Z.to_nat i)). rewrite run_of_lookup by lia.
  by rewrite Z2Nat.id by lia.
Qed.

Lemma run_of_dst src dst n (P : Z -> Prop) :
  (forall i, 0 <= i < Z.of_nat n -> P (dst + i)) -> Forall (fun p => P p.2) (run_of src dst n).
Proof.
  intros H. apply Forall_lookup. intros i p Hi. destruct (decide (i < n)%nat) as [Hn|Hn].
  - rewrite run_of_lookup in Hi by done. injection Hi as <-. apply H. lia.
  - assert (Hl : length (run_of src dst n) = n) by (clear; revert src dst; induction n; intros; cbn; congruence).
    apply lookup_lt_Some in Hi. lia.
Qed.

Lemma settled_dom w x : copies_ok w -> is_Some (settled w !! x) <-> is_Some (snap_data w !! x).
Proof.
  intros Hw. split; [|apply copies_some]. apply copies_dom. apply (run_of_dst _ _ _ (fun d => is_Some (snap_data w !! d))).
  intros i Hi. apply (ck_run _ Hw). pose proof (ck_count _ Hw). lia.
Qed.

Lemma fetch_bound w chunk :
  copies_ok w -> is_u64 chunk -> is_Some (fetch (org_data w) (snap_data w) chunk) ->
  chunk < 2 ^ 62 \/ 2 ^ 63 <= chunk < 2 ^ 63 + 2 ^ 62.
Proof.
  intros Hw Hc. unfold fetch. rewrite is_snap_source_range by done.
  destruct (Z.leb_spec (2 ^ 63) chunk); intros Hs; [apply (ck_snap _ Hw) in Hs|apply (ck_org _ Hw) in Hs]; lia.
Qed.

(** The run grows by one. *)
Lemma run_ok_snoc w chunk exception :
  copies_ok w -> copy_ok w chunk exception ->
  u64 (source_chunk (sb w) + copy_chunks (sb w)) = chunk -> u64 (dest_exception (sb w) + copy_chunks (sb w)) = exception ->
  run_ok (org_data w) (snap_data w) (source_chunk (sb w)) (dest_exception (sb w)) (1 + copy_chunks (sb w)) /\
  chunk = source_chunk (sb w) + copy_chunks (sb w) /\ exception = dest_exception (sb w) + copy_chunks (sb w).
Proof.
  intros Hw [Hsrc Hdst Hf Hroom Hself Hwr Hrd] <- <-. pose proof (fetch_bound w _ Hw Hsrc Hf) as Hbound.
  destruct Hw as [_ Hsnap _ _ [Hn _] _ _ [Rs Rside Rd Rf Rr Ra]]. apply Hsnap in Hroom as Hex.
  rewrite Forall_forall in Hwr, Hrd. rewrite !u64_id in * by (unfold is_u64; lia).
  assert (Hcase : forall i, 0 <= i < 1 + copy_chunks (sb w) -> 0 <= i < copy_chunks (sb w) \/ i = copy_chunks (sb w)) by lia.
  split; [|done]. constructor; try lia.
  - intros i [Hi| ->]%Hcase; [by apply Rf|done].
  - intros i [Hi| ->]%Hcase; [by apply Rr|done].
  - intros i j [Hi| ->]%Hcase [Hj| ->]%Hcase; [by apply Ra|by apply (Hrd _ (pending_nth _ i Hi))|
      by apply (Hwr _ (pending_nth _ j Hj))|done].
Qed.

Lemma only_copies_frame w w' :
  only_copies w w' -> org_data w' = org_data w /\ copybuf_size (sb w') = copybuf_size (sb w) /\
  length (copybuf (sb w')) = length (copybuf (sb w)) /\ asi SNAPDATA (sb w') = asi SNAPDATA (sb w).
Proof. by intros (buf & src & dst & n & snap & Hl & ->). Qed.

Lemma only_copies_state w w' src dst n :
  only_copies w w' -> only_copies w (w' <| sb ::= fun s => s <| copy_chunks := n |> <| source_chunk := src |> <| dest_exception := dst |> |>).
Proof. intros (buf & src' & dst' & n' & snap & Hl & ->). by exists buf, src, dst, n, snap. Qed.

(** A run of one copy after the others are done *)
Lemma copyout_restart w w' chunk exception :
  copies_ok w -> copy_ok w chunk exception -> only_copies w w' -> snap_data w' = settled w ->
  copies_ok (w' <| sb ::= fun s => s <| copy_chunks := 1 |> <| source_chunk := chunk |> <| dest_exception := exception |> |>).
Proof.
  intros Hw [Hsrc Hdst Hf Hroom Hself _ _] Hoc Hsnap. pose proof (fetch_bound w _ Hw Hsrc Hf) as Hbound.
  destruct (only_copies_frame _ _ Hoc) as (Eo & Es & El & Ea).
  assert (Hdom : forall x, is_Some (snap_data w' !! x) <-> is_Some (snap_data w !! x)).
  { intros x. rewrite Hsnap. by apply settled_dom. }
  destruct Hw as [Ho Hd Hb Hsz Hc Hr Hl _].
  assert (Er : copy_room (sb (w' <| sb ::= fun s => s <| copy_chunks := 1 |> <| source_chunk := chunk |>
    <| dest_exception := exception |> |>)) = copy_room (sb w)).
  { transitivity (copy_room (sb w')); [done|]. unfold copy_room. by rewrite Ea, Es. }
  constructor; rewrite ?Er; cbn -[asi copy_room]; rewrite ?Eo, ?Es, ?El; try done; try lia.
  - intros x Hx. by apply Hd, Hdom.
  - change (asi SNAPDATA _) with (asi SNAPDATA (sb w')). by rewrite Ea.
  - apply Hd in Hroom as Hex. unfold is_u64 in Hsrc. assert (E0 : forall i, 0 <= i < 1 -> i = 0) by lia. constructor; try lia.
    + intros i ->%E0. rewrite Z.add_0_r. eapply fetch_some; [|exact Hf]. intros x Hx. by apply Hdom.
    + intros i ->%E0. rewrite Z.add_0_r. by apply Hdom.
Qed.

(** The store with the pending copies done is, after [copyout], the store with
    the earlier pending copies done and then this one. *)
Lemma copyout_run w chunk exception :
  copies_ok w -> copy_ok w chunk exception ->
  wp (copyout chunk exception) (fun r w' => r = 0 /\ copies_ok w' /\ only_copies w w' /\
    settled w' = copy_one (org_data w) (settled w) (chunk, exception) /\
    forall q, q ∈ pending_copies (sb w') -> q ∈ pending_copies (sb w) ++ [(chunk, exception)]) w.
Proof.
  intros Hw Hc. unfold copyout, getsb. wp_steps. destruct (_ && _ && _) eqn:E.
  - apply andb_true_iff in E as [[E1%Z.eqb_eq E2%Z.eqb_eq]%andb_true_iff E3%Z.ltb_lt].
    destruct (run_ok_snoc w chunk exception Hw Hc E1 E2) as (Hr & Es & Ed). unfold modsb. wp_steps.
    destruct Hw as [Ho Hd Hb Hsz Hn Hs Hl _].
    assert (Ep : pending_copies ((sb w) <| copy_chunks ::= Z.add 1 |>) = pending_copies (sb w) ++ [(chunk, exception)]).
    { unfold pending_copies. cbn -[run_of Z.add]. rewrite Z2Nat.inj_add by lia. change (Z.to_nat 1) with 1%nat.
      rewrite Nat.add_1_l, run_of_snoc. rewrite Z2Nat.id by lia. by rewrite <- Es, <- Ed. }
    split; [done|]. split_and!.
    + constructor; try done. change (0 <= 1 + copy_chunks (sb w) <= copy_room (sb w)). unfold copy_room. lia.
    + exists (copybuf (sb w)), (source_chunk (sb w)), (dest_exception (sb w)), (1 + copy_chunks (sb w)), (snap_data w).
      split; [done|]. by destruct w as [[] ? ? ? ? ? ? ? ? ? ? ? ? ?].
    + unfold settled at 1. cbn -[run_of Z.add copy_one]. by rewrite Ep, foldl_app.
    + intros q. cbn -[run_of Z.add pending_copies]. by rewrite Ep.
  - wp_steps. eapply wp_mono; [by apply finish_copyout_run|]. cbv beta. intros _ w1 (_ & Hoc & Hsnap & H0).
    unfold modsb. wp_steps. split; [done|]. split; [by eapply copyout_restart|]. split; [by apply only_copies_state|].
    destruct (only_copies_frame _ _ Hoc) as (Eo & _). split.
    + unfold settled at 1, pending_copies. cbn -[copy_one]. by rewrite Hsnap, Eo.
    + intros q Hq. change (q ∈ [(chunk, exception)]) in Hq. in_list.
Qed.

(** ** A sequence of copies *)

(** The requests of one call: all chunks exist, and a chunk that is written is
    not read by another request nor by a pending copy, nor the other way
    round. *)
Definition reqs_ok (w : world) (reqs : list (Z * Z)) : Prop :=
  Forall (fun p => is_u64 p.1 /\ 0 <= p.2 < 2 ^ 63 /\ is_Some (fetch (org_data w) (snap_data w) p.1) /\
    is_Some (snap_data w !! p.2)) reqs /\
  forall p q, p ∈ reqs -> q ∈ pending_copies (sb w) ++ reqs -> p.1 <> 2 ^ 63 + q.2 /\ q.1 <> 2 ^ 63 + p.2.

Lemma reqs_ok_head w p reqs : reqs_ok w (p :: reqs) -> copy_ok w p.1 p.2.
Proof.
  intros [HF Hap]. apply Forall_cons in HF as [(Hs & Hd & Hf & Hr) _].
  constructor; try done; [by apply (Hap p p); in_list|..];
    apply Forall_forall; intros q Hq; destruct (Hap p q) as [? ?]; try done; in_list.
Qed.

Lemma only_copies_dom w w' :
  copies_ok w -> copies_ok w' -> only_copies w w' -> (forall x, is_Some (settled w !! x) -> is_Some (settled w' !! x)) ->
  forall src, is_Some (fetch (org_data w) (snap_data w) src) -> is_Some (fetch (org_data w') (snap_data w') src).
Proof.
  intros Hw Hw' Hoc Hs src. destruct (only_copies_frame _ _ Hoc) as (-> & _). apply fetch_some.
  intros x Hx. by apply settled_dom, Hs, settled_dom.
Qed.

Lemma reqs_ok_tail w w' p reqs :
  copies_ok w -> copies_ok w' -> only_copies w w' ->
  settled w' = copy_one (org_data w) (settled w) p ->
  (forall q, q ∈ pending_copies (sb w') -> q ∈ pending_copies (sb w) ++ [p]) ->
  reqs_ok w (p :: reqs) -> reqs_ok w' reqs.
Proof.
  intros Hw Hw' Hoc Hset Hp [HF Hap]. apply Forall_cons in HF as [_ HF].
  assert (Hs : forall x, is_Some (settled w !! x) -> is_Some (settled w' !! x)).
  { intros x Hx. rewrite Hset. by apply (copies_some (org_data w) [p]). }
  split.
  - eapply Forall_impl; [exact HF|]. cbv beta. intros q (? & ? & Hf & Hr). split; [done|]. split; [done|]. split.
    + exact (only_copies_dom w w' Hw Hw' Hoc Hs _ Hf).
    + by apply settled_dom, Hs, settled_dom.
  - intros q r Hq Hr. apply Hap; [in_list|]. specialize (Hp r). in_list.
Qed.

Lemma only_copies_trans w1 w2 w3 : only_copies w1 w2 -> only_copies w2 w3 -> only_copies w1 w3.
Proof.
  intros (b1 & s1 & d1 & n1 & m1 & Hl1 & ->) (b2 & s2 & d2 & n2 & m2 & Hl2 & ->).
  exists b2, s2, d2, n2, m2. split; [|done]. by rewrite Hl2.
Qed.

(** C24: copies deferred by [copyout] and done by [finish_copyout], with runs of
    consecutive chunks read and written together through the copy buffer, leave
    the snapshot store as copying one chunk at a time in the order of the
    requests would; nothing is left pending, and nothing but the store and the
    bookkeeping of the copies changes.  (Bit 63 of a source marks a chunk of the
    snapshot store.) *)
Theorem copyout_correct reqs w :
  copies_ok w -> reqs_ok w reqs ->
  wp (foreach reqs (fun p => copyout p.1 p.2;; mret tt);; finish_copyout) (fun r w' =>
    r = 0 /\ only_copies w w' /\ copy_chunks (sb w') = 0 /\
    snap_data w' = foldl (copy_one (org_data w)) (settled w) reqs) w.
Proof.
  revert w. induction reqs as [|p reqs IH]; intros w Hw Hok; cbn [foreach].
  - apply wp_bind, wp_ret. eapply wp_mono; [by apply finish_copyout_run|]. cbv beta. tauto.
  - apply wp_bind, wp_bind, wp_bind. eapply wp_mono; [apply copyout_run; [done|by eapply reqs_ok_head]|].
    cbv beta. intros _ w1 (_ & Hw1 & Hoc & Hset & Hp). wp_steps.
    rewrite <- surjective_pairing in Hset, Hp.
    assert (Hok1 : reqs_ok w1 reqs) by exact (reqs_ok_tail w w1 p reqs Hw Hw1 Hoc Hset Hp Hok).
    specialize (IH w1 Hw1 Hok1). unfold wp, mbind, M_bind, m_bind in IH |- *.
    destruct (foreach reqs _ w1) as [a w2|]; [|done]. destruct (finish_copyout w2) as [r w3|]; [|done].
    destruct IH as (-> & Hoc2 & H0 & Hs). split; [done|]. split; [by eapply only_copies_trans|]. split; [done|].
    rewrite Hs, Hset. by destruct (only_copies_frame _ _ Hoc) as (-> & _).
Qed.
