(* ===== verification/Unique.v ===== *)
(** * What a snapshot reads, and making a chunk unique

    The contents of the snapshots in terms of the tree, the origin and the
    snapshot store with its pending copies, and the theorem that [make_unique]
    keeps them. *)

From S2P Require Import Prelude Bytes State Buffer Bitmap Leaf LeafSpec LeafInv LeafView Node Alloc Journal Btree Snapshot CacheInv CacheRoom CacheMem BitmapInv AllocInv MetaInv Tree TreeInsert CopyoutSpec.

(** ** Chunks of the exceptions *)

(** The chunks of the snapshot store that the tree uses *)
Definition exc_chunks (C : aleaf) : list Z := chunk_of <$> all_excs C.

Lemma unshare_chunks m es : chunk_of <$> unshare_first m es = chunk_of <$> es.
Proof. induction es as [|x es IH]; cbn; [done|]. destruct_if; cbn; [by rewrite IH|done]. Qed.

Lemma add_exc_chunks e s a es : chunk_of <$> add_exc e s a es = e :: (chunk_of <$> es).
Proof. unfold add_exc. destruct_if; cbn; [done|]. by rewrite unshare_chunks. Qed.

Lemma exc_chunks_add c e s a C : exc_chunks (add_entry c e s a C) ≡ₚ e :: exc_chunks C.
Proof.
  unfold exc_chunks, all_excs. induction C as [|[r es] C IH]; cbn [add_entry flat_map snd].
  - rewrite !app_nil_r. by rewrite add_exc_chunks.
  - destruct (r <? c); [|destruct (r =? c)]; cbn [flat_map snd]; rewrite !fmap_app.
    + rewrite IH. by rewrite Permutation_middle.
    + by rewrite add_exc_chunks.
    + by rewrite add_exc_chunks.
Qed.

(** The chunks of the exceptions of one chunk of the origin *)
Definition excs_at (C : aleaf) (c : Z) : list Z := chunk_of <$> excs_of C c.

Lemma excs_at_in C c e : e ∈ excs_at C c -> e ∈ exc_chunks C.
Proof.
  intros (x & -> & Hx)%list_elem_of_fmap. apply list_elem_of_fmap. exists x. split; [done|]. unfold all_excs.
  apply list_elem_of_In, in_flat_map. unfold excs_of in Hx. destruct (list_find _ C) as [[i [r es]]|] eqn:E; [|by apply elem_of_nil in Hx].
  apply list_find_Some in E as (Hi & _ & _). exists (r, es). split; [|by apply list_elem_of_In].
  apply list_elem_of_In. by eapply list_elem_of_lookup_2.
Qed.

Lemma held_excs_at C c n e : held C c n = Some e -> e ∈ excs_at C c.
Proof.
  unfold held, exc_for. destruct (find _ (excs_of C c)) as [x|] eqn:E; [|done]. intros [= <-].
  apply find_some in E as [Hin _]. apply list_elem_of_fmap. exists x. split; [done|]. by apply list_elem_of_In.
Qed.

Lemma held_in C c n e : held C c n = Some e -> e ∈ exc_chunks C.
Proof. intros H. eapply excs_at_in. by eapply held_excs_at. Qed.

(** No chunk of the store is used for two chunks of the origin. *)
Lemma excs_at_apart C c c' e : NoDup (exc_chunks C) -> e ∈ excs_at C c -> e ∈ excs_at C c' -> c = c'.
Proof.
  unfold excs_at. induction C as [|[r es] C IH]; intros Hnd; [by intros ?%elem_of_nil|].
  unfold exc_chunks in Hnd. cbn [all_excs flat_map snd] in Hnd. rewrite fmap_app in Hnd.
  apply NoDup_app in Hnd as (_ & Hdis & Hnd). rewrite !excs_of_cons.
  assert (Hno : forall c, e ∈ chunk_of <$> es -> e ∈ chunk_of <$> excs_of C c -> False).
  { intros x H1 H2. eapply Hdis; [exact H1|]. by eapply (excs_at_in C x). }
  destruct (Z.eqb_spec r c) as [E1|E1], (Z.eqb_spec r c') as [E2|E2]; intros H1 H2; [congruence| | |by apply IH]; exfalso; eauto.
Qed.

(** ** Contents *)

(** What snapshot [n] reads at chunk [c]: its exception in the snapshot store,
    with the pending copies done, or the origin. *)
Definition snap_value (w : world) (C : aleaf) (n c : Z) : option Z :=
  match held C c n with
  | Some e => settled w !! e
  | None => org_data w !! c
  end.

(** ** The invariant of the store *)

Record store_ok (w : world) (C : aleaf) (F : list Z) : Prop := {
  so_meta : meta_ok w F;
  so_tree : tree_ok w C F;
  so_copies : copies_ok w;
  (* the exceptions are in use, and chunk 0 is not one of them *)
  so_used : forall e, e ∈ exc_chunks C -> 0 < e < chunks (asi SNAPDATA (sb w)) /\ bit_used (view w) (sb w) SNAPDATA e;
  so_zero : bit_used (view w) (sb w) SNAPDATA 0;
  so_apart : NoDup (exc_chunks C);
  (* the snapshot device has all its chunks *)
  so_data : forall e, 0 <= e < chunks (asi SNAPDATA (sb w)) -> is_Some (snap_data w !! e);
  (* pending copies are between exceptions, or from the origin to one *)
  so_pend : forall p, p ∈ pending_copies (sb w) ->
    p.2 ∈ exc_chunks C /\ (is_snap_source p.1 = true -> p.1 - 2 ^ 63 ∈ exc_chunks C);
  so_mask : is_u64 (snapmask (sb w));
  so_size : 1088 <= allocsize (metadata (sb w)) }.

(** What one call of [make_unique] may need: buffers for a path of the tree and
    the new blocks, free chunks in both spaces, and a free count that says
    so. *)
Record resources (w : world) (F : list Z) : Prop := {
  rs_room : ~ no_room w (3 * Z.of_nat (etree_levels (image (sb w))) + 7);
  rs_disk : forall x, x ∈ F -> is_Some (disk w !! x);
  rs_bitmap : forall which, ~ bitmap_lost w which;
  rs_snap : exists c, 0 <= c < chunks (asi SNAPDATA (sb w)) /\ available w SNAPDATA c;
  rs_meta : exists l, NoDup l /\ (etree_levels (image (sb w)) + 3 <= length l)%nat /\
    Forall (fun c => 0 <= c < chunks (asi METADATA (sb w)) /\ available w METADATA c) l;
  rs_count : MAX_NEW_METACHUNKS + 1 <= freechunks (asi METADATA (sb w)) /\ 1 <= freechunks (asi SNAPDATA (sb w)) }.

Lemma resources_probe w F : resources w F -> ~ walk_failed w F (etree_levels (image (sb w)) + 1).
Proof.
  intros Hr [H|(x & Hx & Hd)].
  - apply (rs_room _ _ Hr). eapply no_room_mono; [exact H|lia].
  - destruct (rs_disk _ _ Hr x Hx). congruence.
Qed.

Lemma resources_snap w F w1 l :
  resources w F -> mem_ok w -> mem_ok w1 -> cstep w w1 -> took w w1 l ->
  (length l <= etree_levels (image (sb w)) + 1)%nat -> ~ alloc_failed w1 SNAPDATA.
Proof.
  intros Hr Hm Hm1 Hc Ht Hl. assert (Es : sb w1 = sb w) by apply Hc. intros [H|[(k & Hk & Hd)|H]].
  - apply (rs_room _ _ Hr). eapply no_room_mono; [by eapply took_no_room|lia].
  - apply (rs_bitmap _ _ Hr SNAPDATA). rewrite Es, (same_disk _ _ (cs_store _ _ Hc)) in *. by exists k.
  - rewrite Es in H. destruct (rs_snap _ _ Hr) as (c & Hcr & d & Hd & Hrest). apply (H c Hcr). exists d.
    rewrite Es, (cs_view _ _ Hc). done.
Qed.

Lemma resources_tree w F w1 l :
  resources w F -> mem_ok w -> mem_ok w1 -> cstep w w1 -> took w w1 l ->
  (length l <= etree_levels (image (sb w)) + 1)%nat -> ~ lack w1 (etree_levels (image (sb w)) + 3).
Proof.
  intros Hr Hm Hm1 Hc Ht Hl. assert (Es : sb w1 = sb w) by apply Hc. intros [H|[(k & Hk & Hd)|(l' & Hl' & H)]].
  - apply (rs_room _ _ Hr). eapply no_room_mono; [by eapply took_no_room|lia].
  - apply (rs_bitmap _ _ Hr METADATA). rewrite Es, (same_disk _ _ (cs_store _ _ Hc)) in *. by exists k.
  - rewrite Es in H. destruct (rs_meta _ _ Hr) as (la & Hnd & Hlen & Hall).
    assert (Hsub : (length la <= length l')%nat); [|lia]. apply submseteq_length, NoDup_submseteq; [done|].
    intros c Hcin. rewrite Forall_forall in Hall. destruct (Hall c Hcin) as (Hcr & d & Hd & Hrest).
    apply H; [done|]. exists d. rewrite Es, (cs_view _ _ Hc). done.
Qed.

(** ** Copies leave the metadata alone *)

Lemma only_copies_meta w w' G : only_copies w w' -> meta_ok w G -> meta_ok w' G.
Proof.
  intros (buf & src & dst & n & snap & _ & ->) [[[] [] Hs] [[] Hsp Hn Hd] Ht Hb Hu Hj Hjb Hju].
  constructor; [|constructor|exact Ht|exact Hb|exact Hu|exact Hj|exact Hjb|exact Hju].
  - constructor; [by constructor|by constructor|exact Hs].
  - by constructor.
  - intros which. destruct (Hsp which). by constructor.
  - exact Hn.
  - exact Hd.
Qed.

(** Everything the tree code looks at is the same. *)
Record same_meta (w w' : world) : Prop := {
  sm_view : forall x, view w' x = view w x;
  sm_pins : forall x, pins w' x = pins w x;
  sm_usable : forall x, usable w x -> usable w' x;
  sm_image : image (sb w') = image (sb w);
  sm_mask : snapmask (sb w') = snapmask (sb w);
  sm_size : metadata (sb w') = metadata (sb w);
  sm_bits : forall which c, bit_used (view w) (sb w) which c -> bit_used (view w') (sb w') which c;
  sm_asi : forall which, asi which (sb w') = asi which (sb w);
  sm_lack : forall n, lack w' n -> lack w n }.

Lemma only_copies_same w w' : only_copies w w' -> same_meta w w'.
Proof. intros (buf & src & dst & n & snap & _ & ->). by constructor. Qed.

(** ** The copies are as they were *)

Lemma copies_ok_xstep w w' :
  copies_ok w -> xstep w w' -> rest (sb w') = rest (sb w) ->
  allocsize_bits (asi SNAPDATA (sb w')) = allocsize_bits (asi SNAPDATA (sb w)) ->
  copies_ok w' /\ pending_copies (sb w') = pending_copies (sb w) /\ settled w' = settled w.
Proof.
  intros [H1 H2 H3 H4 H5 H6 H7 H8] Hx Er Ea. unfold rest in Er. injection Er as _ _ _ E1 E2 E3 E4 E5 _ _ _ _.
  assert (Ep : pending_copies (sb w') = pending_copies (sb w)) by (unfold pending_copies; congruence).
  assert (Ec : copy_room (sb w') = copy_room (sb w)) by (unfold copy_room; congruence).
  split; [|split; [done|]].
  - constructor; rewrite ?(xs_org _ _ Hx), ?(xs_snap _ _ Hx), ?Ec, ?Ea, ?E1, ?E2, ?E3, ?E4, ?E5; done.
  - unfold settled. by rewrite Ep, (xs_org _ _ Hx), (xs_snap _ _ Hx).
Qed.

(** ** Enough room *)

Lemma ensure_free_chunks_enough which n w :
  n <= freechunks (asi which (sb w)) -> wp (ensure_free_chunks which n) (fun r w' => r = 0 /\ w' = w) w.
Proof.
  intros Hn. unfold ensure_free_chunks, getsb. wp_steps. cbn [loopM]. apply wp_bind. wp_steps.
  rewrite (proj2 (Z.leb_le _ _) Hn). wp_steps. by apply wp_ret.
Qed.

Lemma ensure_room_enough w :
  MAX_NEW_METACHUNKS + 1 <= freechunks (asi METADATA (sb w)) -> 1 <= freechunks (asi SNAPDATA (sb w)) ->
  wp ensure_room (fun r w' => r = true /\ w' = w) w.
Proof.
  intros Hm Hs. unfold ensure_room, getsb. wp_steps. destruct (combined (sb w)); wp_steps.
  - eapply wp_mono; [by apply ensure_free_chunks_enough|]. cbv beta. intros r w' [-> ->]. by wp_steps.
  - eapply wp_mono; [apply ensure_free_chunks_enough; lia|]. cbv beta. intros r w' [-> ->]. cbn [Z.eqb negb]. wp_steps.
    eapply wp_mono; [by apply ensure_free_chunks_enough|]. cbv beta. intros r w' [-> ->]. by wp_steps.
Qed.

(** ** The uniqueness that was made *)

Lemma added_unique C c e s a :
  leaf_wf C -> Forall ent_ok C -> is_u64 e -> is_u64 a -> -1 <= s < 64 -> already_unique (add_entry c e s a C) c s a = true.
Proof.
  intros [Hs _] Hok He Ha Hsn. unfold already_unique. rewrite excs_of_add_entry, Z.eqb_refl by done. unfold add_exc.
  pose proof (excs_of_u64 C c Hok) as Hu. destruct (Z.eqb_spec s (-1)) as [->|Hne].
  - apply mask_covered; [|done|].
    + apply shares_range. constructor; [|done]. split; cbn; [|done]. apply u64_land_range; [auto with width|unfold is_u64 in Ha; lia].
    + intros i Hi Hb. rewrite shares_testbit by lia. cbn [existsb share]. rewrite Z.land_spec, Hb, lnot64_testbit, andb_true_r by done.
      rewrite shares_testbit by lia. by destruct (existsb _ (excs_of C c)).
  - cbn [find share]. rewrite bit64_testbit, Z.eqb_refl by lia. apply Z.eqb_refl.
Qed.

(** ** The copy *)

(** The source that [make_unique] copies from for [s] *)
Definition copy_source (C : aleaf) (c s : Z) : Z :=
  let e := if s =? -1 then 0 else from_option chunk_of 0 (exc_for C c s) in
  if negb (e =? 0) then Z.lor e (bit64 chunk_highbit) else c.

Lemma highbit_add e : 0 <= e < 2 ^ 63 -> Z.lor e (bit64 chunk_highbit) = 2 ^ 63 + e.
Proof.
  intros He. change (bit64 chunk_highbit) with (2 ^ 63). assert (H0 : Z.land (2 ^ 63) e = 0).
  { apply Z.bits_inj'. intros i Hi. rewrite Z.land_spec, Z.bits_0, Z.pow2_bits_eqb by lia.
    destruct (Z.eqb_spec 63 i) as [<-|]; [|done]. cbn [andb]. rewrite Z.testbit_false by lia. by rewrite Z.div_small by lia. }
  by rewrite Z.lor_comm, Z.add_nocarry_lxor, Z.lxor_lor.
Qed.

(** It is the exception that [s] has, or else the chunk of the origin. *)
Lemma copy_source_cases w C F c s :
  store_ok w C F -> 0 <= c < KEY_TOP ->
  (exists e, s <> -1 /\ held C c s = Some e /\ e ∈ excs_at C c /\ 0 < e < chunks (asi SNAPDATA (sb w)) /\ e < 2 ^ 48 /\ copy_source C c s = 2 ^ 63 + e) \/
  ((s = -1 \/ held C c s = None) /\ copy_source C c s = c).
Proof.
  intros Hst Hc. unfold copy_source. destruct (Z.eqb_spec s (-1)) as [->|Hne]; cbn [negb].
  { right. split; [by left|done]. }
  destruct (exc_for C c s) as [x|] eqn:Ex; cbn.
  2:{ right. split; [right|done]. unfold held. by rewrite Ex. }
  left. assert (Hh : held C c s = Some (chunk_of x)) by (unfold held; by rewrite Ex).
  pose proof (held_excs_at _ _ _ _ Hh) as Hat. destruct (so_used _ _ _ Hst (chunk_of x)) as [Hr _]; [by eapply excs_at_in|].
  pose proof (sp_chunks _ _ (ly_sp _ (mo_layout _ _ (so_meta _ _ _ Hst)) SNAPDATA)) as Hch.
  exists (chunk_of x). rewrite (proj2 (Z.eqb_neq _ _)) by lia. cbn [negb]. rewrite highbit_add by lia. split_and!; try done; lia.
Qed.

(** What the copy reads *)
Lemma copy_source_fetch w C F c s (snap : gmap Z Z) :
  store_ok w C F -> 0 <= c < KEY_TOP ->
  fetch (org_data w) snap (copy_source C c s) =
  match (if s =? -1 then None else held C c s) with Some e => snap !! e | None => org_data w !! c end.
Proof.
  intros Hst Hc. unfold fetch. destruct (copy_source_cases w C F c s Hst Hc) as [(e & Hs & Hh & _ & He & He2 & ->)|[Hs ->]].
  - rewrite is_snap_source_range by lia. rewrite (proj2 (Z.leb_le _ _)) by lia. rewrite (proj2 (Z.eqb_neq _ _) Hs), Hh. f_equal. lia.
  - unfold KEY_TOP in Hc. rewrite is_snap_source_range by lia. rewrite (proj2 (Z.leb_gt _ _)) by lia.
    destruct (Z.eqb_spec s (-1)); [done|]. by destruct Hs as [?| ->].
Qed.

Lemma pending_range w p : copies_ok w -> p ∈ pending_copies (sb w) -> 0 <= p.1 < 2 ^ 64 /\ 0 <= p.2.
Proof.
  intros Hw Hp. pose proof (ck_run _ Hw) as Hr. pose proof (ck_count _ Hw) as [Hn _].
  apply list_elem_of_lookup in Hp as [i Hi]. unfold pending_copies in Hi.
  destruct (decide (i < Z.to_nat (copy_chunks (sb w)))%nat) as [Hlt|Hge].
  - rewrite run_of_lookup in Hi by done. injection Hi as <-. destruct Hr. cbn. lia.
  - rewrite lookup_ge_None_2 in Hi; [done|]. assert (Hl : forall n src dst, length (run_of src dst n) = n) by (induction n; intros; cbn; congruence).
    rewrite Hl. lia.
Qed.

Lemma copy_ok_new w C F c s e :
  store_ok w C F -> 0 <= c < KEY_TOP -> is_Some (org_data w !! c) ->
  (forall p, p ∈ pending_copies (sb w) -> p.2 ∉ excs_at C c) ->
  0 <= e < chunks (asi SNAPDATA (sb w)) -> ~ bit_used (view w) (sb w) SNAPDATA e -> copy_ok w (copy_source C c s) e.
Proof.
  intros Hst Hc Horg Hpend He Hfree.
  pose proof (sp_chunks _ _ (ly_sp _ (mo_layout _ _ (so_meta _ _ _ Hst)) SNAPDATA)) as Hch.
  pose proof (copy_source_cases w C F c s Hst Hc) as Hcase. unfold KEY_TOP in Hc. constructor.
  - unfold is_u64. destruct Hcase as [(x & _ & _ & _ & ? & ? & ->)|[_ ->]]; lia.
  - lia.
  - rewrite (copy_source_fetch w C F c s) by done. destruct Hcase as [(x & Hs & Hh & _ & Hx & _)|[Hs _]].
    + rewrite (proj2 (Z.eqb_neq _ _) Hs), Hh. apply (so_data _ _ _ Hst). lia.
    + destruct (Z.eqb_spec s (-1)); [done|]. by destruct Hs as [?| ->].
  - by apply (so_data _ _ _ Hst).
  - destruct Hcase as [(x & _ & _ & Hin & ? & ? & ->)|[_ ->]]; [|lia]. intros E. apply Hfree. assert (x = e) as <- by lia.
    by apply (so_used _ _ _ Hst), (excs_at_in C c).
  - apply Forall_forall. intros p Hp. pose proof (pending_range w p (so_copies _ _ _ Hst) Hp).
    destruct Hcase as [(x & _ & _ & Hin & ? & ? & ->)|[_ ->]]; [|lia]. intros E. apply (Hpend p Hp). by assert (p.2 = x) as -> by lia.
  - apply Forall_forall. intros p Hp E. pose proof (pending_range w p (so_copies _ _ _ Hst) Hp) as [Hr _].
    apply Hfree. destruct (so_pend _ _ _ Hst p Hp) as [_ Hsrc]. rewrite is_snap_source_range in Hsrc by done.
    rewrite (proj2 (Z.leb_le _ _)) in Hsrc by lia. replace e with (p.1 - 2 ^ 63) by lia.
    by apply (so_used _ _ _ Hst), Hsrc.
Qed.

(** ** The contents after the copy *)

Lemma values_added w w' C F c s e n c' :
  store_ok w C F -> 0 <= c < KEY_TOP -> -1 <= s < 64 -> is_Some (org_data w !! c) -> e ∉ exc_chunks C ->
  settled w' = copy_one (org_data w) (settled w) (copy_source C c s, e) -> org_data w' = org_data w -> 0 <= n < 64 ->
  snap_value w' (add_entry c e s (snapmask (sb w)) C) n c' = snap_value w C n c'.
Proof.
  intros Hst Hc Hs Horg Hnew Hset Eorg Hn. destruct (tree_entries _ _ _ (so_tree _ _ _ Hst)) as [Hwf Hok].
  unfold snap_value. rewrite held_add; [|done|done|apply Hst|done|done].
  set (v := match (if s =? -1 then None else held C c s) with Some x => settled w !! x | None => org_data w !! c end).
  assert (Hv : is_Some v).
  { unfold v. destruct (if s =? -1 then None else held C c s) as [x|] eqn:E; [|done].
    destruct (s =? -1); [done|]. apply settled_dom; [apply Hst|]. apply (so_data _ _ _ Hst).
    destruct (so_used _ _ _ Hst x) as [? _]; [by eapply held_in|]. lia. }
  assert (Eset : settled w' = match v with Some y => <[e := y]> (settled w) | None => settled w end).
  { rewrite Hset. unfold copy_one. cbn [fst snd]. by rewrite (copy_source_fetch w C F c s _ Hst Hc). }
  destruct Hv as [y Hy]. rewrite Hy in Eset.
  assert (Hold : forall x, held C c' n = Some x -> settled w' !! x = settled w !! x).
  { intros x Hx. rewrite Eset, lookup_insert_ne; [done|]. intros ->. apply Hnew. by eapply held_in. }
  assert (Hthis : settled w' !! e = v) by (rewrite Eset, lookup_insert_eq; by rewrite Hy).
  unfold held_after. destruct (Z.eqb_spec c' c) as [->|Hne]; cbn [negb].
  2:{ destruct (held C c' n) as [x|] eqn:Ex; [by apply Hold|by rewrite Eorg]. }
  destruct (Z.eqb_spec s (-1)) as [->|Hne].
  - destruct (held C c n) as [x|] eqn:Ex; [by apply Hold|]. destruct (Z.testbit _ n); [|by rewrite Eorg]. by rewrite Hthis.
  - destruct (Z.eqb_spec n s) as [->|Hns]; [|destruct (held C c n) as [x|] eqn:Ex; [by apply Hold|by rewrite Eorg]].
    rewrite Hthis. done.
Qed.

(** What [make_unique] leaves behind: [r] is its result, and the tree has the
    entries [C'] then. *)
Record made_unique (w : world) (C : aleaf) (c s r : Z) (w' : world) (C' : aleaf) (F' : list Z) : Prop := {
  mu_store : store_ok w' C' F';
  mu_took : took w w' [];
  mu_org : org_data w' = org_data w;
  mu_disk : disk w' = disk w;
  mu_snaps : snapmask (sb w') = snapmask (sb w) /\ snaplist (image (sb w')) = snaplist (image (sb w));
  mu_fixed : fixed (sb w') = fixed (sb w);
  (* no snapshot changes *)
  mu_values : forall n c', 0 <= n < 64 -> snap_value w' C' n c' = snap_value w C n c';
  (* the chunk is unique now *)
  mu_unique : already_unique C' c s (snapmask (sb w)) = true;
  mu_held : s <> -1 -> held C' c s = Some r;
  mu_result : r <> NOCHUNK;
  mu_others : forall c', c' <> c -> excs_of C' c' = excs_of C c';
  mu_pend : forall p, p ∈ pending_copies (sb w') -> p ∈ pending_copies (sb w) \/ p.2 ∈ excs_at C' c }.

Lemma store_ok_cstep w w' C F : store_ok w C F -> mem_ok w' -> cstep w w' -> store_ok w' C F.
Proof.
  intros Hst Hm Hc. pose proof Hst as [H1 H2 H3 H4 H5 H6 H7 H8 H9 H10]. assert (Es : sb w' = sb w) by apply Hc.
  destruct (copies_ok_xstep w w' H3 (cstep_xstep _ _ Hc)) as (Hck & _ & _); [by rewrite Es|by rewrite Es|].
  assert (Hbit : forall which c, bit_used (view w) (sb w) which c -> bit_used (view w') (sb w') which c).
  { intros which c. unfold bit_used. by rewrite Es, (cs_view _ _ Hc). }
  constructor; rewrite ?Es in *; try done.
  - by eapply meta_ok_cstep.
  - eapply tree_ok_sub; [done|by rewrite Es|]. intros; apply Hc.
  - intros e He. destruct (H4 e He). split; [done|]. by apply Hbit.
  - by apply Hbit.
  - intros e. rewrite (same_snap _ _ (cs_store _ _ Hc)). apply H7.
Qed.

(** The chunk was unique before. *)
Lemma made_unique_same w w' C F c s :
  store_ok w C F -> mem_ok w' -> cstep w w' -> took w w' [] -> -1 <= s < 64 -> already_unique C c s (snapmask (sb w)) = true ->
  made_unique w C c s (if s =? -1 then 0 else from_option chunk_of 0 (exc_for C c s)) w' C F.
Proof.
  intros Hst Hm Hc Ht Hs Hun. assert (Es : sb w' = sb w) by apply Hc.
  assert (Hheld : s <> -1 -> exists e, exc_for C c s = Some e).
  { intros Hne. unfold already_unique in Hun. rewrite (proj2 (Z.eqb_neq _ _) Hne) in Hun. unfold exc_for.
    destruct (find _ _); [eauto|done]. }
  constructor; rewrite ?Es; try done.
  - by eapply store_ok_cstep.
  - apply Hc.
  - apply Hc.
  - intros n c' Hn. unfold snap_value. rewrite (same_org _ _ (cs_store _ _ Hc)). destruct (held C c' n); [|done].
    unfold settled. by rewrite Es, (same_org _ _ (cs_store _ _ Hc)), (same_snap _ _ (cs_store _ _ Hc)).
  - intros Hne. rewrite (proj2 (Z.eqb_neq _ _) Hne). destruct (Hheld Hne) as [e He]. unfold held. by rewrite He.
  - destruct (Z.eqb_spec s (-1)) as [|Hne]; [done|]. destruct (Hheld Hne) as [e He]. rewrite He. cbn.
    assert (Hh : held C c s = Some (chunk_of e)) by (unfold held; by rewrite He).
    destruct (so_used _ _ _ Hst (chunk_of e)) as [Hr _]; [by eapply held_in|].
    pose proof (sp_chunks _ _ (ly_sp _ (mo_layout _ _ (so_meta _ _ _ Hst)) SNAPDATA)) as Hch.
    unfold NOCHUNK, u64. change ((-1) mod 2 ^ 64) with (2 ^ 64 - 1). lia.
  - intros p Hp. by left.
Qed.

(** ** A new exception *)

Lemma allocated_rest w w' which c : allocated w w' which c ->
  layout (sb w) -> rest (sb w') = rest (sb w) /\
  allocsize_bits (asi SNAPDATA (sb w')) = allocsize_bits (asi SNAPDATA (sb w)).
Proof.
  intros Ha Hl. assert (Hs : same_layout (sb w) (sb w')).
  { rewrite (al_sb _ _ _ _ Ha). apply record_alloc_layout; [done|apply Ha]. }
  split; apply Hs.
Qed.

(** A chunk of the snapshot store was allocated. *)
Lemma store_ok_alloc w w' C F e : store_ok w C F -> allocated w w' SNAPDATA e -> store_ok w' C F.
Proof.
  intros Hst Ha. pose proof Hst as [H1 H2 H3 H4 H5 H6 H7 H8 H9 H10].
  destruct (allocated_rest _ _ _ _ Ha (mo_layout _ _ H1)) as [Er Eb].
  destruct (copies_ok_xstep w w' H3 (al_x _ _ _ _ Ha) Er Eb) as (Hck & Ep & Hset).
  destruct (meta_ok_allocated _ _ _ _ _ H1 Ha) as (Hm' & Hs & Hv).
  assert (Hbit : forall c, bit_used (view w) (sb w) SNAPDATA c -> bit_used (view w') (sb w') SNAPDATA c).
  { intros c Hu. rewrite (sl_bit_used _ _ _ _ _ Hs). eapply allocated_bits; [by eapply meta_ok_nil|done|done]. }
  destruct (sl_asi _ _ Hs SNAPDATA) as (Ec & _). unfold rest in Er. injection Er as Emask _ _ _ _ _ _ _ _ _ _ _.
  constructor; try done.
  - eapply tree_ok_sub; [done| |done]. rewrite (al_sb _ _ _ _ Ha). apply record_alloc_root.
  - intros x Hx. destruct (H4 x Hx). rewrite Ec. split; [done|]. by apply Hbit.
  - by apply Hbit.
  - intros x. rewrite Ec, (xs_snap _ _ (al_x _ _ _ _ Ha)). apply H7.
  - by rewrite Ep.
  - by rewrite Emask.
  - by rewrite (sl_meta _ _ Hs).
Qed.

Lemma copy_ok_xstep w w' src e :
  xstep w w' -> pending_copies (sb w') = pending_copies (sb w) -> copy_ok w src e -> copy_ok w' src e.
Proof. intros Hx Ep []. constructor; rewrite ?Ep, ?(xs_org _ _ Hx), ?(xs_snap _ _ Hx); done. Qed.

(** The state after the insertion, from the one after the allocation *)
Lemma store_ok_added w2 w3 w4 C F F' c s e q :
  store_ok w2 C F -> 0 <= c < KEY_TOP -> -1 <= s < 64 ->
  0 < e < chunks (asi SNAPDATA (sb w2)) -> bit_used (view w2) (sb w2) SNAPDATA e -> e ∉ exc_chunks C ->
  copies_ok w3 -> only_copies w2 w3 -> settled w3 = copy_one (org_data w2) (settled w2) (copy_source C c s, e) ->
  (forall p, p ∈ pending_copies (sb w3) -> p ∈ pending_copies (sb w2) ++ [(copy_source C c s, e)]) ->
  mstep q w3 w4 F F' -> xstep w3 w4 -> tree_ok w4 (add_entry c e s (snapmask (sb w2)) C) F' ->
  store_ok w4 (add_entry c e s (snapmask (sb w2)) C) F' /\ settled w4 = settled w3 /\
  pending_copies (sb w4) = pending_copies (sb w3).
Proof.
  intros Hst Hc Hs He Hbe Hnew Hck Hoc Hset Hp Hms Hx Ht. pose proof (only_copies_same _ _ Hoc) as Hsm.
  destruct (copies_ok_xstep w3 w4 Hck Hx) as (Hck4 & Ep & Eset); [apply Hms|apply Hms|]. split; [|done].
  pose proof Hst as [H1 H2 H3 H4 H5 H6 H7 H8 H9 H10]. pose proof (exc_chunks_add c e s (snapmask (sb w2)) C) as Hperm.
  destruct (sl_asi _ _ (ms_same _ _ _ _ _ Hms) SNAPDATA) as (Ec & _). rewrite (sm_asi _ _ Hsm) in Ec.
  pose proof (sl_rest _ _ (ms_same _ _ _ _ _ Hms)) as Er. unfold rest in Er. injection Er as Emask _ _ _ _ _ _ _ _ _ _ _.
  pose proof (sp_chunks _ _ (ly_sp _ (mo_layout _ _ H1) SNAPDATA)) as Hch.
  assert (Hbit : forall x, 0 <= x < chunks (asi SNAPDATA (sb w2)) -> bit_used (view w2) (sb w2) SNAPDATA x -> bit_used (view w4) (sb w4) SNAPDATA x).
  { intros x Hx0 Hu. apply (ms_bits _ _ _ _ _ Hms); [by rewrite (sm_asi _ _ Hsm)|]. by apply (sm_bits _ _ Hsm). }
  constructor; try done.
  - apply Hms.
  - intros x Hin. rewrite Hperm in Hin. rewrite Ec. apply elem_of_cons in Hin as [->|Hin].
    + split; [done|]. apply Hbit; [lia|done].
    + destruct (H4 x Hin). split; [done|]. apply Hbit; [lia|done].
  - apply Hbit; [lia|done].
  - rewrite Hperm. by constructor.
  - intros x Hxr. rewrite Ec in Hxr. rewrite (xs_snap _ _ Hx). apply settled_dom; [done|]. rewrite Hset.
    apply (copies_some _ [(copy_source C c s, e)]). apply settled_dom; [done|]. by apply H7.
  - intros p Hpin. rewrite Ep in Hpin. apply Hp, elem_of_app in Hpin as [Hpin|Hpin].
    + destruct (H8 p Hpin) as [Hd Hsrc]. rewrite Hperm. split; [by right|]. intros Hb. right. by apply Hsrc.
    + apply list_elem_of_singleton in Hpin as ->. cbn [fst snd]. rewrite Hperm. split; [by left|]. intros Hb. right.
      destruct (copy_source_cases w2 C F c s Hst Hc) as [(x & _ & _ & Hin & _ & _ & ->)|[_ Ecs]].
      * replace (2 ^ 63 + x - 2 ^ 63) with x by lia. by eapply excs_at_in.
      * rewrite Ecs in Hb. unfold KEY_TOP in Hc. rewrite is_snap_source_range in Hb by lia. apply Z.leb_le in Hb. lia.
  - rewrite Emask. by rewrite (sm_mask _ _ Hsm).
  - rewrite (sl_meta _ _ (ms_same _ _ _ _ _ Hms)). by rewrite (sm_size _ _ Hsm).
Qed.

Section make.
Context (w : world) (C : aleaf) (F : list Z) (c s : Z).
Context (Hst : store_ok w C F) (Hres : resources w F) (Hc : 0 <= c < KEY_TOP) (Hs : -1 <= s < 64)
  (Horg : is_Some (org_data w !! c)) (Hpend : forall p, p ∈ pending_copies (sb w) -> p.2 ∉ excs_at C c).
Abbreviation mask := (snapmask (sb w)).

(** The state after [probe] *)
Context (w1 : world) (leaf lo hi : Z) (path : list etree_path) (CL CR L : aleaf) (Fo : list Z) (b : block).
Context (Hm1 : mem_ok w1) (Hc1 : cstep w w1)
  (Hctx : ctx (view w) (etree_levels (image (sb w))) (etree_root (image (sb w))) c 0 path leaf lo hi CL CR Fo)
  (Hvl : view w leaf = Some b) (Hrl : leaf_rep b L) (Hwl : leaf_wf L) (Hin : within lo hi L) (EC : C = CL ++ L ++ CR)
  (HF : F ≡ₚ leaf :: Fo) (Hus : forall x, x ∈ path.*1 ++ [leaf] -> usable w1 x) (Htk : took w w1 (path.*1 ++ [leaf])).

Lemma path_length : length path = etree_levels (image (sb w)).
Proof. rewrite (ctx_length _ _ _ _ _ _ _ _ _ _ _ _ Hctx). lia. Qed.

Lemma path_taken : (length (path.*1 ++ [leaf]) <= etree_levels (image (sb w)) + 1)%nat.
Proof. rewrite length_app, length_fmap, (path_length : @length (Z * nat) path = _). cbn. lia. Qed.

(** The path is released at the end. *)
Lemma release_path w2 :
  mem_ok w2 -> took w2 w1 [leaf] ->
  wp (brelse_path path) (fun _ w' => mem_ok w' /\ cstep w2 w' /\ took w w' []) w2.
Proof.
  intros Hm2 Ht2. eapply wp_mono.
  { apply brelse_path_mem; [done|]. intros x. specialize (Ht2 x). rewrite Htk, occ_app in Ht2.
    pose proof (pins_nonneg w x (mem_cache w (mo_mem _ _ (so_meta _ _ _ Hst)))). lia. }
  cbv beta. intros _ w3 (Hm3 & Hc3 & Ht3). split; [done|]. split; [done|].
  intros x. specialize (Ht2 x). specialize (Ht3 x). rewrite Htk, occ_app in Ht2. rewrite occ_nil. lia.
Qed.

Lemma make_unique_same :
  already_unique C c s mask = true ->
  wp (brelse leaf;; mret (if s =? -1 then 0 else from_option chunk_of 0 (exc_for C c s)))
    (fun r w2 => wp (brelse_path path;; mret r) (fun r w' => exists C' F', made_unique w C c s r w' C' F') w2) w1.
Proof.
  intros Hun. wp_step. eapply wp_mono; [apply brelse_mem; [done|apply usable_pins, Hus; in_list]|].
  cbv beta. intros _ w2 (Hm2 & Hc2 & Ht2). wp_steps. eapply wp_mono; [by apply release_path|].
  cbv beta. intros _ w3 (Hm3 & Hc3 & Ht3). wp_steps. exists C, F. apply made_unique_same; try done.
  eapply took_cstep; [exact Hc1| |exact Htk]. eapply cstep_trans; [exact Hc2|exact Hc3|].
  intros x _ Hx. rewrite Ht3, occ_nil in Hx. specialize (Ht2 x). rewrite Htk, occ_app in Ht2.
  pose proof (occ_nonneg x path.*1). lia.
Qed.

(** The state after the allocation and the copy *)
Context (w2 w3 : world) (e : Z).
Context (Ha : allocated w1 w2 SNAPDATA e) (Hck : copies_ok w3) (Hoc : only_copies w2 w3)
  (Hset : settled w3 = copy_one (org_data w2) (settled w2) (copy_source C c s, e))
  (Hpd : forall p, p ∈ pending_copies (sb w3) -> p ∈ pending_copies (sb w2) ++ [(copy_source C c s, e)]).

Lemma store1 : store_ok w1 C F.
Proof. by eapply store_ok_cstep. Qed.

Lemma new_chunk : 0 < e < chunks (asi SNAPDATA (sb w1)) /\ (e ∉ exc_chunks C) /\ bit_used (view w2) (sb w2) SNAPDATA e.
Proof.
  destruct (al_view _ _ _ _ Ha) as (d & Hd & Hf & _). pose proof (al_range _ _ _ _ Ha) as Hr.
  assert (Hno : ~ bit_used (view w1) (sb w1) SNAPDATA e) by (intros (d' & Hd' & Hb); congruence).
  split; [|split].
  - destruct (decide (e = 0)) as [->|]; [|lia]. destruct Hno. apply (so_zero _ _ _ store1).
  - intros He. apply Hno. by apply (so_used _ _ _ store1).
  - destruct (meta_ok_allocated _ _ _ _ _ (so_meta _ _ _ store1) Ha) as (_ & Hsl & _). rewrite (sl_bit_used _ _ _ _ _ Hsl).
    eapply allocated_bit; [eapply meta_ok_nil, store1|done].
Qed.

Lemma make_unique_added w4 F' q :
  tree_ok w4 (add_entry c e s mask C) F' -> mstep q w3 w4 F F' -> xstep w3 w4 -> took w4 w3 [leaf] ->
  wp (brelse_path path;; mret e) (fun r w' => exists C' F', made_unique w C c s r w' C' F') w4.
Proof.
  intros Ht Hms Hx Ht4. destruct new_chunk as (He & Hnew & Hbe). pose proof store1 as Hst1.
  pose proof (store_ok_alloc _ _ _ _ _ Hst1 Ha) as Hst2. pose proof (only_copies_same _ _ Hoc) as Hsm.
  destruct (allocated_rest _ _ _ _ Ha (mo_layout _ _ (so_meta _ _ _ Hst1))) as [Er Eb].
  destruct (copies_ok_xstep w1 w2 (so_copies _ _ _ Hst1) (al_x _ _ _ _ Ha) Er Eb) as (_ & Ep2 & Es2).
  assert (Es1 : sb w1 = sb w) by apply Hc1. rewrite Es1 in Er, Ep2.
  assert (Ef3 : fixed (sb w3) = fixed (sb w)).
  { transitivity (fixed (sb w2)); [by destruct Hoc as (? & ? & ? & ? & ? & _ & ->)|]. exact (f_equal snd Er). }
  assert (Emask : snapmask (sb w2) = mask) by (unfold rest in Er; by injection Er).
  assert (Ech : chunks (asi SNAPDATA (sb w2)) = chunks (asi SNAPDATA (sb w1))).
  { destruct (meta_ok_allocated _ _ _ _ _ (so_meta _ _ _ Hst1) Ha) as (_ & Hsl & _). apply (sl_asi _ _ Hsl SNAPDATA). }
  rewrite <- Emask in Ht. destruct (store_ok_added w2 w3 w4 C F F' c s e q) as (Hst4 & Eset & Ep); try done; [by rewrite Ech|].
  wp_step. eapply wp_mono.
  { apply (release_path w4); [apply Hst4|]. intros x. rewrite <- (Ht4 x), (sm_pins _ _ Hsm), (al_took _ _ _ _ Ha x), occ_nil. lia. }
  cbv beta. intros _ w5 (Hm5 & Hc5 & Ht5). wp_steps. rewrite Emask in *. exists (add_entry c e s mask C), F'.
  assert (Es5 : sb w5 = sb w4) by apply Hc5. destruct (tree_entries _ _ _ (so_tree _ _ _ Hst)) as [Hwf Hok].
  assert (He64 : is_u64 e).
  { pose proof (sp_chunks _ _ (ly_sp _ (mo_layout _ _ (so_meta _ _ _ Hst1)) SNAPDATA)). unfold is_u64. lia. }
  assert (Eorg2 : org_data w2 = org_data w) by (rewrite (xs_org _ _ (al_x _ _ _ _ Ha)); apply Hc1).
  assert (Eorg5 : org_data w5 = org_data w).
  { rewrite (same_org _ _ (cs_store _ _ Hc5)), (xs_org _ _ Hx). by destruct (only_copies_frame _ _ Hoc) as (-> & _). }
  assert (Eset5 : settled w5 = copy_one (org_data w) (settled w) (copy_source C c s, e)).
  { unfold settled at 1. rewrite Es5, (same_org _ _ (cs_store _ _ Hc5)), (same_snap _ _ (cs_store _ _ Hc5)).
    fold (settled w4). rewrite Eset, Hset, Eorg2, Es2. unfold settled. by rewrite Es1, (same_org _ _ (cs_store _ _ Hc1)), (same_snap _ _ (cs_store _ _ Hc1)). }
  pose proof (sl_rest _ _ (ms_same _ _ _ _ _ Hms)) as Er4. unfold rest in Er, Er4.
  constructor; try done.
  - by eapply store_ok_cstep.
  - rewrite (same_disk _ _ (cs_store _ _ Hc5)), (xs_disk _ _ Hx). destruct Hoc as (? & ? & ? & ? & ? & _ & ->). cbn.
    rewrite (xs_disk _ _ (al_x _ _ _ _ Ha)). apply Hc1.
  - rewrite Es5. injection Er4 as -> -> _ _ _ _ _ _ _ _ _ _. rewrite (sm_mask _ _ Hsm), (sm_image _ _ Hsm). injection Er as _ -> _ _ _ _ _ _ _ _ _ _. done.
  - by rewrite Es5, (sl_fixed _ _ (ms_same _ _ _ _ _ Hms)).
  - intros n c' Hn. by apply (values_added w w5 C F).
  - by apply added_unique; [| | |apply Hst|].
  - intros Hne. rewrite held_add; [|done|done|apply Hst|done|lia]. unfold held_after. rewrite !Z.eqb_refl. cbn [negb].
    by rewrite (proj2 (Z.eqb_neq _ _) Hne).
  - unfold NOCHUNK, u64. change ((-1) mod 2 ^ 64) with (2 ^ 64 - 1).
    pose proof (sp_chunks _ _ (ly_sp _ (mo_layout _ _ (so_meta _ _ _ Hst1)) SNAPDATA)). lia.
  - intros c' Hne. rewrite excs_of_add_entry by apply Hwf. by rewrite (proj2 (Z.eqb_neq c' c)).
  - intros p Hp. rewrite Es5, Ep in Hp. apply Hpd, elem_of_app in Hp as [Hp|Hp].
    + left. by rewrite <- Ep2.
    + right. apply list_elem_of_singleton in Hp as ->. cbn [snd]. unfold excs_at. rewrite excs_of_add_entry, Z.eqb_refl by apply Hwf.
      rewrite add_exc_chunks. by left.
Qed.
End make.

(** The rule for [make_unique]. *)
Lemma make_unique_spec w C F c s :
  store_ok w C F -> resources w F -> 0 <= c < KEY_TOP -> -1 <= s < 64 -> is_Some (org_data w !! c) ->
  (forall p, p ∈ pending_copies (sb w) -> p.2 ∉ excs_at C c) ->
  wp (make_unique c s) (fun r w' => exists C' F', made_unique w C c s r w' C' F') w.
Proof.
  intros Hst Hres Hc Hs Horg Hpend. pose proof (so_meta _ _ _ Hst) as Hmeta. pose proof (mo_mem _ _ Hmeta) as Hm.
  unfold make_unique. wp_step. eapply wp_mono; [apply ensure_room_enough; apply Hres|]. cbv beta. intros r0 w0 [-> ->]. cbn [negb].
  unfold getsb. wp_steps. eapply wp_mono; [by apply probe_mem; [|apply Hst|]|]. cbv beta.
  intros [[leaf path]|] w1 (Hm1 & Hc1 & Hr1); [|destruct Hr1 as [_ Hwhy]; by destruct (resources_probe w F Hres)].
  destruct Hr1 as (lo & hi & CL & CR & Fo & b & L & Hctx & Hvl & Hrl & Hwl & Hin & EC & HF & Hus & Htk).
  pose proof (path_taken w c leaf lo hi path CL CR Fo Hctx) as Hlen. pose proof (path_length w c leaf lo hi path CL CR Fo Hctx) as Hpl.
  assert (Es1 : sb w1 = sb w) by apply Hc1. assert (Hul : usable w1 leaf) by (apply Hus; in_list).
  pose proof (ctx_excs _ _ _ _ _ _ _ _ _ L _ _ Hctx) as Hex. rewrite <- EC in Hex.
  wp_step. apply wp_get_data; [done|]. rewrite (cs_view _ _ Hc1), Hvl. intros d [= <-].
  rewrite (chunk_unique_rep b L c s (snapmask (sb w)) Hrl) by first [done | apply (so_mask _ _ _ Hst) | unfold is_u32, KEY_TOP in *; lia].
  rewrite (already_unique_ext L C c s _ (eq_sym Hex)), (exc_for_ext L C c s (eq_sym Hex)).
  apply wp_bind. destruct (already_unique C c s (snapmask (sb w))) eqn:Hun; [by eapply make_unique_same|].
  pose proof (store1 w C F Hst w1 Hm1 Hc1) as Hst1. pose proof (so_meta _ _ _ Hst1) as Hmeta1.
  unfold alloc_snapblock. wp_step. eapply wp_mono.
  { apply alloc_chunk_spec; [done|apply Hmeta1|apply Hmeta1|apply Hmeta1|apply Hmeta1]. }
  cbv beta. intros e w2 [(-> & _ & _ & _ & Hwhy)|[Hne Ha]].
  { by destruct (resources_snap w F w1 _ Hres Hm Hm1 Hc1 Htk Hlen). }
  rewrite (proj2 (Z.eqb_neq _ _) Hne). wp_step. fold (copy_source C c s).
  assert (Hno : ~ bit_used (view w1) (sb w1) SNAPDATA e).
  { destruct (al_view _ _ _ _ Ha) as (d & Hd & Hf & _). intros (d' & Hd' & Hb). congruence. }
  destruct (allocated_rest _ _ _ _ Ha (mo_layout _ _ Hmeta1)) as [Er Eb].
  destruct (copies_ok_xstep w1 w2 (so_copies _ _ _ Hst1) (al_x _ _ _ _ Ha) Er Eb) as (Hck2 & Ep2 & _).
  eapply wp_mono.
  { apply copyout_run; [done|]. eapply copy_ok_xstep; [apply Ha|done|]. eapply copy_ok_new; [done|done| | |apply Ha|done].
    - by rewrite (same_org _ _ (cs_store _ _ Hc1)).
    - by rewrite Es1. }
  cbv beta. intros _ w3 (_ & Hck & Hoc & Hset & Hpd). pose proof (only_copies_same _ _ Hoc) as Hsm.
  assert (Hsl : same_layout (sb w1) (sb w2)) by apply (meta_ok_allocated _ _ _ _ _ Hmeta1 Ha).
  assert (Hroot : root_of (sb w2) = root_of (sb w)).
  { rewrite (al_sb _ _ _ _ Ha), <- Es1. apply record_alloc_root. }
  assert (Ei : etree_levels (image (sb w3)) = etree_levels (image (sb w)) /\ etree_root (image (sb w3)) = etree_root (image (sb w))).
  { rewrite (sm_image _ _ Hsm). by injection Hroot. }
  assert (Emask : snapmask (sb w3) = snapmask (sb w)).
  { rewrite (sm_mask _ _ Hsm), <- Es1. unfold rest in Er. by injection Er. }
  assert (Hv3 : forall x, x ∈ F -> view w3 x = view w x).
  { intros x Hx. rewrite (sm_view _ _ Hsm), <- (cs_view _ _ Hc1). by apply (meta_ok_allocated _ _ _ _ _ Hmeta1 Ha). }
  destruct Ei as [El Erl]. rewrite <- El. wp_step. eapply wp_mono.
  { eapply (add_exception_to_tree_ok w3 F c e s leaf path lo hi CL CR Fo b L); rewrite ?El, ?Erl, ?Emask; try done.
    - eapply ctx_ext; [|exact Hctx]. intros x Hx. apply Hv3. rewrite HF. by right.
    - rewrite Hv3; [done|]. rewrite HF. by left.
    - by destruct (so_tree _ _ _ Hst) as (_ & ? & _).
    - eapply only_copies_meta; [done|]. by apply (meta_ok_allocated _ _ _ _ _ Hmeta1 Ha).
    - intros x Hx. apply (sm_usable _ _ Hsm). pose proof (Hus x Hx) as Hux. apply (xs_usable _ _ (al_x _ _ _ _ Ha)); [done|].
      rewrite (al_took _ _ _ _ Ha x), occ_nil. apply usable_pins in Hux. lia.
    - pose proof (al_range _ _ _ _ Ha). pose proof (sp_chunks _ _ (ly_sp _ (mo_layout _ _ Hmeta1) SNAPDATA)). unfold is_u64. lia.
    - apply Hst.
    - apply (so_tree _ _ _ Hst).
    - rewrite <- Hun. by apply already_unique_ext.
    - rewrite (sm_size _ _ Hsm), (sl_meta _ _ Hsl), Es1. apply Hst. }
  cbv beta. intros r w4 (C' & F' & Htr & Hms & Hx & Hr). rewrite Emask in Hr.
  assert (Hok : ~ lack w3 (length path + 2)).
  { intros Hl. apply (sm_lack _ _ Hsm) in Hl. pose proof (mstep_lack _ _ _ _ _ _ (mstep_allocated _ _ _ _ _ Hmeta1 Ha) Hl) as Hl1.
    apply (resources_tree w F w1 _ Hres Hm Hm1 Hc1 Htk Hlen). eapply lack_mono; [exact Hl1|]. lia. }
  destruct Hr as [(-> & -> & Ht4)|[(_ & Hl & _)|(_ & Hl & _)]]; [|done|done].
  change (0 <? 0) with false. cbv iota. apply wp_ret. rewrite <- EC in Htr. by eapply make_unique_added.
Qed.

(** ** What uniqueness means for the snapshots *)

Lemma excs_at_nodup C c : NoDup (exc_chunks C) -> NoDup (excs_at C c).
Proof.
  unfold excs_at. induction C as [|[r es] C IH]; intros Hnd; [by apply NoDup_nil_2|].
  unfold exc_chunks in Hnd. cbn [all_excs flat_map snd] in Hnd. rewrite fmap_app in Hnd.
  apply NoDup_app in Hnd as (Hes & _ & Hnd). rewrite excs_of_cons. destruct (r =? c); [done|by apply IH].
Qed.

(** Unique for the origin: every active snapshot has an exception. *)
Lemma unique_origin C c m n :
  Forall ent_ok C -> is_u64 m -> already_unique C c (-1) m = true -> 0 <= n < 64 -> Z.testbit m n = true ->
  is_Some (held C c n).
Proof.
  intros Hok Hm Hun Hn Hb. unfold already_unique in Hun. change (-1 =? -1) with true in Hun. cbv iota in Hun.
  apply (proj1 (mask_covered _ _ (shares_range _ (excs_of_u64 C c Hok)) Hm)) with (i := n) in Hun; [|done|done].
  rewrite shares_testbit, find_existsb in Hun by lia. unfold held, exc_for.
  destruct (find _ (excs_of C c)) as [x|]; [|done]. by exists (chunk_of x).
Qed.

(** Unique for a snapshot: no other snapshot and no other chunk of the origin
    uses its chunk of the store. *)
Lemma unique_alone C c s m e c' n :
  NoDup (exc_chunks C) -> already_unique C c s m = true -> 0 <= s < 64 -> 0 <= n < 64 ->
  held C c s = Some e -> held C c' n = Some e -> c' = c /\ n = s.
Proof.
  intros Hnd Hun Hs Hn He He'.
  assert (c' = c) as -> by (eapply excs_at_apart; [exact Hnd|by eapply held_excs_at..]). split; [done|].
  unfold already_unique in Hun. rewrite (proj2 (Z.eqb_neq s (-1))) in Hun by lia. unfold held, exc_for in He, He'.
  destruct (find _ (excs_of C c)) as [x|] eqn:Ex in He; [|done]. rewrite Ex in Hun. injection He as He.
  destruct (find _ (excs_of C c)) as [y|] eqn:Ey in He'; [|done]. injection He' as He'.
  apply find_some in Ex as [Hx%list_elem_of_In _], Ey as [Hy%list_elem_of_In Hby].
  apply list_elem_of_lookup in Hx as [i Hi], Hy as [j Hj].
  pose proof (excs_at_nodup C c Hnd) as Hat. unfold excs_at in Hat. rewrite NoDup_alt in Hat.
  assert (i = j) as ->. { apply (Hat i j e); rewrite list_lookup_fmap, ?Hi, ?Hj; cbn; congruence. }
  assert (y = x) as -> by congruence. apply Z.eqb_eq in Hun. rewrite Hun, bit64_testbit in Hby by lia. by apply Z.eqb_eq in Hby.
Qed.

(** C3: Making a chunk unique, before a write to the origin ([s = -1]) or to
    snapshot [s], succeeds when there are buffers and free chunks for it.  No
    snapshot reads anything else than before, the origin is as it was and the
    invariant of the store holds again.  Then every active snapshot has a copy of
    the chunk, so that the origin can be written; or snapshot [s] has the chunk of
    the store that is returned, and it is the only reader of it. *)
Theorem make_unique_correct w C F c s :
  store_ok w C F -> resources w F -> 0 <= c < KEY_TOP -> -1 <= s < 64 -> is_Some (org_data w !! c) ->
  (forall p, p ∈ pending_copies (sb w) -> p.2 ∉ excs_at C c) ->
  wp (make_unique c s) (fun r w' => r <> NOCHUNK /\ org_data w' = org_data w /\ snapmask (sb w') = snapmask (sb w) /\
    exists C' F', store_ok w' C' F' /\
      (forall n c', 0 <= n < 64 -> snap_value w' C' n c' = snap_value w C n c') /\
      (s = -1 -> forall n, 0 <= n < 64 -> Z.testbit (snapmask (sb w)) n = true -> is_Some (held C' c n)) /\
      (s <> -1 -> held C' c s = Some r /\
         forall n c', 0 <= n < 64 -> held C' c' n = Some r -> c' = c /\ n = s)) w.
Proof.
  intros Hst Hres Hc Hs Horg Hpend. eapply wp_mono; [by eapply make_unique_spec|]. cbv beta. intros r w' (C' & F' & Hmu).
  pose proof (mu_store _ _ _ _ _ _ _ _ Hmu) as Hst'. pose proof (mu_unique _ _ _ _ _ _ _ _ Hmu) as Hun.
  split; [apply Hmu|]. split; [apply Hmu|]. split; [apply (mu_snaps _ _ _ _ _ _ _ _ Hmu)|]. exists C', F'. split; [done|]. split; [apply Hmu|]. split.
  - intros -> n Hn Hb. eapply unique_origin; [apply (tree_entries _ _ _ (so_tree _ _ _ Hst'))|apply (so_mask _ _ _ Hst)|done|done|done].
  - intros Hne. pose proof (mu_held _ _ _ _ _ _ _ _ Hmu Hne) as Hh. split; [done|]. intros n c' Hn Hh'.
    eapply unique_alone; [by apply Hst'|exact Hun|lia|done|done|done].
Qed.
