(* ===== verification/ReplySpec.v ===== *)
(** * Replies as chunk ranges say what was put in them

    The chunks and exceptions that the handlers add one at a time become a
    message whose bytes are the ranges of consecutive chunks, each with the
    exceptions of its chunks. *)

From S2P Require Import Prelude Bytes State Locks Reply.

(** ** The ranges of a list of chunks *)

(** The list cut where a chunk does not follow the one before it: the first chunk
    of each range, and the exceptions of its chunks *)
Fixpoint ranges (l : list (Z * Z)) : list (Z * list Z) :=
  match l with
  | [] => []
  | (c, e) :: l' =>
      match ranges l' with
      | (c', es) :: rs => if c' =? c + 1 then (c, e :: es) :: rs else (c, [e]) :: (c', es) :: rs
      | [] => [(c, [e])]
      end
  end.

(** The chunks of a range *)
Definition chunks_of_range (r : Z * list Z) : list (Z * Z) := imap (fun i e => (r.1 + Z.of_nat i, e)) r.2.

Lemma chunks_of_range_cons c e es : chunks_of_range (c, e :: es) = (c, e) :: chunks_of_range (c + 1, es).
Proof.
  unfold chunks_of_range. cbn [fst snd imap]. f_equal; [f_equal; cbn; lia|]. apply imap_ext. intros i x _. cbn. f_equal. lia.
Qed.

Lemma ranges_chunks l : flat_map chunks_of_range (ranges l) = l.
Proof.
  induction l as [|[c e] l IH]; [done|]. cbn [ranges]. destruct (ranges l) as [|[c' es] rs]; cbn [flat_map] in *.
  - rewrite chunks_of_range_cons. unfold chunks_of_range at 1. cbn. by rewrite <- IH.
  - destruct (Z.eqb_spec c' (c + 1)) as [->|_]; cbn [flat_map]; rewrite chunks_of_range_cons; [by rewrite <- IH|].
    unfold chunks_of_range at 1. cbn [snd imap app]. by rewrite <- IH.
Qed.

Lemma length_ranges l rs r : ranges l = rs ++ [r] -> (length r.2 <= length l)%nat.
Proof.
  intros E. pose proof (f_equal length (ranges_chunks l)) as H. rewrite E, flat_map_app, length_app in H. cbn [flat_map] in H.
  rewrite app_nil_r in H. unfold chunks_of_range at 2 in H. rewrite length_imap in H. lia.
Qed.

(** A chunk at the end continues the last range or starts a new one. *)
Lemma ranges_snoc l rs c es c1 e1 : ranges l = rs ++ [(c, es)] ->
  ranges (l ++ [(c1, e1)]) = if c1 =? c + Z.of_nat (length es) then rs ++ [(c, es ++ [e1])] else rs ++ [(c, es); (c1, [e1])].
Proof.
  revert rs c es. induction l as [|[c0 e0] l IH]; intros rs c es; [by destruct rs|]. cbn [app ranges].
  destruct (ranges l) as [|p rs'] eqn:El; intros E.
  - destruct l as [|[c2 e2] l]; [|cbn [ranges] in El; destruct (ranges l) as [|[??]?]; [done|by case_match]].
    apply (app_inj_tail []) in E as [<- [= <- <-]]. cbn [app ranges length]. change (Z.of_nat 1) with 1. by destruct (c1 =? c0 + 1).
  - destruct (exists_last (l := p :: rs')) as (q & [cq eq] & Eq); [done|]. specialize (IH q cq eq Eq).
    destruct q as [|[c' es'] q]; cbn [app] in Eq, IH; injection Eq as -> ->; rewrite IH; clear IH; cbn [app] in E.
    + destruct (Z.eqb_spec cq (c0 + 1)) as [->|Hne].
      * apply (app_inj_tail []) in E as [<- [= <- <-]]. cbn [app length].
        replace (c0 + 1 + Z.of_nat (length eq)) with (c0 + Z.of_nat (S (length eq))) by lia.
        destruct (c1 =? _); cbn [app]; by rewrite Z.eqb_refl.
      * apply (app_inj_tail [_]) in E as [<- [= <- <-]]. destruct (c1 =? _); cbn [app]; by rewrite (proj2 (Z.eqb_neq _ _) Hne).
    + destruct (c' =? c0 + 1) eqn:Ec.
      * apply (app_inj_tail (_ :: q)) in E as [<- [= <- <-]]. destruct (c1 =? _); cbn [app]; by rewrite Ec.
      * apply (app_inj_tail (_ :: _ :: q)) in E as [<- [= <- <-]]. destruct (c1 =? _); cbn [app]; by rewrite Ec.
Qed.

(** ** The format *)

Section format.
(** With exceptions, or chunks alone *)
Context (we : bool).

Definition enc_excs (es : list Z) : list Z := if we then flat_map (le_split 8) es else [].

(** A range: its first chunk and the exceptions of its chunks *)
Definition enc_range (r : Z * list Z) : list Z :=
  le_split 8 r.1 ++ le_split 2 (Z.of_nat (length r.2)) ++ enc_excs r.2.

Lemma enc_excs_snoc es e : enc_excs (es ++ [e]) = enc_excs es ++ (if we then le_split 8 e else []).
Proof. unfold enc_excs. destruct we; [|done]. rewrite flat_map_app. cbn [flat_map]. by rewrite app_nil_r. Qed.

(** ** A reply under construction

    The closed ranges, and the last one, with the first [n] chunks and the
    exceptions [es]; its count is not written yet. *)

Definition top_of (closed : list (Z * list Z)) (es : list Z) : nat :=
  (14 + length (flat_map enc_range closed) + 10 + length (enc_excs es))%nat.

Record building (r : addto) (closed : list (Z * list Z)) (first : Z) (n : nat) (es : list Z) : Prop := {
  bu_count : ad_count r = 1;
  bu_first : ad_firstchunk r = first;
  bu_next : ad_nextchunk r = first + Z.of_nat n;
  bu_countp : ad_countp r = (14 + length (flat_map enc_range closed) + 8)%nat;
  bu_top : ad_top r = Some (top_of closed es);
  bu_size : length (ad_reply r) = sizeof_messagebuf;
  bu_reply : exists pre x post, length pre = 14%nat /\ length x = 2%nat /\
    ad_reply r = pre ++ flat_map enc_range closed ++ le_split 8 first ++ x ++ enc_excs es ++ post }.

Lemma fits_lt top n : response_fits top n = true <-> (top < 500 - n)%nat.
Proof. apply Nat.ltb_lt. Qed.

(** The chunk that continues the last range *)
Lemma addto_continue r closed first n es chunk :
  building r closed first n es -> chunk = first + Z.of_nat n -> 0 <= chunk < 2 ^ 64 - 1 ->
  exists r', addto_response r chunk = Some r' /\ building r' closed first (S n) es.
Proof.
  intros [Hc Hf Hn Hp Ht Hs Hr] Hch Hb. unfold addto_response. rewrite Hn, <- Hch, Z.eqb_refl.
  eexists. split; [reflexivity|]. constructor; try done. cbn. unfold u64. rewrite Z.mod_small by lia. lia.
Qed.

(** A range is started at the top of a reply with closed ranges only. *)
Lemma start_range r closed pre post chunk :
  length pre = 14%nat -> ad_count r = 1 -> length (ad_reply r) = sizeof_messagebuf ->
  ad_reply r = pre ++ flat_map enc_range closed ++ post -> 0 <= chunk < 2 ^ 64 - 1 ->
  (14 + length (flat_map enc_range closed) < 484)%nat ->
  let top := (14 + length (flat_map enc_range closed))%nat in
  building (r <| ad_firstchunk := chunk |> <| ad_reply ::= st64 top chunk |> <| ad_countp := (top + 8)%nat |>
              <| ad_top := Some (top + 8 + 2)%nat |> <| ad_nextchunk := u64 (chunk + 1) |>) closed chunk 1 [].
Proof.
  intros Hpre Hc Hsize Hr Hch Htop top.
  assert (E0 : enc_excs [] = []) by (unfold enc_excs; by destruct we).
  assert (Hpost : (10 <= length post)%nat).
  { rewrite Hr in Hsize. rewrite !length_app in Hsize. unfold sizeof_messagebuf in Hsize. lia. }
  destruct (split_length post 8) as (y & post1 & -> & Hy); [lia|]. rewrite length_app in Hpost.
  destruct (split_length post1 2) as (x & post2 & -> & Hx); [lia|].
  constructor; cbn; try done.
  - unfold u64. rewrite Z.mod_small by lia. lia.
  - unfold top, top_of. rewrite E0. cbn [length]. f_equal. lia.
  - by rewrite length_st.
  - exists pre, x, post2. split_and!; [done..|]. rewrite Hr, E0. cbn [app].
    rewrite (app_assoc pre). rewrite (st_app 8 (pre ++ flat_map enc_range closed) y chunk (x ++ post2)); [app_norm| |done].
    unfold top. rewrite length_app, Hpre. done.
Qed.

(** The last range is closed: its count is stored. *)
Lemma close_range r closed first es :
  building r closed first (length es) es -> Z.of_nat (length es) < 2 ^ 16 ->
  exists pre post, length pre = 14%nat /\
    st16 (ad_countp r) (u16 (ad_nextchunk r - ad_firstchunk r)) (ad_reply r) =
    pre ++ flat_map enc_range (closed ++ [(first, es)]) ++ post.
Proof.
  intros [Hc Hf Hn Hp Ht Hs (pre & x & post & Hpre & Hx & Hr)] Hlen. exists pre, post. split; [done|].
  rewrite Hr, Hn, Hf, Hp. replace (first + Z.of_nat (length es) - first) with (Z.of_nat (length es)) by lia.
  unfold u16. rewrite Z.mod_small by lia. unfold st.
  rewrite (splice_eq _ (pre ++ flat_map enc_range closed ++ le_split 8 first) x (enc_excs es ++ post));
    [|app_norm|rewrite !length_app, length_le_split; lia|rewrite length_le_split; lia].
  rewrite flat_map_app. cbn [flat_map]. unfold enc_range at 3. cbn [fst snd]. rewrite app_nil_r. app_norm.
Qed.

Lemma length_closed closed first es :
  length (flat_map enc_range (closed ++ [(first, es)])) = (length (flat_map enc_range closed) + 10 + length (enc_excs es))%nat.
Proof.
  rewrite flat_map_app, length_app. cbn [flat_map]. rewrite app_nil_r. unfold enc_range at 2. cbn [fst snd].
  rewrite !length_app, !length_le_split. lia.
Qed.

Lemma addto_new r closed first es chunk :
  building r closed first (length es) es -> Z.of_nat (length es) < 2 ^ 16 ->
  chunk <> first + Z.of_nat (length es) -> 0 <= chunk < 2 ^ 64 - 1 ->
  (exists r', addto_response r chunk = Some r' /\ building r' (closed ++ [(first, es)]) chunk 1 []) \/
  (addto_response r chunk = None /\ (484 <= top_of closed es)%nat).
Proof.
  intros Hb Hlen Hne Hch. destruct (close_range r closed first es Hb Hlen) as (pre & post & Hpre & Hst).
  pose proof (length_closed closed first es) as Hcl. destruct Hb as [Hc Hf Hn Hp Ht Hs _].
  unfold addto_response. rewrite (proj2 (Z.eqb_neq _ _)) by congruence. cbn [negb]. rewrite Ht. cbn [mbind option_bind].
  destruct (response_fits (top_of closed es) 16) eqn:E.
  - left. eexists. split; [reflexivity|]. apply fits_lt in E. unfold top_of in *.
    replace (14 + length (flat_map enc_range closed) + 10 + length (enc_excs es))%nat
      with (14 + length (flat_map enc_range (closed ++ [(first, es)])))%nat by lia.
    eapply start_range; [exact Hpre|done| |exact Hst|done|lia]. cbn. by rewrite length_st.
  - right. split; [done|]. apply not_true_iff_false in E. rewrite fits_lt in E. lia.
Qed.

Lemma addto_first chunk : 0 <= chunk < 2 ^ 64 - 1 ->
  exists r', addto_response new_addto chunk = Some r' /\ building r' [] chunk 1 [].
Proof.
  intros Hch. unfold addto_response. rewrite (proj2 (Z.eqb_neq _ _)).
  - eexists. split; [reflexivity|]. apply (start_range _ [] (replicate 14 0) (replicate 494 0)); try done. cbn. lia.
  - cbn. unfold u64. change ((-1) mod 2 ^ 64) with (2 ^ 64 - 1). lia.
Qed.

Definition add_step (r : addto) (x : Z * Z) : option addto :=
  r ← addto_response r x.1;
  if we then add_exception_addr r x.2 else Some r.

(** The exception of the last chunk *)
Lemma add_exc_building r closed first n es e :
  building r closed first n es ->
  (exists r', (if we then add_exception_addr r e else Some r) = Some r' /\ building r' closed first n (es ++ [e])) \/
  ((if we then add_exception_addr r e else Some r) = None /\ (492 <= top_of closed es)%nat).
Proof.
  intros Hb. pose proof (enc_excs_snoc es e) as Hsnoc. destruct Hb as [Hc Hf Hn Hp Ht Hs (pre & x & post & Hpre & Hx & Hr)].
  unfold add_exception_addr. rewrite Ht. destruct we.
  - destruct (response_fits (top_of closed es) 8) eqn:E.
    + left. apply fits_lt in E. eexists. split; [reflexivity|].
      assert (Hpost : (8 <= length post)%nat).
      { rewrite Hr in Hs. rewrite !length_app, length_le_split in Hs. unfold sizeof_messagebuf, top_of in *. lia. }
      destruct (split_length post 8) as (y & post1 & -> & Hy); [lia|].
      constructor; cbn; try done.
      * unfold top_of. rewrite Hsnoc, length_app, length_le_split. f_equal. lia.
      * by rewrite length_st.
      * exists pre, x, post1. split_and!; [done..|]. rewrite Hr, Hsnoc. unfold st.
        rewrite (splice_eq _ (pre ++ flat_map enc_range closed ++ le_split 8 first ++ x ++ enc_excs es) y post1);
          [app_norm|app_norm| |by rewrite length_le_split].
        unfold top_of. rewrite !length_app, length_le_split. lia.
    + right. split; [done|]. apply not_true_iff_false in E. rewrite fits_lt in E. lia.
  - left. exists r. split; [done|]. rewrite app_nil_r in Hsnoc. constructor; try done.
    + unfold top_of. by rewrite Hsnoc.
    + exists pre, x, post. split_and!; [done..|]. by rewrite Hsnoc.
Qed.

(** ** What a reply under construction says *)

Record said (r : addto) (l : list (Z * Z)) (closed : list (Z * list Z)) (first : Z) (es : list Z) : Prop := {
  sd_building : building r closed first (length es) es;
  sd_list : ranges l = closed ++ [(first, es)];
  sd_top : (top_of closed es <= 14 + 18 * length l)%nat }.

Lemma said_count r l closed first es : said r l closed first es -> (length es <= length l)%nat.
Proof. intros H. apply (length_ranges l closed (first, es)), H. Qed.

Lemma excs_room es e : length (enc_excs (es ++ [e])) = (length (enc_excs es) + if we then 8 else 0)%nat.
Proof. rewrite enc_excs_snoc, length_app. destruct we; [by rewrite length_le_split|done]. Qed.

Definition addable (x : Z * Z) : Prop := 0 <= x.1 < 2 ^ 64 - 1 /\ is_u64 x.2.

Lemma said_step r l closed first es x :
  said r l closed first es -> addable x -> Z.of_nat (length l) < 2 ^ 16 - 1 ->
  (exists r' closed' first' es', add_step r x = Some r' /\ said r' (l ++ [x]) closed' first' es') \/
  (add_step r x = None /\ (26 <= length l)%nat).
Proof.
  intros Hsd [Hc He] Hl. pose proof (said_count _ _ _ _ _ Hsd) as Hcount. destruct Hsd as [Hb Hlist Htop].
  assert (Hlen : length (l ++ [x]) = (length l + 1)%nat) by by rewrite length_app.
  destruct x as [c e]. cbn [fst snd] in *. unfold add_step. cbn [fst snd].
  destruct (decide (c = first + Z.of_nat (length es))) as [Hnext|Hne].
  - destruct (addto_continue r closed first (length es) es c Hb Hnext Hc) as (r1 & -> & Hb1). cbn [mbind option_bind].
    destruct (add_exc_building r1 closed first (S (length es)) es e Hb1) as [(r2 & -> & Hb2)|[-> Hfull]].
    + left. exists r2, closed, first, (es ++ [e]). split; [done|].
      pose proof (excs_room es e) as Hx. constructor; try done.
      * by rewrite length_app, Nat.add_1_r.
      * rewrite (ranges_snoc _ _ _ _ _ _ Hlist). by rewrite (proj2 (Z.eqb_eq _ _) Hnext).
      * unfold top_of in *. rewrite Hx, Hlen. destruct we; lia.
    + right. split; [done|]. lia.
  - destruct (addto_new r closed first es c Hb ltac:(lia) Hne Hc) as [(r1 & -> & Hb1)|[-> Hfull]]; [|right; split; [done|lia]].
    cbn [mbind option_bind]. pose proof (length_closed closed first es) as Hlc.
    assert (E0 : length (enc_excs []) = 0%nat) by (unfold enc_excs; by destruct we).
    destruct (add_exc_building r1 _ c 1 [] e Hb1) as [(r2 & -> & Hb2)|[-> Hfull]].
    + left. exists r2, (closed ++ [(first, es)]), c, [e]. split; [done|].
      pose proof (excs_room [] e) as Hx. cbn [app] in Hx. constructor; try done.
      * rewrite (ranges_snoc _ _ _ _ _ _ Hlist), (proj2 (Z.eqb_neq _ _) Hne). by rewrite <- app_assoc.
      * unfold top_of in *. rewrite Hx, Hlc, Hlen, E0. destruct we; lia.
    + right. split; [done|]. unfold top_of in *. rewrite Hlc, E0 in Hfull. lia.
Qed.

Lemma said_first x : addable x ->
  exists r', add_step new_addto x = Some r' /\ said r' [x] [] x.1 [x.2].
Proof.
  intros [Hc He]. destruct x as [c e]. cbn [fst snd] in *. unfold add_step. cbn [fst snd].
  destruct (addto_first c Hc) as (r1 & -> & Hb1). cbn [mbind option_bind].
  destruct (add_exc_building r1 _ c 1 [] e Hb1) as [(r2 & -> & Hb2)|[_ Hfull]].
  - exists r2. split; [done|]. pose proof (excs_room [] e) as Hx. cbn [app] in Hx. constructor; try done.
    + unfold top_of. rewrite Hx. unfold enc_excs. cbn [flat_map length]. destruct we; cbn; lia.
  - unfold top_of, enc_excs in Hfull. cbn [flat_map length] in Hfull. destruct we; cbn in Hfull; lia.
Qed.

Definition add_list (l : list (Z * Z)) (acc : option addto) : option addto :=
  foldl (fun acc x => r ← acc; add_step r x) acc l.

Lemma add_list_None l : add_list l None = None.
Proof. by induction l. Qed.

Lemma said_list l2 r l1 closed first es :
  said r l1 closed first es -> Forall addable l2 -> Z.of_nat (length (l1 ++ l2)) < 2 ^ 16 ->
  match add_list l2 (Some r) with
  | Some r' => exists closed' first' es', said r' (l1 ++ l2) closed' first' es'
  | None => (26 < length (l1 ++ l2))%nat
  end.
Proof.
  revert r l1 closed first es. induction l2 as [|x l2 IH]; intros r l1 closed first es Hsd Ha Hl.
  - cbn. rewrite app_nil_r. eauto.
  - apply Forall_cons in Ha as [Hx Ha]. cbn [add_list foldl]. rewrite length_app in Hl. cbn [length] in Hl.
    change (match add_list l2 (add_step r x) with
      | Some r' => exists closed' first' es', said r' (l1 ++ x :: l2) closed' first' es'
      | None => (26 < length (l1 ++ x :: l2))%nat end).
    destruct (said_step _ _ _ _ _ x Hsd Hx) as [(r1 & cl1 & f1 & es1 & -> & Hsd1)|[-> Hfull]]; [lia| |].
    + rewrite (cons_middle x l1 l2), app_assoc. apply (IH _ _ _ _ _ Hsd1 Ha). rewrite !length_app. cbn. lia.
    + rewrite add_list_None. rewrite length_app. cbn [length]. lia.
Qed.

(** ** The message *)

Lemma header_stores pre rest code len id count :
  length pre = 14%nat ->
  st16 12 count (st32 8 id (st32 4 len (st32 0 code (pre ++ rest)))) =
  le_split 4 code ++ le_split 4 len ++ le_split 4 id ++ le_split 2 count ++ rest.
Proof.
  intros Hp. destruct (split_length pre 4) as (a & p1 & -> & Ha); [lia|]. rewrite length_app in Hp.
  destruct (split_length p1 4) as (b & p2 & -> & Hb); [lia|]. rewrite length_app in Hp.
  destruct (split_length p2 4) as (c & d & -> & Hc); [lia|]. rewrite length_app in Hp. rewrite <- !app_assoc.
  unfold st at 4. rewrite (splice_eq _ [] a (b ++ c ++ d ++ rest)) by (done || by rewrite length_le_split).
  unfold st at 3. rewrite (splice_eq _ (le_split 4 code) b (c ++ d ++ rest)) by (done || by rewrite !length_le_split).
  unfold st at 2. rewrite (splice_eq _ (le_split 4 code ++ le_split 4 len) c (d ++ rest))
    by (try app_norm; rewrite ?length_app, !length_le_split; lia).
  unfold st. rewrite (splice_eq _ (le_split 4 code ++ le_split 4 len ++ le_split 4 id) d rest)
    by (try app_norm; rewrite ?length_app, !length_le_split; lia).
  app_norm.
Qed.

(** The body: the id, the count 1, and the ranges *)
Definition reply_body (id : Z) (l : list (Z * Z)) : list Z :=
  le_split 4 id ++ le_split 2 1 ++ flat_map enc_range (ranges l).

Lemma finish_body r l closed first es code id :
  said r l closed first es -> Z.of_nat (length l) < 2 ^ 16 ->
  finish_reply r code id = Some (mkMessage code (reply_body id l)) /\ (length (reply_body id l) <= maxbody)%nat.
Proof.
  intros Hsd Hl. pose proof (said_count _ _ _ _ _ Hsd) as Hcount. destruct Hsd as [Hb Hlist Htop].
  destruct (close_range r closed first es Hb) as (pre & post & Hpre & Hst); [lia|].
  pose proof (length_closed closed first es) as Hlc. unfold reply_body. rewrite Hlist.
  set (enc := flat_map enc_range (closed ++ [(first, es)])) in *.
  assert (Hsize : (14 + length enc + length post = 508)%nat).
  { pose proof (f_equal length Hst) as E. rewrite length_st, (bu_size _ _ _ _ _ Hb), !length_app in E.
    unfold sizeof_messagebuf in E. lia. }
  split; [|rewrite !length_app, !length_le_split; unfold maxbody; lia].
  unfold finish_reply. rewrite (bu_top _ _ _ _ _ Hb), Hst, (bu_count _ _ _ _ _ Hb). change (u16 1) with 1.
  rewrite header_stores by done. do 2 f_equal.
  rewrite (slice_eq _ (le_split 4 code ++ le_split 4 (Z.of_nat (top_of closed es - sizeof_head)))
      (le_split 4 id ++ le_split 2 1 ++ enc) post); [done|app_norm| |].
  - by rewrite length_app, !length_le_split.
  - rewrite !length_app, !length_le_split. unfold top_of, sizeof_head. lia.
Qed.
End format.

(** The bytes of a reply *)
Lemma reply_spec we l code id :
  l <> [] -> Forall addable l -> Z.of_nat (length l) < 2 ^ 16 ->
  match add_all we l new_addto with
  | Some r => finish_reply r code id = Some (mkMessage code (reply_body we id l)) /\ (length (reply_body we id l) <= maxbody)%nat
  | None => (26 < length l)%nat
  end.
Proof.
  intros Hne Ha Hl. destruct l as [|x l]; [done|]. apply Forall_cons in Ha as [Hx Ha].
  change (add_all we (x :: l) new_addto) with (add_list we l (add_step we new_addto x)).
  destruct (said_first we x Hx) as (r1 & -> & Hsd1).
  pose proof (said_list we l r1 [x] [] x.1 [x.2] Hsd1 Ha) as H. cbn [app] in H. specialize (H Hl).
  destruct (add_list we l (Some r1)) as [r|]; [|done]. destruct H as (cl & f & es & Hsd). by eapply finish_body.
Qed.

(** A reply about one chunk *)
Lemma reply_body_one we id x : reply_body we id [x] = le_split 4 id ++ le_split 2 1 ++ enc_range we (x.1, [x.2]).
Proof. destruct x as [c e]. unfold reply_body. cbn [ranges flat_map fst snd]. by rewrite app_nil_r. Qed.

(** C27: a reply that lists chunks, with their exceptions ([we]) or without: the
    chunks are added one at a time, and the bytes of the message are the id of the
    request, a count, which is 1, and a range for every run of consecutive chunks:
    its first chunk, the number of its chunks, and their exceptions.  The ranges
    have the chunks that were added, in order.  Up to 26 chunks always fit; with
    more the reply may be full, which ends the process.  The body is never larger
    than a message may be. *)
Theorem reply_correct we l code id :
  l <> [] -> Forall addable l -> Z.of_nat (length l) < 2 ^ 16 ->
  flat_map chunks_of_range (ranges l) = l /\
  match add_all we l new_addto with
  | Some r =>
      let body := le_split 4 id ++ le_split 2 1 ++ flat_map (enc_range we) (ranges l) in
      finish_reply r code id = Some (mkMessage code body) /\ (length body <= maxbody)%nat
  | None => (26 < length l)%nat
  end.
Proof. intros Hne Ha Hl. split; [apply ranges_chunks|]. by apply (reply_spec we l code id). Qed.

