(* ===== verification/ChangelistSpec.v ===== *)
(** * Change lists

    A change list file is read back as it was written, the array has always room
    for the chunks in it, and a leaf contributes the chunks that the two
    snapshots do not share. *)

From Stdlib Require Import Sorted.
From S2P Require Import Prelude Bytes State Leaf LeafSpec LeafInv LeafView Changelist.

(** ** The array *)

(** The array has room for the chunks and is at most twice as long as needed. *)
Record cl_ok (cl : change_list) : Prop := {
  clo_room : cl_count cl < cl_length cl;
  clo_max : cl_length cl <= Z.max CHUNK_ARRAY_INIT (2 * (cl_count cl + 1)) }.

Lemma append_count cl c : cl_count (append_change_list cl c) = cl_count cl + 1.
Proof.
  unfold append_change_list, cl_count. destruct (_ <=? _); cbn; rewrite length_app; cbn; lia.
Qed.

Lemma append_chunks cl c : cl_chunks (append_change_list cl c) = cl_chunks cl ++ [c].
Proof. unfold append_change_list. by destruct (_ <=? _). Qed.

Lemma append_ok cl c : cl_ok cl -> cl_count cl < 2 ^ 62 -> cl_ok (append_change_list cl c).
Proof.
  intros [Hr Hm] Hc. assert (0 <= cl_count cl) by (unfold cl_count; lia). unfold CHUNK_ARRAY_INIT in *.
  constructor; rewrite append_count; unfold append_change_list; destruct (Z.leb_spec (cl_length cl) (cl_count cl + 1));
    cbn [cl_length cl_chunks set]; unfold u64, CHUNK_ARRAY_INIT in *; try (cbn; rewrite Z.mod_small by lia; lia); cbn; lia.
Qed.

Definition append_all (cl : change_list) (l : list Z) : change_list := foldl append_change_list cl l.

Lemma append_all_spec l cl :
  cl_ok cl -> cl_count cl + Z.of_nat (length l) < 2 ^ 62 ->
  let cl' := append_all cl l in
  cl_ok cl' /\ cl_chunks cl' = cl_chunks cl ++ l /\ cl_chunksize_bits cl' = cl_chunksize_bits cl /\
  cl_src_snap cl' = cl_src_snap cl /\ cl_tgt_snap cl' = cl_tgt_snap cl.
Proof.
  revert cl. induction l as [|c l IH]; intros cl Hok Hl; cbn; [by rewrite app_nil_r|].
  cbn [length] in Hl. destruct (IH (append_change_list cl c)) as (H1 & H2 & H3 & H4 & H5).
  - apply append_ok; [done|lia].
  - rewrite append_count. lia.
  - unfold append_all in *. split; [done|]. rewrite H2, append_chunks, <- app_assoc. split; [done|].
    rewrite H3, H4, H5. unfold append_change_list. by destruct (_ <=? _).
Qed.

(** ** Files *)

Lemma read_chunk_addrs_written fuel cl l :
  Forall (fun c => 0 <= c < CL_MARKER) l -> (length l < fuel)%nat ->
  read_chunk_addrs fuel (flat_map (le_split 8) l ++ le_split 8 CL_MARKER) cl = Some (append_all cl l).
Proof.
  intros Hl. revert fuel cl. induction Hl as [|c l Hc Hl IH]; intros fuel cl Hf; destruct fuel as [|fuel]; try (cbn in Hf; lia).
  - reflexivity.
  - cbn [flat_map read_chunk_addrs append_all foldl]. rewrite <- app_assoc. set (rest := _ ++ le_split 8 CL_MARKER) in *.
    assert (Hs : exists x t, le_split 8 c ++ rest = x :: t) by (cbn; eauto). destruct Hs as (x & t & Hs).
    pose proof (ld_head 8 c rest) as Hld. assert (Hd : drop 8 (le_split 8 c ++ rest) = rest) by done.
    assert (Hn : (8 <= length (le_split 8 c ++ rest))%nat) by (rewrite length_app, length_le_split; lia).
    rewrite Hs in *. rewrite (proj2 (Nat.ltb_ge _ _)) by done. rewrite Hld, Hd.
    unfold CL_MARKER, u64 in *. change ((-1) mod 2 ^ 64) with (2 ^ 64 - 1) in *. rewrite Z.mod_small by lia.
    rewrite (proj2 (Z.eqb_neq _ _)) by lia. apply IH. cbn in Hf. lia.
Qed.

(** C28: a change list that is written to a file is read back: the same chunk
    size, the same pair of snapshots and the same chunks in the same order,
    in an array that has room for them (for chunks other than 2^64-1, which marks
    the end of the list in the file). *)
Theorem changelist_roundtrip cl :
  is_u32 (cl_chunksize_bits cl) -> is_u32 (cl_src_snap cl) -> is_u32 (cl_tgt_snap cl) ->
  Forall (fun c => 0 <= c < CL_MARKER) (cl_chunks cl) -> cl_count cl < 2 ^ 62 ->
  exists cl', read_changelist (write_changelist cl) = Some cl' /\ cl_ok cl' /\
    cl_chunks cl' = cl_chunks cl /\ cl_chunksize_bits cl' = cl_chunksize_bits cl /\
    cl_src_snap cl' = cl_src_snap cl /\ cl_tgt_snap cl' = cl_tgt_snap cl.
Proof.
  intros Hb Hs Ht Hc Hn. unfold write_changelist. set (file := CHANGELIST_MAGIC ++ _).
  assert (Hlen : length file = (20 + length (flat_map (le_split 8) (cl_chunks cl)) + 8)%nat).
  { unfold file. rewrite !length_app, !length_le_split. done. }
  unfold read_changelist. rewrite (proj2 (Nat.ltb_ge _ _)) by (unfold sizeof_cl_header; lia).
  change (changelist_magic_ok (slice 0 8 file)) with true. cbn [negb].
  assert (E1 : ld32 8 file = cl_chunksize_bits cl).
  { unfold file. rewrite (ld_app 4 CHANGELIST_MAGIC) by done. by apply Z.mod_small. }
  assert (E2 : ld32 12 file = cl_src_snap cl).
  { unfold file. rewrite app_assoc, (ld_app 4 _ (cl_src_snap cl)) by done. by apply Z.mod_small. }
  assert (E3 : ld32 16 file = cl_tgt_snap cl).
  { unfold file. rewrite !app_assoc, <- (app_assoc _ _ (le_split 8 CL_MARKER)), <- (app_assoc _ (le_split 4 (cl_tgt_snap cl))).
    rewrite (ld_app 4 _ (cl_tgt_snap cl)) by done. by apply Z.mod_small. }
  rewrite E1, E2, E3.
  change (drop sizeof_cl_header file) with (flat_map (le_split 8) (cl_chunks cl) ++ le_split 8 CL_MARKER).
  rewrite read_chunk_addrs_written; [|done|].
  - eexists. split; [reflexivity|].
    destruct (append_all_spec (cl_chunks cl) (init_change_list (cl_chunksize_bits cl) (cl_src_snap cl) (cl_tgt_snap cl)))
      as (H1 & H2 & H3 & H4 & H5); [split; done|exact Hn|]. done.
  - rewrite Hlen. assert (H : (length (cl_chunks cl) <= length (flat_map (le_split 8) (cl_chunks cl)))%nat); [|lia].
    clear. induction (cl_chunks cl) as [|c l IH]; [done|]. cbn [flat_map length]. rewrite length_app, length_le_split. lia.
Qed.

(** ** Chunks not shared by two snapshots *)

Lemma mask_bit m n : 0 <= n < 64 -> (Z.land m (bit64 n) =? bit64 n) = Z.testbit m n.
Proof.
  intros Hn. pose proof (land_bit_zero m n Hn) as H0. rewrite bit64_eq in * by done.
  destruct (Z.testbit m n) eqn:E.
  - apply Z.eqb_eq, Z.bits_inj'. intros i Hi. rewrite Z.land_spec. destruct (decide (i = n)) as [->|Hne].
    + by rewrite E, andb_true_l.
    + by rewrite Z.pow2_bits_false, andb_false_r by lia.
  - cbn in H0. apply Z.eqb_eq in H0. rewrite H0. apply Z.eqb_neq. pose proof (Z.pow_pos_nonneg 2 n). lia.
Qed.

(** Two snapshots see the same exception exactly when every exception that one
    of them has belongs to the other too. *)
Lemma same_exception es n1 n2 :
  Forall exc_u64 es -> chunk_ok es -> 0 <= n1 < 64 -> 0 <= n2 < 64 ->
  existsb (fun e => negb (Bool.eqb (Z.testbit (share e) n2) (Z.testbit (share e) n1))) es = false <->
  find (fun e => Z.testbit (share e) n1) es = find (fun e => Z.testbit (share e) n2) es.
Proof.
  intros Hu [Hnz Hd] H1 H2. induction Hd as [|e es He Hd IH]; [done|].
  apply Forall_cons in Hu as [Hue Hu]. apply Forall_cons in Hnz as [Hne Hnz]. specialize (IH Hu Hnz).
  assert (Hout : forall x n, find (fun e => Z.testbit (share e) n) es = Some x -> x = e -> 0 <= n < 64 -> False).
  { intros x n Hf -> Hn. apply find_some in Hf as [Hin Hb]. rewrite List.Forall_forall in He.
    specialize (He e Hin). rewrite Z.land_diag in He. done. }
  cbn [existsb find]. destruct (Z.testbit (share e) n1) eqn:E1, (Z.testbit (share e) n2) eqn:E2; cbn [Bool.eqb negb orb].
  - split; [done|]. intros _. clear IH. apply not_true_iff_false. intros Hex. apply existsb_exists in Hex as (x & Hin & Hx).
    rewrite List.Forall_forall in He. specialize (He x Hin).
    assert (F : forall n, Z.testbit (share e) n = true -> Z.testbit (share x) n = false).
    { intros n Hn. pose proof (f_equal (fun z => Z.testbit z n) He) as Hz. cbv beta in Hz.
      rewrite Z.land_spec, Z.bits_0, Hn in Hz. done. }
    by rewrite (F _ E1), (F _ E2) in Hx.
  - split; [done|]. intros H. exfalso. symmetry in H. by eapply Hout.
  - split; [done|]. intros H. exfalso. by eapply Hout.
  - exact IH.
Qed.

(** Does a chunk differ between the two snapshots? *)
Definition differs (L : aleaf) (n1 n2 c : Z) : bool := bool_decide (exc_for L c n1 <> exc_for L c n2).

Lemma existsb_and_const {A} (f : A -> bool) k l : existsb (fun x => f x && k) l = existsb f l && k.
Proof. induction l as [|x l IH]; cbn; [done|]. rewrite IH. by destruct (f x), k, (existsb f l). Qed.

Lemma excs_of_in L c es : leaf_sorted L -> (c, es) ∈ L -> excs_of L c = es.
Proof.
  intros Hs. induction Hs as [|[r fs] L Hs IH Hlt]; [by intros ?%elem_of_nil|]. rewrite excs_of_cons.
  intros [[= -> ->]|Hin]%elem_of_cons; [by rewrite Z.eqb_refl|]. rewrite List.Forall_forall in Hlt.
  specialize (Hlt (c, es)). cbn in Hlt. rewrite (proj2 (Z.eqb_neq _ _)); [auto|].
  apply list_elem_of_In in Hin. specialize (Hlt Hin). lia.
Qed.

Lemma existsb_fmap {A B} (g : A -> B) (f : B -> bool) l : existsb f (g <$> l) = existsb (fun x => f (g x)) l.
Proof. induction l as [|x l IH]; cbn; [done|]. by rewrite IH. Qed.

Lemma existsb_eq {A} (f g : A -> bool) l : (forall x, f x = g x) -> existsb f l = existsb g l.
Proof. intros H. induction l as [|x l IH]; cbn; [done|]. by rewrite H, IH. Qed.

Lemma chunk_changed_differs L c es n1 n2 csb n :
  leaf_wf L -> Forall ent_ok L -> (c, es) ∈ L -> 0 <= n1 < 64 -> 0 <= n2 < 64 -> 0 <= csb < 32 ->
  chunk_changed (bit64 n1) (bit64 n2) c csb n (share <$> es) = differs L n1 n2 c && (Z.shiftl c csb <? n).
Proof.
  intros [Hso Hw] Hok Hin H1 H2 Hcsb. rewrite Forall_forall in Hok. destruct (Hok _ Hin) as [Hc Hu].
  rewrite Forall_forall in Hw. destruct (Hw _ Hin) as [_ Hco]. cbn [fst snd] in *.
  unfold chunk_changed. rewrite existsb_and_const. f_equal.
  - rewrite existsb_fmap. unfold differs. unfold exc_for. rewrite (excs_of_in L c es Hso Hin).
    pose proof (same_exception es n1 n2 Hu Hco H1 H2) as Hiff.
    rewrite (existsb_eq _ (fun e => negb (Bool.eqb (Z.testbit (share e) n2) (Z.testbit (share e) n1))))
      by (intros e; by rewrite !mask_bit).
    destruct (existsb _ es).
    + symmetry. apply bool_decide_eq_true. intros E. by apply Hiff in E.
    + symmetry. apply bool_decide_eq_false. intros Hn. apply Hn. by apply Hiff.
  - assert (Hb : 0 <= Z.shiftl c csb < 2 ^ 64).
    { rewrite Z.shiftl_mul_pow2 by lia. unfold is_u32 in Hc. pose proof (Z.pow_le_mono_r 2 csb 31).
      pose proof (Z.pow_pos_nonneg 2 csb). nia. }
    unfold u64. rewrite Z.mod_small by lia. by rewrite Z.ltb_antisym.
Qed.

Lemma gen_changelist_leaf_spec s b L cl n1 n2 :
  let n := snap_sectors_of (snaplist (image s)) (cl_tgt_snap cl) in
  let csb := chunk_sectors_bits (snapdata s) in
  leaf_rep b L -> leaf_wf L -> cl_ok cl -> cl_count cl + Z.of_nat (length L) < 2 ^ 62 ->
  0 <= n1 < 64 -> 0 <= n2 < 64 -> 0 <= csb < 32 -> n <> 0 ->
  let cl' := gen_changelist_leaf s (bit64 n1) (bit64 n2) b cl in
  cl_ok cl' /\ cl_chunks cl' =
    cl_chunks cl ++ List.filter (fun c => differs L n1 n2 c && (Z.shiftl c csb <? n)) L.*1.
Proof.
  intros n csb Hr Hw Hok Hl H1 H2 Hcsb Hn. assert (Hents : Forall ent_ok L) by by destruct Hr as (_ & ? & _).
  unfold gen_changelist_leaf. fold n. rewrite (proj2 (Z.eqb_neq _ _) Hn). fold csb.
  pose proof (leaf_rep_base b L Hr) as Hbase.
  pose proof (leaf_rep_entries b L Hr) as He. unfold leaf_entries in He.
  assert (Hfold : forall idx l cl0, incl l L ->
    (fun i => (map_rchunk b i, (fun p => Exc (ex_share b p) (ex_chunk b p)) <$> exc_ptrs b i)) <$> idx = l ->
    foldl (fun cl i => let newchunk := u64 (base_chunk b + map_rchunk b i) in
      if chunk_changed (bit64 n1) (bit64 n2) newchunk csb n (ex_share b <$> exc_ptrs b i)
      then append_change_list cl newchunk else cl) cl0 idx =
    append_all cl0 (List.filter (fun c => differs L n1 n2 c && (Z.shiftl c csb <? n)) l.*1)).
  { intros idx. induction idx as [|i idx IH]; intros l cl0 Hin <-; [done|]. cbn [foldl fmap list_fmap List.filter fst].
    set (es := (fun p => Exc (ex_share b p) (ex_chunk b p)) <$> exc_ptrs b i) in *.
    assert (Hd : (map_rchunk b i, es) ∈ L) by (apply list_elem_of_In, Hin; by left).
    assert (Hc : is_u32 (map_rchunk b i)) by (rewrite Forall_forall in Hents; by apply (Hents _ Hd)).
    etransitivity; [apply (IH _ _ (fun x Hx => Hin x (or_intror Hx)) eq_refl)|]. cbv zeta.
    rewrite Hbase, Z.add_0_l, u64_id by (unfold is_u32, is_u64 in *; lia).
    assert (Es : ex_share b <$> exc_ptrs b i = share <$> es) by (unfold es; by rewrite <- list_fmap_compose).
    rewrite Es, (chunk_changed_differs L) by done.
    by destruct (_ && _). }
  cbv zeta in Hfold |- *. rewrite (Hfold _ L cl (incl_refl L) He).
  assert (Hfl : (length (List.filter (fun c => differs L n1 n2 c && (Z.shiftl c csb <? n)%Z) L.*1) <= length L)%nat).
  { etransitivity; [apply List.filter_length_le|]. by rewrite length_fmap. }
  edestruct append_all_spec as (Ha & Hc & _); [exact Hok| |by split; [exact Ha|exact Hc]]. lia.
Qed.

Lemma append_target cl c : cl_tgt_snap (append_change_list cl c) = cl_tgt_snap cl.
Proof. unfold append_change_list. by destruct (_ <=? _). Qed.

(** The visitor does not change the pair of snapshots. *)
Lemma gen_changelist_target s m1 m2 b cl : cl_tgt_snap (gen_changelist_leaf s m1 m2 b cl) = cl_tgt_snap cl.
Proof.
  unfold gen_changelist_leaf. destruct (_ =? 0); [done|]. generalize (snap_sectors_of (snaplist (image s)) (cl_tgt_snap cl)).
  intros n. revert cl. induction (seq 0 (leaf_count b)) as [|i l IH]; intros cl; cbn [foldl]; [done|].
  rewrite IH. destruct (chunk_changed _ _ _ _ _ _); [apply append_target|done].
Qed.

(** The change list visitor on a leaf appends, in the order of the leaf, the
    chunks whose exceptions differ between the two snapshots and that lie inside
    the target snapshot (they differ when one snapshot has an exception and the
    other shares the chunk with the origin, or both have different ones); the
    array keeps room for its chunks. *)
Lemma gen_changelist_leaf_correct s b L cl n1 n2 :
  let n := snap_sectors_of (snaplist (image s)) (cl_tgt_snap cl) in
  let csb := chunk_sectors_bits (snapdata s) in
  leaf_rep b L -> leaf_wf L -> cl_ok cl -> cl_count cl + Z.of_nat (length L) < 2 ^ 62 ->
  0 <= n1 < 64 -> 0 <= n2 < 64 -> 0 <= csb < 32 -> n <> 0 ->
  let cl' := gen_changelist_leaf s (bit64 n1) (bit64 n2) b cl in
  cl_ok cl' /\ cl_chunks cl' =
    cl_chunks cl ++ List.filter (fun c => differs L n1 n2 c && (Z.shiftl c csb <? n)) L.*1.
Proof. apply gen_changelist_leaf_spec. Qed.
