(* ===== verification/FreeInv.v ===== *)
(** * Freeing a chunk

    [free_chunk] clears the bit of a chunk that is in use and counts it; a chunk
    that is free already is not counted twice. *)

From S2P Require Import Prelude Bytes State Buffer Bitmap Alloc CacheInv CacheRoom CacheMem BitmapInv AllocInv Tree.

(** ** With a block that is being changed

    While an operation changes the data of a clean buffer that it holds, the
    buffer differs from the disk: all blocks but those of [X] are in sync. *)
Record mem_but (X : Z -> Prop) (w : world) : Prop := {
  mb_cache : cache_ok w;
  mb_sized : sized (Z.to_nat (allocsize (metadata (sb w)))) w;
  mb_sync : forall x, ~ X x -> in_sync w x }.

Lemma mem_but_ok w : mem_ok w <-> mem_but (fun _ => False) w.
Proof. split; intros [? ? H]; constructor; auto. Qed.

Lemma mem_but_cstep X n w w' :
  mem_but X w -> cstep w w' -> cache_ok w' -> n = Z.to_nat (allocsize (metadata (sb w))) -> sized n w' -> mem_but X w'.
Proof.
  intros Hm Hc Hok -> Hsz. constructor; [done| |].
  - by rewrite (same_sb _ _ (cs_store _ _ Hc)).
  - intros x Hx. by apply (cs_sync _ _ Hc), Hm.
Qed.

Lemma view_sized n w x d : sized n w -> view w x = Some d -> length d = n.
Proof.
  intros Hs. unfold view. destruct (bufs w !! x) as [b|] eqn:E; [case_decide|].
  - by apply (sized_disk _ _ Hs).
  - intros [= <-]. by apply (sized_bufs _ _ Hs x).
  - by apply (sized_disk _ _ Hs).
Qed.

Lemma snapread_but X s w :
  mem_but X w ->
  wp (snapread s) (fun r w' => mem_but X w' /\ cstep w w' /\
    match r with
    | Some x => x = s /\ usable w' s /\ took w w' [s] /\ is_Some (view w s)
    | None => took w w' [] /\ (no_room w 1 \/ disk w !! s = None)
    end) w.
Proof.
  intros Hm. unfold snapread, getsb. wp_steps.
  eapply wp_mono; [apply wp_conj; [apply bread_spec|apply bread_room]; apply Hm|]. cbv beta.
  intros r w' ((Hok & Hsz & Hc & Hr) & Hn). split; [by eapply mem_but_cstep|]. split; [done|].
  destruct r as [x|].
  - destruct Hr as (-> & Hu & Hp & Hv). split; [done|]. split; [done|]. split; [|done].
    intros x. rewrite Hp, occ_cons, occ_nil. destruct (decide (x = s)); lia.
  - split; [intros x; rewrite Hr, occ_nil; lia|]. destruct (Hn eq_refl) as [H|]; [left|by right]. by apply crowded_no_room.
Qed.

Lemma brelse_but X s w :
  mem_but X w -> 0 < pins w s -> in_sync w s ->
  wp (brelse s) (fun _ w' => mem_but X w' /\ cstep w w' /\ took w' w [s]) w.
Proof.
  intros Hm Hp Hs. eapply wp_mono; [apply (brelse_spec (Z.to_nat (allocsize (metadata (sb w))))); [apply Hm|apply Hm|done|done]|]. cbv beta.
  intros _ w' (Hok & Hsz & Hc & Ht). split; [by eapply mem_but_cstep|]. split; [done|].
  intros x. rewrite Ht, occ_cons, occ_nil. destruct (decide (x = s)); lia.
Qed.

(** A buffer in use gets new data, is marked dirty and released. *)
Lemma edit_release_but X s d w :
  mem_but X w -> 0 < pins w s -> length d = Z.to_nat (allocsize (metadata (sb w))) ->
  wp (set_data s d;; brelse_dirty s) (fun _ w' => mem_but X w' /\ xstep w w' /\ took w' w [s] /\ sb w' = sb w /\
    (forall x, view w' x = if decide (x = s) then Some d else view w x) /\
    (forall x, x ∈ dirty_buffers w' -> x ∈ dirty_buffers w \/ x = s) /\ busies w w' []) w.
Proof.
  intros Hm Hp Hd. unfold brelse_dirty. wp_step. eapply wp_mono; [eapply edit_spec; [apply Hm|apply Hm|done|done]|].
  cbv beta. intros _ w1 H1. wp_step. eapply wp_mono; [exact H1|]. cbv beta. intros _ w2 (Hok2 & Hsz2 & He).
  assert (Es : sb w2 = sb w) by apply (es_ext _ _ _ _ He).
  assert (Hm2 : mem_but X w2) by (constructor; [done|by rewrite Es|intros x Hx; by apply He, Hm]).
  eapply wp_mono.
  { apply (brelse_but X); [done| |apply (es_this _ _ _ _ He)]. by rewrite (es_pins _ _ _ _ He). }
  cbv beta. intros _ w3 (Hm3 & Hc3 & Ht3). split; [done|].
  assert (Hp3 : forall x, pins w x = pins w3 x + occ x [s]) by (intros x; by rewrite <- (es_pins _ _ _ _ He), Ht3).
  split_and!.
  - eapply xstep_trans; [by eapply estep_xstep|by apply cstep_xstep|]. intros x Hu _. rewrite (es_pins _ _ _ _ He).
    by apply usable_pins.
  - intros x. apply Hp3.
  - by rewrite (same_sb _ _ (cs_store _ _ Hc3)).
  - intros x. rewrite (cs_view _ _ Hc3). apply He.
  - intros x. rewrite (same_dirty _ _ (cs_store _ _ Hc3)). apply (es_dirty _ _ _ _ He).
  - apply (busies_trans w w2 w3 [] []); [intros x Hx; left; by apply (es_busy _ _ _ _ He)|].
    by eapply (gave_busies w2 w3 [s]); [apply Hm2|apply Hm3|..].
Qed.

(** ** Freeing *)

Definition count_freed (which : space) (s : superblock) : superblock :=
  (upd_asi which (fun a => a <| freechunks ::= fun n => u64 (n + 1) |>) s) <| runflags ::= Z.lor RUN_SB_DIRTY |>.

(** Why a chunk cannot be freed: its bit is clear, or its bitmap block cannot be
    read. *)
Definition free_failed (w : world) (which : space) (c : Z) : Prop :=
  bit_free (view w) (sb w) which c \/ no_room w 1 \/ disk w !! bitmap_sector (sb w) which (c / per_block (sb w)) = None.

(** Chunk [c] was in use and is now free. *)
Record freed (X : Z -> Prop) (w w' : world) (which : space) (c : Z) : Prop := {
  fr_mem : mem_but X w';
  fr_x : xstep w w';
  fr_took : took w w' [];
  fr_sb : sb w' = count_freed which (sb w);
  fr_dirty : forall x, x ∈ dirty_buffers w' -> x ∈ dirty_buffers w \/ x = bitmap_sector (sb w) which (c / per_block (sb w));
  fr_busy : busies w w' [bitmap_sector (sb w) which (c / per_block (sb w))];
  fr_view : exists d, view w (bitmap_sector (sb w) which (c / per_block (sb w))) = Some d /\
    get_bitmap_bit d (c mod per_block (sb w)) = true /\
    forall x, view w' x = if decide (x = bitmap_sector (sb w) which (c / per_block (sb w)))
                          then Some (clear_bitmap_bit d (c mod per_block (sb w))) else view w x }.

Lemma free_chunk_spec X which c w :
  mem_but X w -> geometry (sb w) -> 0 <= c -> ~ X (bitmap_sector (sb w) which (c / per_block (sb w))) ->
  wp (free_chunk which c) (fun r w' =>
    if r : bool then freed X w w' which c
    else mem_but X w' /\ cstep w w' /\ took w w' [] /\ free_failed w which c) w.
Proof.
  intros Hm Hg Hc HX. unfold free_chunk, getsb. wp_steps. destruct (shift_eq (sb w) Hg) as [Esh Hsh].
  assert (Esec : u64 (bitmap_base (asi which (sb w)) + Z.shiftl (Z.shiftr c (bitmap_shift (sb w))) (chunk_sectors_bits (metadata (sb w))))
    = bitmap_sector (sb w) which (c / per_block (sb w))).
  { unfold bitmap_sector. by rewrite (Z.shiftr_div_pow2 c) , Esh by done. }
  rewrite Esec. set (sec := bitmap_sector (sb w) which (c / per_block (sb w))) in *.
  eapply wp_mono; [by apply (snapread_but X)|]. cbv beta. intros [x|] w1 (Hm1 & Hc1 & Hr); [|destruct Hr; wp_steps; split_and!; try done; by right].
  destruct Hr as (-> & Hu & Ht1 & [d Hd]). assert (Es : sb w1 = sb w) by apply Hc1.
  wp_steps. apply wp_get_data; [done|]. rewrite (cs_view _ _ Hc1), Hd. intros ? [= <-]. rewrite !mask_eq by done.
  destruct (get_bitmap_bit d (c mod per_block (sb w))) eqn:Eb; cbn [negb].
  - apply wp_assoc. wp_step. eapply wp_mono.
    { apply (edit_release_but X sec (clear_bitmap_bit d (c mod per_block (sb w))) w1); [done|by apply usable_pins|].
      rewrite length_clear_bitmap_bit, Es. eapply view_sized; [apply Hm|done]. }
    cbv beta. intros _ w2 (Hm2 & Hx2 & Ht2 & Es2 & Hv2 & Hd2 & Hb2). unfold modsb, set_sb_dirty. wp_steps. constructor.
    + destruct Hm2 as [[] [] Hsy]. constructor; [by constructor| |done]. by constructor.
    + eapply (xstep_trans w w2); [|by constructor|done]. eapply xstep_trans; [by apply cstep_xstep|done|].
      intros y Hy _. rewrite Ht1. apply usable_pins in Hy. pose proof (occ_nonneg y [sec]). lia.
    + intros y. change (pins w2 y = pins w y + occ y []). rewrite occ_nil. specialize (Ht1 y). specialize (Ht2 y). lia.
    + cbn. by rewrite Es2, Es.
    + cbn. intros y Hy. apply Hd2 in Hy. by rewrite (same_dirty _ _ (cs_store _ _ Hc1)) in Hy.
    + apply (busies_trans w w1 _ [sec] []); [by apply took_busies; [apply Hm|apply Hm1|..]|exact Hb2].
    + exists d. split_and!; [done|done|]. intros y. etransitivity; [exact (Hv2 y)|].
      fold sec. destruct (decide (y = sec)); [done|]. apply Hc1.
  - wp_steps. eapply wp_mono; [apply (brelse_but X); [done|by apply usable_pins|by apply Hm1]|]. cbv beta. intros _ w2 (Hm2 & Hc2 & Ht2).
    wp_steps. split; [done|]. split; [|split; [|left; by exists d]].
    + eapply cstep_up; [done|done|]. intros y. rewrite Ht1. pose proof (occ_nonneg y [sec]). lia.
    + intros y. specialize (Ht1 y). specialize (Ht2 y). rewrite occ_nil. lia.
Qed.

(** C22: [free_chunk] of a chunk whose bit is set clears that bit, and no other, and
    raises the free count by one.  It reports a failure, and changes nothing, only
    when the bit is clear already or when the bitmap block cannot be read. *)
Theorem free_chunk_correct which c w :
  mem_ok w -> geometry (sb w) -> 0 <= c ->
  wp (free_chunk which c) (fun r w' => mem_ok w' /\ took w w' [] /\
    if r : bool then
      bit_used (view w) (sb w) which c /\ bit_free (view w') (sb w) which c /\
      (forall x, x <> bitmap_sector (sb w) which (c / per_block (sb w)) -> view w' x = view w x) /\
      (forall c', c' <> c -> 0 <= c' -> c' / per_block (sb w) = c / per_block (sb w) ->
         bit_used (view w') (sb w) which c' <-> bit_used (view w) (sb w) which c') /\
      freechunks (asi which (sb w')) = u64 (freechunks (asi which (sb w)) + 1)
    else sb w' = sb w /\ (forall x, view w' x = view w x) /\ free_failed w which c) w.
Proof.
  intros Hm Hg Hc. destruct (per_block_pos (sb w) Hg) as [Hsz Hper].
  eapply wp_mono; [apply (free_chunk_spec (fun _ => False)); [by apply mem_but_ok|done|done|tauto]|]. cbv beta.
  intros [|] w'; [|intros (Hm'%mem_but_ok & Hc' & Ht & Hwhy); split_and!; [done|done|apply Hc'|apply Hc'|done]].
  intros [Hm'%mem_but_ok _ Ht Hsb _ _ (d & Hd & Hu & Hv)]. split; [done|]. split; [done|].
  assert (Hin : bit_in d (c mod per_block (sb w))).
  { unfold bit_in. rewrite (view_length w _ _ Hm Hd), Z2Nat.id by lia. rewrite <- Hper. apply Z.mod_pos_bound. lia. }
  split_and!.
  - by exists d.
  - eexists. rewrite Hv, decide_True by done. split; [done|].
    by rewrite get_clear_bitmap_bit, Z.eqb_refl; [|done|apply Z.mod_pos_bound; lia].
  - intros x Hx. by rewrite Hv, decide_False.
  - intros c' Hne Hc' Eq. unfold bit_used. rewrite Eq, Hv, decide_True, Hd by done.
    assert (Hmod : (c' mod per_block (sb w) =? c mod per_block (sb w)) = false).
    { pose proof (Z.div_mod c (per_block (sb w)) ltac:(lia)). pose proof (Z.div_mod c' (per_block (sb w)) ltac:(lia)).
      apply Z.eqb_neq. intros E. apply Hne. congruence. }
    assert (Eb : get_bitmap_bit (clear_bitmap_bit d (c mod per_block (sb w))) (c' mod per_block (sb w)) =
      get_bitmap_bit d (c' mod per_block (sb w))).
    { rewrite get_clear_bitmap_bit by (try done; apply Z.mod_pos_bound; lia). by rewrite ?Hmod, 1?Z.eqb_sym, ?Hmod. }
    split; intros (d' & [= <-] & Hb); eexists; (split; [done|]); congruence.
  - rewrite Hsb. unfold count_freed, upd_asi, asi, as_of. cbn.
    destruct which, (asi_sel (metadata (sb w))) eqn:E1, (asi_sel (snapdata (sb w))) eqn:E2; cbn; rewrite ?E1, ?E2; done.
Qed.
