(* ===== verification/Traverse.v ===== *)
(** * The walk over the leaves

    [traverse_tree_range] from the start of the tree calls its visitor on every
    leaf once, in the order of the chunks, and gives back every buffer. *)

From S2P Require Import Prelude Bytes State Buffer Bitmap Leaf LeafSpec LeafInv LeafView Node Alloc Journal Btree Snapshot CacheInv CacheRoom CacheMem AllocInv Tree.

Section walk.
Context {D : Type} (visit_leaf : block -> D -> prog D).
(** [I C d]: [d] is the data when the entries [C] have been visited.  The visitor
    extends it by one leaf and changes nothing else; it may read the superblock
    [s0]. *)
Context (I : aleaf -> D -> Prop) (s0 : superblock).
Context (visit_ok : forall b L C d w, sb w = s0 -> leaf_rep b L -> leaf_wf L -> I C d ->
  wp (visit_leaf b d) (fun d' w' => w' = w /\ I (C ++ L) d') w).

(** ** What is left to visit *)

(** The subtrees at the sectors [ss], of [h] levels of nodes each *)
Fixpoint forest (V : Z -> option block) (h : nat) (ss : list Z) (C : aleaf) (F : list Z) : Prop :=
  match ss with
  | [] => C = [] /\ F = []
  | s :: ss' => exists lo hi C1 C2 F1 F2, C = C1 ++ C2 /\ F = F1 ++ F2 /\ lo < hi /\
      subtree V h lo hi s C1 F1 /\ forest V h ss' C2 F2
  end.

Lemma kids_forest V h lo hi es C F : kids (subtree V h) lo hi es C F -> forest V h es.*2 C F.
Proof.
  revert lo C F. induction es as [|[k s] es IH]; intros lo C F; cbn; [by intros (_ & -> & ->)|].
  intros (mid & C1 & C2 & F1 & F2 & -> & -> & Hlt & H1 & _ & Hk). exists lo, mid, C1, C2, F1, F2. split_and!; try done. by eapply IH.
Qed.

(** A node of the path at height [h]: its children from [pn] on are to be visited. *)
Definition frame (V : Z -> option block) (h : nat) (p : etree_path) (C : aleaf) (F : list Z) : Prop :=
  exists b es, V p.1 = Some b /\ node_rep b es /\ (p.2 <= length es)%nat /\ forest V h (drop p.2 es.*2) C F.

(** The first [level] levels of the path; the root is at level 0 and the leaves
    at level [n]. *)
Fixpoint stack (V : Z -> option block) (n : nat) (path : list etree_path) (level : nat) (C : aleaf) (F : list Z) : Prop :=
  match level with
  | O => C = [] /\ F = []
  | S up => exists p C1 C2 F1 F2, path !! up = Some p /\ C = C1 ++ C2 /\ F = F1 ++ F2 /\
      frame V (n - up - 1) p C1 F1 /\ stack V n path up C2 F2
  end.

Lemma forest_ext V V' h ss C F : (forall x, V' x = V x) -> forest V h ss C F -> forest V' h ss C F.
Proof.
  intros HV. revert C F. induction ss as [|s ss IH]; intros C F; cbn; [done|].
  intros (lo & hi & C1 & C2 & F1 & F2 & -> & -> & Hlt & Ht & Hf). exists lo, hi, C1, C2, F1, F2. split_and!; try done; [|by apply IH].
  eapply subtree_ext; [|done]. intros; apply HV.
Qed.

Lemma stack_ext V V' n path level C F : (forall x, V' x = V x) -> stack V n path level C F -> stack V' n path level C F.
Proof.
  intros HV. revert C F. induction level as [|up IH]; intros C F; cbn; [done|].
  intros (p & C1 & C2 & F1 & F2 & Hp & -> & -> & (b & es & Hb & Hr & Hn & Hf) & Hs).
  exists p, C1, C2, F1, F2. split_and!; try done; [|by apply IH]. exists b, es. rewrite HV. split_and!; try done.
  by eapply forest_ext.
Qed.

(** Elements of the path from [level] on do not matter. *)
Lemma stack_insert V n path level i p C F :
  (level <= i)%nat -> stack V n path level C F -> stack V n (<[i := p]> path) level C F.
Proof.
  intros Hi. revert C F Hi. induction level as [|up IH]; intros C F Hi; cbn; [done|].
  intros (q & C1 & C2 & F1 & F2 & Hq & -> & -> & Hf & Hs). exists q, C1, C2, F1, F2.
  rewrite list_lookup_insert_ne by lia. split_and!; try done. apply IH; [lia|done].
Qed.

(** ** Reading the path *)

Lemma next_sector_run path level buf pn b es s ss w1 (Q : Z * list etree_path -> world -> Prop) :
  path !! level = Some (buf, pn) -> usable w1 buf -> view w1 buf = Some b -> node_rep b es -> drop pn es.*2 = s :: ss ->
  Q (s, <[level := (buf, S pn)]> path) w1 -> wp (next_sector path level) Q w1.
Proof.
  intros Hp Hu Hv Hr Hd HQ. unfold next_sector, path_get. rewrite Hp. wp_steps. apply wp_get_data; [done|]. rewrite Hv.
  intros ? [= <-]. wp_steps. assert (Hs : es.*2 !! pn = Some s) by (rewrite <- (Nat.add_0_r pn), <- lookup_drop, Hd; done).
  apply list_lookup_fmap_Some in Hs as ([k s'] & -> & Hes). by destruct (node_rep_entry b es pn k s' Hr Hes) as [_ ->].
Qed.

Lemma finished_level_run path level buf pn b es w1 (Q : bool -> world -> Prop) :
  path !! level = Some (buf, pn) -> usable w1 buf -> view w1 buf = Some b -> node_rep b es ->
  Q (pn =? length es)%nat w1 -> wp (finished_level path level) Q w1.
Proof.
  intros Hp Hu Hv Hr HQ. unfold finished_level, path_get. rewrite Hp. wp_steps. apply wp_get_data; [done|]. rewrite Hv.
  intros ? [= <-]. wp_steps. by rewrite (node_rep_count b es Hr).
Qed.

Lemma subtree_view V n lo hi s C F x : subtree V n lo hi s C F -> x ∈ F -> is_Some (V x).
Proof.
  revert lo hi s C F. induction n as [|n IH]; intros lo hi s C F; cbn.
  { intros (b & Hb & _ & _ & _ & ->) ->%list_elem_of_singleton. eauto. }
  intros (b & es & F' & Hb & _ & -> & Hk) Hx. apply elem_of_cons in Hx as [->|Hx]; [eauto|].
  clear b Hb. revert lo C F' Hk Hx. induction es as [|[k t] es IHe]; intros lo C F'; cbn.
  { intros (_ & _ & ->) ?%elem_of_nil. done. }
  intros (mid & C1 & C2 & F1 & F2 & -> & -> & _ & Ht & _ & Hk) Hx. apply elem_of_app in Hx as [Hx|Hx].
  - by eapply IH.
  - by eapply IHe.
Qed.

(** ** The walk *)

Section run.
Context (w : world) (n : nat) (root : Z) (C : aleaf).
Abbreviation V := (view w).
Context (Hroot : root = etree_root (image (sb w))) (Hmem : mem_ok w) (Hs0 : sb w = s0) (Hdev : on_device w).

(** The buffers of the first [level] path elements are in use, and no others
    that were not before. *)
Record walking (path : list etree_path) (level : nat) (w1 : world) : Prop := {
  wk_mem : mem_ok w1;
  wk_step : cstep w w1;
  wk_took : took w w1 (take level path).*1;
  wk_use : forall x, x ∈ (take level path).*1 -> usable w1 x;
  wk_len : length path = n }.

(** A walk that was given up: the cache has no room for a path of the tree.  Some
    references may be left. *)
Definition given_up (w1 : world) : Prop :=
  mem_ok w1 /\ cstep w w1 /\ no_room w (Z.of_nat n + 1) /\ exists l, took w w1 l.

(** What the walk has done and has still to do *)
Definition rest_of (path : list etree_path) (level : nat) (data : D) (Fr : list Z) : Prop :=
  exists Cd Cr, C = Cd ++ Cr /\ I Cd data /\ stack V n path level Cr Fr.

(** The node at the top of the stack has children left. *)
Definition top_open (path : list etree_path) (up : nat) : Prop :=
  exists p b, path !! up = Some p /\ V p.1 = Some b /\ (p.2 < node_count b)%nat.

(** The walk can go down at [level]. *)
Definition ready (path : list etree_path) (level : nat) (data : D) (Fr : list Z) : Prop :=
  match level with
  | O => I [] data /\ exists lo hi, lo < hi /\ subtree V n lo hi root C Fr
  | S up => rest_of path level data Fr /\ top_open path up
  end.

(** The next subtree to visit and what comes after it *)
Definition branch (path : list etree_path) (level : nat) (data : D) (Fr : list Z) (s : Z) : Prop :=
  exists Cd C1 C2 F1 F2 lo hi, C = Cd ++ C1 ++ C2 /\ Fr = F1 ++ F2 /\ I Cd data /\ lo < hi /\
    subtree V (n - level) lo hi s C1 F1 /\ stack V n path level C2 F2.

Lemma walking_view path level w1 x : walking path level w1 -> view w1 x = V x.
Proof. intros Hw. apply Hw. Qed.

Lemma take_fst_elem (path : list etree_path) level up p :
  path !! up = Some p -> (up < level)%nat -> p.1 ∈ (take level path).*1.
Proof.
  intros Hp Hl. apply list_elem_of_fmap_2. apply (list_elem_of_lookup_2 _ up). by rewrite lookup_take_lt.
Qed.

Lemma take_fst_insert (path : list etree_path) level up buf pn pn' :
  path !! up = Some (buf, pn) -> (take level (<[up := (buf, pn')]> path)).*1 = (take level path).*1.
Proof.
  intros Hp. apply list_eq. intros i. rewrite !list_lookup_fmap. destruct (decide (i < level)%nat) as [Hi|Hi].
  - rewrite !lookup_take_lt by done. destruct (decide (up = i)) as [<-|Hne].
    + rewrite list_lookup_insert_eq, Hp by by eapply lookup_lt_Some. done.
    + by rewrite list_lookup_insert_ne.
  - by rewrite !lookup_take_ge by lia.
Qed.

Lemma next_branch path level data Fr w1 :
  walking path level w1 -> (level < n)%nat -> ready path level data Fr ->
  wp (match level with O => s ← getsb; mret (etree_root (image s), path) | S up => next_sector path up end)
    (fun r w2 => w2 = w1 /\ walking r.2 level w1 /\ branch r.2 level data Fr r.1) w1.
Proof.
  intros Hw Hl Hrd. destruct level as [|up].
  - destruct Hrd as (HI & lo & hi & Hlt & Ht). unfold getsb. wp_steps. split; [done|]. split; [done|]. cbn.
    rewrite (same_sb _ _ (cs_store _ _ (wk_step _ _ _ Hw))), <- Hroot.
    exists [], C, [], Fr, [], lo, hi. rewrite Nat.sub_0_r, !app_nil_r. by split_and!.
  - destruct Hrd as ((Cd & Cr & EC & HI & Hst) & (p & b & Hp & Hv & Hlt)). cbn in Hst.
    destruct Hst as (p' & C1 & C2 & F1 & F2 & Hp' & -> & -> & (b' & es & Hv' & Hr & _ & Hf) & Hst).
    rewrite Hp in Hp'. injection Hp' as <-. rewrite Hv in Hv'. injection Hv' as <-.
    rewrite (node_rep_count b es Hr) in Hlt. destruct p as [buf pn]. cbn [fst snd] in *.
    assert (Hd : exists s ss, drop pn es.*2 = s :: ss).
    { destruct (drop pn es.*2) eqn:E; [|eauto]. apply (f_equal length) in E. rewrite length_drop, length_fmap in E. cbn in E. lia. }
    destruct Hd as (s & ss & Hd). rewrite Hd in Hf. cbn in Hf.
    destruct Hf as (lo & hi & Ca & Cb & Fa & Fb & -> & -> & Hlh & Ht & Hf).
    eapply next_sector_run; [done|exact (wk_use _ _ _ Hw _ (take_fst_elem path (S up) up (buf, pn) Hp (Nat.lt_succ_diag_r up)))|by rewrite (walking_view _ _ _ _ Hw)|done|done|].
    split; [done|]. cbn [fst snd]. split.
    + destruct Hw as [H1 H2 H3 H4 H5]. constructor; try done.
      * by rewrite (take_fst_insert _ _ _ _ pn).
      * by rewrite (take_fst_insert _ _ _ _ pn).
      * by rewrite length_insert.
    + exists Cd, Ca, (Cb ++ C2), Fa, (Fb ++ F2), lo, hi. replace (n - S up)%nat with (n - up - 1)%nat by lia.
      rewrite !app_assoc in *. split_and!; try done. cbn.
      exists (buf, S pn), Cb, C2, Fb, F2. rewrite list_lookup_insert_eq by by eapply lookup_lt_Some. split_and!; try done.
      * exists b, es. split_and!; try done. cbn [snd].
        replace (drop (S pn) es.*2) with ss; [done|]. change ss with (drop 1 (s :: ss)). rewrite <- Hd, drop_drop. f_equal. lia.
      * apply stack_insert; [done|done].
Qed.

(** A block of the tree is read: this fails only for want of room. *)
Lemma walk_read path level s w1 :
  walking path level w1 -> (level <= n)%nat -> is_Some (V s) ->
  wp (snapread s) (fun r w2 =>
    match r with
    | Some x => x = s /\ mem_ok w2 /\ cstep w1 w2 /\ took w1 w2 [s] /\ usable w2 s
    | None => given_up w2
    end) w1.
Proof.
  intros Hw Hl Hs. pose proof Hw as [Hm Hc Ht Hu Hn]. eapply wp_mono; [by apply snapread_mem|].
  cbv beta. intros [x|] w2 (Hm2 & Hc2 & Hr).
  - destruct Hr as (-> & Hu2 & Ht2 & _). by split_and!.
  - destruct Hr as [Ht2 Hwhy]. split; [done|]. split; [by eapply took_cstep|]. split; [|eexists; exact (took_trans _ _ _ _ _ Ht Ht2)].
    destruct Hwhy as [Hno|Hnone].
    + eapply no_room_mono; [exact (took_no_room w w1 _ 1 Hmem Hm Hc Ht Hno)|]. rewrite length_fmap, length_take. lia.
    + rewrite (same_disk _ _ (cs_store _ _ Hc)) in Hnone. destruct (Hdev s Hs) as [d Hd]. congruence.
Qed.

Lemma branch_view path level data Fr s : branch path level data Fr s -> is_Some (V s).
Proof. intros (Cd & C1 & C2 & F1 & F2 & lo & hi & _ & _ & _ & _ & Ht & _). by eapply subtree_top. Qed.

(** The node of a branch is read and put on the path. *)
Lemma walking_push path level s w1 w2 :
  walking path level w1 -> (level < n)%nat -> mem_ok w2 -> cstep w1 w2 -> took w1 w2 [s] -> usable w2 s ->
  walking (<[level := (s, 0%nat)]> path) (S level) w2.
Proof.
  intros [Hm Hc Ht Hu Hn] Hl Hm2 Hc2 Ht2 Hus.
  assert (E : (take (S level) (<[level := (s, 0%nat)]> path)).*1 = (take level path).*1 ++ [s]).
  { rewrite (take_S_r _ _ (s, 0%nat)) by (rewrite list_lookup_insert_eq; [done|lia]). by rewrite take_insert_ge, fmap_app by lia. }
  constructor; rewrite ?E; [done|by eapply took_cstep|exact (took_trans _ _ _ _ _ Ht Ht2)| |by rewrite length_insert].
  intros x Hin. apply elem_of_app in Hin as [Hin| ->%list_elem_of_singleton]; [|done].
  pose proof (Hu x Hin) as Hux. apply (cs_usable _ _ Hc2); [done|]. rewrite Ht2. apply usable_pins in Hux.
  pose proof (occ_nonneg x [s]). lia.
Qed.

Lemma branch_push path level data Fr s :
  branch path level data Fr s -> (level < n)%nat -> length path = n ->
  exists Fr', (length Fr' < length Fr)%nat /\ rest_of (<[level := (s, 0%nat)]> path) (S level) data Fr' /\
    top_open (<[level := (s, 0%nat)]> path) level.
Proof.
  intros (Cd & C1 & C2 & F1 & F2 & lo & hi & EC & -> & HI & Hlh & Ht & Hst) Hl Hn.
  replace (n - level)%nat with (S (n - level - 1)) in Ht by lia. cbn in Ht.
  destruct Ht as (b & es & F' & Hb & Hr & -> & Hk). exists (F' ++ F2).
  assert (Hes : es <> []) by (intros ->; cbn in Hk; lia). split; [rewrite !length_app; cbn; lia|]. split.
  - exists Cd, (C1 ++ C2). split; [done|]. split; [done|]. cbn. exists (s, 0%nat), C1, C2, F', F2.
    rewrite list_lookup_insert_eq by lia. split_and!; try done.
    + exists b, es. cbn [fst snd]. split_and!; [done|done|lia|]. rewrite drop_0. by eapply kids_forest.
    + by apply stack_insert.
  - exists (s, 0%nat), b. rewrite list_lookup_insert_eq by lia. split_and!; [done|done|]. cbn [snd].
    rewrite (node_rep_count b es Hr). destruct es; [done|cbn; lia].
Qed.

Lemma push_levels_run path level data Fr w1 :
  walking path level w1 -> (level < n)%nat -> ready path level data Fr ->
  wp (push_levels n level path) (fun r w2 =>
    match r with
    | None => given_up w2
    | Some (level', path') => level' = (n - 1)%nat /\ walking path' n w2 /\
        exists Fr', (length Fr' < length Fr)%nat /\ rest_of path' n data Fr'
    end) w1.
Proof.
  intros Hw Hl Hrd. unfold push_levels.
  apply (wp_loop (fun '(l, p) w2 => (l < n)%nat /\ walking p l w2 /\ exists Fr', (length Fr' <= length Fr)%nat /\ ready p l data Fr')
    (fun '(l, _) _ => (n - l)%nat)); [|by split_and!; [| |exists Fr]|lia].
  clear path level w1 Hw Hl Hrd. intros [level path] w1 (Hl & Hw & Fr1 & HFr & Hrd).
  wp_step. eapply wp_mono; [by eapply next_branch|]. cbv beta. intros [s path1] w2 (-> & Hw1 & Hbr). cbn [fst snd] in *.
  wp_step. eapply wp_mono; [eapply walk_read; [done|lia|by eapply branch_view]|]. cbv beta.
  intros [x|] w2; [|intros Hg; by wp_steps]. intros (-> & Hm2 & Hc2 & Ht2 & Hu2).
  pose proof (walking_push _ _ _ _ _ Hw1 Hl Hm2 Hc2 Ht2 Hu2) as Hw2.
  destruct (branch_push _ _ _ _ _ Hbr Hl (wk_len _ _ _ Hw1)) as (Fr2 & Hlt & Hrest & Hopen).
  wp_steps. destruct (Nat.ltb_spec level (n - 1)).
  - split; [|lia]. split; [lia|]. split; [done|]. exists Fr2. split; [lia|]. by split.
  - replace (S level) with n in * by lia. split; [lia|]. split; [done|]. exists Fr2. split; [lia|done].
Qed.

(** ** The leaves of a node *)

Lemma visit_buffer_run leafbuf b L Cd data w1 :
  mem_ok w1 -> sb w1 = s0 -> usable w1 leafbuf -> view w1 leafbuf = Some b -> leaf_rep b L -> leaf_wf L -> I Cd data ->
  wp (visit_buffer visit_leaf leafbuf data) (fun data' w2 =>
    I (Cd ++ L) data' /\ mem_ok w2 /\ cstep w1 w2 /\ took w2 w1 [leafbuf]) w1.
Proof.
  intros Hm Hsb Hu Hv Hr Hw HI. unfold visit_buffer. wp_step. apply wp_get_data; [done|]. rewrite Hv. intros ? [= <-].
  wp_step. eapply wp_mono; [by apply (visit_ok b L Cd)|]. cbv beta. intros d' w2 [-> HI']. wp_step.
  eapply wp_mono; [apply brelse_mem; [done|by apply usable_pins]|]. cbv beta. intros _ w3 (Hm3 & Hc3 & Ht3). by wp_steps.
Qed.

(** A leaf was read and released: the walk holds what it held. *)
Lemma walking_visit path level s w1 w2 w3 :
  walking path level w1 -> mem_ok w3 -> cstep w1 w2 -> took w1 w2 [s] -> cstep w2 w3 -> took w3 w2 [s] ->
  walking path level w3.
Proof.
  intros [Hm Hc Ht Hu Hn] Hm3 Hc2 Ht2 Hc3 Ht3.
  assert (Hp : forall x, pins w3 x = pins w1 x) by (intros x; specialize (Ht2 x); specialize (Ht3 x); lia).
  assert (Hc13 : cstep w1 w3).
  { eapply cstep_up; [done|done|]. intros x. rewrite Ht2. pose proof (occ_nonneg x [s]). lia. }
  constructor; [done|by eapply took_cstep|intros x; by rewrite Hp| |done].
  intros x Hx. apply (cs_usable _ _ Hc13); [by apply Hu|]. rewrite Hp. by apply usable_pins, Hu.
Qed.

(** Going over the leaves below the node at the bottom of the path: the entries of
    the children from [pn] on are visited. *)
Definition at_leaves (buf : Z) (b : block) (es : list (Z * Z)) (path : list etree_path) (pn : nat) (data : D) (Fr : list Z) : Prop :=
  path !! (n - 1)%nat = Some (buf, pn) /\ V buf = Some b /\ node_rep b es /\ (pn <= length es)%nat /\
  exists Cd C1 C2 F1 F2, C = Cd ++ C1 ++ C2 /\ Fr = F1 ++ F2 /\ I Cd data /\ forest V 0 (drop pn es.*2) C1 F1 /\
    stack V n path (n - 1) C2 F2.

Lemma rest_at_leaves path data Fr :
  (0 < n)%nat -> rest_of path n data Fr -> exists buf b es pn, at_leaves buf b es path pn data Fr.
Proof.
  intros Hn (Cd & Cr & EC & HI & Hst). replace n with (S (n - 1)) in Hst at 2 by lia. cbn in Hst.
  destruct Hst as ([buf pn] & C1 & C2 & F1 & F2 & Hp & -> & -> & (b & es & Hb & Hr & Hle & Hf) & Hst).
  replace (n - (n - 1) - 1)%nat with 0%nat in Hf by lia. exists buf, b, es, pn. split_and!; try done.
  by exists Cd, C1, C2, F1, F2.
Qed.

Lemma at_leaves_next buf b es path pn data Fr :
  at_leaves buf b es path pn data Fr -> (pn < length es)%nat ->
  exists s ss lb L Cd, drop pn es.*2 = s :: ss /\ V s = Some lb /\ leaf_rep lb L /\ leaf_wf L /\ I Cd data /\
    forall data', I (Cd ++ L) data' ->
      exists Fr', (length Fr' <= length Fr)%nat /\ at_leaves buf b es (<[(n - 1)%nat := (buf, S pn)]> path) (S pn) data' Fr'.
Proof.
  intros (Hp & Hb & Hr & Hle & Cd & C1 & C2 & F1 & F2 & EC & -> & HI & Hf & Hst) Hlt.
  destruct (drop pn es.*2) as [|s ss] eqn:Hd.
  { apply (f_equal length) in Hd. rewrite length_drop, length_fmap in Hd. cbn in Hd. lia. }
  cbn in Hf. destruct Hf as (lo & hi & L & Cb & Fa & Fb & -> & -> & _ & (lb & Hlb & Hrl & Hwl & _ & ->) & Hf).
  exists s, ss, lb, L, Cd. split_and!; try done. intros data' HI'. exists (Fb ++ F2). split; [rewrite !length_app; cbn; lia|].
  split_and!; try done.
  - by rewrite list_lookup_insert_eq by by eapply lookup_lt_Some.
  - exists (Cd ++ L), Cb, C2, Fb, F2. split_and!; try done.
    + rewrite EC. by rewrite <- !app_assoc.
    + replace (drop (S pn) es.*2) with ss; [done|]. change ss with (drop 1 (s :: ss)). rewrite <- Hd, drop_drop. f_equal. lia.
    + by apply stack_insert.
Qed.

Lemma visit_leaves_run path data Fr w1 :
  (0 < n)%nat -> walking path n w1 -> rest_of path n data Fr ->
  wp (visit_leaves visit_leaf (n - 1) path data) (fun r w2 =>
    match r with
    | None => given_up w2
    | Some (path', data') => walking path' n w2 /\
        exists Fr', (length Fr' <= length Fr)%nat /\ rest_of path' (n - 1) data' Fr'
    end) w1.
Proof.
  intros Hn Hw Hrest. destruct (rest_at_leaves _ _ _ Hn Hrest) as (buf & b & es & pn & Hat).
  assert (Huse : forall path pn w2, walking path n w2 -> path !! (n - 1)%nat = Some (buf, pn) -> usable w2 buf).
  { intros p k w2 Hw2 Hp. apply (wk_use _ _ _ Hw2). apply (take_fst_elem p n (n - 1) (buf, k) Hp). lia. }
  pose proof Hat as (Hp & Hb & Hr & Hle & _). unfold visit_leaves, path_get. rewrite Hp. wp_steps.
  apply wp_get_data; [by eapply Huse|]. rewrite (walking_view _ _ _ _ Hw), Hb. intros ? [= <-].
  rewrite (node_rep_count b es Hr).
  apply (wp_loop (fun '(p, d) w2 => walking p n w2 /\ exists k Fr', (length Fr' <= length Fr)%nat /\ at_leaves buf b es p k d Fr')
    (fun '(p, _) _ => length es - from_option snd 0 (p !! (n - 1)))%nat); [|by split; [|exists pn, Fr]|rewrite Hp; cbn; lia].
  clear path pn data w1 Hw Hrest Hat Hp Hle. intros [path data] w1 (Hw & pn & Fr1 & HFr & Hat).
  pose proof Hat as (Hp & _ & _ & Hle & _). rewrite Hp. wp_steps.
  apply wp_get_data; [by eapply Huse|]. rewrite (walking_view _ _ _ _ Hw), Hb. intros ? [= <-].
  rewrite (node_rep_count b es Hr). destruct (Nat.ltb_spec pn (length es)) as [Hlt|Hge].
  - destruct (at_leaves_next _ _ _ _ _ _ _ Hat Hlt) as (s & ss & lb & L & Cd & Hd & Hlb & Hrl & Hwl & HI & Hnext).
    wp_step. eapply next_sector_run; [done|by eapply Huse|by rewrite (walking_view _ _ _ _ Hw)|done|done|].
    assert (Hw' : walking (<[(n - 1)%nat := (buf, S pn)]> path) n w1).
    { destruct Hw as [H1 H2 H3 H4 H5]. constructor; try done; rewrite ?(take_fst_insert _ _ _ _ pn) by done; [done|done|].
      by rewrite length_insert. }
    wp_step. eapply wp_mono; [by eapply walk_read|]. cbv beta.
    intros [x|] w2; [|intros Hg; by wp_steps]. intros (-> & Hm2 & Hc2 & Ht2 & Hu2).
    wp_step. eapply wp_mono.
    { apply (visit_buffer_run s lb L Cd); [done| |done| |done|done|done].
      { by rewrite (same_sb _ _ (cs_store _ _ Hc2)), (same_sb _ _ (cs_store _ _ (wk_step _ _ _ Hw))). }
      by rewrite (cs_view _ _ Hc2), (walking_view _ _ _ _ Hw). }
    cbv beta. intros data' w3 (HI' & Hm3 & Hc3 & Ht3). wp_steps. destruct (Hnext data' HI') as (Fr2 & Hl2 & Hat2).
    split.
    + split; [by eapply walking_visit|]. exists (S pn), Fr2. split; [lia|done].
    + rewrite list_lookup_insert_eq by (apply lookup_lt_Some in Hp; done). cbn. lia.
  - wp_steps. split; [done|]. exists Fr1. split; [done|].
    destruct Hat as (_ & _ & _ & _ & Cd & C1 & C2 & F1 & F2 & EC & -> & HI & Hf & Hst).
    rewrite drop_ge in Hf by (rewrite length_fmap; lia). cbn in Hf. destruct Hf as [-> ->]. by exists Cd, C2.
Qed.

(** ** Going back up *)

Lemma walking_pop path level buf pn w1 :
  walking path (S level) w1 -> path !! level = Some (buf, pn) ->
  wp (brelse buf) (fun _ w2 => walking path level w2) w1.
Proof.
  intros [Hm Hc Ht Hu Hn] Hp.
  assert (E : (take (S level) path).*1 = (take level path).*1 ++ [buf]) by (rewrite (take_S_r _ _ _ Hp), fmap_app; done).
  rewrite E in *. assert (Hub : usable w1 buf) by (apply Hu; in_list).
  eapply wp_mono; [apply brelse_mem; [done|by apply usable_pins]|]. cbv beta. intros _ w2 (Hm2 & Hc2 & Ht2).
  assert (Hp2 : forall x, pins w2 x = pins w x + occ x (take level path).*1).
  { intros x. specialize (Ht x). specialize (Ht2 x). rewrite occ_app in Ht. lia. }
  assert (Hpos : forall x, x ∈ (take level path).*1 -> 0 < pins w2 x).
  { intros x Hx. rewrite Hp2. apply occ_elem in Hx. pose proof (pins_nonneg w x (mem_cache w Hmem)). lia. }
  constructor; [done|by eapply took_cstep|exact Hp2| |done].
  intros x Hx. apply (cs_usable _ _ Hc2); [apply Hu; in_list|by apply Hpos].
Qed.

Lemma pop_levels_run path level data Fr w1 :
  (level < n)%nat -> walking path (S level) w1 -> rest_of path level data Fr ->
  wp (pop_levels level path) (fun r w2 =>
    match r with
    | None => mem_ok w2 /\ cstep w w2 /\ took w w2 [] /\ I C data
    | Some up => (S up <= level)%nat /\ walking path (S up) w2 /\ ready path (S up) data Fr
    end) w1.
Proof.
  revert w1. induction level as [|up IH]; intros w1 Hl Hw Hrest; cbn [pop_levels].
  - destruct (lookup_lt_is_Some_2 path 0) as [[buf pn] Hp]; [rewrite (wk_len _ _ _ Hw); lia|].
    unfold path_get. rewrite Hp. wp_steps. eapply wp_mono; [by eapply walking_pop|]. cbv beta. intros _ w2 Hw2. wp_steps.
    destruct Hrest as (Cd & Cr & EC & HI & [-> _]). rewrite app_nil_r in EC. subst Cd.
    split_and!; [apply Hw2|apply Hw2|apply (wk_took _ _ _ Hw2)|done].
  - destruct (lookup_lt_is_Some_2 path (S up)) as [[buf pn] Hp]; [rewrite (wk_len _ _ _ Hw); lia|].
    unfold path_get. rewrite Hp. wp_steps. eapply wp_mono; [by eapply walking_pop|]. cbv beta. intros _ w2 Hw2. wp_step.
    pose proof Hrest as (Cd & Cr & EC & HI & Hst). cbn in Hst.
    destruct Hst as ([buf' pn'] & C1 & C2 & F1 & F2 & Hp' & -> & -> & (b & es & Hb & Hr & Hle & Hf) & Hst). cbn [fst snd] in *.
    eapply finished_level_run; [done| |by rewrite (walking_view _ _ _ _ Hw2)|done|].
    { apply (wk_use _ _ _ Hw2). apply (take_fst_elem path (S up) up (buf', pn') Hp'). lia. }
    destruct (Nat.eqb_spec pn' (length es)) as [->|Hne].
    + rewrite drop_ge in Hf by by rewrite length_fmap. cbn in Hf. destruct Hf as [-> ->].
      eapply wp_mono; [apply IH; [lia|done|by exists Cd, C2]|]. cbv beta. intros [k|] w3; [|done]. intros (? & ? & ?). split_and!; [lia|done|done].
    + wp_steps. split; [lia|]. split; [done|]. split; [done|]. exists (buf', pn'), b. split_and!; [done|done|].
      cbn [snd]. rewrite (node_rep_count b es Hr). lia.
Qed.

Lemma traverse_node_run path data Fr w1 :
  (0 < n)%nat -> walking path n w1 -> rest_of path n data Fr ->
  wp (traverse_node visit_leaf (n - 1) path data) (fun r w2 =>
    match r with
    | inl (level, path', data') => (level < n)%nat /\ walking path' level w2 /\
        exists Fr', (length Fr' <= length Fr)%nat /\ ready path' level data' Fr'
    | inr (err, data') => (err = 0 /\ mem_ok w2 /\ cstep w w2 /\ took w w2 [] /\ I C data') \/ (err = - EIO /\ given_up w2)
    end) w1.
Proof.
  intros Hn Hw Hrest. unfold traverse_node. wp_step. eapply wp_mono; [by eapply visit_leaves_run|].
  cbv beta. intros [[path' data']|] w2; [|intros Hg; wp_steps; by right]. intros (Hw2 & Fr2 & Hl2 & Hrest2).
  wp_step. eapply wp_mono.
  { eapply (pop_levels_run path' (n - 1) data'); [lia| |exact Hrest2]. by replace (S (n - 1)) with n by lia. }
  cbv beta. intros [up|] w3; wp_steps.
  - intros (Hup & Hw3 & Hrd). split; [lia|]. split; [done|]. by exists Fr2.
  - intros H. by left.
Qed.

(** A walk from the root, or from a level with children left, ends: each round
    takes at least one node. *)
Lemma traverse_from_run path level data Fr w1 :
  (level < n)%nat -> walking path level w1 -> ready path level data Fr -> (length Fr <= base.size (disk w))%nat ->
  wp (traverse_from visit_leaf n level path data) (fun '(err, data') w2 =>
    (err = 0 /\ mem_ok w2 /\ cstep w w2 /\ took w w2 [] /\ I C data') \/ (err = - EIO /\ given_up w2)) w1.
Proof.
  intros Hl Hw Hrd HF. unfold traverse_from. wp_steps.
  rewrite (same_disk _ _ (cs_store _ _ (wk_step _ _ _ Hw))).
  cut (forall k w1 st Fr, (length Fr < k)%nat -> let '(level, path, data) := st in (level < n)%nat -> walking path level w1 ->
    ready path level data Fr -> wp (loopM k (fun '(level, path, data) => r ← push_levels n level path;
      match r with None => mret (inr (- EIO, data)) | Some (level, path) => traverse_node visit_leaf level path data end) st)
      (fun '(err, data') w2 => (err = 0 /\ mem_ok w2 /\ cstep w w2 /\ took w w2 [] /\ I C data') \/ (err = - EIO /\ given_up w2)) w1).
  { intros Hloop. apply (Hloop _ w1 (level, path, data) Fr); [lia|done..]. }
  clear path level data Fr w1 Hl Hw Hrd HF. induction k as [|k IH]; intros w1 [[level path] data] Fr HFr Hl Hw Hrd; [lia|].
  cbn [loopM]. apply wp_bind, wp_bind. eapply wp_mono; [by eapply push_levels_run|].
  cbv beta. intros [[level' path']|] w2; [|intros Hg; wp_steps; by right]. intros (-> & Hw2 & Fr2 & Hlt & Hrest).
  eapply wp_mono; [eapply traverse_node_run; [lia|done|exact Hrest]|]. cbv beta.
  intros [[[level2 path2] data2]|[err data2]] w3; [|done]. intros (Hl3 & Hw3 & Fr3 & Hle & Hrd3).
  apply (IH w3 (level2, path2, data2) Fr3); [lia|done..].
Qed.
End run.
End walk.

Lemma traverse_tree_range_spec {D} (visit_leaf : block -> D -> prog D) (I : aleaf -> D -> Prop) w C F data :
  mem_ok w -> tree_ok w C F -> (0 < etree_levels (image (sb w)))%nat -> on_device w ->
  (forall b L C d w1, sb w1 = sb w -> leaf_rep b L -> leaf_wf L -> I C d ->
     wp (visit_leaf b d) (fun d' w' => w' = w1 /\ I (C ++ L) d') w1) ->
  I [] data ->
  wp (traverse_tree_range visit_leaf 0 data) (fun '(err, data') w' => mem_ok w' /\ cstep w w' /\
    ((err = 0 /\ took w w' [] /\ I C data') \/
     (err = - EIO /\ no_room w (Z.of_nat (etree_levels (image (sb w))) + 1) /\ exists l, took w w' l))) w.
Proof.
  intros Hm (Ht & Hnd & _) Hn Hdisk Hvisit HI. unfold traverse_tree_range, getsb. wp_steps. cbn [negb Z.eqb].
  set (n := etree_levels (image (sb w))) in *. eapply wp_mono.
  { eapply (traverse_from_run visit_leaf I (sb w) Hvisit w n (etree_root (image (sb w))) C eq_refl Hm eq_refl Hdisk _ 0 data F); [done| | |].
    - constructor; [done|apply cstep_refl|apply took_nil| |apply length_replicate]. intros x. cbn. by intros ?%elem_of_nil.
    - split; [done|]. by exists 0, KEY_TOP.
    - assert (Hl : (length F <= length (map_to_list (disk w)).*1)%nat).
      { apply submseteq_length, NoDup_submseteq; [done|]. intros x Hx. destruct (Hdisk x) as [d Hd]; [by eapply subtree_view|].
        apply list_elem_of_fmap. exists (x, d). split; [done|]. by apply elem_of_map_to_list. }
      rewrite length_fmap in Hl. by rewrite <- length_map_to_list. }
  cbv beta. intros [err data'] w' [(-> & ? & ? & ? & ?)|(-> & ? & ? & ? & ?)]; (split; [done|]); (split; [done|]); [by left|by right].
Qed.

(** C15: the walk of [traverse_tree_range] over the whole tree: for any visitor that
    leaves the store alone, and any property [I] of the entries seen so far and
    the data that the visitor keeps on each leaf, the walk visits the leaves of
    the tree once each in the order of the chunks, so that the property holds of
    all entries of the tree at the end; it ends within the rounds that the number
    of blocks of the device allows, changes no block and gives back every
    reference.  It stops with -EIO only when the cache has no room for a path of
    the tree. *)
Theorem traverse_tree_range_correct {D} (visit_leaf : block -> D -> prog D) (I : aleaf -> D -> Prop) w C F data :
  mem_ok w -> tree_ok w C F -> (0 < etree_levels (image (sb w)))%nat -> on_device w ->
  (forall b L C d w1, sb w1 = sb w -> leaf_rep b L -> leaf_wf L -> I C d ->
     wp (visit_leaf b d) (fun d' w' => w' = w1 /\ I (C ++ L) d') w1) ->
  I [] data ->
  wp (traverse_tree_range visit_leaf 0 data) (fun '(err, data') w' => mem_ok w' /\ cstep w w' /\
    ((err = 0 /\ took w w' [] /\ I C data') \/
     (err = - EIO /\ no_room w (Z.of_nat (etree_levels (image (sb w))) + 1) /\ exists l, took w w' l))) w.
Proof. exact (traverse_tree_range_spec visit_leaf I w C F data). Qed.
