(* ===== verification/DeleteLeaf.v ===== *)
(** * Deleting snapshots from a leaf: the bytes

    The sweep over the exceptions of a leaf and the removal of its empty
    directory entries, on the list of entries that the leaf represents. *)

From Stdlib Require Import Sorted.
From S2P Require Import Prelude Bytes Leaf LeafSpec LeafInv LeafView State Btree.

(** ** The entries that stay *)

(** Without the snapshots of [mask] *)
Definition unshare (mask : Z) (e : exc) : exc := Exc (Z.land (share e) (lnot64 mask)) (chunk_of e).
Definition still_shared (mask : Z) (e : exc) : bool := negb (share (unshare mask e) =? 0).

(** The exceptions that stay, and the chunks of those that are freed, from the
    top of the leaf down *)
Definition keep_excs (mask : Z) (es : list exc) : list exc := unshare mask <$> List.filter (still_shared mask) es.
Definition free_excs (mask : Z) (es : list exc) : list Z :=
  chunk_of <$> List.filter (fun e => negb (still_shared mask e)) es.
Definition keep_entries (mask : Z) (L : aleaf) : aleaf := (fun d => (d.1, keep_excs mask d.2)) <$> L.
Definition nonempty (d : Z * list exc) : bool := negb (bool_decide (d.2 = [])).
Definition delete_entries (mask : Z) (L : aleaf) : aleaf := List.filter nonempty (keep_entries mask L).

(** The bits of [mask] that were found *)
Definition found_bits (mask : Z) (es : list exc) : Z := foldr (fun e any => Z.lor any (Z.land (share e) mask)) 0 es.

Lemma all_excs_keep mask L : all_excs (keep_entries mask L) = keep_excs mask (all_excs L).
Proof.
  induction L as [|[r es] L IH]; [done|].
  change (keep_entries mask ((r, es) :: L)) with ((r, keep_excs mask es) :: keep_entries mask L).
  rewrite !all_excs_cons, IH. unfold keep_excs. by rewrite List.filter_app, fmap_app.
Qed.

Lemma all_excs_nonempty L : all_excs (List.filter nonempty L) = all_excs L.
Proof.
  induction L as [|[r es] L IH]; [done|]. cbn [List.filter]. unfold nonempty at 1. cbn [snd]. case_bool_decide as E; cbn [negb].
  - subst es. by rewrite IH.
  - by rewrite !all_excs_cons, IH.
Qed.

Lemma keep_ent_ok mask L : Forall ent_ok L -> Forall ent_ok (keep_entries mask L).
Proof.
  intros Hok. unfold keep_entries. apply Forall_fmap. eapply Forall_impl; [exact Hok|]. intros [r es] [Hr He]. split; [done|].
  cbn in *. unfold keep_excs. apply Forall_fmap, Forall_forall. intros e [He' _]%list_elem_of_In%List.filter_In.
  rewrite Forall_forall in He. destruct (He e) as [Hs Hc]; [by apply list_elem_of_In|]. split; [|done]. cbn.
  apply u64_land_range; [done|]. apply u64_range.
Qed.

(** ** One exception *)

Section step.
Context (hdr : list Z) (ds : list (Z * Z)) (gap : list Z) (es : list exc) (e : exc) (junk : list Z) (kept : list exc).
Context (Hh : length hdr = 24%nat) (He : exc_u64 e).

Definition sweep_p : nat := (24 + 8 * length ds + length gap + 16 * length es)%nat.
Definition sweep_leaf : block := leaf_shape hdr ds (gap ++ enc_excs (es ++ [e]) ++ junk ++ enc_excs kept).

Abbreviation pre := (hdr ++ enc_dir ds ++ gap ++ enc_excs es).

Lemma sweep_leaf_pre : sweep_leaf = pre ++ (le_split 8 (share e) ++ le_split 8 (chunk_of e)) ++ junk ++ enc_excs kept.
Proof using.
  unfold sweep_leaf, leaf_shape. rewrite enc_excs_app. cbn. rewrite app_nil_r. unfold enc_exc. app_norm.
Qed.

Lemma sweep_p_pre : sweep_p = length pre.
Proof using Hh. unfold sweep_p. len. Qed.

Lemma sweep_share : ex_share sweep_leaf sweep_p = share e.
Proof using Hh He.
  unfold ex_share. rewrite sweep_leaf_pre, <- (app_assoc (le_split 8 (share e))), ld_app by apply sweep_p_pre. apply Z.mod_small. apply He.
Qed.

Lemma sweep_unshare v :
  set_ex_share sweep_p v sweep_leaf = pre ++ enc_exc (Exc v (chunk_of e)) ++ junk ++ enc_excs kept.
Proof using Hh.
  unfold set_ex_share. rewrite sweep_leaf_pre, <- (app_assoc (le_split 8 (share e))).
  rewrite st_app by (first [apply sweep_p_pre|len]). unfold enc_exc. cbn [share chunk_of]. app_norm.
Qed.

Lemma sweep_chunk v : ex_chunk (set_ex_share sweep_p v sweep_leaf) sweep_p = chunk_of e.
Proof using Hh He.
  rewrite sweep_unshare. unfold ex_chunk, enc_exc. cbn [share chunk_of]. rewrite <- (app_assoc (le_split 8 v)), (app_assoc _ (le_split 8 v)).
  rewrite ld_app by (rewrite length_app, <- sweep_p_pre; len). apply Z.mod_small. apply He.
Qed.

Lemma sweep_keep v :
  exists junk', length junk' = length junk /\
    memmove (sweep_p + length junk) sweep_p 16 (set_ex_share sweep_p v sweep_leaf) =
    leaf_shape hdr ds (gap ++ enc_excs es ++ junk' ++ enc_excs (Exc v (chunk_of e) :: kept)).
Proof using Hh.
  rewrite sweep_unshare. set (x := enc_exc (Exc v (chunk_of e))). assert (Hx : length x = 16%nat) by apply length_enc_exc.
  exists (take (length junk) (x ++ junk)). split; [len|]. unfold memmove. rewrite (slice_app pre x) by (first [apply sweep_p_pre|done]).
  rewrite (splice_eq _ (pre ++ take (length junk) (x ++ junk)) (drop (length junk) (x ++ junk)) (enc_excs kept)).
  - change (enc_excs (Exc v (chunk_of e) :: kept)) with (x ++ enc_excs kept). unfold leaf_shape. app_norm.
  - rewrite <- (app_assoc pre), (app_assoc (take _ _)), take_drop. app_norm.
  - rewrite length_app, <- sweep_p_pre. len.
  - len.
Qed.

Lemma sweep_drop v :
  set_ex_share sweep_p v sweep_leaf =
  leaf_shape hdr ds (gap ++ enc_excs es ++ (enc_exc (Exc v (chunk_of e)) ++ junk) ++ enc_excs kept).
Proof using Hh. rewrite sweep_unshare. unfold leaf_shape. app_norm. Qed.
End step.

(** ** Removing empty entries *)

(** The move of one directory entry down to the position after [K] *)
Lemma move_entry hdr K X o r T rest :
  length hdr = 24%nat ->
  memmove (map_addr (length K)) (map_addr (length K + length X)) sizeof_etree_map
    (leaf_shape hdr (K ++ X ++ (o, r) :: T) rest) =
  leaf_shape hdr (K ++ (o, r) :: tail (X ++ [(o, r)]) ++ T) rest.
Proof.
  intros Hh. unfold memmove, leaf_shape, map_addr, leaf_header_size, sizeof_etree_map.
  rewrite (slice_eq _ (hdr ++ enc_dir K ++ enc_dir X) (enc_ent (o, r)) (enc_dir T ++ rest)).
  - destruct (X ++ [(o, r)]) as [|y Y] eqn:E; [by destruct X|].
    assert (EX : X ++ (o, r) :: T = y :: Y ++ T) by (transitivity ((X ++ [(o, r)]) ++ T); [by rewrite <- app_assoc|by rewrite E]).
    rewrite EX. cbn [tail]. rewrite (splice_eq _ (hdr ++ enc_dir K) (enc_ent y) (enc_dir (Y ++ T) ++ rest)).
    + rewrite !enc_dir_app. change (enc_dir ((o, r) :: Y ++ T)) with (enc_ent (o, r) ++ enc_dir (Y ++ T)). rewrite enc_dir_app. app_norm.
    + rewrite enc_dir_app. change (enc_dir (y :: Y ++ T)) with (enc_ent y ++ enc_dir (Y ++ T)). app_norm.
    + len.
    + len.
  - rewrite !enc_dir_app. change (enc_dir ((o, r) :: T)) with (enc_ent (o, r) ++ enc_dir T). app_norm.
  - len.
  - len.
Qed.

Section compress.
Context (hdr rest : list Z) (size srch : Z) (Hh : length hdr = 24%nat) (Hsize : size < 2 ^ 32).

Definition compress_step : block * nat -> nat -> block * nat := fun '(l, d) i =>
  if negb (map_offset l i =? map_offset l (i + 1))
  then (memmove (map_addr d) (map_addr i) sizeof_etree_map l, S d) else (l, d).

Lemma compress_entry K X r es L :
  16 * Z.of_nat (length (all_excs ((r, es) :: L))) <= size ->
  compress_step (leaf_shape hdr (K ++ X ++ dirp size ((r, es) :: L) ++ [(size, srch)]) rest, length K) (length K + length X) =
  if nonempty (r, es) then
    (leaf_shape hdr ((K ++ [(size - 16 * Z.of_nat (length (all_excs ((r, es) :: L))), r)]) ++
       tail (X ++ [(size - 16 * Z.of_nat (length (all_excs ((r, es) :: L))), r)]) ++ dirp size L ++ [(size, srch)]) rest, S (length K))
  else (leaf_shape hdr (K ++ (X ++ [(size - 16 * Z.of_nat (length (all_excs ((r, es) :: L))), r)]) ++ dirp size L ++ [(size, srch)]) rest, length K).
Proof using Hh Hsize.
  intros Hfit. cbn [dirp]. set (o := size - 16 * Z.of_nat (length (all_excs ((r, es) :: L)))).
  destruct (dirp_head size L srch) as (r2 & T & E2 & _). set (o2 := size - 16 * Z.of_nat (length (all_excs L))) in *.
  assert (Ho : is_u32 o /\ is_u32 o2) by (unfold is_u32, o, o2; rewrite all_excs_cons, length_app in *; lia).
  unfold compress_step.
  rewrite (map_offset_shape hdr (K ++ X ++ ((o, r) :: dirp size L) ++ [(size, srch)]) rest _ o r); [|done| |apply Ho].
  2:{ cbn [app]. rewrite app_assoc. apply list_lookup_middle. len. }
  rewrite (map_offset_shape hdr (K ++ X ++ ((o, r) :: dirp size L) ++ [(size, srch)]) rest _ o2 r2); [|done| |apply Ho].
  2:{ cbn [app]. rewrite E2, app_assoc. change (?x ++ (o, r) :: (o2, r2) :: T) with (x ++ [(o, r)] ++ (o2, r2) :: T).
      rewrite app_assoc. apply list_lookup_middle. len. }
  unfold nonempty. cbn [snd].
  assert (Hiff : (o =? o2) = bool_decide (es = [])).
  { unfold o, o2. rewrite all_excs_cons, length_app. case_bool_decide as Ees.
    - subst es. apply Z.eqb_eq. cbn. lia.
    - apply Z.eqb_neq. destruct es; [done|]. cbn [length]. lia. }
  rewrite Hiff. destruct (bool_decide (es = [])); cbn [negb].
  - f_equal. f_equal. by rewrite <- !app_assoc.
  - f_equal. cbn [app]. rewrite move_entry by done. f_equal. by rewrite <- (app_assoc K).
Qed.

Lemma compress_entries L K X :
  16 * Z.of_nat (length (all_excs L)) <= size ->
  exists X', length X' = (length X + length L - length (List.filter nonempty L))%nat /\
    foldl compress_step (leaf_shape hdr (K ++ X ++ dirp size L ++ [(size, srch)]) rest, length K) (seq (length K + length X) (length L)) =
    (leaf_shape hdr ((K ++ dirp size (List.filter nonempty L)) ++ X' ++ [(size, srch)]) rest, (length K + length (List.filter nonempty L))%nat).
Proof using Hh Hsize.
  revert K X. induction L as [|[r es] L IH]; intros K X Hfit.
  - exists X. cbn. split; [lia|]. by rewrite app_nil_r, Nat.add_0_r.
  - cbn [length seq foldl]. rewrite compress_entry by done. cbn [List.filter].
    set (o := size - 16 * Z.of_nat (length (all_excs ((r, es) :: L)))) in *.
    assert (Hfit' : 16 * Z.of_nat (length (all_excs L)) <= size) by (rewrite all_excs_cons, length_app in Hfit; lia).
    assert (Hfl : (length (List.filter nonempty L) <= length L)%nat) by apply List.filter_length_le.
    destruct (nonempty (r, es)).
    + destruct (IH (K ++ [(o, r)]) (tail (X ++ [(o, r)])) Hfit') as (X' & HX' & E).
      exists X'. split.
      { rewrite HX'. destruct X; cbn; rewrite ?length_app; cbn; lia. }
      replace (S (length K)) with (length (K ++ [(o, r)])) by len.
      replace (S (length K + length X)) with (length (K ++ [(o, r)]) + length (tail (X ++ [(o, r)])))%nat
        by (destruct X; cbn; rewrite ?length_app; cbn; lia).
      rewrite E. cbn [dirp]. rewrite all_excs_cons, all_excs_nonempty. fold (all_excs ((r, es) :: L)). fold o. f_equal.
      * f_equal. by rewrite <- !app_assoc.
      * len.
    + destruct (IH K (X ++ [(o, r)]) Hfit') as (X' & HX' & E). exists X'. split; [rewrite HX'; len|].
      replace (S (length K + length X)) with (length K + length (X ++ [(o, r)]))%nat by len. exact E.
Qed.
End compress.

Lemma compress_map_rep b L :
  leaf_rep b L -> leaf_rep (compress_map b) (List.filter nonempty L) /\ length (compress_map b) = length b.
Proof.
  intros Hr. pose proof (leaf_rep_count b L Hr) as Hc. destruct (leaf_rep_shape b L Hr) as (hdr & srch & gap & v & m & -> & Eb & Hsz & Hlt).
  set (size := Z.of_nat (length b)) in *. assert (Hok : Forall ent_ok L) by by destruct Hr as (_ & ? & _).
  assert (Hfit : 16 * Z.of_nat (length (all_excs L)) <= size) by (unfold leaf_need in Hsz; lia).
  set (hdr := leaf_header v (Z.of_nat (length L)) m) in *. assert (Hh : length hdr = 24%nat) by apply length_leaf_header.
  destruct (compress_entries hdr (gap ++ enc_excs (all_excs L)) size srch Hh Hlt L [] [] Hfit) as (X' & HX' & E). cbn [app length Nat.add] in E, HX'.
  assert (Ecm : compress_map b = let '(leaf, d) := foldl compress_step (b, 0%nat) (seq 0 (length L)) in
    set_leaf_count d (set_map_rchunk d 0 (set_map_offset d (map_offset leaf (length L)) leaf))) by (by rewrite <- Hc).
  rewrite <- Eb in E. rewrite E in Ecm. cbv beta iota in Ecm. set (F := List.filter nonempty L) in *.
  assert (HF : (length F <= length L)%nat) by apply List.filter_length_le.
  destruct (X' ++ [(size, srch)]) as [|[yo yr] Y] eqn:EX; [by destruct X'|].
  set (out := leaf_shape (leaf_header v (Z.of_nat (length F)) m) (dirp size F ++ (size, 0) :: Y) (gap ++ enc_excs (all_excs L))).
  assert (Eout : compress_map b = out).
  { rewrite Ecm. rewrite (map_offset_shape _ _ _ (length L) size srch); [|done| |unfold is_u32, size; lia].
    2:{ rewrite <- EX, app_assoc. apply list_lookup_middle. len. }
    rewrite (set_map_offset_shape _ _ _ _ yo yr); [|done|apply list_lookup_middle; len].
    replace (length F) with (length (dirp size F) + 0)%nat at 2 3 by len. rewrite insert_app_r. cbn [insert list_insert].
    rewrite (set_map_rchunk_shape _ _ _ _ size yr); [|done|rewrite Nat.add_0_r; by apply list_lookup_middle].
    rewrite insert_app_r. cbn [insert list_insert]. unfold hdr. by rewrite set_leaf_count_shape. }
  rewrite Eout.
  assert (Hlen : length out = length b).
  { unfold out, leaf_shape. rewrite Eb at 1. unfold leaf_shape. apply (f_equal length) in EX. rewrite length_app in EX. cbn in EX. len. }
  split; [|exact Hlen]. apply (leaf_rep_intro _ _ v m 0 (enc_dir Y ++ gap)).
  - apply Forall_forall. intros d Hd. apply list_elem_of_In, List.filter_In in Hd as [Hd _]. rewrite Forall_forall in Hok. apply Hok. by apply list_elem_of_In.
  - rewrite Hlen. fold size. lia.
  - rewrite Hlen. fold size. unfold out, F. rewrite all_excs_nonempty. unfold leaf_shape. f_equal.
    rewrite !enc_dir_app. change (enc_dir ((size, 0) :: Y)) with (enc_ent (size, 0) ++ enc_dir Y).
    change (enc_dir [(size, 0)]) with (enc_ent (size, 0) ++ []). rewrite app_nil_r. app_norm.
Qed.

(** ** What the snapshots hold *)

Lemma unshare_testbit mask e n :
  0 <= n < 64 -> Z.testbit (share (unshare mask e)) n = Z.testbit (share e) n && negb (Z.testbit mask n).
Proof. intros Hn. cbn. by rewrite Z.land_spec, lnot64_testbit by done. Qed.

Lemma excs_of_notin L c : c ∉ L.*1 -> excs_of L c = [].
Proof.
  induction L as [|[r es] L IH]; [done|]. cbn [fmap list_fmap fst]. intros [Hne Hn]%not_elem_of_cons. rewrite excs_of_cons.
  rewrite (proj2 (Z.eqb_neq r c)) by done. by apply IH.
Qed.

Lemma sorted_head_notin d L : leaf_sorted (d :: L) -> d.1 ∉ L.*1.
Proof.
  intros Hs. apply StronglySorted_inv in Hs as [_ Hlt]. intros (d' & E & Hd')%list_elem_of_fmap. rewrite Forall_forall in Hlt.
  specialize (Hlt d' Hd'). lia.
Qed.

Lemma delete_entries_cons mask r es L :
  delete_entries mask ((r, es) :: L) =
  if bool_decide (keep_excs mask es = []) then delete_entries mask L else (r, keep_excs mask es) :: delete_entries mask L.
Proof.
  unfold delete_entries. cbn [keep_entries fmap list_fmap List.filter fst snd]. unfold nonempty at 1. cbn [snd]. by case_bool_decide.
Qed.

Lemma delete_entries_keys mask L c : c ∈ (delete_entries mask L).*1 -> c ∈ L.*1.
Proof.
  induction L as [|[r es] L IH]; [done|]. rewrite delete_entries_cons. cbn [fmap list_fmap fst]. rewrite elem_of_cons.
  case_bool_decide; [auto|]. cbn [fmap list_fmap fst]. rewrite elem_of_cons. tauto.
Qed.

Lemma excs_of_delete mask L c : leaf_sorted L -> excs_of (delete_entries mask L) c = keep_excs mask (excs_of L c).
Proof.
  induction L as [|[r es] L IH]; intros Hs; [done|]. pose proof (sorted_head_notin _ _ Hs) as Hn. cbn [fst] in Hn.
  apply StronglySorted_inv in Hs as [Hs _]. specialize (IH Hs). rewrite delete_entries_cons, excs_of_cons.
  destruct (Z.eqb_spec r c) as [->|Hne].
  - case_bool_decide as E; [|by rewrite excs_of_cons, Z.eqb_refl]. rewrite E. apply excs_of_notin. intros H. by apply Hn, (delete_entries_keys mask).
  - case_bool_decide; [done|]. by rewrite excs_of_cons, (proj2 (Z.eqb_neq r c)).
Qed.

Lemma find_keep mask n es :
  0 <= n < 64 ->
  chunk_of <$> find (fun e => Z.testbit (share e) n) (keep_excs mask es) =
  if Z.testbit mask n then None else chunk_of <$> find (fun e => Z.testbit (share e) n) es.
Proof.
  intros Hn. induction es as [|e es IH]; [by destruct (Z.testbit mask n)|].
  unfold keep_excs. cbn [List.filter find]. destruct (still_shared mask e) eqn:Es.
  - cbn [fmap list_fmap find]. fold (keep_excs mask es). rewrite unshare_testbit by done. destruct (Z.testbit mask n).
    + by rewrite andb_false_r.
    + rewrite andb_true_r. by destruct (Z.testbit (share e) n).
  - fold (keep_excs mask es). rewrite IH. destruct (Z.testbit mask n) eqn:Em; [done|].
    destruct (Z.testbit (share e) n) eqn:Eb; [|done]. exfalso. unfold still_shared in Es. apply negb_false_iff, Z.eqb_eq in Es.
    apply (f_equal (fun z => Z.testbit z n)) in Es. by rewrite unshare_testbit, Eb, Em, Z.bits_0 in Es.
Qed.

Lemma held_delete mask L c n :
  leaf_sorted L -> 0 <= n < 64 -> held (delete_entries mask L) c n = if Z.testbit mask n then None else held L c n.
Proof. intros Hs Hn. unfold held, exc_for. rewrite excs_of_delete by done. by apply find_keep. Qed.

Lemma keep_chunk_ok mask es : chunk_ok es -> chunk_ok (keep_excs mask es).
Proof.
  intros [_ Hd]. unfold keep_excs. split.
  - apply Forall_fmap, Forall_forall. intros e [_ Hs]%list_elem_of_In%List.filter_In. unfold still_shared in Hs.
    apply negb_true_iff, Z.eqb_neq in Hs. exact Hs.
  - assert (Hin : forall e e', Z.land (share e) (share e') = 0 -> Z.land (share (unshare mask e)) (share (unshare mask e')) = 0).
    { intros e e' H. cbn. rewrite (Z.land_comm (share e')), <- Z.land_assoc, (Z.land_assoc (lnot64 mask)), Z.land_diag.
      by rewrite (Z.land_comm (lnot64 mask)), Z.land_assoc, H. }
    induction Hd as [|e es He _ IH]; [constructor|]. cbn [List.filter]. destruct (still_shared mask e); [|exact IH].
    cbn [fmap list_fmap]. constructor; [|exact IH]. apply Forall_fmap, Forall_forall. intros e' [Hm _]%list_elem_of_In%List.filter_In.
    apply Hin. rewrite Forall_forall in He. apply He. by apply list_elem_of_In.
Qed.

Lemma delete_entries_wf mask L : leaf_wf L -> leaf_wf (delete_entries mask L).
Proof.
  intros [Hs Hf]. induction L as [|[r es] L IH]; [done|]. apply StronglySorted_inv in Hs as [Hs Hlt]. apply Forall_cons in Hf as [[_ Hc] Hf].
  destruct (IH Hs Hf) as [Hs' Hf']. rewrite delete_entries_cons. case_bool_decide as E; [done|]. split.
  - constructor; [done|]. apply Forall_forall. intros d Hd.
    assert (Hk : d.1 ∈ L.*1) by (apply (delete_entries_keys mask); by apply list_elem_of_fmap_2).
    apply list_elem_of_fmap in Hk as (d' & E' & Hd'). rewrite Forall_forall in Hlt. cbn in *. rewrite E'. by apply Hlt.
  - constructor; [|done]. split; [done|]. by apply keep_chunk_ok.
Qed.

(** Every exception is the one that some snapshot holds its chunk at. *)
Lemma find_disjoint n es e :
  ForallOrdPairs (fun e1 e2 => Z.land (share e1) (share e2) = 0) es -> e ∈ es -> Z.testbit (share e) n = true ->
  find (fun e => Z.testbit (share e) n) es = Some e.
Proof.
  induction 1 as [|x es Hx _ IH]; [by intros ?%elem_of_nil|]. intros [->|He]%elem_of_cons Hb; cbn [find]; [by rewrite Hb|].
  destruct (Z.testbit (share x) n) eqn:E; [|by apply IH]. exfalso. rewrite Forall_forall in Hx. specialize (Hx e He).
  apply (f_equal (fun z => Z.testbit z n)) in Hx. by rewrite Z.land_spec, E, Hb, Z.bits_0 in Hx.
Qed.

Lemma excs_of_elem L d : leaf_sorted L -> d ∈ L -> excs_of L d.1 = d.2.
Proof.
  induction L as [|[r es] L IH]; intros Hs Hd; [by apply elem_of_nil in Hd|]. pose proof (sorted_head_notin _ _ Hs) as Hn.
  apply StronglySorted_inv in Hs as [Hs _]. rewrite excs_of_cons. apply elem_of_cons in Hd as [->|Hd]; [cbn; by rewrite Z.eqb_refl|].
  rewrite (proj2 (Z.eqb_neq r d.1)); [by apply IH|]. intros E. apply Hn. cbn. rewrite E. by apply list_elem_of_fmap_2.
Qed.

Lemma all_excs_elem L e : e ∈ all_excs L <-> exists d, d ∈ L /\ e ∈ d.2.
Proof.
  unfold all_excs. rewrite list_elem_of_In, in_flat_map. split; intros (d & H1 & H2); exists d; by rewrite !list_elem_of_In in *.
Qed.

Lemma exc_held L e n :
  leaf_wf L -> e ∈ all_excs L -> Z.testbit (share e) n = true -> exists c, held L c n = Some (chunk_of e).
Proof.
  intros [Hs Hf] (d & Hd & He)%all_excs_elem Hb. exists d.1. unfold held, exc_for. rewrite (excs_of_elem L d) by done.
  rewrite Forall_forall in Hf. destruct (Hf d Hd) as [_ [_ Hdis]]. by rewrite (find_disjoint n _ e).
Qed.

Lemma held_exc L c n y : held L c n = Some y -> exists e, e ∈ all_excs L /\ Z.testbit (share e) n = true /\ chunk_of e = y.
Proof.
  unfold held, exc_for. destruct (find _ _) as [e|] eqn:E; [|done]. intros [= <-]. apply find_some in E as [Hin Hb].
  exists e. split; [|done]. unfold excs_of in Hin. destruct (list_find _ L) as [[i [r es]]|] eqn:El; [|done].
  apply list_find_Some in El as (Hi & _). apply all_excs_elem. exists (r, es). split; [by eapply list_elem_of_lookup_2|]. by apply list_elem_of_In.
Qed.

(** Chunk [y] of the store is in use for some chunk of the origin and some
    snapshot. *)
Definition in_leaf (L : aleaf) (y : Z) : Prop := exists c n, 0 <= n < 64 /\ held L c n = Some y.

Lemma in_leaf_iff L y : leaf_wf L -> Forall ent_ok L -> in_leaf L y <-> y ∈ chunk_of <$> all_excs L.
Proof.
  intros Hw Hok. split.
  - intros (c & n & _ & (e & He & _ & <-)%held_exc). by apply list_elem_of_fmap_2.
  - intros (e & -> & He)%list_elem_of_fmap. pose proof He as (d & Hd & Hed)%all_excs_elem.
    rewrite Forall_forall in Hok. destruct (Hok d Hd) as [_ Hu]. rewrite Forall_forall in Hu. destruct Hw as [Hs Hf].
    pose proof Hf as Hf'. rewrite Forall_forall in Hf'. destruct (Hf' d Hd) as [_ [Hnz _]]. rewrite Forall_forall in Hnz.
    destruct (nonzero_bit (share e)) as (n & Hn & Hb); [by apply Hu|by apply Hnz|].
    destruct (exc_held L e n) as [c Hc]; [done|done|done|]. by exists c, n.
Qed.

(** The chunks that are freed are those that were in use and are not any more. *)
Lemma free_excs_iff mask L y :
  leaf_wf L -> Forall ent_ok L -> NoDup (chunk_of <$> all_excs L) ->
  y ∈ free_excs mask (all_excs L) <-> in_leaf L y /\ ~ in_leaf (delete_entries mask L) y.
Proof.
  intros Hw Hok Hnd. assert (Hok' : Forall ent_ok (delete_entries mask L)).
  { apply Forall_forall. intros d [Hd _]%list_elem_of_In%List.filter_In. pose proof (keep_ent_ok mask L Hok) as H. rewrite Forall_forall in H.
    apply H. by apply list_elem_of_In. }
  rewrite !in_leaf_iff by (first [done|by apply delete_entries_wf]).
  unfold delete_entries. rewrite all_excs_nonempty, all_excs_keep. clear Hw Hok Hok'. induction (all_excs L) as [|e es IH].
  { split; [by intros ?%elem_of_nil|]. intros [H _]. by apply elem_of_nil in H. }
  apply NoDup_cons in Hnd as [Hn Hnd]. specialize (IH Hnd). unfold free_excs, keep_excs in *. cbn [List.filter fmap list_fmap].
  assert (Hsub : forall z, z ∈ chunk_of <$> (unshare mask <$> List.filter (still_shared mask) es) -> z ∈ chunk_of <$> es).
  { intros z (e1 & -> & (e2 & -> & He2)%list_elem_of_fmap)%list_elem_of_fmap. apply list_elem_of_In, List.filter_In in He2 as [He2 _].
    apply (list_elem_of_fmap_2 chunk_of es e2). by apply list_elem_of_In. }
  assert (Hsub2 : y ∈ chunk_of <$> List.filter (fun e => negb (still_shared mask e)) es -> y ∈ chunk_of <$> es) by (rewrite IH; tauto).
  destruct (still_shared mask e); cbn [negb fmap list_fmap]; rewrite !elem_of_cons; cbn [unshare chunk_of].
  - rewrite IH. split; [|tauto]. intros [H1 H2]. split; [tauto|]. intros [->|H]; [by apply Hn|by apply H2].
  - rewrite IH. split; [|tauto]. intros [->|H]; [|tauto]. split; [by left|]. intros H. by apply Hn, Hsub.
Qed.

Lemma found_bits_iff mask es : found_bits mask es <> 0 <-> exists e, e ∈ es /\ Z.land (share e) mask <> 0.
Proof.
  induction es as [|e es IH]; cbn [found_bits foldr]; [split; [done|intros (e & He & _); by apply elem_of_nil in He]|].
  fold (found_bits mask es). rewrite Z.lor_eq_0_iff. split.
  - intros H. destruct (decide (Z.land (share e) mask = 0)) as [E|E]; [|exists e; split; [by left|done]].
    destruct IH as [IH _]. destruct IH as (e' & He' & Hb); [tauto|]. exists e'. split; [by right|done].
  - intros (e' & [->|He']%elem_of_cons & Hb); [tauto|]. destruct IH as [_ IH]. assert (found_bits mask es <> 0) by (apply IH; eauto). tauto.
Qed.

Lemma found_held mask L :
  leaf_wf L -> Forall ent_ok L -> is_u64 mask ->
  found_bits mask (all_excs L) <> 0 <-> exists c n, 0 <= n < 64 /\ Z.testbit mask n = true /\ held L c n <> None.
Proof.
  intros Hw Hok Hm. rewrite found_bits_iff. split.
  - intros (e & He & Hb). pose proof He as (d & Hd & Hed)%all_excs_elem. rewrite Forall_forall in Hok. destruct (Hok d Hd) as [_ Hu].
    rewrite Forall_forall in Hu. destruct (nonzero_bit (Z.land (share e) mask)) as (n & Hn & Hbit); [|done|].
    { apply u64_land_range; [by apply Hu|apply Hm]. }
    rewrite Z.land_spec in Hbit. apply andb_true_iff in Hbit as [Hb1 Hb2].
    destruct (exc_held L e n Hw He Hb1) as [c Hc]. exists c, n. split; [done|]. split; [done|]. by rewrite Hc.
  - intros (c & n & Hn & Hb & Hh). destruct (held L c n) as [y|] eqn:E; [|done]. apply held_exc in E as (e & He & Hbe & _).
    exists e. split; [done|]. intros H. apply (f_equal (fun z => Z.testbit z n)) in H. by rewrite Z.land_spec, Hbe, Hb, Z.bits_0 in H.
Qed.
