(* ===== verification/DeleteFree.v ===== *)
(** * Freeing the chunks of a leaf that is being changed

    A sequence of [free_exception] calls between edits of the leaf in a buffer
    that the caller holds: which bits of the bitmap are clear afterwards, and why
    [dirty_buffer_count_check] does not start a commit in between. *)

From S2P Require Import Prelude Bytes State Buffer Bitmap Alloc Journal CacheInv CacheRoom CacheMem BitmapInv AllocInv JournalSpec MetaInv FreeInv.

(** ** Several bits *)

(** The bitmap block that has the bit of a chunk of the snapshot store *)
Definition exc_sector (s : superblock) (c : Z) : Z := bitmap_sector s SNAPDATA (c / per_block s).

Definition clear_bit (s : superblock) (c : Z) (V : Z -> option block) : Z -> option block :=
  fun x => if decide (x = exc_sector s c) then (fun d => clear_bitmap_bit d (c mod per_block s)) <$> V x else V x.
Definition clear_bits (s : superblock) (G : list Z) (V : Z -> option block) : Z -> option block := foldr (clear_bit s) V G.

Definition bit_of (V : Z -> option block) (s : superblock) (c : Z) : option bool :=
  (fun d => get_bitmap_bit d (c mod per_block s)) <$> V (exc_sector s c).

Definition in_store (s : superblock) (c : Z) : Prop := 0 <= c < chunks (asi SNAPDATA s).

Lemma bit_used_of V s c : bit_used V s SNAPDATA c <-> bit_of V s c = Some true.
Proof.
  unfold bit_used, bit_of, exc_sector. split; [intros (d & -> & E); cbn; by rewrite E|].
  destruct (V _) as [d|]; [|done]. intros [= E]. by exists d.
Qed.
Lemma bit_free_of V s c : bit_free V s SNAPDATA c <-> bit_of V s c = Some false.
Proof.
  unfold bit_free, bit_of, exc_sector. split; [intros (d & -> & E); cbn; by rewrite E|].
  destruct (V _) as [d|]; [|done]. intros [= E]. by exists d.
Qed.

Definition blocks_sized (s : superblock) (V : Z -> option block) : Prop :=
  forall x d, V x = Some d -> length d = Z.to_nat (allocsize (metadata s)).

Lemma clear_bits_sized s G V : blocks_sized s V -> blocks_sized s (clear_bits s G V).
Proof.
  intros Hs. induction G as [|c G IH]; [done|]. intros x d. cbn. unfold clear_bit at 1. case_decide; [|apply IH].
  fold (clear_bits s G V). destruct (clear_bits s G V x) as [d'|] eqn:E; [|done]. intros [= <-]. rewrite length_clear_bitmap_bit. by apply (IH x).
Qed.

Lemma clear_bits_other s G V x : (forall g, g ∈ G -> exc_sector s g <> x) -> clear_bits s G V x = V x.
Proof.
  induction G as [|g G IH]; intros H; [done|]. cbn. unfold clear_bit at 1.
  rewrite decide_False by (apply not_eq_sym, H; by left). apply IH. intros g' Hg. apply H. by right.
Qed.

Lemma same_place w c c' :
  layout (sb w) -> in_store (sb w) c -> in_store (sb w) c' -> exc_sector (sb w) c = exc_sector (sb w) c' ->
  c mod per_block (sb w) = c' mod per_block (sb w) -> c = c'.
Proof.
  intros Hl Hc Hc' E Em. destruct (one_chunk w SNAPDATA (exc_sector (sb w) c) (c mod per_block (sb w)) Hl) as [c0 H].
  rewrite (H c), (H c'); done.
Qed.

Lemma bit_of_cleared w G V c :
  layout (sb w) -> blocks_sized (sb w) V -> in_store (sb w) c -> Forall (in_store (sb w)) G ->
  bit_of (clear_bits (sb w) G V) (sb w) c = (fun b => b && negb (bool_decide (c ∈ G))) <$> bit_of V (sb w) c.
Proof.
  intros Hl Hs Hc HG. induction HG as [|g G Hg _ IH].
  - cbn [clear_bits foldr]. destruct (bit_of V (sb w) c) as [b|]; [|done]. cbn. by rewrite andb_true_r.
  - cbn [clear_bits foldr]. unfold bit_of at 1, clear_bit at 1. fold (clear_bits (sb w) G V).
    destruct (per_block_pos (sb w) (ly_geo _ Hl)) as [Hsz Hper].
    assert (Hm : forall x, 0 <= x mod per_block (sb w) < per_block (sb w)) by (intros; apply Z.mod_pos_bound; lia).
    assert (Hne : c <> g -> (fun b => b && negb (bool_decide (c ∈ g :: G))) <$> bit_of V (sb w) c =
      (fun b => b && negb (bool_decide (c ∈ G))) <$> bit_of V (sb w) c).
    { intros Hne. destruct (bit_of V (sb w) c); [|done]. cbn. do 3 f_equal. apply bool_decide_ext. rewrite elem_of_cons; tauto. }
    unfold bit_of at 1 in IH. destruct (decide (exc_sector (sb w) c = exc_sector (sb w) g)) as [E|E].
    + destruct (clear_bits (sb w) G V (exc_sector (sb w) c)) as [d|] eqn:Ed; cbn in IH |- *.
      2:{ by destruct (bit_of V (sb w) c). }
      rewrite get_clear_bitmap_bit; [|unfold bit_in; rewrite (clear_bits_sized _ _ _ Hs _ _ Ed), Z2Nat.id by lia; rewrite <- Hper; apply Hm|apply Hm].
      destruct (decide (c = g)) as [->|Hcg].
      * rewrite Z.eqb_refl. cbn. destruct (bit_of V (sb w) g) as [b|]; [|done]. cbn.
        rewrite bool_decide_true by (by left). by rewrite andb_false_r.
      * rewrite Hne by done. rewrite <- IH. cbn.
        assert (Ef : (g mod per_block (sb w) =? c mod per_block (sb w)) = false).
        { apply Z.eqb_neq. intros Em. apply Hcg. by apply (same_place w). }
        by rewrite ?Ef, 1?Z.eqb_sym, ?Ef.
    + rewrite IH. destruct (decide (c = g)) as [->|Hcg]; [done|]. by rewrite Hne.
Qed.

(** ** The superblock *)

Lemma asi_count_freed which s which' (f : allocspace_img -> Z) :
  (forall a n, f (a <| freechunks := n |>) = f a) -> f (asi which' (count_freed which s)) = f (asi which' s).
Proof.
  intros H. unfold count_freed, upd_asi, asi, as_of. cbn.
  destruct which, which', (asi_sel (metadata s)) eqn:E1, (asi_sel (snapdata s)) eqn:E2; cbn; rewrite ?E1, ?E2; cbn; try done;
    match goal with |- f ?x = f ?y => apply (H y (u64 (freechunks y + 1))) end.
Qed.

Lemma count_freed_layout which s : layout s -> same_layout s (count_freed which s).
Proof.
  intros Hl. constructor; [done|done| | | | | |].
  - unfold deferring, count_freed. cbn. by rewrite ?Z.land_lor_distr_l.
  - unfold count_freed, upd_asi. cbn. by destruct which, (asi_sel (metadata s)) eqn:E1, (asi_sel (snapdata s)) eqn:E2; cbn; rewrite ?E1, ?E2.
  - by apply asi_count_freed.
  - intros which'. split_and!; by apply asi_count_freed.
  - intros which'. rewrite !asi_count_freed by done. apply (sp_last _ _ (ly_sp s Hl which')).
  - unfold count_freed, upd_asi, rest. cbn.
    by destruct which, (asi_sel (metadata s)) eqn:E1, (asi_sel (snapdata s)) eqn:E2; cbn; rewrite ?E1, ?E2.
Qed.

Lemma freechunks_count_freed which s :
  freechunks (asi which (count_freed which s)) = u64 (freechunks (asi which s) + 1).
Proof.
  unfold count_freed, upd_asi, asi, as_of. cbn.
  destruct which, (asi_sel (metadata s)) eqn:E1, (asi_sel (snapdata s)) eqn:E2; cbn; rewrite ?E1, ?E2; done.
Qed.

(** After [n] chunks of the snapshot store were freed *)
Definition count_frees (n : nat) (s : superblock) : superblock := Nat.iter n (count_freed SNAPDATA) s.

Lemma count_frees_layout n s : layout s -> same_layout s (count_frees n s).
Proof.
  intros Hl. induction n as [|n IH]; cbn; [by apply same_layout_refl|].
  eapply same_layout_trans; [exact IH|]. apply count_freed_layout. by eapply sl_layout.
Qed.

Lemma freechunks_count_frees n s :
  0 <= freechunks (asi SNAPDATA s) -> freechunks (asi SNAPDATA s) + Z.of_nat n < 2 ^ 64 ->
  freechunks (asi SNAPDATA (count_frees n s)) = freechunks (asi SNAPDATA s) + Z.of_nat n.
Proof.
  intros H0. induction n as [|n IH]; intros Hn; [cbn; lia|]. change (count_frees (S n) s) with (count_freed SNAPDATA (count_frees n s)).
  rewrite freechunks_count_freed, IH by lia. rewrite u64_id; unfold is_u64; lia.
Qed.

(** ** Between two edits of the leaf *)

(** The leaf in [X] can lose the chunks [cs]: they are different chunks of the
    store, in use, the leaf is no bitmap block, and the bitmap blocks [T] that
    have their bits are on the device, fit into the cache, and do not fill the transaction. *)
Record can_free (w : world) (X : Z) (cs T : list Z) : Prop := {
  cf_layout : layout (sb w);
  cf_nodup : NoDup cs;
  cf_range : Forall (in_store (sb w)) cs;
  cf_used : Forall (bit_used (view w) (sb w) SNAPDATA) cs;
  cf_blocks : forall c, c ∈ cs -> exc_sector (sb w) c ∈ T;
  cf_leaf : forall c, in_store (sb w) c -> exc_sector (sb w) c <> X;
  cf_device : forall x, x ∈ T -> is_Some (disk w !! x);
  cf_room : ~ no_room w (1 + Z.of_nat (length T));
  cf_dirty : dirty_buffer_count w + Z.of_nat (length T) < s32 (journal_size (image (sb w)) - MAX_BTREE_DIRTY) }.

(** From [w], the chunks [G] were freed and the leaf in [X] was changed. *)
Record frees (w w' : world) (X : Z) (T G : list Z) : Prop := {
  fs_mem : mem_but (eq X) w';
  fs_usable : usable w' X;
  fs_x : xstep w w';
  fs_took : took w w' [];
  fs_sb : sb w' = count_frees (length G) (sb w);
  fs_dirty : forall x, x ∈ dirty_buffers w' -> x ∈ dirty_buffers w \/ x ∈ T;
  fs_busy : busies w w' T;
  fs_view : forall x, x <> X -> view w' x = clear_bits (sb w) G (view w) x }.

Lemma frees_refl w X T : mem_ok w -> usable w X -> frees w w X T [].
Proof.
  intros [Hc Hs Hy] Hu. constructor; [by constructor; auto|done|by constructor|apply took_nil|done|by left|by left|done].
Qed.

Section between.
Context (w : world) (X : Z) (cs T : list Z) (Hm : mem_ok w) (Hcan : can_free w X cs T).

Lemma frees_same_layout w' G : frees w w' X T G -> same_layout (sb w) (sb w').
Proof using Hcan. intros H. rewrite (fs_sb _ _ _ _ _ H). apply count_frees_layout, Hcan. Qed.

(** New data for the leaf, not yet marked dirty *)
Lemma set_leaf_spec d G w' :
  frees w w' X T G -> length d = Z.to_nat (allocsize (metadata (sb w))) ->
  wp (set_data X d) (fun _ w2 => frees w w2 X T G /\ view w2 X = Some d) w'.
Proof using Hcan.
  intros Hf Hd. pose proof (frees_same_layout _ _ Hf) as Hs. destruct Hf as [Hm' Hu Hx Ht Hsb Hdy Hb Hv].
  destruct Hu as (b & Eb & Hst & Hp). unfold set_data. apply (wp_upd_buf X b); [done|].
  set (b' := b <| bdata := d |>). assert (Hp' : 0 < bcount b') by done.
  assert (Hview : forall x, view (put_buf X b' (dirty_buffers w') (journaled_buffers w') w') x = if decide (x = X) then Some d else view w' x).
  { intros x. rewrite (put_buf_view w' X b) by done. by case_decide; [rewrite decide_False by done|]. }
  split; [|by rewrite Hview, decide_True].
  constructor.
  - destruct Hm' as [Hc Hsz Hy]. constructor.
    + eapply put_buf_ok; [done|done| | | |]; cbn; [| |lia|lia].
      * apply relinked_same; [apply Hc|]. by apply dirty_iff.
      * apply relinked_same; [apply Hc|]. by apply journaled_iff.
    + apply put_buf_sized; [done|]. cbn. by rewrite (sl_meta _ _ Hs).
    + intros x Hne c. cbn. rewrite lookup_insert_ne by done. by apply Hy.
  - exists b'. cbn. by rewrite lookup_insert_eq.
  - destruct Hx. constructor; try done. intros x Hux Hpx. rewrite (put_buf_pins w' X b) in Hpx by done.
    unfold usable. cbn in *. destruct (decide (x = X)) as [->|Hne]; [rewrite lookup_insert_eq; by exists b'|].
    rewrite lookup_insert_ne by done. apply xs_usable; [done|lia].
  - intros x. rewrite (put_buf_pins w' X b), <- Ht by done. cbn. case_decide; lia.
  - done.
  - done.
  - intros x (c & Hc & Hw). apply Hb. cbn in Hc. apply lookup_insert_Some in Hc as [[<- <-]|[? ?]]; [|by exists c].
    exists b. split; [done|]. left. lia.
  - intros x Hne. by rewrite Hview, decide_False, Hv.
Qed.

(** No commit starts *)
Lemma no_commit G w' : frees w w' X T G -> wp dirty_buffer_count_check (fun _ w2 => w2 = w') w'.
Proof using Hcan.
  intros Hf. unfold dirty_buffer_count_check. wp_steps. destruct (Z.leb_spec (s32 (journal_size (image (sb w')) - MAX_BTREE_DIRTY)) (dirty_buffer_count w')) as [H|]; [|by wp_steps].
  exfalso. pose proof (sl_fixed _ _ (frees_same_layout _ _ Hf)) as E. unfold fixed in E. injection E as _ E _ _. rewrite E in H.
  assert (Hl : (length (dirty_buffers w') <= length (dirty_buffers w ++ T))%nat).
  { apply submseteq_length, NoDup_submseteq; [apply (fs_mem _ _ _ _ _ Hf)|]. intros x Hx. apply elem_of_app. by apply Hf. }
  rewrite length_app in Hl. pose proof (cf_dirty _ _ _ _ Hcan). unfold dirty_buffer_count in *. lia.
Qed.

(** One more chunk *)
Lemma free_exception_spec c G w' :
  frees w w' X T G -> c ∈ cs -> c ∉ G -> (forall g, g ∈ G -> g ∈ cs) ->
  wp (free_exception c) (fun _ w2 => frees w w2 X T (c :: G) /\ view w2 X = view w' X) w'.
Proof using Hm Hcan.
  intros Hf Hc Hn HG. pose proof (frees_same_layout _ _ Hf) as Hs. pose proof Hcan as [Hl _ Hr Hu Ho HnX Hdv Hroom _].
  assert (Hrc : in_store (sb w) c) by (rewrite Forall_forall in Hr; by apply Hr).
  assert (HrG : Forall (in_store (sb w)) G) by (rewrite Forall_forall in *; auto).
  pose proof (Ho c Hc) as HT. pose proof (HnX c Hrc) as HX. destruct Hf as [Hm' HuX Hx Ht Hsb Hdy Hb Hv].
  assert (Esec : bitmap_sector (sb w') SNAPDATA (c / per_block (sb w')) = exc_sector (sb w) c)
    by (by rewrite (sl_bitmap_sector _ _ _ _ Hs), (sl_per_block _ _ Hs)).
  unfold free_exception. wp_step. eapply wp_mono.
  { apply (free_chunk_spec (eq X)); [done|apply ly_geo; by eapply sl_layout|apply Hrc|]. rewrite Esec. congruence. }
  cbv beta. intros [|] w2.
  - intros [Hm2 Hx2 Ht2 Hsb2 Hdy2 Hb2 (d & Hd & Hg & Hv2)]. rewrite Esec in *. wp_steps. split; [|by rewrite Hv2, decide_False by congruence].
    constructor; [done| | | | | | |].
    + apply (xs_usable _ _ Hx2); [done|]. rewrite Ht2, occ_nil. apply usable_pins in HuX. lia.
    + by eapply xstep_same_pins.
    + exact (took_trans _ _ _ [] [] Ht Ht2).
    + rewrite Hsb2, Hsb. done.
    + intros x Hx'. destruct (Hdy2 x Hx') as [H| ->]; [by apply Hdy|by right].
    + intros x Hx'. destruct (Hb2 x Hx') as [H|H]; [by apply Hb|]. right. apply list_elem_of_singleton in H. by subst x.
    + intros x Hne. rewrite Hv2. cbn. unfold clear_bit at 1. fold (clear_bits (sb w) G (view w)). case_decide as E; [|by apply Hv].
      subst x. rewrite <- Hv by done. rewrite Hd. cbn. by rewrite (sl_per_block _ _ Hs).
  - intros (_ & _ & _ & [Hfree|[Hno|Hno]]); exfalso.
    + assert (Hbit : bit_of (view w') (sb w) c = Some false).
      { apply bit_free_of. destruct Hfree as (d & Hd & E). exists d. unfold bit_free.
        by rewrite (sl_bitmap_sector _ _ _ _ Hs), !(sl_per_block _ _ Hs) in *. }
      unfold bit_of in Hbit. rewrite Hv in Hbit by done. fold (bit_of (clear_bits (sb w) G (view w)) (sb w) c) in Hbit.
      rewrite bit_of_cleared in Hbit; [|done|intros x d; by eapply view_sized, Hm|done|done].
      rewrite Forall_forall in Hu. pose proof (Hu c Hc) as Huc. rewrite bit_used_of in Huc. rewrite Huc in Hbit. cbn in Hbit.
      by rewrite bool_decide_false in Hbit.
    + apply Hroom. eapply (no_room_busies w w' T); [apply Hm|apply Hm'|apply Hx|done|done].
    + rewrite Esec, (xs_disk _ _ Hx) in Hno. destruct (Hdv _ HT). congruence.
Qed.
End between.
