(* ===== verification/DeleteSpec.v ===== *)
(** * Deleting snapshots from a leaf

    [delete_snapshots_from_leaf] on a leaf in the cache: what the remaining
    snapshots hold, and which chunks of the snapshot store become free. *)

From Stdlib Require Import Sorted.
From S2P Require Import Prelude Bytes Leaf LeafSpec LeafInv LeafView State Buffer Bitmap Alloc Journal Btree CacheInv CacheRoom CacheMem BitmapInv AllocInv JournalSpec MetaInv FreeInv DeleteLeaf DeleteFree.

Lemma keep_excs_cons mask e es :
  keep_excs mask (e :: es) = if still_shared mask e then unshare mask e :: keep_excs mask es else keep_excs mask es.
Proof. unfold keep_excs. cbn. by destruct (still_shared mask e). Qed.
Lemma free_excs_cons mask e es :
  free_excs mask (e :: es) = if still_shared mask e then free_excs mask es else chunk_of e :: free_excs mask es.
Proof. unfold free_excs. cbn. by destruct (still_shared mask e). Qed.
Lemma free_excs_app mask es1 es2 : free_excs mask (es1 ++ es2) = free_excs mask es1 ++ free_excs mask es2.
Proof. unfold free_excs. by rewrite List.filter_app, fmap_app. Qed.
Lemma length_keep_excs mask es : (length (keep_excs mask es) <= length es)%nat.
Proof. unfold keep_excs. rewrite length_fmap. apply List.filter_length_le. Qed.

Section sweep.
Context (w : world) (X : Z) (L : aleaf) (mask : Z) (T : list Z) (hdr gap : list Z) (size srch : Z).
Context (Hm : mem_ok w) (Hcan : can_free w X (free_excs mask (all_excs L)) T).
Context (Hh : length hdr = 24%nat) (Hok : Forall ent_ok L).
Context (Hsize : size = leaf_need L + Z.of_nat (length gap)) (Hlt : size < 2 ^ 32).
Context (Hblock : Z.to_nat size = Z.to_nat (allocsize (metadata (sb w)))).

(** The exceptions [A2] were visited, those of [A1] were not. *)
Record swept (ds : list (Z * Z)) (A1 A2 : list exc) (p dest : nat) (any : Z) (w' : world) : Prop := {
  sw_split : A1 ++ A2 = all_excs L;
  sw_dir : length ds = S (length L);
  sw_frees : frees w w' X T (free_excs mask A2);
  sw_leaf : exists junk, length junk = (16 * (length A2 - length (keep_excs mask A2)))%nat /\
    view w' X = Some (leaf_shape hdr ds (gap ++ enc_excs A1 ++ junk ++ enc_excs (keep_excs mask A2)));
  sw_p : p = (24 + 8 * length ds + length gap + 16 * length A1)%nat;
  sw_dest : dest = (p + 16 * (length A2 - length (keep_excs mask A2)))%nat;
  sw_any : any = found_bits mask A2 }.

Lemma exc_of_leaf A1 e A2 : A1 ++ e :: A2 = all_excs L -> exc_u64 e.
Proof using Hok.
  intros E. assert (H : Forall exc_u64 (all_excs L)).
  { clear -Hok. induction L as [|d M IH]; [done|]. apply Forall_cons in Hok as [[_ Hd] H]. apply Forall_app. split; [exact Hd|by apply IH]. }
  rewrite <- E in H. apply Forall_app in H as [_ H]. by apply Forall_cons in H as [H _].
Qed.

Lemma swept_size ds A1 junk kept :
  length ds = S (length L) -> (16 * length A1 + length junk + 16 * length kept = 16 * length (all_excs L))%nat ->
  length (leaf_shape hdr ds (gap ++ enc_excs A1 ++ junk ++ enc_excs kept)) = Z.to_nat size.
Proof using Hh Hsize.
  intros Hd Hj. clear Hblock. rewrite Hsize. unfold leaf_need, leaf_shape.
  rewrite !length_app, length_enc_dir, !length_enc_excs. lia.
Qed.

(** The body of the loop for one exception of [leaf], that at [p] and before *)
Definition sweep_one (leaf : block) (p dest : nat) (any : Z) : prog ((nat * nat * Z) + (nat * nat * Z)) :=
  let p := (p - sizeof_exception)%nat in
  let share := ex_share leaf p in
  let any := Z.lor any (Z.land share mask) in
  let share := Z.land share (lnot64 mask) in
  let leaf := set_ex_share p share leaf in
  set_data X leaf;;
  dest ← (if negb (share =? 0) then
            let dest := (dest - sizeof_exception)%nat in
            set_data X (memmove dest p sizeof_exception leaf);;
            mret dest
          else
            free_exception (ex_chunk leaf p);;
            mret dest);
  dirty_buffer_count_check;;
  mret (inl (p, dest, any)).

Lemma sweep_one_spec leaf ds A1 e A2 p dest any w' :
  swept ds (A1 ++ [e]) A2 p dest any w' -> view w' X = Some leaf ->
  wp (sweep_one leaf p dest any) (fun r w2 => exists dest', r = inl ((p - 16)%nat, dest', found_bits mask (e :: A2)) /\
    swept ds A1 (e :: A2) (p - 16) dest' (found_bits mask (e :: A2)) w2) w'.
Proof using All.
  intros [Hs Hd Hf (junk & Hj & Hv) Hp Hde Ha] Hleaf. rewrite <- app_assoc in Hs. cbn [app] in Hs.
  pose proof (exc_of_leaf _ _ _ Hs) as He. pose proof (length_keep_excs mask A2) as Hk.
  assert (Ep : (p - 16)%nat = sweep_p ds gap A1) by (unfold sweep_p; rewrite Hp, length_app; cbn [length]; lia).
  assert (Edest : (dest - 16)%nat = (sweep_p ds gap A1 + length junk)%nat) by (rewrite <- Ep, Hde, Hp, length_app; cbn [length]; lia).
  rewrite Hleaf in Hv. injection Hv as ->.
  change (leaf_shape hdr ds (gap ++ enc_excs (A1 ++ [e]) ++ junk ++ enc_excs (keep_excs mask A2)))
    with (sweep_leaf hdr ds gap A1 e junk (keep_excs mask A2)) in *.
  unfold sweep_one, sizeof_exception. rewrite Ep, sweep_share by done. cbv zeta.
  change (Z.land (share e) (lnot64 mask)) with (share (unshare mask e)). set (v := share (unshare mask e)) in *.
  apply (f_equal length) in Hs as Hlen. rewrite length_app in Hlen. cbn [length] in Hlen.
  wp_step. eapply wp_mono.
  { apply (set_leaf_spec w X _ T Hcan); [exact Hf|]. rewrite sweep_drop, <- Hblock by done. apply swept_size; [done|]. len. }
  cbv beta. intros _ w1 [Hf1 Hv1]. wp_step.
  cbn [found_bits foldr]. fold (found_bits mask A2). rewrite <- Ha.
  assert (Hany : Z.lor any (Z.land (share e) mask) = found_bits mask (e :: A2)) by (by rewrite Ha).
  destruct (negb (v =? 0)) eqn:Ev.
  - assert (Est : still_shared mask e = true) by exact Ev.
    destruct (sweep_keep hdr ds gap A1 e junk (keep_excs mask A2) Hh v) as (junk' & Hj' & Emove).
    wp_step. rewrite Edest, Emove. eapply wp_mono.
    { apply (set_leaf_spec w X _ T Hcan); [exact Hf1|]. rewrite <- Hblock. apply swept_size; [done|]. cbn [length]. lia. }
    cbv beta. intros _ w2 [Hf2 Hv2]. wp_steps. eapply wp_mono; [by eapply (no_commit w X)|]. cbv beta. intros _ w3 ->. wp_steps.
    eexists. split; [done|]. constructor; [done|done|by rewrite free_excs_cons, Est| |done| |done].
    + rewrite keep_excs_cons, Est. exists junk'. split; [cbn [length]; lia|exact Hv2].
    + rewrite keep_excs_cons, Est. cbn [length]. lia.
  - assert (Est : still_shared mask e = false) by exact Ev.
    wp_step. rewrite sweep_chunk by done. eapply wp_mono.
    { apply (free_exception_spec w X (free_excs mask (all_excs L)) T Hm Hcan _ _ _ Hf1).
      - rewrite <- Hs, free_excs_app, free_excs_cons, Est. apply elem_of_app. right. by left.
      - pose proof (cf_nodup _ _ _ _ Hcan) as Hnd. rewrite <- Hs, free_excs_app, free_excs_cons, Est in Hnd.
        apply NoDup_app in Hnd as (_ & _ & Hnd). by apply NoDup_cons in Hnd as [? _].
      - intros g Hg. rewrite <- Hs, free_excs_app, free_excs_cons, Est. apply elem_of_app. right. by right. }
    cbv beta. intros _ w2 [Hf2 Hv2]. wp_steps. eapply wp_mono; [by eapply (no_commit w X)|]. cbv beta. intros _ w3 ->. wp_steps.
    eexists. split; [done|]. constructor; [done|done|by rewrite free_excs_cons, Est| |done| |done].
    + rewrite keep_excs_cons, Est. exists (enc_exc (Exc v (chunk_of e)) ++ junk). split; [rewrite length_app, length_enc_exc; cbn [length]; lia|].
      by rewrite Hv2, Hv1, sweep_drop.
    + rewrite keep_excs_cons, Est. cbn [length]. lia.
Qed.

Lemma swept_emap ds A1 A2 p dest any w' leaf i r o :
  swept ds A1 A2 p dest any w' -> view w' X = Some leaf -> ds !! i = Some (o, r) -> is_u32 o -> emap leaf i = Z.to_nat o.
Proof using Hh.
  intros [_ _ _ (junk & _ & Hv) _ _ _] Hleaf Hi Ho. rewrite Hleaf in Hv. injection Hv as ->.
  unfold emap. by erewrite map_offset_shape.
Qed.

(** The exceptions of one entry, when [B] are those of the entries before *)
Lemma sweep_exceptions_spec ds B es A2 p dest any w' i r :
  swept ds (B ++ es) A2 p dest any w' ->
  ds !! i = Some (24 + 8 * Z.of_nat (length ds) + Z.of_nat (length gap) + 16 * Z.of_nat (length B), r) ->
  wp (sweep_exceptions X mask i (p, dest, any)) (fun '(p', dest', any') w2 => swept ds B (es ++ A2) p' dest' any' w2) w'.
Proof using All.
  intros Hsw Hi. set (o := 24 + _ + _ + _) in *. unfold sweep_exceptions. wp_step. apply wp_get_data; [apply Hsw|]. intros leaf Hleaf.
  assert (Hsz : length leaf = Z.to_nat size).
  { destruct (sw_leaf _ _ _ _ _ _ _ Hsw) as (junk & Hj & Hv). rewrite Hleaf in Hv. injection Hv as ->. pose proof (length_keep_excs mask A2).
    apply swept_size; [apply Hsw|]. rewrite <- (sw_split _ _ _ _ _ _ _ Hsw), !length_app. lia. }
  assert (Hneed : 24 + 8 * Z.of_nat (length ds) + Z.of_nat (length gap) + 16 * Z.of_nat (length (B ++ es ++ A2)) = size).
  { rewrite (sw_dir _ _ _ _ _ _ _ Hsw), app_assoc, (sw_split _ _ _ _ _ _ _ Hsw). rewrite Hsize. unfold leaf_need. lia. }
  rewrite !length_app in Hneed.
  apply (wp_loop (fun '(p, dest, any) w1 => exists es1 es2, es = es1 ++ es2 /\ swept ds (B ++ es1) (es2 ++ A2) p dest any w1) (fun st _ => st.1.1)).
  - clear Hsw w' p dest any leaf Hleaf Hsz. intros [[p dest] any] w' (es1 & es2 & Ees & Hsw). cbn [fst]. wp_step.
    apply wp_get_data; [apply Hsw|]. intros leaf Hleaf.
    rewrite (swept_emap _ _ _ _ _ _ _ _ _ _ _ Hsw Hleaf Hi) by (unfold is_u32; lia).
    destruct es1 as [|e es1 _] using rev_ind.
    + pose proof (sw_p _ _ _ _ _ _ _ Hsw) as Hp. rewrite app_nil_r in Hp, Hsw. cbn [app] in Ees. subst es2.
      rewrite (proj2 (Nat.eqb_eq _ _)) by lia. by wp_steps.
    + pose proof (sw_p _ _ _ _ _ _ _ Hsw) as Hp. rewrite !length_app in Hp. cbn [length] in Hp.
      rewrite (proj2 (Nat.eqb_neq _ _)) by lia. rewrite (proj2 (Nat.ltb_ge _ _)) by (unfold sizeof_exception; lia).
      rewrite app_assoc in Hsw. change (wp (sweep_one leaf p dest any) (fun r s' => match r with
        | inl a' => (let '(p, dest, any) := a' in fun w1 => exists es1 es2, es = es1 ++ es2 /\ swept ds (B ++ es1) (es2 ++ A2) p dest any w1) s' /\ (a'.1.1 < p)%nat
        | inr b => (let '(p', dest', any') := b in fun w2 => swept ds B (es ++ A2) p' dest' any' w2) s' end) w').
      eapply wp_mono; [by apply (sweep_one_spec _ _ _ _ _ _ _ _ _ Hsw)|]. cbv beta. intros r' w2 (dest' & -> & Hsw2). cbn [fst]. split; [|lia].
      exists es1, (e :: es2). split; [by rewrite Ees, <- app_assoc|exact Hsw2].
  - exists es, []. split; [by rewrite app_nil_r|exact Hsw].
  - cbn [fst]. rewrite (sw_p _ _ _ _ _ _ _ Hsw), Hsz, length_app. lia.
Qed.

Lemma set_offset_spec ds A1 A2 p dest any w' leaf i o r v :
  swept ds A1 A2 p dest any w' -> view w' X = Some leaf -> ds !! i = Some (o, r) ->
  wp (set_data X (set_map_offset i v leaf)) (fun _ w2 => swept (<[i := (v, r)]> ds) A1 A2 p dest any w2) w'.
Proof using Hh Hcan Hblock Hsize.
  intros [Hs Hd Hf (junk & Hj & Hv) Hp Hde Ha] Hleaf Hi. rewrite Hleaf in Hv. injection Hv as ->.
  pose proof (length_keep_excs mask A2) as Hk. apply (f_equal length) in Hs as Hlen. rewrite length_app in Hlen.
  rewrite (set_map_offset_shape _ _ _ _ o r) by done. eapply wp_mono.
  { apply (set_leaf_spec w X _ T Hcan); [exact Hf|]. rewrite <- Hblock. apply swept_size; [by rewrite length_insert|]. lia. }
  cbv beta. intros _ w2 [Hf2 Hv2]. constructor; try done; rewrite ?length_insert; try done. by exists junk.
Qed.

(** The directory when the entries [L2] were visited and those of [L1] were
    not *)
Definition half_dir (L1 L2 : aleaf) : list (Z * Z) :=
  dirp (size - 16 * Z.of_nat (length (all_excs L2))) L1 ++ dirp size (keep_entries mask L2) ++ [(size, srch)].

Lemma sweep_entries_spec L1 L2 p dest any w' :
  L = L1 ++ L2 -> swept (half_dir L1 L2) (all_excs L1) (all_excs L2) p dest any w' ->
  wp (sweep_entries X mask (length L1) (p, dest, any)) (fun any' w2 => exists p' dest',
    swept (half_dir [] L) [] (all_excs L) p' dest' any' w2) w'.
Proof using All.
  revert L2 p dest any w'. induction L1 as [|[r es] L1 IH] using rev_ind; intros L2 p dest any w' HL Hsw.
  - cbn [length sweep_entries snd]. wp_steps. cbn [app] in HL. rewrite HL. by exists p, dest.
  - rewrite length_app. replace (length L1 + length [(r, es)])%nat with (S (length L1)) by (cbn [length]; lia). cbn [sweep_entries].
    rewrite <- app_assoc in HL. cbn [app] in HL.
    assert (Edir : half_dir (L1 ++ [(r, es)]) L2 = dirp (size - 16 * Z.of_nat (length (all_excs ((r, es) :: L2)))) L1 ++
      (size - 16 * Z.of_nat (length (all_excs ((r, es) :: L2))), r) :: dirp size (keep_entries mask L2) ++ [(size, srch)]).
    { unfold half_dir. rewrite dirp_app, <- app_assoc. cbn [dirp app all_excs flat_map snd]. fold (all_excs L2).
      rewrite app_nil_r, length_app. f_equal; [f_equal; lia|]. f_equal. f_equal. lia. }
    assert (Hdl : length (half_dir (L1 ++ [(r, es)]) L2) = S (length L)) by apply Hsw.
    assert (Hneed : 24 + 8 * Z.of_nat (S (length L)) + Z.of_nat (length gap) + 16 * Z.of_nat (length (all_excs L)) = size) by (rewrite Hsize; unfold leaf_need; lia).
    assert (Hlen : length (all_excs L) = (length (all_excs L1) + length (es ++ all_excs L2))%nat) by (rewrite HL, all_excs_app, all_excs_cons; len).
    assert (Hi : half_dir (L1 ++ [(r, es)]) L2 !! length L1 =
      Some (24 + 8 * Z.of_nat (length (half_dir (L1 ++ [(r, es)]) L2)) + Z.of_nat (length gap) + 16 * Z.of_nat (length (all_excs L1)), r)).
    { rewrite Hdl, Edir. rewrite list_lookup_middle by len. rewrite all_excs_cons. do 2 f_equal. lia. }
    rewrite all_excs_app in Hsw. replace (all_excs [(r, es)]) with es in Hsw by (cbn; by rewrite app_nil_r).
    wp_step. eapply wp_mono; [by apply (sweep_exceptions_spec _ _ _ _ _ _ _ _ _ _ Hsw Hi)|]. cbv beta.
    intros [[p' dest'] any'] w1 Hsw1. wp_step. apply wp_get_data; [apply Hsw1|]. intros leaf Hleaf.
    wp_step. eapply wp_mono; [by apply (set_offset_spec _ _ _ _ _ _ _ _ _ _ _ _ Hsw1 Hleaf Hi)|]. cbv beta. intros _ w2 Hsw2.
    cbn [fst snd] in Hsw2. apply (IH ((r, es) :: L2)); [done|]. rewrite all_excs_cons.
    replace (half_dir L1 ((r, es) :: L2)) with (<[length L1 := (Z.of_nat dest', r)]> (half_dir (L1 ++ [(r, es)]) L2)); [exact Hsw2|].
    rewrite Edir. replace (length L1) with (length (dirp (size - 16 * Z.of_nat (length (all_excs ((r, es) :: L2)))) L1) + 0)%nat at 1 by len.
    rewrite insert_app_r. cbn [insert list_insert]. unfold half_dir. f_equal. cbn [keep_entries fmap list_fmap dirp fst snd app]. f_equal. f_equal.
    rewrite (sw_dest _ _ _ _ _ _ _ Hsw1), (sw_p _ _ _ _ _ _ _ Hsw1), Hdl, all_excs_cons. fold (keep_entries mask L2). rewrite all_excs_keep.
    pose proof (length_keep_excs mask (es ++ all_excs L2)).
    replace (keep_excs mask es ++ keep_excs mask (all_excs L2)) with (keep_excs mask (es ++ all_excs L2)) by (unfold keep_excs; by rewrite List.filter_app, fmap_app).
    lia.
Qed.
End sweep.

Lemma delete_snapshots_from_leaf_spec w X b L mask T :
  mem_ok w -> usable w X -> view w X = Some b -> leaf_rep b L -> can_free w X (free_excs mask (all_excs L)) T ->
  wp (delete_snapshots_from_leaf X mask) (fun any w' => any = negb (found_bits mask (all_excs L) =? 0) /\
    frees w w' X T (free_excs mask (all_excs L)) /\
    exists b', view w' X = Some b' /\ leaf_rep b' (delete_entries mask L)) w.
Proof.
  intros Hm Hu Hv Hr Hcan. assert (Hok : Forall ent_ok L) by by destruct Hr as (_ & ? & _).
  pose proof (leaf_rep_count b L Hr) as Hc. destruct (leaf_rep_shape b L Hr) as (hdr & srch & gap & v & m & -> & Eb & Hsz & Hlt).
  set (size := Z.of_nat (length b)) in *. set (hdr := leaf_header v (Z.of_nat (length L)) m) in *.
  assert (Hh : length hdr = 24%nat) by apply length_leaf_header.
  assert (Hblock : Z.to_nat size = Z.to_nat (allocsize (metadata (sb w)))).
  { unfold size. rewrite Nat2Z.id. eapply view_sized; [apply Hm|done]. }
  assert (Hdir : half_dir mask size srch L [] = dirp size L ++ [(size, srch)]).
  { unfold half_dir. cbn. f_equal. f_equal. lia. }
  assert (Hend : emap b (length L) = Z.to_nat size).
  { unfold emap. rewrite Eb at 1. f_equal. apply (map_offset_shape _ _ _ _ size srch); [done| |unfold is_u32; lia].
    apply list_lookup_middle. len. }
  unfold delete_snapshots_from_leaf. wp_step. apply wp_get_data; [done|]. rewrite Hv. intros ? [= <-]. rewrite Hc, Hend.
  wp_step. eapply wp_mono.
  { apply (sweep_entries_spec w X L mask T hdr gap size srch Hm Hcan Hh Hok Hsz Hlt Hblock L []); [by rewrite app_nil_r|].
    rewrite Hdir. constructor; cbn; [by rewrite app_nil_r|len|by apply frees_refl| | |lia|done].
    - exists []. split; [done|]. rewrite Hv. f_equal. rewrite Eb at 1. by rewrite ?app_nil_r.
    - unfold leaf_need in Hsz. len. }
  cbv beta. intros any w1 (p & dest & [_ _ Hf (junk & Hj & Hv1) _ _ Ha]). cbn [app enc_excs flat_map] in Hv1.
  set (leaf := leaf_shape hdr _ _) in Hv1.
  assert (Hll : length leaf = length b).
  { unfold leaf. etransitivity; [apply (swept_size L hdr gap size Hh Hsz (half_dir mask size srch [] L) [] junk (keep_excs mask (all_excs L)))|unfold size; lia].
    - unfold half_dir, keep_entries. rewrite !length_app, !length_dirp, length_fmap. cbn [length]. lia.
    - pose proof (length_keep_excs mask (all_excs L)). cbn [length]. lia. }
  assert (Hr1 : leaf_rep leaf (keep_entries mask L)).
  { apply (leaf_rep_intro _ _ v m srch (gap ++ junk)).
    - by apply keep_ent_ok.
    - rewrite Hll. exact Hlt.
    - rewrite Hll. fold size. unfold leaf, half_dir, hdr. cbn [dirp app]. rewrite all_excs_keep.
      replace (length (keep_entries mask L)) with (length L) by (unfold keep_entries; by rewrite length_fmap). unfold leaf_shape. app_norm. }
  destruct (compress_map_rep _ _ Hr1) as [Hr2 Hl2].
  wp_step. apply wp_get_data; [apply Hf|]. rewrite Hv1. intros ? [= <-]. wp_step. eapply wp_mono.
  { apply (set_leaf_spec w X _ T Hcan); [exact Hf|]. rewrite Hl2, Hll, <- Hblock. unfold size. lia. }
  cbv beta. intros _ w2 [Hf2 Hv2]. wp_steps. split; [by rewrite Ha|]. split; [done|]. by exists (compress_map leaf).
Qed.

Lemma bit_kept (o : option bool) P `{Decision P} :
  ((fun b => b && negb (bool_decide P)) <$> o = Some true <-> o = Some true /\ ~ P) /\
  ((fun b => b && negb (bool_decide P)) <$> o = Some false -> o = Some false \/ P).
Proof. destruct o as [[|]|]; cbn; try case_bool_decide; cbn; intuition congruence. Qed.

Lemma length_free_excs mask es : (length (free_excs mask es) <= length es)%nat.
Proof. unfold free_excs. rewrite length_fmap. apply List.filter_length_le. Qed.

Lemma free_excs_size b L mask : leaf_rep b L -> Z.of_nat (length (free_excs mask (all_excs L))) < 2 ^ 32.
Proof.
  intros Hr. destruct (leaf_rep_shape b L Hr) as (hdr & srch & gap & v & m & _ & _ & Hsz & Hlt). unfold leaf_need in Hsz.
  pose proof (length_free_excs mask (all_excs L)). lia.
Qed.

(** C14: [delete_snapshots_from_leaf] of the snapshots in [mask], on a leaf in the
    cache whose exceptions are different chunks of the store that are in use,
    when the bitmap blocks that change fit into the cache and into the
    transaction: the leaf keeps its invariant; no snapshot of [mask] holds a
    chunk any more and every other snapshot holds what it held; a chunk of the
    store is free afterwards when it was free before or when its last holder is
    gone, and is otherwise in use as before; the free count is raised by the
    number of these chunks; nothing but the leaf and the bitmap blocks has
    changed, no reference was taken or lost, and nothing was written.  The result
    says whether a snapshot of [mask] held a chunk of this leaf. *)
Theorem delete_snapshots_from_leaf_correct w X b L mask T :
  mem_ok w -> usable w X -> view w X = Some b -> leaf_rep b L -> leaf_wf L -> is_u64 mask ->
  NoDup (chunk_of <$> all_excs L) -> 0 <= freechunks (asi SNAPDATA (sb w)) < 2 ^ 63 ->
  can_free w X (free_excs mask (all_excs L)) T ->
  wp (delete_snapshots_from_leaf X mask) (fun any w' => exists b' L' gone,
    view w' X = Some b' /\ leaf_rep b' L' /\ leaf_wf L' /\
    (forall c n, 0 <= n < 64 -> held L' c n = if Z.testbit mask n then None else held L c n) /\
    (any = true <-> exists c n, 0 <= n < 64 /\ Z.testbit mask n = true /\ held L c n <> None) /\
    NoDup gone /\ (forall y, y ∈ gone <-> in_leaf L y /\ ~ in_leaf L' y) /\
    (forall y, in_store (sb w) y ->
       (bit_used (view w') (sb w) SNAPDATA y <-> bit_used (view w) (sb w) SNAPDATA y /\ y ∉ gone) /\
       (bit_free (view w') (sb w) SNAPDATA y <-> bit_free (view w) (sb w) SNAPDATA y \/ y ∈ gone)) /\
    freechunks (asi SNAPDATA (sb w')) = freechunks (asi SNAPDATA (sb w)) + Z.of_nat (length gone) /\
    (forall x, x <> X -> x ∉ T -> view w' x = view w x) /\
    took w w' [] /\ disk w' = disk w /\ writes w' = writes w) w.
Proof.
  intros Hm Hu Hv Hr Hw Hmask Hnd Hfc Hcan. assert (Hok : Forall ent_ok L) by by destruct Hr as (_ & ? & _).
  eapply wp_mono; [by eapply delete_snapshots_from_leaf_spec|]. cbv beta. intros any w' (Ea & Hf & b' & Hv' & Hr').
  exists b', (delete_entries mask L), (free_excs mask (all_excs L)).
  pose proof Hcan as [Hl Hndg Hrange Hused Ho HnX _ _ _].
  assert (Hbit : forall y, in_store (sb w) y -> bit_of (view w') (sb w) y =
    (fun b => b && negb (bool_decide (y ∈ free_excs mask (all_excs L)))) <$> bit_of (view w) (sb w) y).
  { intros y Hy. unfold bit_of at 1. rewrite (fs_view _ _ _ _ _ Hf) by (by apply HnX).
    apply bit_of_cleared; [done| |done|done]. intros x d. eapply view_sized, Hm. }
  split_and!; try done.
  - by apply delete_entries_wf.
  - intros c n Hn. apply held_delete; [apply Hw|done].
  - rewrite Ea, negb_true_iff, Z.eqb_neq. by apply found_held.
  - intros y. by apply free_excs_iff.
  - intros y Hy. rewrite !bit_used_of, !bit_free_of, (Hbit y Hy). rewrite Forall_forall in Hused. split.
    + apply bit_kept.
    + split; [apply bit_kept|]. intros [H|H]; [by rewrite H|]. specialize (Hused y H). rewrite bit_used_of in Hused. rewrite Hused. cbn. by rewrite bool_decide_true.
  - rewrite (fs_sb _ _ _ _ _ Hf). pose proof (free_excs_size b L mask Hr). apply freechunks_count_frees; lia.
  - intros x Hx HT. rewrite (fs_view _ _ _ _ _ Hf) by done. apply clear_bits_other. intros g Hg E. apply HT. rewrite <- E. by apply Ho.
  - apply Hf.
  - apply Hf.
  - apply Hf.
Qed.
