(* ===== verification/ReportSpec.v ===== *)
(** * Reports over the whole tree

    The change list between two snapshots and the table of the status report,
    for all entries of the tree. *)

From Stdlib Require Import Sorted.
From S2P Require Import Prelude Bytes State Buffer Bitmap Leaf LeafSpec LeafInv LeafView Alloc Journal Btree Snapshot Changelist Status CacheInv CacheRoom CacheMem BitmapInv AllocInv Tree StatusSpec ChangelistSpec Traverse.

(** ** Change lists *)

(** The chunk of an entry belongs to the change list. *)
Definition entry_listed (n1 n2 csb n : Z) (d : Z * list exc) : bool :=
  bool_decide (find (fun e => Z.testbit (share e) n1) d.2 <> find (fun e => Z.testbit (share e) n2) d.2) &&
  (Z.shiftl d.1 csb <? n).

Lemma listed_differs L n1 n2 csb n :
  leaf_sorted L ->
  (List.filter (entry_listed n1 n2 csb n) L).*1 = List.filter (fun c => differs L n1 n2 c && (Z.shiftl c csb <? n)) L.*1.
Proof.
  intros Hs. assert (H : forall l, incl l L ->
    (List.filter (entry_listed n1 n2 csb n) l).*1 = List.filter (fun c => differs L n1 n2 c && (Z.shiftl c csb <? n)) l.*1);
    [|apply H, incl_refl].
  induction l as [|[c es] l IH]; intros Hin; [done|]. cbn [List.filter fmap list_fmap fst].
  assert (E : entry_listed n1 n2 csb n (c, es) = differs L n1 n2 c && (Z.shiftl c csb <? n)).
  { unfold entry_listed, differs, exc_for. cbn [fst snd]. rewrite (excs_of_in L c es); [done|done|].
    apply list_elem_of_In, Hin. by left. }
  rewrite E. destruct (_ && _); cbn [fmap list_fmap fst]; rewrite IH; try done; intros x Hx; apply Hin; by right.
Qed.

(** Chunks of the entries are distinct 32-bit numbers. *)
Lemma entries_bound C : entries_ok C -> Z.of_nat (length C) <= 2 ^ 32.
Proof.
  intros [[Hs _] Hok]. assert (Hnd : NoDup C.*1).
  { clear Hok. induction Hs as [|d C Hs IH Hlt]; cbn; [constructor|]. apply NoDup_cons. split; [|done].
    intros (x & E & Hx)%list_elem_of_fmap. rewrite List.Forall_forall in Hlt. apply list_elem_of_In, Hlt in Hx. lia. }
  assert (Hl : (length C.*1 <= length (seqZ 0 (2 ^ 32)))%nat).
  { apply submseteq_length, NoDup_submseteq; [done|]. intros x (d & -> & Hd)%list_elem_of_fmap.
    rewrite Forall_forall in Hok. destruct (Hok d Hd) as [Hc _]. apply elem_of_seqZ. unfold is_u32 in Hc. lia. }
  rewrite length_fmap, length_seqZ in Hl. lia.
Qed.

(** C31: the walk of STREAM_CHANGELIST collects, in order, exactly the chunks of the
    tree that lie inside the target snapshot and whose exceptions differ between
    the two snapshots: one has an exception where the other shares the chunk with
    the origin, or they have different ones.  The walk gives back every
    reference; it ends with -EIO only when the cache has no room for a path. *)
Theorem stream_changelist_walk w C F cl n1 n2 :
  let n := snap_sectors_of (snaplist (image (sb w))) (cl_tgt_snap cl) in
  let csb := chunk_sectors_bits (snapdata (sb w)) in
  mem_ok w -> tree_ok w C F -> (0 < etree_levels (image (sb w)))%nat -> on_device w ->
  0 <= n1 < 64 -> 0 <= n2 < 64 -> 0 <= csb < 32 -> n <> 0 -> cl_ok cl -> cl_chunks cl = [] ->
  wp (traverse_tree_range (fun leaf cl => s ← getsb; mret (gen_changelist_leaf s (bit64 n1) (bit64 n2) leaf cl)) 0 cl)
    (fun '(err, cl') w' => mem_ok w' /\ cstep w w' /\
      ((err = 0 /\ took w w' [] /\ cl_ok cl' /\
        cl_chunks cl' = List.filter (fun c => differs C n1 n2 c && (Z.shiftl c csb <? n)) C.*1) \/
       (err = - EIO /\ no_room w (Z.of_nat (etree_levels (image (sb w))) + 1) /\ exists l, took w w' l))) w.
Proof.
  intros n csb Hm Ht Hl Hd H1 H2 Hcsb Hn Hok Hcl. pose proof (tree_entries w C F Ht) as HC.
  set (I := fun C cl' => cl_tgt_snap cl' = cl_tgt_snap cl /\ (Z.of_nat (length C) < 2 ^ 62 -> cl_ok cl' /\
    cl_chunks cl' = (List.filter (entry_listed n1 n2 csb n) C).*1)).
  eapply wp_mono.
  { apply (traverse_tree_range_spec _ I w C F); [done..| |].
    - intros b L C0 cl0 w1 Hsb Hr Hw [Htgt HI]. unfold getsb. wp_steps. split; [done|]. rewrite Hsb.
      split; [by rewrite gen_changelist_target|]. intros Hlen. rewrite length_app in Hlen. destruct HI as [Hok0 Hc0]; [lia|].
      destruct (gen_changelist_leaf_spec (sb w) b L cl0 n1 n2) as [Hok1 Hc1]; rewrite ?Htgt; try done.
      { unfold cl_count. rewrite Hc0, length_fmap. pose proof (List.filter_length_le (entry_listed n1 n2 csb n) C0). lia. }
      split; [done|]. rewrite Hc1, Hc0, List.filter_app, fmap_app. rewrite Htgt. f_equal.
      symmetry. apply listed_differs. apply Hw.
    - by split. }
  cbv beta. intros [err cl'] w' (? & ? & [(? & ? & _ & HI)|?]); (split; [done|]); (split; [done|]); [left|by right].
  destruct HI as [Hok' ->]; [pose proof (entries_bound C HC); lia|]. split_and!; try done. apply listed_differs. apply HC.
Qed.

(** ** The status report *)

Lemma count_cell_app bit k l1 l2 : count_cell bit k (l1 ++ l2) = count_cell bit k l1 + count_cell bit k l2.
Proof. unfold count_cell. rewrite List.filter_app, length_app. lia. Qed.

Lemma leaf_shares b L : leaf_rep b L -> leaf_wf L -> Forall (fun s => is_u64 s /\ s <> 0) (share <$> all_excs L).
Proof.
  intros (_ & Hok & _) [_ Hw]. apply Forall_fmap, Forall_forall. intros e He. unfold all_excs in He.
  apply list_elem_of_In, in_flat_map in He as (d & Hd & He). rewrite List.Forall_forall in Hok, Hw.
  destruct (Hok d Hd) as [_ Hf]. destruct (Hw d Hd) as [_ [Hnz _]].
  rewrite List.Forall_forall in Hf, Hnz. split; [by apply Hf|by apply Hnz].
Qed.

(** The cell for snapshot [bit] and [k] holds the number of exceptions of [C] that
    the snapshot shares with [k] others. *)
Definition share_counts (C : aleaf) (table : list Z) : Prop :=
  forall bit k, (bit < 64)%nat -> (k < 64)%nat ->
    table !! cell bit k = Some (u64 (count_cell bit k (share <$> all_excs C))).

Lemma calc_sharing_counts b L C table w :
  leaf_rep b L -> leaf_wf L -> share_counts C table ->
  wp (calc_sharing b table) (fun table' w' => w' = w /\ share_counts (C ++ L) table') w.
Proof.
  intros Hr Hw Ht. unfold calc_sharing. rewrite (leaf_entries_shares b L Hr). eapply wp_mono.
  { apply calc_sharing_shares_spec; [by eapply leaf_shares|]. intros bit k Hb Hk. eexists.
    split; [by apply Ht|apply u64_range]. }
  cbv beta. intros t' w' [-> H]. split; [done|]. intros bit k Hb Hk. rewrite (H bit k _ Hb Hk (Ht bit k Hb Hk)).
  rewrite all_excs_app, fmap_app, count_cell_app. unfold u64. by rewrite Z.add_mod_idemp_l by lia.
Qed.

(** C33: the status report, when the cache has room for a path of the tree: the
    table that the reply is made of holds, for every snapshot and every number of
    other snapshots, how many exceptions of the whole tree it shares with exactly
    so many; the report changes no block and gives back every reference. *)
Theorem get_status_correct w C F :
  mem_ok w -> tree_ok w C F -> (0 < etree_levels (image (sb w)))%nat -> on_device w ->
  ~ no_room w (Z.of_nat (etree_levels (image (sb w))) + 1) -> Z.land (runflags (sb w)) RUN_SELFCHECK = 0 ->
  wp get_status (fun b w' => mem_ok w' /\ cstep w w' /\ took w w' [] /\
    exists table, b = status_bytes (sb w) table /\ share_counts C table) w.
Proof.
  intros Hm Ht Hl Hd HP Hf. unfold get_status. wp_step. eapply wp_mono.
  { apply (traverse_tree_range_spec calc_sharing share_counts w C F); [done..| |].
    - intros b L C0 t w1 _ Hr Hw H0. by apply calc_sharing_counts.
    - intros bit k Hb Hk. cbn [all_excs flat_map fmap list_fmap]. rewrite lookup_replicate_2; [done|]. unfold cell. lia. }
  cbv beta. intros [err table] w' (Hm' & Hc & Hr). assert (Es : sb w' = sb w) by apply Hc.
  unfold selfcheck_freespace, getsb. wp_steps. rewrite Es, Hf. cbn [negb Z.eqb]. wp_steps. split; [done|]. split; [done|].
  destruct Hr as [(_ & Htk & HI)|(_ & Hno & _)]; [|done]. split; [done|]. by exists table.
Qed.
