(* ===== verification/LockSpec.v ===== *)
(** * Snapshot read locks

    What the hash table of read locks promises: a chunk that a client reads from
    the origin on behalf of a snapshot is locked, a write to it is answered only
    when every lock it waits for is released, and it is answered once. *)

From S2P Require Import Prelude Bytes State Locks CacheInv CacheRoom CacheMem.

(** ** The table *)

(** The holders and the waiting writes of a lock *)
Definition lock_info : Type := list Z * list Z.

Definition info (lk : snaplock) : lock_info := (holdlist lk, waitlist lk).

Definition lock_in (l : list snaplock) (chunk : Z) : option lock_info :=
  info <$> find (fun lk => lk_chunk lk =? chunk) l.

Definition hash_bits (sv : server) : Z := snaplock_hash_bits (sb (sv_world sv)).
Definition bin_of (sv : server) (chunk : Z) : nat := Z.to_nat (snaplock_hash (hash_bits sv) chunk).

(** The lock of a chunk *)
Definition lock_at (sv : server) (chunk : Z) : option lock_info :=
  snaplocks sv !! bin_of sv chunk ≫= fun l => lock_in l chunk.

(** Every lock is in the bucket of its chunk, a chunk has one lock, and a lock
    has a holder. *)
Record bucket_ok (bits : Z) (bin : nat) (l : list snaplock) : Prop := {
  bk_hash : Forall (fun lk => Z.to_nat (snaplock_hash bits (lk_chunk lk)) = bin) l;
  bk_nodup : NoDup (lk_chunk <$> l);
  bk_held : Forall (fun lk => holdlist lk <> []) l }.

Record table_ok (sv : server) : Prop := {
  to_bits : 0 <= hash_bits sv <= 32;
  to_size : Z.of_nat (length (snaplocks sv)) = 2 ^ hash_bits sv;
  to_buckets : forall bin l, snaplocks sv !! bin = Some l -> bucket_ok (hash_bits sv) bin l }.

Lemma hash_range bits chunk : 0 <= bits <= 32 -> 0 <= snaplock_hash bits chunk < 2 ^ bits.
Proof.
  intros Hb. unfold snaplock_hash. rewrite Z.shiftr_div_pow2 by lia.
  pose proof (u32_range (chunk * 3498734713)) as Hr. unfold is_u32 in Hr.
  assert (Hp : 2 ^ 32 = 2 ^ bits * 2 ^ (32 - bits)) by (rewrite <- Z.pow_add_r by lia; f_equal; lia).
  assert (0 < 2 ^ (32 - bits)) by (apply Z.pow_pos_nonneg; lia). split; [apply Z.div_pos; lia|].
  apply Z.div_lt_upper_bound; [done|]. lia.
Qed.

Lemma bucket_of_run chunk sv (Q : nat * list snaplock -> server -> Prop) :
  table_ok sv -> (forall l, snaplocks sv !! bin_of sv chunk = Some l -> Q (bin_of sv chunk, l) sv) ->
  wp (bucket_of chunk) Q sv.
Proof.
  intros [Hb Hs _] HQ. pose proof (hash_range _ chunk Hb) as Hr. unfold bucket_of. wp_steps.
  - fold (hash_bits sv). rewrite Z.shiftl_1_l. apply andb_true_iff. split; [apply Z.leb_le|apply Z.ltb_lt]; lia.
  - fold (hash_bits sv) (bin_of sv chunk). destruct (snaplocks sv !! bin_of sv chunk) as [l|] eqn:E; [by apply HQ|].
    apply lookup_ge_None_1 in E. unfold bin_of in E. lia.
Qed.

(** The lock found by the search splits the bucket. *)
Lemma find_snaplock_split l chunk :
  match find_snaplock l chunk with
  | None => lock_in l chunk = None /\ Forall (fun lk => lk_chunk lk <> chunk) l
  | Some i => exists l1 lk l2, l = l1 ++ lk :: l2 /\ i = length l1 /\ lk_chunk lk = chunk /\
      Forall (fun lk => lk_chunk lk <> chunk) l1 /\ lock_in l chunk = Some (info lk)
  end.
Proof.
  unfold find_snaplock, lock_in. induction l as [|x l IH]; cbn; [by split; [|constructor]|].
  destruct (decide (lk_chunk x = chunk)) as [E|E]; cbn.
  - rewrite (proj2 (Z.eqb_eq _ _) E). exists [], x, l. by split_and!; try constructor.
  - rewrite (proj2 (Z.eqb_neq _ _) E). destruct (list_find _ l) as [[i y]|]; cbn in *.
    + destruct IH as (l1 & lk & l2 & -> & -> & ? & ? & ?). exists (x :: l1), lk, l2. split_and!; try done. by constructor.
    + destruct IH as [? ?]. split; [done|]. by constructor.
Qed.

(** The locks of the other chunks of a bucket stay when the lock of [chunk] is
    replaced by [m]. *)
Lemma lock_in_app l1 l2 chunk :
  lock_in (l1 ++ l2) chunk = match lock_in l1 chunk with Some x => Some x | None => lock_in l2 chunk end.
Proof.
  unfold lock_in. induction l1 as [|x l1 IH]; cbn; [done|]. by destruct (lk_chunk x =? chunk).
Qed.

Lemma lock_in_none l chunk : Forall (fun lk => lk_chunk lk <> chunk) l -> lock_in l chunk = None.
Proof.
  unfold lock_in. induction 1 as [|x l Hx _ IH]; cbn; [done|]. by rewrite (proj2 (Z.eqb_neq _ _) Hx).
Qed.

Lemma lock_in_cons x l chunk : lock_in (x :: l) chunk = if lk_chunk x =? chunk then Some (info x) else lock_in l chunk.
Proof. unfold lock_in. cbn. by destruct (lk_chunk x =? chunk). Qed.

(** A bucket is replaced by one that differs in the lock of [chunk] only. *)
Lemma lock_at_set sv sv' chunk l l' :
  sv_world sv' = sv_world sv -> snaplocks sv' = <[bin_of sv chunk := l']> (snaplocks sv) ->
  snaplocks sv !! bin_of sv chunk = Some l ->
  (forall c, c <> chunk -> lock_in l' c = lock_in l c) ->
  forall c, lock_at sv' c = if c =? chunk then lock_in l' chunk else lock_at sv c.
Proof.
  intros Hw Hs Hl Hother c. unfold lock_at. assert (Hb : bin_of sv' c = bin_of sv c) by (unfold bin_of, hash_bits; by rewrite Hw).
  rewrite Hb, Hs. pose proof (lookup_lt_Some _ _ _ Hl) as Hlt. destruct (Z.eqb_spec c chunk) as [->|Hne].
  - by rewrite list_lookup_insert_eq.
  - destruct (decide (bin_of sv chunk = bin_of sv c)) as [E|E].
    + rewrite <- E, list_lookup_insert_eq, Hl by done. by apply Hother.
    + by rewrite list_lookup_insert_ne.
Qed.

Lemma table_ok_set sv sv' bin l' :
  table_ok sv -> sv_world sv' = sv_world sv -> snaplocks sv' = <[bin := l']> (snaplocks sv) ->
  bucket_ok (hash_bits sv) bin l' -> table_ok sv'.
Proof.
  intros [Hb Hs Hbk] Hw Ht Hl'. assert (Eh : hash_bits sv' = hash_bits sv) by (unfold hash_bits; by rewrite Hw).
  constructor; rewrite Eh; [done|by rewrite Ht, length_insert|]. intros b l Hl. rewrite Ht in Hl.
  apply list_lookup_insert_Some in Hl as [(-> & -> & _)|[_ Hl]]; [done|by apply Hbk].
Qed.

(** ** Waiting writes *)

(** The waits of a list of locks, and of the whole table *)
Definition bucket_waits (l : list snaplock) : list Z := flat_map waitlist l.
Definition all_waits (t : list (list snaplock)) : list Z := flat_map bucket_waits t.

(** How often a write waits *)
Definition waits (sv : server) (p : Z) : Z := occ p (all_waits (snaplocks sv)).

(** The pending writes and the table agree: the hold count of a pending write is
    the number of its waits, and one more for the query [open] that is still
    adding waits; a write that is not open waits for something and knows its
    client. *)
Record pend_ok (sv : server) (open : option Z) : Prop := {
  po_count : forall p pd, pendings sv !! p = Some pd ->
    holdcount pd = waits sv p + if decide (open = Some p) then 1 else 0;
  po_dom : forall p, 0 < waits sv p -> is_Some (pendings sv !! p);
  po_open : forall p, open = Some p -> is_Some (pendings sv !! p);
  po_wait : forall p pd, pendings sv !! p = Some pd -> open <> Some p -> 0 < waits sv p /\ is_Some (pd_client pd);
  po_fresh : forall p, next_pending sv <= p -> pendings sv !! p = None }.

Lemma all_waits_set t bin l l' p :
  t !! bin = Some l -> occ p (all_waits (<[bin := l']> t)) = occ p (all_waits t) - occ p (bucket_waits l) + occ p (bucket_waits l').
Proof.
  intros Hl. rewrite insert_take_drop by by eapply lookup_lt_Some. rewrite <- (take_drop_middle t bin l Hl) at 3.
  unfold all_waits. rewrite !flat_map_app. cbn [flat_map]. rewrite !occ_app. lia.
Qed.

Lemma bucket_waits_app l1 l2 : bucket_waits (l1 ++ l2) = bucket_waits l1 ++ bucket_waits l2.
Proof. apply flat_map_app. Qed.
Lemma bucket_waits_cons lk l : bucket_waits (lk :: l) = waitlist lk ++ bucket_waits l.
Proof. done. Qed.

Lemma pend_ok_same sv sv' open :
  pend_ok sv open -> pendings sv' = pendings sv -> next_pending sv' = next_pending sv ->
  (forall p, waits sv' p = waits sv p) -> pend_ok sv' open.
Proof.
  intros [H1 H2 H3 H4 H5] Ep En Ew. constructor; rewrite ?Ep, ?En; try done.
  - intros p pd Hp. rewrite Ew. by apply H1.
  - intros p. rewrite Ew. apply H2.
  - intros p pd. rewrite Ew. apply H4.
Qed.

Definition locks_ok (sv : server) (open : option Z) : Prop := table_ok sv /\ pend_ok sv open.

Lemma alter_length {A} (f : A -> A) l1 x l2 : alter f (length l1) (l1 ++ x :: l2) = l1 ++ f x :: l2.
Proof. induction l1 as [|y l1 IH]; [done|]. cbn. by rewrite IH. Qed.

Lemma bucket_ok_app bits bin l1 l2 : bucket_ok bits bin (l1 ++ l2) ->
  bucket_ok bits bin l1 /\ bucket_ok bits bin l2 /\ forall lk1 lk2, lk1 ∈ l1 -> lk2 ∈ l2 -> lk_chunk lk1 <> lk_chunk lk2.
Proof.
  intros [Hh Hn Hne]. apply Forall_app in Hh as [? ?], Hne as [? ?]. rewrite fmap_app in Hn.
  apply NoDup_app in Hn as (? & Hd & ?). split_and!; [by constructor|by constructor|].
  intros lk1 lk2 Hi1 Hi2 E. apply (Hd (lk_chunk lk1)); [by apply list_elem_of_fmap_2|]. rewrite E. by apply list_elem_of_fmap_2.
Qed.

Lemma bucket_ok_replace bits bin l1 lk lk' l2 :
  bucket_ok bits bin (l1 ++ lk :: l2) -> lk_chunk lk' = lk_chunk lk -> holdlist lk' <> [] ->
  bucket_ok bits bin (l1 ++ lk' :: l2).
Proof.
  intros [Hh Hn Hne] Hc Hl. constructor.
  - apply Forall_app in Hh as [? [? ?]%Forall_cons]. apply Forall_app. split; [done|]. apply Forall_cons. by rewrite Hc.
  - rewrite fmap_app, fmap_cons in Hn |- *. by rewrite Hc.
  - apply Forall_app in Hne as [? [? ?]%Forall_cons]. apply Forall_app. split; [done|]. by apply Forall_cons.
Qed.

Lemma lock_in_replace l1 lk lk' l2 chunk c :
  lk_chunk lk = chunk -> lk_chunk lk' = chunk -> c <> chunk -> lock_in (l1 ++ lk' :: l2) c = lock_in (l1 ++ lk :: l2) c.
Proof. intros H1 H2 Hc. rewrite !lock_in_app, !lock_in_cons, H1, H2. by rewrite (proj2 (Z.eqb_neq _ _)) by done. Qed.

(** The rule for [readlock_chunk] *)
Lemma readlock_chunk_spec chunk c sv open :
  locks_ok sv open ->
  wp (readlock_chunk chunk c) (fun _ sv' => locks_ok sv' open /\
    lock_at sv' chunk = Some (match lock_at sv chunk with Some (holds, ws) => (c :: holds, ws) | None => ([c], []) end) /\
    (forall chunk', chunk' <> chunk -> lock_at sv' chunk' = lock_at sv chunk') /\
    exists t, sv' = sv <| snaplocks := t |>) sv.
Proof.
  intros [Ht Hp]. unfold readlock_chunk. wp_steps. apply bucket_of_run; [done|]. intros l Hl.
  pose proof (to_buckets _ Ht _ _ Hl) as Hbk. unfold set_bucket. pose proof (find_snaplock_split l chunk) as Hf.
  assert (Hat : lock_at sv chunk = lock_in l chunk) by (unfold lock_at; by rewrite Hl).
  assert (Hgoal : forall l', bucket_ok (hash_bits sv) (bin_of sv chunk) l' ->
    (forall c, c <> chunk -> lock_in l' c = lock_in l c) ->
    lock_in l' chunk = Some (match lock_in l chunk with Some (holds, ws) => (c :: holds, ws) | None => ([c], []) end) ->
    (forall p, occ p (bucket_waits l') = occ p (bucket_waits l)) ->
    let sv' := sv <| snaplocks ::= insert (bin_of sv chunk) l' |> in
    locks_ok sv' open /\
    lock_at sv' chunk = Some (match lock_at sv chunk with Some (holds, ws) => (c :: holds, ws) | None => ([c], []) end) /\
    (forall chunk', chunk' <> chunk -> lock_at sv' chunk' = lock_at sv chunk') /\
    exists t, sv' = sv <| snaplocks := t |>).
  { intros l' Hbk' Hoth Hthis Hw sv'. pose proof (lock_at_set sv sv' chunk l l' eq_refl eq_refl Hl Hoth) as Hla. split_and!.
    - split; [by eapply table_ok_set|]. eapply pend_ok_same; [done..|]. intros p. unfold waits. cbn.
      rewrite (all_waits_set _ _ l) by done. rewrite Hw. lia.
    - by rewrite Hla, Z.eqb_refl, Hat.
    - intros c' Hc'. by rewrite Hla, (proj2 (Z.eqb_neq _ _)).
    - by exists (<[bin_of sv chunk := l']> (snaplocks sv)). }
  destruct (find_snaplock l chunk) as [i|].
  - destruct Hf as (l1 & lk & l2 & -> & -> & Hc & Hne & Hin). rewrite alter_length. wp_steps. apply Hgoal.
    + by apply (bucket_ok_replace _ _ _ lk).
    + intros c' Hc'. by apply (lock_in_replace _ _ _ _ chunk).
    + rewrite Hin, lock_in_app, lock_in_none, lock_in_cons by done. cbn. by rewrite (proj2 (Z.eqb_eq _ _) Hc).
    + intros p. by rewrite !bucket_waits_app, !bucket_waits_cons.
  - destruct Hf as [Hin Hne]. cbn [alter list_alter]. wp_steps. apply Hgoal.
    + destruct Hbk as [Hh Hn Hnh]. constructor; [by constructor| |by constructor]. cbn. apply NoDup_cons. split; [|done].
      intros (lk & E & Hlk)%list_elem_of_fmap. rewrite Forall_forall in Hne. by apply (Hne lk).
    + intros c' Hc'. rewrite lock_in_cons. cbn. by rewrite (proj2 (Z.eqb_neq _ _)) by done.
    + rewrite Hin, lock_in_cons. cbn. by rewrite Z.eqb_refl.
    + intros p. by rewrite bucket_waits_cons.
Qed.

(** C26: [readlock_chunk] adds the client to the holders of the chunk's lock, which
    is made when there is none; the locks of the other chunks, the waiting writes
    and everything else stay as they are, and the table stays well formed. *)
Theorem readlock_chunk_correct chunk c sv open :
  locks_ok sv open ->
  wp (readlock_chunk chunk c) (fun _ sv' => locks_ok sv' open /\
    lock_at sv' chunk = Some (match lock_at sv chunk with Some (holds, ws) => (c :: holds, ws) | None => ([c], []) end) /\
    (forall chunk', chunk' <> chunk -> lock_at sv' chunk' = lock_at sv chunk') /\
    exists t, sv' = sv <| snaplocks := t |>) sv.
Proof. apply readlock_chunk_spec. Qed.

(** The state after the table, one pending write and the next name changed. *)
Lemma pend_ok_put sv sv' open p pd :
  pend_ok sv open -> pendings sv' = <[p := pd]> (pendings sv) -> next_pending sv <= next_pending sv' -> p < next_pending sv' ->
  (open = None \/ open = Some p) -> holdcount pd = waits sv' p + 1 ->
  (forall q, q <> p -> waits sv' q = waits sv q) -> pend_ok sv' (Some p).
Proof.
  intros [H1 H2 H3 H4 H5] Ep En Hlt Ho Hc Hw. constructor; rewrite ?Ep.
  - intros q qd Hq. apply lookup_insert_Some in Hq as [[<- <-]|[Hne Hq]]; [by rewrite decide_True|].
    rewrite decide_False, Hw by congruence. rewrite (H1 q qd Hq). f_equal. case_decide as E; [|done]. destruct Ho; congruence.
  - intros q Hq. destruct (decide (p = q)) as [<-|Hne]; [by rewrite lookup_insert_eq|]. rewrite lookup_insert_ne by done.
    rewrite Hw in Hq by done. auto.
  - intros q [= <-]. by rewrite lookup_insert_eq.
  - intros q qd Hq Hne. assert (p <> q) by congruence. rewrite lookup_insert_ne in Hq by done. rewrite Hw by done.
    apply (H4 q qd Hq). destruct Ho; congruence.
  - intros q Hq. rewrite lookup_insert_ne by lia. apply H5. lia.
Qed.

(** The pending structure that a wait uses: the open one or a new one, with one
    more hold. *)
Lemma wait_entry sv open bin (f : Z -> list snaplock) :
  pend_ok sv open -> (forall p, open = Some p -> waits sv p < 2 ^ 32 - 2) ->
  exists p pd next, (open = Some p \/ open = None /\ pendings sv !! p = None) /\ holdcount pd = waits sv p + 2 /\
    next_pending sv <= next /\ p < next /\
    wp (p ← match open with Some p => mret p | None => new_pending end;
        set_bucket bin (f p);; upd_pending p (fun pd => pd <| holdcount ::= fun n => u32 (n + 1) |>);; mret (Some p))
      (fun r sv' => r = Some p /\
         sv' = sv <| snaplocks ::= insert bin (f p) |> <| pendings ::= insert p pd |> <| next_pending := next |>) sv.
Proof.
  intros Hp Hmax. destruct open as [p|].
  - destruct (po_open _ _ Hp p eq_refl) as [pd Hpd]. pose proof (po_count _ _ Hp p pd Hpd) as Hc.
    rewrite decide_True in Hc by done. specialize (Hmax p eq_refl).
    pose proof (occ_nonneg p (all_waits (snaplocks sv))) as Hpos. fold (waits sv p) in Hpos.
    exists p, (pd <| holdcount ::= fun n => u32 (n + 1) |>), (next_pending sv). split_and!; [by left| |lia| |].
    + cbn. rewrite u32_id; unfold is_u32; lia.
    + destruct (decide (p < next_pending sv)) as [|Hge]; [done|]. rewrite (po_fresh _ _ Hp) in Hpd by lia. done.
    + unfold set_bucket, upd_pending, get_pending. wp_steps.
      change (pendings (sv <| snaplocks ::= insert bin (f p) |>)) with (pendings sv). rewrite Hpd. wp_steps.
      split; [done|]. by destruct sv.
  - set (p := next_pending sv). assert (Hw : waits sv p = 0).
    { destruct (decide (0 < waits sv p)) as [Hpos|]; [|pose proof (occ_nonneg p (all_waits (snaplocks sv))); unfold waits in *; lia].
      destruct (po_dom _ _ Hp _ Hpos) as [pd Hpd]. by rewrite (po_fresh _ _ Hp) in Hpd. }
    exists p, (mkPending 2 None (mkMessage 0 [])), (p + 1). split_and!; [|cbn; lia|lia|lia|].
    + right. split; [done|]. apply (po_fresh _ _ Hp). lia.
    + unfold new_pending, set_bucket, upd_pending, get_pending. wp_steps. fold p.
      change (pendings _) with (<[p := mkPending 1 None (mkMessage 0 [])]> (pendings sv)) at 1.
      rewrite lookup_insert_eq. wp_steps. split; [done|]. unfold set. cbv beta. cbn [sv_world snaplocks pendings next_pending
        clients next_client clientvec sent holdcount pd_client pd_message]. by rewrite insert_insert_eq.
Qed.

(** The rule for [waitfor_chunk] *)
Lemma waitfor_chunk_spec chunk sv open :
  locks_ok sv open -> (forall p, open = Some p -> waits sv p < 2 ^ 32 - 2) ->
  wp (waitfor_chunk chunk open) (fun r sv' =>
    match lock_at sv chunk with
    | None => r = open /\ sv' = sv
    | Some (holds, ws) => exists p, r = Some p /\ (open = Some p \/ open = None /\ pendings sv !! p = None) /\
        locks_ok sv' (Some p) /\ lock_at sv' chunk = Some (holds, p :: ws) /\
        (forall chunk', chunk' <> chunk -> lock_at sv' chunk' = lock_at sv chunk') /\
        waits sv' p = waits sv p + 1 /\ (forall q, q <> p -> waits sv' q = waits sv q) /\
        (forall q, q <> p -> pendings sv' !! q = pendings sv !! q) /\
        sent sv' = sent sv /\ clients sv' = clients sv /\ sv_world sv' = sv_world sv
    end) sv.
Proof.
  intros [Ht Hp] Hmax. unfold waitfor_chunk. apply wp_bind, bucket_of_run; [done|]. intros l Hl.
  pose proof (to_buckets _ Ht _ _ Hl) as Hbk. pose proof (find_snaplock_split l chunk) as Hf.
  assert (Hat : lock_at sv chunk = lock_in l chunk) by (unfold lock_at; by rewrite Hl).
  rewrite Hat. destruct (find_snaplock l chunk) as [i|]; [|destruct Hf as [-> _]; by wp_steps].
  destruct Hf as (l1 & lk & l2 & -> & -> & Hc & Hne & ->). cbn [info].
  destruct (wait_entry sv open (bin_of sv chunk) (fun p => alter (fun lk => lk <| waitlist ::= cons p |>) (length l1) (l1 ++ lk :: l2)) Hp Hmax)
    as (p & pd & next & Ho & Hpd & Hn & Hlt & Hrun).
  eapply wp_mono; [exact Hrun|]. cbv beta. intros r sv' [-> Esv]. rewrite alter_length in Esv.
  set (l' := l1 ++ lk <| waitlist ::= cons p |> :: l2) in *.
  assert (Hw : forall q, waits sv' q = waits sv q + if decide (q = p) then 1 else 0).
  { intros q. unfold waits. rewrite Esv. cbn. rewrite (all_waits_set _ _ _ _ _ Hl). unfold l'.
    rewrite !bucket_waits_app, !bucket_waits_cons, !occ_app. cbn [waitlist set]. cbn. rewrite occ_cons. lia. }
  assert (Hla : forall c, lock_at sv' c = if c =? chunk then lock_in l' chunk else lock_at sv c).
  { apply (lock_at_set sv sv' chunk (l1 ++ lk :: l2)); [by rewrite Esv|by rewrite Esv|done|].
    intros c Hne'. by apply (lock_in_replace _ _ _ _ chunk). }
  exists p. split_and!; try (by rewrite Esv); [done|done| | | | | |].
  - split.
    + eapply (table_ok_set sv sv' (bin_of sv chunk) l'); [done|by rewrite Esv|by rewrite Esv|].
      apply (bucket_ok_replace _ _ _ lk); [done|done|].
      apply bucket_ok_app in Hbk as (_ & [_ _ Hh] & _). by apply Forall_cons in Hh as [? _].
    + eapply (pend_ok_put sv sv' open p pd); [done|by rewrite Esv|by rewrite Esv|by rewrite Esv| | |].
      * destruct Ho as [?|[? _]]; auto.
      * rewrite Hw, decide_True by done. lia.
      * intros q Hq. rewrite Hw, decide_False by done. lia.
  - rewrite Hla, Z.eqb_refl. unfold l'. rewrite lock_in_app, lock_in_none, lock_in_cons by done. cbn.
    by rewrite (proj2 (Z.eqb_eq _ _) Hc).
  - intros c Hc'. by rewrite Hla, (proj2 (Z.eqb_neq _ _)).
  - rewrite Hw. by rewrite decide_True.
  - intros q Hq. rewrite Hw, decide_False by done. lia.
  - intros q Hq. rewrite Esv. cbn. by rewrite lookup_insert_ne.
Qed.

(** C25: [waitfor_chunk] makes a write wait for the lock of a chunk: without a lock
    nothing changes; with one the write joins the waiting list of that lock and of
    no other, its hold count stays the number of its waits and one, and a pending
    structure is made when the write has none yet. *)
Theorem waitfor_chunk_correct chunk sv open :
  locks_ok sv open -> (forall p, open = Some p -> waits sv p < 2 ^ 32 - 2) ->
  wp (waitfor_chunk chunk open) (fun r sv' =>
    match lock_at sv chunk with
    | None => r = open /\ sv' = sv
    | Some (holds, ws) => exists p, r = Some p /\ (open = Some p \/ open = None /\ pendings sv !! p = None) /\
        locks_ok sv' (Some p) /\ lock_at sv' chunk = Some (holds, p :: ws) /\
        (forall chunk', chunk' <> chunk -> lock_at sv' chunk' = lock_at sv chunk') /\
        waits sv' p = waits sv p + 1 /\ (forall q, q <> p -> waits sv' q = waits sv q) /\
        (forall q, q <> p -> pendings sv' !! q = pendings sv !! q) /\
        sent sv' = sent sv /\ clients sv' = clients sv /\ sv_world sv' = sv_world sv
    end) sv.
Proof. apply waitfor_chunk_spec. Qed.

(** ** Releasing *)

(** Where the answer of a pending write goes, and the answer *)
Definition reply_of (sv : server) (p : Z) : Z * message :=
  match pendings sv !! p with
  | Some pd => (default 0 (cl_sock <$> (pd_client pd ≫= fun c => clients sv !! c)), pd_message pd)
  | None => (0, mkMessage 0 [])
  end.

(** The client of a pending write is still connected. *)
Definition answerable (sv : server) (pd : pending) : Prop :=
  exists c cl, pd_client pd = Some c /\ clients sv !! c = Some cl.

Lemma occ_zero x l : occ x l = 0 -> x ∉ l.
Proof. intros H Hx%occ_elem. lia. Qed.

Section release.
(** The waits that remain when the waiters of a lock are released *)
Context (W0 : Z -> Z) (W0_pos : forall p, 0 <= W0 p).

(** [l] are the waiters still to be released. *)
Record waiting (sv : server) (l : list Z) : Prop := {
  wt_count : forall p pd, pendings sv !! p = Some pd -> holdcount pd = W0 p + occ p l;
  wt_client : forall p pd, pendings sv !! p = Some pd -> p ∈ l -> answerable sv pd;
  wt_dom : forall p, p ∈ l -> is_Some (pendings sv !! p) }.

Definition settle (done : list Z) (p : Z) (pd : pending) : option pending :=
  if decide (p ∈ done) then None else Some (pd <| holdcount := W0 p |>).

(** [done] are the writes that were answered. *)
Record answered (sv sv' : server) (l done : list Z) : Prop := {
  an_nodup : NoDup done;
  an_done : forall p, p ∈ done <-> p ∈ l /\ W0 p = 0;
  an_pendings : forall p, pendings sv' !! p = pendings sv !! p ≫= settle done p;
  an_sent : sent sv' = sent sv ++ (reply_of sv <$> done);
  an_rest : exists m t, sv' = sv <| pendings := m |> <| sent := t |> }.

Lemma upd_pending_run p pd f sv (Q : unit -> server -> Prop) :
  pendings sv !! p = Some pd -> Q tt (sv <| pendings ::= insert p (f pd) |>) -> wp (upd_pending p f) Q sv.
Proof. intros Hp HQ. unfold upd_pending, get_pending. wp_steps. rewrite Hp. by wp_steps. Qed.

(** One waiter: its write is answered when this was the last wait. *)
Lemma release_waiter_run p l sv :
  waiting sv (p :: l) ->
  wp (release_waiter p) (fun _ sv1 => waiting sv1 l /\ exists pd, pendings sv !! p = Some pd /\
    if decide (W0 p + occ p l = 0)
    then sv1 = sv <| pendings ::= delete p |> <| sent ::= fun s => s ++ [reply_of sv p] |>
    else sv1 = sv <| pendings ::= insert p (pd <| holdcount := W0 p + occ p l |>) |>) sv.
Proof.
  intros [Hc Hcl Hd]. destruct (Hd p) as [pd Hpd]; [by left|].
  pose proof (Hc p pd Hpd) as Hh. rewrite occ_cons, decide_True in Hh by done. pose proof (W0_pos p). pose proof (occ_nonneg p l).
  destruct (Hcl p pd Hpd) as (c & cl & Ec & Ecl); [by left|].
  unfold release_waiter, get_pending. wp_steps. rewrite Hpd. wp_steps. { apply negb_true_iff, Z.eqb_neq. lia. }
  eapply upd_pending_run; [done|]. replace (holdcount pd - 1) with (W0 p + occ p l) by lia.
  destruct (decide (W0 p + occ p l = 0)) as [E0|E0].
  - rewrite (proj2 (Z.eqb_eq _ _) E0). rewrite Ec. unfold get_client, send. wp_steps.
    match goal with |- context [clients ?x !! c] => change (clients x) with (clients sv) end. rewrite Ecl. wp_steps. split.
    + constructor; cbn; intros q.
      * intros qd Hq. rewrite delete_insert_eq in Hq. apply lookup_delete_Some in Hq as [Hne Hq].
        rewrite (Hc q qd Hq), occ_cons, decide_False by done. lia.
      * intros qd Hq Hin. rewrite delete_insert_eq in Hq. apply lookup_delete_Some in Hq as [Hne Hq].
        apply (Hcl q qd Hq). by right.
      * intros Hin. destruct (decide (q = p)) as [->|Hne]; [apply occ_elem in Hin; lia|].
        rewrite delete_insert_eq, lookup_delete_ne by done. apply Hd. by right.
    + exists pd. split; [done|]. unfold reply_of. rewrite Hpd, Ec. cbn [mbind option_bind fmap option_fmap option_map].
      rewrite Ecl. unfold set. cbn. by rewrite delete_insert_eq.
  - rewrite (proj2 (Z.eqb_neq _ _) E0). wp_steps. split.
    + constructor; cbn; intros q.
      * intros qd Hq. apply lookup_insert_Some in Hq as [[<- <-]|[Hne Hq]]; [done|].
        rewrite (Hc q qd Hq), occ_cons, decide_False by done. lia.
      * intros qd Hq Hin. apply lookup_insert_Some in Hq as [[<- <-]|[Hne Hq]]; [by exists c, cl|].
        apply (Hcl q qd Hq). by right.
      * intros Hin. destruct (decide (p = q)) as [<-|Hne]; [by rewrite lookup_insert_eq|].
        rewrite lookup_insert_ne by done. apply Hd. by right.
    + by exists pd.
Qed.

Lemma settle_id p pd : holdcount pd = W0 p -> settle [] p pd = Some pd.
Proof. intros H. unfold settle. rewrite decide_False by apply not_elem_of_nil. rewrite <- H. by destruct pd. Qed.

Lemma reply_of_same sv sv1 p pd pd1 :
  pendings sv !! p = Some pd -> pendings sv1 !! p = Some pd1 -> pd_client pd1 = pd_client pd ->
  pd_message pd1 = pd_message pd -> clients sv1 = clients sv -> reply_of sv1 p = reply_of sv p.
Proof. intros H H1 Ec Em E. unfold reply_of. by rewrite H, H1, Ec, Em, E. Qed.

(** The step of the loop: the write of [p] was the last wait, or not. *)
Lemma answered_last sv sv1 sv2 p l done :
  waiting sv (p :: l) -> W0 p + occ p l = 0 ->
  sv1 = sv <| pendings ::= delete p |> <| sent ::= fun s => s ++ [reply_of sv p] |> ->
  answered sv1 sv2 l done -> answered sv sv2 (p :: l) (p :: done).
Proof.
  intros Hwt E0 -> [Hnd Hdone Hpend Hsent (m & t & ->)]. pose proof (W0_pos p). pose proof (occ_nonneg p l).
  assert (Hp : p ∉ l) by (apply occ_zero; lia). constructor.
  - apply NoDup_cons. split; [|done]. intros Hin. by apply Hdone in Hin as [? _].
  - intros q. rewrite !elem_of_cons, Hdone. split; [|tauto]. intros [->|[? ?]]; [|tauto]. split; [by left|lia].
  - intros q. rewrite Hpend. cbn [pendings set]. destruct (decide (q = p)) as [->|Hne]; cbn.
    + rewrite lookup_delete_eq. cbn. destruct (pendings sv !! p); cbn; [|done]. unfold settle. by rewrite decide_True by by left.
    + rewrite lookup_delete_ne by done. destruct (pendings sv !! q); cbn; [|done]. unfold settle.
      by rewrite (decide_ext (q ∈ p :: done) (q ∈ done)) by (rewrite elem_of_cons; tauto).
  - rewrite Hsent. cbn [sent set]. cbn. rewrite <- app_assoc. cbn. do 2 f_equal. apply list_fmap_ext. intros i q Hq.
    apply list_elem_of_lookup_2 in Hq. apply Hdone in Hq as [Hq _].
    assert (q <> p) by congruence. unfold reply_of. cbn. by rewrite lookup_delete_ne.
  - eexists _, _. reflexivity.
Qed.

Lemma answered_more sv sv1 sv2 p pd l done :
  waiting sv (p :: l) -> pendings sv !! p = Some pd -> W0 p + occ p l <> 0 ->
  sv1 = sv <| pendings ::= insert p (pd <| holdcount := W0 p + occ p l |>) |> ->
  answered sv1 sv2 l done -> answered sv sv2 (p :: l) done.
Proof.
  intros Hwt Hpd E0 -> [Hnd Hdone Hpend Hsent (m & t & ->)]. pose proof (W0_pos p). constructor.
  - done.
  - intros q. rewrite Hdone, elem_of_cons. split; [tauto|]. intros [[->|?] Hz]; [|done]. split; [|done].
    destruct (decide (p ∈ l)) as [|Hn]; [done|]. exfalso. apply E0. rewrite Hz.
    pose proof (occ_not p l Hn). lia.
  - intros q. rewrite Hpend. cbn [pendings set]. destruct (decide (p = q)) as [<-|Hne]; cbn.
    + rewrite lookup_insert_eq, Hpd. done.
    + by rewrite lookup_insert_ne.
  - rewrite Hsent. cbn. f_equal. apply list_fmap_ext. intros i q Hq. destruct (decide (p = q)) as [<-|Hne].
    + eapply reply_of_same; [done|cbn; apply lookup_insert_eq|done..].
    + unfold reply_of. cbn. by rewrite lookup_insert_ne.
  - eexists _, _. reflexivity.
Qed.

Lemma release_waiters_run l sv :
  waiting sv l ->
  wp (foreach l release_waiter) (fun _ sv' => exists done, answered sv sv' l done) sv.
Proof.
  revert sv. induction l as [|p l IH]; intros sv Hwt; cbn [foreach].
  - cbn. exists []. constructor; [constructor|..].
    + intros p. rewrite elem_of_nil. tauto.
    + intros p. destruct (pendings sv !! p) as [pd|] eqn:E; cbn; [|done]. rewrite settle_id; [done|].
      rewrite (wt_count _ _ Hwt p pd E), occ_nil. lia.
    + by rewrite app_nil_r.
    + exists (pendings sv), (sent sv). by destruct sv.
  - change (wp (release_waiter p ≫= fun _ => foreach l release_waiter) (fun _ sv' => exists done, answered sv sv' (p :: l) done) sv).
    apply wp_bind. eapply wp_mono; [by apply release_waiter_run|]. cbv beta. intros _ sv1 (Hwt1 & pd & Hpd & E).
    eapply wp_mono; [by apply IH|]. cbv beta. intros _ sv2 (done & Ha).
    destruct (decide (W0 p + occ p l = 0)).
    + exists (p :: done). by eapply answered_last.
    + exists done. by eapply answered_more.
Qed.
End release.

Lemma remove_hold_spec c l :
  match remove_hold c l with
  | None => c ∉ l
  | Some l' => exists h1 h2, l = h1 ++ c :: h2 /\ l' = h1 ++ h2 /\ c ∉ h1
  end.
Proof.
  induction l as [|x l IH]; cbn; [apply not_elem_of_nil|]. destruct (Z.eqb_spec x c) as [->|Hne].
  - exists [], l. split_and!; [done..|apply not_elem_of_nil].
  - destruct (remove_hold c l) as [l'|]; cbn.
    + destruct IH as (h1 & h2 & -> & -> & Hn). exists (x :: h1), h2. split_and!; [done..|]. rewrite not_elem_of_cons. by split.
    + rewrite not_elem_of_cons. by split.
Qed.

(** The locks before and after the lock of [chunk] in its bucket do not have
    that chunk. *)
Lemma lock_in_remove bits bin l1 lk l2 c :
  bucket_ok bits bin (l1 ++ lk :: l2) ->
  lock_in (l1 ++ l2) c = if c =? lk_chunk lk then None else lock_in (l1 ++ lk :: l2) c.
Proof.
  intros [_ Hnd _]. rewrite fmap_app, fmap_cons in Hnd. apply NoDup_app in Hnd as (_ & Hd & [Hn2 _]%NoDup_cons).
  destruct (Z.eqb_spec c (lk_chunk lk)) as [->|Hne].
  - apply lock_in_none, Forall_app. split; apply Forall_forall; intros x Hx E.
    + apply (Hd (lk_chunk x)); [by apply list_elem_of_fmap_2|]. rewrite E. by left.
    + apply Hn2. rewrite <- E. by apply list_elem_of_fmap_2.
  - rewrite !lock_in_app, lock_in_cons. by rewrite (proj2 (Z.eqb_neq _ _)) by done.
Qed.

Lemma bucket_ok_remove bits bin l1 lk l2 : bucket_ok bits bin (l1 ++ lk :: l2) -> bucket_ok bits bin (l1 ++ l2).
Proof.
  intros [Hh Hn Hne]. constructor.
  - apply Forall_app in Hh as [? [_ ?]%Forall_cons]. by apply Forall_app.
  - rewrite fmap_app, fmap_cons in Hn. rewrite fmap_app. apply NoDup_app in Hn as (? & Hd & [? ?]%NoDup_cons).
    apply NoDup_app. split_and!; [done| |done]. intros x Hx Hx2. apply (Hd x Hx). by right.
  - apply Forall_app in Hne as [? [_ ?]%Forall_cons]. by apply Forall_app.
Qed.

(** The answered writes are gone, the others wait for what is left. *)
Lemma pend_ok_answered W0 sv sv1 sv' ws done :
  pend_ok sv None -> (forall p, waits sv p = W0 p + occ p ws) -> (forall p, waits sv' p = W0 p) ->
  answered W0 sv sv1 ws done ->
  pendings sv' = pendings sv1 -> next_pending sv' = next_pending sv1 -> pend_ok sv' None.
Proof.
  intros [H1 H2 _ H4 H5] Hw0 Hw' [_ Hdone0 Hpend _ (m & t & E1)] Ep En.
  assert (Hw : forall p, waits sv p = waits sv' p + occ p ws) by (intros p; by rewrite Hw').
  assert (Hdone : forall p, p ∈ done <-> p ∈ ws /\ waits sv' p = 0) by (intros p; rewrite Hw'; apply Hdone0).
  assert (Hcase : forall p pd, pendings sv' !! p = Some pd -> exists pd0, pendings sv !! p = Some pd0 /\
    ~ (p ∈ ws /\ waits sv' p = 0) /\ pd = pd0 <| holdcount := waits sv' p |>).
  { intros p pd. rewrite Ep, Hpend. destruct (pendings sv !! p) as [pd0|]; cbn; [|done]. unfold settle. case_decide as Hd; [done|].
    rewrite <- Hw'. intros [= <-]. exists pd0. split_and!; [done| |done]. intros Hin. by apply Hd, Hdone. }
  constructor.
  - intros p pd (pd0 & _ & _ & ->)%Hcase. cbn. by rewrite decide_False, Z.add_0_r.
  - intros p Hp. destruct (H2 p) as [pd0 Hpd0]; [rewrite Hw; pose proof (occ_nonneg p ws); lia|].
    rewrite Ep, Hpend, Hpd0. cbn. unfold settle. rewrite decide_False; [by eexists|]. intros Hin. apply Hdone in Hin. lia.
  - done.
  - intros p pd (pd0 & Hpd0 & Hnd & ->)%Hcase _. destruct (H4 p pd0 Hpd0) as [Hpos Hcl]; [done|]. split; [|done].
    destruct (decide (p ∈ ws)) as [Hin|Hn].
    + pose proof (occ_nonneg p (all_waits (snaplocks sv'))) as Hnn. fold (waits sv' p) in Hnn.
      assert (waits sv' p <> 0) by tauto. lia.
    + rewrite Hw, (occ_not p ws Hn) in Hpos. lia.
  - intros p Hp. rewrite Ep, Hpend. rewrite H5; [done|]. rewrite En, E1 in Hp. exact Hp.
Qed.

(** The state after a release: nothing but the table, the pending writes and the
    messages changed, and of the table only the lock of [chunk]. *)
Lemma released_locks sv sv2 chunk l l' :
  table_ok sv -> snaplocks sv !! bin_of sv chunk = Some l -> bucket_ok (hash_bits sv) (bin_of sv chunk) l' ->
  (forall c, c <> chunk -> lock_in l' c = lock_in l c) ->
  (exists m t, sv2 = sv <| pendings := m |> <| sent := t |> <| snaplocks ::= insert (bin_of sv chunk) l' |>) ->
  table_ok sv2 /\ lock_at sv2 chunk = lock_in l' chunk /\
  (forall chunk', chunk' <> chunk -> lock_at sv2 chunk' = lock_at sv chunk') /\
  clients sv2 = clients sv /\ sv_world sv2 = sv_world sv.
Proof.
  intros Ht Hl Hbk Ho (m & t & ->).
  set (sv2 := sv <| pendings := m |> <| sent := t |> <| snaplocks ::= insert (bin_of sv chunk) l' |>).
  assert (Hla : forall c, lock_at sv2 c = if c =? chunk then lock_in l' chunk else lock_at sv c).
  { by apply (lock_at_set sv sv2 chunk l l'). }
  split; [by eapply table_ok_set|]. split; [by rewrite Hla, Z.eqb_refl|]. split; [|done].
  intros c Hc. by rewrite Hla, (proj2 (Z.eqb_neq _ _)).
Qed.

(** The last hold goes: the waiters are released. *)
Lemma release_last sv chunk l1 lk l2 :
  locks_ok sv None -> snaplocks sv !! bin_of sv chunk = Some (l1 ++ lk :: l2) -> lk_chunk lk = chunk ->
  (forall p pd, p ∈ waitlist lk -> pendings sv !! p = Some pd -> answerable sv pd) ->
  wp (foreach (waitlist lk) release_waiter;; set_bucket (bin_of sv chunk) (l1 ++ l2)) (fun _ sv' => locks_ok sv' None /\
    (forall chunk', chunk' <> chunk -> lock_at sv' chunk' = lock_at sv chunk') /\
    clients sv' = clients sv /\ sv_world sv' = sv_world sv /\
    lock_at sv' chunk = None /\ exists done, NoDup done /\
      (forall p, p ∈ done <-> p ∈ waitlist lk /\ waits sv' p = 0) /\ (forall p, p ∈ done -> pendings sv' !! p = None) /\
      sent sv' = sent sv ++ (reply_of sv <$> done)) sv.
Proof.
  intros [Ht Hp] Hl Ech Hans. pose proof (to_buckets _ Ht _ _ Hl) as Hbk.
  set (W0 := fun p => occ p (all_waits (<[bin_of sv chunk := l1 ++ l2]> (snaplocks sv)))).
  assert (Hw : forall p, waits sv p = W0 p + occ p (waitlist lk)).
  { intros p. unfold waits, W0. rewrite (all_waits_set _ _ _ _ _ Hl), !bucket_waits_app, bucket_waits_cons, !occ_app. lia. }
  apply wp_bind. eapply wp_mono.
  { apply (release_waiters_run W0 (fun p => occ_nonneg p _)). constructor.
    - intros p pd Hpd. rewrite (po_count _ _ Hp p pd Hpd), Hw, decide_False by done. lia.
    - intros p pd Hpd Hin'. by apply (Hans p pd).
    - intros p Hin'%occ_elem. apply (po_dom _ _ Hp). rewrite Hw. pose proof (occ_nonneg p (all_waits (<[bin_of sv chunk := l1 ++ l2]> (snaplocks sv)))).
      unfold W0. lia. }
  cbv beta. intros _ sv1 (done & Ha). unfold set_bucket. wp_steps.
  set (sv2 := sv1 <| snaplocks ::= insert (bin_of sv chunk) (l1 ++ l2) |>).
  destruct (an_rest _ _ _ _ _ Ha) as (m & t & E1).
  assert (Ew : forall p, waits sv2 p = W0 p) by (intros p; unfold sv2; by rewrite E1).
  destruct (released_locks sv sv2 chunk (l1 ++ lk :: l2) (l1 ++ l2)) as (Ht2 & Hla & Ho & Hcl & Hsw); try done.
  - by eapply bucket_ok_remove.
  - intros c' Hc'. rewrite (lock_in_remove _ _ _ _ _ c' Hbk), Ech. by rewrite (proj2 (Z.eqb_neq _ _)) by done.
  - exists m, t. unfold sv2. by rewrite E1.
  - split; [split; [done|by eapply (pend_ok_answered W0 sv sv1 sv2)]|]. split_and!; [done..| |].
    + rewrite Hla, (lock_in_remove _ _ _ _ _ chunk Hbk), Ech. by rewrite Z.eqb_refl.
    + exists done. split; [apply Ha|]. split; [|split; [|apply Ha]].
      * intros p. rewrite Ew. apply (an_done _ _ _ _ _ Ha).
      * intros p Hd. change (pendings sv2) with (pendings sv1). rewrite (an_pendings _ _ _ _ _ Ha).
        destruct (pendings sv !! p); cbn; [|done]. unfold settle. by rewrite decide_True.
Qed.

(** C17: [release_chunk] by a client that holds the chunk's lock drops one of its
    holds.  When other holds remain nothing else happens.  When it was the last
    one the lock goes away, and exactly the writes that waited for it and now
    wait for nothing are answered, each once, with the answer that was kept for
    them; the writes that still wait for another lock stay pending.  The locks
    of the other chunks are not touched and the table stays well formed. *)
Theorem release_chunk_correct chunk c sv holds ws :
  locks_ok sv None -> lock_at sv chunk = Some (holds, ws) -> c ∈ holds ->
  (forall p pd, p ∈ ws -> pendings sv !! p = Some pd -> answerable sv pd) ->
  wp (release_chunk chunk c) (fun _ sv' => locks_ok sv' None /\
    (forall chunk', chunk' <> chunk -> lock_at sv' chunk' = lock_at sv chunk') /\
    clients sv' = clients sv /\ sv_world sv' = sv_world sv /\
    exists h1 h2, holds = h1 ++ c :: h2 /\ (c ∉ h1) /\
    if decide (h1 ++ h2 = []) then
      lock_at sv' chunk = None /\ exists done, NoDup done /\
        (forall p, p ∈ done <-> p ∈ ws /\ waits sv' p = 0) /\ (forall p, p ∈ done -> pendings sv' !! p = None) /\
        sent sv' = sent sv ++ (reply_of sv <$> done)
    else lock_at sv' chunk = Some (h1 ++ h2, ws) /\ sent sv' = sent sv /\ pendings sv' = pendings sv) sv.
Proof.
  intros [Ht Hp] Hlk Hc Hans. unfold release_chunk. apply wp_bind, bucket_of_run; [done|]. intros l Hl.
  pose proof (to_buckets _ Ht _ _ Hl) as Hbk. pose proof (find_snaplock_split l chunk) as Hf.
  unfold lock_at in Hlk. rewrite Hl in Hlk. cbn in Hlk.
  destruct (find_snaplock l chunk) as [i|]; [|destruct Hf; congruence].
  destruct Hf as (l1 & lk & l2 & -> & -> & Ech & Hne & Hin). rewrite Hin in Hlk. injection Hlk as <- <-.
  rewrite list_lookup_middle by done. rewrite drop_app_ge, Nat.sub_succ_l, Nat.sub_diag by lia. cbn [drop]. rewrite ?drop_0.
  rewrite take_app_le, take_ge by lia. unfold release_lock. pose proof (remove_hold_spec c (holdlist lk)) as Hrm.
  destruct (remove_hold c (holdlist lk)) as [h|]; [|done]. destruct Hrm as (h1 & h2 & Eh & -> & Hn).
  destruct (h1 ++ h2) as [|x h] eqn:E12.
  - pose proof (release_last sv chunk l1 lk l2 (conj Ht Hp) Hl Ech Hans) as Hrun.
    unfold wp, mbind, M_bind, m_bind in *. destruct (foreach (waitlist lk) release_waiter sv) as [[] sv1|]; [|done].
    cbn in *. destruct Hrun as (H1 & H2 & H3 & H4 & H5). split_and!; try done. exists h1, h2. by rewrite E12.
  - set (lk' := lk <| holdlist := x :: h |>). unfold set_bucket. wp_steps.
    set (sv2 := sv <| snaplocks ::= insert (bin_of sv chunk) (l1 ++ lk' :: l2) |>).
    destruct (released_locks sv sv2 chunk (l1 ++ lk :: l2) (l1 ++ lk' :: l2)) as (Ht2 & Hla & Ho & Hcl & Hsw); try done.
    + by apply (bucket_ok_replace _ _ _ lk).
    + intros c' Hc'. by apply (lock_in_replace _ _ _ _ chunk).
    + exists (pendings sv), (sent sv). by destruct sv.
    + split; [split; [done|]|].
      * eapply pend_ok_same; [done..|]. intros p.
        change (waits sv2 p) with (occ p (all_waits (<[bin_of sv chunk := l1 ++ lk' :: l2]> (snaplocks sv)))).
        rewrite (all_waits_set _ _ _ _ _ Hl). unfold waits.
        rewrite !bucket_waits_app, !bucket_waits_cons. change (waitlist lk') with (waitlist lk). lia.
      * split_and!; [done..|]. exists h1, h2. split; [done|]. split; [done|]. rewrite E12, decide_False by done. split; [|done].
        rewrite Hla, lock_in_app, lock_in_none, lock_in_cons by done. cbn. by rewrite (proj2 (Z.eqb_eq _ _) Ech).
Qed.

(** C38: a release by a client that does not hold the lock of the chunk, although
    others do, is not refused: the lock is lost, with every lock after it in its
    bucket, the holders are not told, and none of the waiting writes is
    answered. *)
Theorem release_chunk_stranger chunk c sv holds ws :
  locks_ok sv None -> lock_at sv chunk = Some (holds, ws) -> c ∉ holds ->
  wp (release_chunk chunk c) (fun r sv' => r = -2 /\ holds <> [] /\ lock_at sv' chunk = None /\
    sent sv' = sent sv /\ pendings sv' = pendings sv /\
    exists l1 lk l2, snaplocks sv !! bin_of sv chunk = Some (l1 ++ lk :: l2) /\ lk_chunk lk = chunk /\
      snaplocks sv' !! bin_of sv chunk = Some l1) sv.
Proof.
  intros [Ht Hp] Hlk Hc. unfold release_chunk. apply wp_bind, bucket_of_run; [done|]. intros l Hl.
  pose proof (to_buckets _ Ht _ _ Hl) as Hbk. pose proof (find_snaplock_split l chunk) as Hf.
  unfold lock_at in Hlk. rewrite Hl in Hlk. cbn in Hlk.
  destruct (find_snaplock l chunk) as [i|]; [|destruct Hf; congruence].
  destruct Hf as (l1 & lk & l2 & -> & -> & Ech & Hne & Hin). rewrite Hin in Hlk. injection Hlk as <- <-.
  rewrite list_lookup_middle by done. unfold release_lock. pose proof (remove_hold_spec c (holdlist lk)) as Hrm.
  destruct (remove_hold c (holdlist lk)) as [h|].
  { destruct Hrm as (h1 & h2 & E & _). exfalso. apply Hc. rewrite E. in_list. }
  unfold set_bucket. wp_steps. rewrite app_nil_r, take_app_le, take_ge by lia.
  pose proof (lookup_lt_Some _ _ _ Hl) as Hlt. split; [done|]. split.
  { apply bucket_ok_app in Hbk as (_ & [_ _ Hh] & _). by apply Forall_cons in Hh as [? _]. }
  split; [|split; [done|split; [done|]]].
  - unfold lock_at. cbn. change (bin_of _ chunk) with (bin_of sv chunk) at 1.
    rewrite list_lookup_insert_eq by done. cbn. by apply lock_in_none.
  - exists l1, lk, l2. split; [done|]. split; [done|]. cbn. by rewrite list_lookup_insert_eq.
Qed.

(** ** Empty tables *)

Lemma all_waits_empty n p : occ p (all_waits (replicate n [])) = 0.
Proof. unfold all_waits. induction n as [|n IH]; [done|]. exact IH. Qed.

(** The table of a server that starts *)
Lemma locks_ok_empty sv :
  0 <= hash_bits sv <= 32 -> snaplocks sv = replicate (Z.to_nat (2 ^ hash_bits sv)) [] -> pendings sv = ∅ ->
  locks_ok sv None.
Proof.
  intros Hb Hs Hp. split.
  - constructor; [done| |].
    + rewrite Hs, length_replicate. pose proof (Z.pow_pos_nonneg 2 (hash_bits sv)). lia.
    + intros bin l Hl. rewrite Hs in Hl. apply lookup_replicate in Hl as [-> _]. split; constructor.
  - constructor; rewrite ?Hp; try done.
    intros p. unfold waits. rewrite Hs, all_waits_empty. lia.
Qed.
