(* ===== verification/OriginWrite.v ===== *)
(** * A write to the origin

    The handler of [QUERY_WRITE] as a whole: every chunk is made unique, the
    copies are done and the metadata is committed before the write is answered,
    and the answer waits for the readers of the chunks. *)

From S2P Require Import Prelude Bytes State Buffer Bitmap Leaf LeafSpec LeafInv LeafView Node Alloc Journal Btree Snapshot Locks Server CacheInv CacheRoom CacheMem BitmapInv AllocInv JournalSpec MetaInv Tree TreeInsert CommitSpec CopyoutSpec Unique LockSpec.

(** ** Steps of the store inside the server *)

Lemma wp_store {A} (m : prog A) (Q : A -> server -> Prop) sv :
  wp m (fun a w' => Q a (sv <| sv_world := w' |>)) (sv_world sv) -> wp (store m) Q sv.
Proof. unfold wp, store. by destruct (m (sv_world sv)). Qed.

Lemma locks_ok_world sv w open :
  snaplock_hash_bits (sb w) = hash_bits sv -> locks_ok sv open -> locks_ok (sv <| sv_world := w |>) open.
Proof.
  intros E [[H1 H2 H3] [P1 P2 P3 P4 P5]]. split.
  - constructor; unfold hash_bits; cbn; by rewrite E.
  - by constructor.
Qed.

Lemma lock_at_world sv w chunk :
  snaplock_hash_bits (sb w) = hash_bits sv -> lock_at (sv <| sv_world := w |>) chunk = lock_at sv chunk.
Proof. intros E. unfold lock_at, bin_of, hash_bits in *. cbn. by rewrite E. Qed.

(** ** What a write needs *)

(** Buffers and free chunks for one call of [make_unique], as in [resources] *)
Record enough (w : world) : Prop := {
  en_room : ~ no_room w (3 * Z.of_nat (etree_levels (image (sb w))) + 7);
  en_disk : on_device w;
  en_bitmap : forall which, ~ bitmap_lost w which;
  en_snap : exists c, 0 <= c < chunks (asi SNAPDATA (sb w)) /\ available w SNAPDATA c;
  en_meta : exists l, NoDup l /\ (etree_levels (image (sb w)) + 3 <= length l)%nat /\
    Forall (fun c => 0 <= c < chunks (asi METADATA (sb w)) /\ available w METADATA c) l;
  en_count : MAX_NEW_METACHUNKS + 1 <= freechunks (asi METADATA (sb w)) /\ 1 <= freechunks (asi SNAPDATA (sb w)) }.

Lemma kids_blocks (P : treeP) (Q : Z -> Prop) lo hi es C F :
  (forall lo hi s C F, P lo hi s C F -> Forall Q F) -> kids P lo hi es C F -> Forall Q F.
Proof.
  intros HP. revert lo C F. induction es as [|[k s] es IH]; intros lo C F; cbn; [intros (_ & _ & ->); constructor|].
  intros (mid & C1 & C2 & F1 & F2 & _ & -> & _ & H1 & _ & Hk). apply Forall_app. split; [by eapply HP|by eapply IH].
Qed.

Lemma subtree_blocks V n lo hi s C F : subtree V n lo hi s C F -> Forall (fun x => is_Some (V x)) F.
Proof.
  revert lo hi s C F. induction n as [|n IH]; intros lo hi s C F; cbn.
  - intros (b & Hb & _ & _ & _ & ->). constructor; [by eexists|constructor].
  - intros (b & es & F' & Hb & _ & -> & Hk). constructor; [by eexists|]. by eapply kids_blocks.
Qed.

Lemma enough_resources w C F : enough w -> tree_ok w C F -> resources w F.
Proof.
  intros [H1 H2 H3 H4 H5 H6] [Ht _]. constructor; try done. intros x Hx. apply H2.
  pose proof (subtree_blocks _ _ _ _ _ _ _ Ht) as Hf. rewrite Forall_forall in Hf. by apply Hf.
Qed.

(** Every chunk of the write finds what it needs when its turn comes, and what
    was done can be committed. *)
Fixpoint write_ready (s : Z) (l : list Z) (w : world) : Prop :=
  match l with
  | [] => forall r w', finish_copyout w = Done r w' -> commit_ready w'
  | c :: l' => enough w /\ forall r w', make_unique c s w = Done r w' -> write_ready s l' w'
  end.

(** ** The loop over the chunks *)

(** The chunks [l] of a write that started in [sv0] with the entries [C0] are
    done; [open] is the pending answer, if one is needed. *)
Record writing (sv0 : server) (C0 : aleaf) (l : list Z) (sv : server) (open : option Z) (C : aleaf) (F : list Z) : Prop := {
  wr_store : store_ok (sv_world sv) C F;
  wr_org : org_data (sv_world sv) = org_data (sv_world sv0);
  wr_mask : snapmask (sb (sv_world sv)) = snapmask (sb (sv_world sv0));
  wr_fixed : fixed (sb (sv_world sv)) = fixed (sb (sv_world sv0));
  wr_values : forall n c, 0 <= n < 64 -> snap_value (sv_world sv) C n c = snap_value (sv_world sv0) C0 n c;
  wr_unique : forall c n, c ∈ l -> 0 <= n < 64 -> Z.testbit (snapmask (sb (sv_world sv0))) n = true -> is_Some (held C c n);
  wr_pend : forall p, p ∈ pending_copies (sb (sv_world sv)) -> exists c, c ∈ l /\ p.2 ∈ excs_at C c;
  wr_locks : locks_ok sv open;
  wr_open : match open with
            | None => forall c, c ∈ l -> lock_at sv0 c = None
            | Some p => (exists c, c ∈ l /\ is_Some (lock_at sv0 c)) /\ 0 < waits sv p <= Z.of_nat (length l) /\
                pendings sv0 !! p = None
            end;
  wr_wait : forall c, c ∈ l -> lock_at sv c =
    match open, lock_at sv0 c with Some p, Some (holds, ws) => Some (holds, p :: ws) | _, x => x end;
  wr_other : forall c, c ∉ l -> lock_at sv c = lock_at sv0 c;
  wr_rest : sent sv = sent sv0 /\ clients sv = clients sv0;
  wr_keep : forall q, open <> Some q -> pendings sv !! q = pendings sv0 !! q }.

Lemma fixed_hash s s' : fixed s' = fixed s -> snaplock_hash_bits s' = snaplock_hash_bits s.
Proof. intros E. exact (f_equal snd E). Qed.

(** A chunk is made unique. *)
Lemma writing_unique sv0 C0 l sv open C F c r w' C' F' :
  writing sv0 C0 l sv open C F -> c ∉ l -> made_unique (sv_world sv) C c (-1) r w' C' F' ->
  let sv' := sv <| sv_world := w' |> in
  store_ok w' C' F' /\ org_data w' = org_data (sv_world sv0) /\ snapmask (sb w') = snapmask (sb (sv_world sv0)) /\
  fixed (sb w') = fixed (sb (sv_world sv0)) /\
  (forall n c', 0 <= n < 64 -> snap_value w' C' n c' = snap_value (sv_world sv0) C0 n c') /\
  (forall c' n, c' ∈ l ++ [c] -> 0 <= n < 64 -> Z.testbit (snapmask (sb (sv_world sv0))) n = true -> is_Some (held C' c' n)) /\
  (forall p, p ∈ pending_copies (sb w') -> exists c', c' ∈ l ++ [c] /\ p.2 ∈ excs_at C' c') /\
  locks_ok sv' open /\ (forall chunk, lock_at sv' chunk = lock_at sv chunk).
Proof.
  intros [W1 W2 W3 W4 W5 W6 W7 W8 _ _ _ _ _] Hc Hmu sv'. pose proof Hmu as [M1 M2 M3 M4 [M5 _] M6 M7 M8 M9 M10 M11 M12].
  assert (Hsame : forall c', c' ∈ l -> excs_of C' c' = excs_of C c') by (intros c' Hc'; apply M11; by intros ->).
  assert (Eh : snaplock_hash_bits (sb w') = hash_bits sv) by by apply fixed_hash.
  split_and!; [done|congruence|congruence|congruence| | | | |].
  - intros n c' Hn. by rewrite M7, W5.
  - intros c' n [Hc'| ->%list_elem_of_singleton]%elem_of_app Hn Hb.
    + unfold held, exc_for. rewrite Hsame by done. by apply W6.
    + rewrite <- W3 in Hb. eapply unique_origin; [apply (tree_entries _ _ _ (so_tree _ _ _ M1))|apply (so_mask _ _ _ W1)|done|done|done].
  - intros p [Hp|Hp]%M12.
    + destruct (W7 p Hp) as (c' & Hc' & He). exists c'. split; [apply elem_of_app; by left|]. unfold excs_at. by rewrite Hsame.
    + exists c. split; [apply elem_of_app; right; by left|done].
  - by apply locks_ok_world.
  - intros chunk. by apply lock_at_world.
Qed.

(** Then the write waits for the readers of the chunk. *)
Lemma writing_step sv0 C0 l sv open C F c r w' C' F' :
  writing sv0 C0 l sv open C F -> c ∉ l -> made_unique (sv_world sv) C c (-1) r w' C' F' -> Z.of_nat (length l) < 2 ^ 31 ->
  wp (waitfor_chunk c open) (fun open' sv' => writing sv0 C0 (l ++ [c]) sv' open' C' F' /\ sv_world sv' = w')
    (sv <| sv_world := w' |>).
Proof.
  intros Hw Hc Hmu Hlen. pose proof (writing_unique _ _ _ _ _ _ _ _ _ _ _ _ Hw Hc Hmu) as (U1 & U2 & U3 & U4 & U5 & U6 & U7 & U8 & U9).
  destruct Hw as [_ _ _ _ _ _ _ _ W9 W10 W11 W12 W13]. set (sv1 := sv <| sv_world := w' |>) in *.
  assert (El : lock_at sv1 c = lock_at sv0 c) by by rewrite U9, W11.
  assert (Hin : forall x, x ∈ l ++ [c] <-> x ∈ l \/ x = c) by (intros x; by rewrite elem_of_app, list_elem_of_singleton).
  eapply wp_mono.
  { apply waitfor_chunk_spec; [done|]. intros p ->. destruct W9 as (_ & [_ Hp] & _). change (waits sv1 p) with (waits sv p). lia. }
  cbv beta. intros open' sv'. rewrite El. destruct (lock_at sv0 c) as [[holds ws]|] eqn:Ec.
  - intros (p & -> & Hp & L1 & L2 & L3 & L4 & L5 & L6 & L7 & L8 & L9).
    assert (Hwp : 0 <= waits sv1 p) by apply occ_nonneg.
    assert (Hold : waits sv1 p <= Z.of_nat (length l) /\ pendings sv0 !! p = None).
    { destruct Hp as [->|[-> Hp]]; [destruct W9 as (_ & ? & ?); split; [|done]; change (waits sv1 p) with (waits sv p); lia|].
      split; [|rewrite <- W13; done]. destruct (decide (0 < waits sv1 p)) as [Hpos|]; [|lia].
      destruct U8 as [_ Hpo]. destruct (po_dom _ _ Hpo p Hpos) as [pd Hpd]. congruence. }
    split; [|by rewrite L9]. constructor; rewrite ?L9; try done.
    + split; [exists c; split; [apply Hin; by right|by rewrite Ec]|]. rewrite length_app. cbn. split; [lia|apply Hold].
    + intros x [Hx| ->]%Hin; [|by rewrite L2, Ec]. rewrite L3 by (by intros ->). rewrite U9, W10 by done.
      destruct Hp as [->|[-> _]]; [done|]. by rewrite W9.
    + intros x Hx. rewrite L3, U9, W11; [done|intros H; apply Hx, Hin; by left|intros ->; apply Hx, Hin; by right].
    + rewrite L7, L8. exact W12.
    + intros q Hq. rewrite L6 by congruence. apply W13. destruct Hp as [->|[-> _]]; congruence.
  - intros [-> ->]. split; [|done]. constructor; try done.
    + destruct open as [p|].
      * destruct W9 as ((x & Hx & Hlx) & Hp & Hn). rewrite length_app. cbn. change (waits sv1 p) with (waits sv p).
        split; [exists x; split; [apply Hin; by left|done]|]. split; [lia|done].
      * intros x [Hx| ->]%Hin; [by apply W9|done].
    + intros x [Hx| ->]%Hin; [by rewrite U9, W10|]. rewrite El, Ec. by destruct open.
    + intros x Hx. rewrite U9, W11; [done|]. intros H. apply Hx, Hin. by left.
Qed.

Lemma origin_write_chunks_run sv0 C0 l2 l1 sv open C F :
  writing sv0 C0 l1 sv open C F -> NoDup (l1 ++ l2) -> Z.of_nat (length (l1 ++ l2)) < 2 ^ 31 ->
  Forall (fun c => 0 <= c < KEY_TOP /\ is_Some (org_data (sv_world sv0) !! c)) l2 -> write_ready (-1) l2 (sv_world sv) ->
  wp (origin_write_chunks l2 ORIGIN_WRITE_OK open) (fun r sv' => r.1 = ORIGIN_WRITE_OK /\
    exists C' F', writing sv0 C0 (l1 ++ l2) sv' r.2 C' F' /\ write_ready (-1) [] (sv_world sv')) sv.
Proof.
  revert l1 sv open C F. induction l2 as [|c l2 IH]; intros l1 sv open C F Hw Hnd Hlen Hall Hready; cbn [origin_write_chunks].
  { wp_steps. split; [done|]. exists C, F. by rewrite app_nil_r. }
  apply Forall_cons in Hall as [[Hc Horg] Hall]. cbn [write_ready] in Hready. destruct Hready as [Hen Hready].
  assert (Hcl : c ∉ l1). { apply NoDup_app in Hnd as (_ & Hd & _). intros H. apply (Hd c H). by left. }
  pose proof (wr_store _ _ _ _ _ _ _ Hw) as Hst.
  wp_step. apply wp_store. eapply wp_run.
  { apply (make_unique_spec (sv_world sv) C F c (-1)); [done|eapply enough_resources; [done|apply Hst]|done|lia| |].
    - by rewrite (wr_org _ _ _ _ _ _ _ Hw).
    - intros p Hp Hin. destruct (wr_pend _ _ _ _ _ _ _ Hw p Hp) as (c' & Hc' & He).
      assert (c' = c) as -> by (eapply excs_at_apart; [apply (so_apart _ _ _ Hst)|done|done]). done. }
  cbv beta. intros r w' Erun (C' & F' & Hmu). rewrite (proj2 (Z.eqb_neq _ _) (mu_result _ _ _ _ _ _ _ _ Hmu)).
  rewrite length_app in Hlen. cbn in Hlen. wp_step. eapply wp_mono; [eapply writing_step; [done|done|done|lia]|].
  cbv beta. intros open' sv' [Hw' Ew]. replace (l1 ++ c :: l2) with ((l1 ++ [c]) ++ l2) in * by by rewrite <- app_assoc.
  eapply IH; [done|done|rewrite !length_app; cbn; lia|done|]. rewrite Ew. by eapply Hready.
Qed.

(** ** Finishing the copies *)

Lemma copies_finished w w' :
  copies_ok w -> source_chunk (sb w') = source_chunk (sb w) /\ dest_exception (sb w') = dest_exception (sb w) -> only_copies w w' -> snap_data w' = settled w -> copy_chunks (sb w') = 0 ->
  copies_ok w' /\ pending_copies (sb w') = [] /\ settled w' = settled w.
Proof.
  intros Hck [E1 E2] Hoc Hs H0. destruct (only_copies_frame _ _ Hoc) as (Eo & Ez & El & Ea).
  assert (Ep : pending_copies (sb w') = []) by (unfold pending_copies; by rewrite H0).
  assert (Er : copy_room (sb w') = copy_room (sb w)) by (unfold copy_room; congruence).
  pose proof (ck_count _ Hck) as Hcnt. pose proof (ck_some _ Hck). split; [|split; [done|unfold settled at 1; by rewrite Ep, Hs]].
  assert (Hdom : forall x, is_Some (snap_data w' !! x) -> is_Some (snap_data w !! x)) by (intros x; rewrite Hs; by apply settled_dom).
  destruct Hck as [C1 C2 C3 C4 C5 C6 C7 [R1 R2 R3 R4 R5 R6]]. constructor; rewrite ?Eo, ?Er, ?Ea, ?Ez, ?El, ?E1, ?E2, ?H0; try done.
  - intros x Hx. by apply C2, Hdom.
  - lia.
  - constructor; intros; lia.
Qed.

(** The copies do not touch the metadata. *)
Lemma store_ok_finished w w' C F :
  store_ok w C F -> source_chunk (sb w') = source_chunk (sb w) /\ dest_exception (sb w') = dest_exception (sb w) -> only_copies w w' -> snap_data w' = settled w -> copy_chunks (sb w') = 0 ->
  store_ok w' C F /\ pending_copies (sb w') = [] /\ settled w' = settled w.
Proof.
  intros Hst Hrun Hoc Hs H0. destruct (copies_finished w w' (so_copies _ _ _ Hst) Hrun Hoc Hs H0) as (Hck & Ep & Eset).
  split; [|done]. pose proof (only_copies_same _ _ Hoc) as Hsm. destruct Hst as [S1 S2 S3 S4 S5 S6 S7 S8 S9 S10].
  constructor; try done.
  - by eapply only_copies_meta.
  - destruct S2 as (T1 & T2 & T3). unfold tree_ok. rewrite (sm_image _ _ Hsm). split_and!; [|done|done].
    eapply subtree_ext; [|exact T1]. intros. apply Hsm.
  - intros e He. destruct (S4 e He) as [? ?]. rewrite (sm_asi _ _ Hsm). split; [done|]. by apply (sm_bits _ _ Hsm).
  - by apply (sm_bits _ _ Hsm).
  - intros e He. rewrite (sm_asi _ _ Hsm) in He. rewrite Hs. apply settled_dom; [done|]. by apply S7.
  - intros p Hp. rewrite Ep in Hp. by apply elem_of_nil in Hp.
  - by rewrite (sm_mask _ _ Hsm).
  - by rewrite (sm_size _ _ Hsm).
Qed.


(** ** The commit *)

(** Nothing that the tree or the bitmaps have is in the journal, so a commit
    leaves the store as it is. *)
Lemma numbered_layout s n : layout s -> same_layout s (numbered (skip n s)).
Proof.
  intros Hl. constructor; try done. intros which. pose proof (sp_last _ _ (ly_sp s Hl which)) as H. by destruct which.
Qed.

Lemma store_ok_committed w barrier w' C F :
  store_ok w C F -> committed w barrier w' -> store_ok w' C F /\ pending_copies (sb w') = pending_copies (sb w) /\ settled w' = settled w.
Proof.
  intros Hst Hc. pose proof (so_meta _ _ _ Hst) as Hm. pose proof (mo_layout _ _ Hm) as Hl. pose proof (cm_sb _ _ _ Hc) as Es.
  destruct (cm_rest _ _ _ Hc) as (_ & Eo & Esn & _ & _). set (n := Z.of_nat (length (dirty_buffers w)) + 1) in *.
  assert (Hs : same_layout (sb w) (sb w')) by (rewrite Es; by apply numbered_layout).
  assert (Hv : forall x, x ∈ F -> view w' x = view w x).
  { intros x Hx. apply Hc. intros Hj. by apply (mo_journal _ _ Hm x Hj). }
  assert (Hvb : forall which k, bitmap_index (sb w) which k -> view w' (bitmap_sector (sb w) which k) = view w (bitmap_sector (sb w) which k)).
  { intros which k Hk. apply Hc. by apply (mo_jbitmap _ _ Hm). }
  assert (Hbit : forall c, 0 <= c < chunks (asi SNAPDATA (sb w)) -> bit_used (view w) (sb w) SNAPDATA c -> bit_used (view w') (sb w') SNAPDATA c).
  { intros c Hc'. rewrite (sl_bit_used _ _ _ _ _ Hs). unfold bit_used. by rewrite Hvb by by apply bitmap_index_chunk. }
  assert (Ep : pending_copies (sb w') = pending_copies (sb w)) by by rewrite Es.
  assert (Ech : chunks (asi SNAPDATA (sb w')) = chunks (asi SNAPDATA (sb w))) by apply (sl_asi _ _ Hs SNAPDATA).
  split; [|split; [done|unfold settled; by rewrite Ep, Eo, Esn]]. destruct Hst as [S1 S2 S3 S4 S5 S6 S7 S8 S9 S10].
  pose proof (sp_chunks _ _ (ly_sp _ Hl SNAPDATA)) as Hch. constructor; rewrite ?Ech; try done.
  - eapply meta_ok_step; [done|apply Hc|done|done].
  - destruct S2 as (T1 & T2 & T3). unfold tree_ok. rewrite Es. split_and!; [|done|done]. by eapply subtree_ext.
  - destruct S3. constructor; rewrite ?Eo, ?Esn, ?Es; done.
  - intros e He. destruct (S4 e He) as [? ?]. split; [done|]. apply Hbit; [lia|done].
  - apply Hbit; [lia|done].
  - by rewrite Esn.
  - by rewrite Ep.
  - by rewrite Es.
  - by rewrite Es.
Qed.

(** A step that changes neither the contents nor the locks *)
Record settled_step (w w' : world) (C : aleaf) (F : list Z) : Prop := {
  ss_store : store_ok w' C F;
  ss_settled : settled w' = settled w;
  ss_org : org_data w' = org_data w;
  ss_mask : snapmask (sb w') = snapmask (sb w);
  ss_fixed : fixed (sb w') = fixed (sb w) }.

Lemma commit_store barrier w C F :
  store_ok w C F -> commit_ready w ->
  wp (commit_transaction barrier) (fun _ w' => settled_step w w' C F /\ pending_copies (sb w') = pending_copies (sb w) /\ dirty_buffers w' = []) w.
Proof.
  intros Hst Hr. destruct (decide (dirty_buffers w = [])) as [Hd|Hd].
  - eapply wp_mono; [apply commit_nothing; [done|apply Hr]|]. cbv beta. intros _ w' ->. by split_and!.
  - eapply wp_mono; [by apply commit_transaction_spec|]. cbv beta. intros _ w' Hc.
    destruct (store_ok_committed _ _ _ _ _ Hst Hc) as (Hst' & Ep & Es). destruct (cm_rest _ _ _ Hc) as (_ & Eo & _).
    split_and!; [|done|apply Hc]. constructor; try done; by rewrite (cm_sb _ _ _ Hc).
Qed.

Lemma finish_store w C F :
  store_ok w C F ->
  wp finish_copyout (fun _ w' => settled_step w w' C F /\ pending_copies (sb w') = []) w.
Proof.
  intros Hst. eapply wp_mono; [apply finish_copyout_full, Hst|]. cbv beta. intros r w' ((_ & Hoc & Hs & H0) & Hends).
  destruct (store_ok_finished _ _ _ _ Hst Hends Hoc Hs H0) as (Hst' & Ep & Es). pose proof (only_copies_same _ _ Hoc) as Hsm.
  split; [|done]. constructor; [done|done|by destruct (only_copies_frame _ _ Hoc)|apply Hsm|].
  by destruct Hoc as (? & ? & ? & ? & ? & _ & ->).
Qed.

(** ** The answer *)

(** The query is done: its hold on the pending answer goes away. *)
Lemma close_pending sv p c m :
  locks_ok sv (Some p) -> 0 < waits sv p ->
  wp (upd_pending p (fun pd => pd <| pd_client := Some c |> <| pd_message := m |> <| holdcount ::= fun n => n - 1 |>))
    (fun _ sv' => locks_ok sv' None /\ exists pd, pd_client pd = Some c /\ pd_message pd = m /\ sv' = sv <| pendings ::= insert p pd |>) sv.
Proof.
  intros [Ht [H1 H2 H3 H4 H5]] Hpos. destruct (H3 p eq_refl) as [pd Hpd]. eapply upd_pending_run; [done|].
  pose proof (H1 p pd Hpd) as Hc. rewrite decide_True in Hc by done. split; [split|].
  - destruct Ht. by constructor.
  - constructor; cbn.
    + intros q qd. rewrite decide_False by done. intros [[<- <-]|[Hne Hq]]%lookup_insert_Some; cbn; [change (waits _ p) with (waits sv p); lia|].
      change (waits _ q) with (waits sv q). rewrite (H1 q qd Hq), decide_False by congruence. lia.
    + intros q Hq. destruct (decide (p = q)) as [<-|]; [by rewrite lookup_insert_eq|]. rewrite lookup_insert_ne by done. by apply H2.
    + done.
    + intros q qd Hq _. change (waits _ q) with (waits sv q). apply lookup_insert_Some in Hq as [[<- <-]|[Hne Hq]]; [by split|].
      apply (H4 q qd Hq). congruence.
    + intros q Hq. destruct (decide (p = q)) as [<-|]; [by rewrite H5 in Hpd|]. rewrite lookup_insert_ne by done. by apply H5.
  - eexists. split; [|split; [|reflexivity]]; done.
Qed.

(** Writes to the origin at chunks that every active snapshot has a copy of
    change no active snapshot. *)
Lemma value_of_origin w w' C C' (l : list Z) (org' : gmap Z Z) n c' :
  (forall n c, 0 <= n < 64 -> snap_value w' C' n c = snap_value w C n c) -> pending_copies (sb w') = [] ->
  (forall c n, c ∈ l -> 0 <= n < 64 -> Z.testbit (snapmask (sb w)) n = true -> is_Some (held C' c n)) ->
  (forall x, x ∉ l -> org' !! x = org_data w' !! x) -> 0 <= n < 64 -> Z.testbit (snapmask (sb w)) n = true ->
  snap_value (w' <| org_data := org' |>) C' n c' = snap_value w C n c'.
Proof.
  intros Hv Hp Hu Horg Hn Hb. rewrite <- Hv by done. unfold snap_value, settled. cbn. rewrite Hp. cbn.
  destruct (held C' c' n) as [e|] eqn:E; [done|]. apply Horg. intros Hin. destruct (Hu c' n Hin Hn Hb). congruence.
Qed.

(** C1: A write to the origin is answered only when nothing that a snapshot
    shows can be lost by it.  After the handler, whatever is written to the chunks
    of the query, no active snapshot reads anything else than before the query;
    the copies are done and the metadata is on the device.  The answer is sent at
    once when nobody reads one of the chunks from the origin for a snapshot; else
    it is kept, and waits for the lock of every chunk that is read. *)
Theorem query_origin_write_correct c sock body sv C F :
  let w := sv_world sv in
  let l := rw_chunks body in
  let answer := mkMessage ORIGIN_WRITE_OK body in
  store_ok w C F -> copy_chunks (sb w) = 0 -> locks_ok sv None ->
  NoDup l -> Z.of_nat (length l) < 2 ^ 31 -> Forall (fun x => 0 <= x < KEY_TOP /\ is_Some (org_data w !! x)) l -> write_ready (-1) l w ->
  wp (query_origin_write c sock body) (fun _ sv' =>
    let w' := sv_world sv' in
    (exists C' F', store_ok w' C' F' /\ forall org' n x,
       (forall y, y ∉ l -> org' !! y = org_data w' !! y) -> 0 <= n < 64 -> Z.testbit (snapmask (sb w)) n = true ->
       snap_value (w' <| org_data := org' |>) C' n x = snap_value w C n x) /\
    org_data w' = org_data w /\ pending_copies (sb w') = [] /\ dirty_buffers w' = [] /\ locks_ok sv' None /\
    ((forall x, x ∈ l -> lock_at sv x = None) /\ sent sv' = sent sv ++ [(sock, answer)] \/
     exists p pd, sent sv' = sent sv /\ (exists x, x ∈ l /\ is_Some (lock_at sv x)) /\ pendings sv !! p = None /\
       pendings sv' !! p = Some pd /\ pd_client pd = Some c /\ pd_message pd = answer /\
       forall x holds ws, x ∈ l -> lock_at sv x = Some (holds, ws) -> lock_at sv' x = Some (holds, p :: ws))) sv.
Proof.
  intros w l answer Hst H0 Hlk Hnd Hlen Hall Hready. unfold query_origin_write. fold l.
  assert (Hstart : writing sv C [] sv None C F).
  { constructor; try done.
    - intros c' n Hc'. by apply elem_of_nil in Hc'.
    - intros p Hp. unfold pending_copies in Hp. fold w in Hp. rewrite H0 in Hp. by apply elem_of_nil in Hp.
    - intros x Hx. by apply elem_of_nil in Hx. }
  wp_step. eapply wp_mono; [by eapply (origin_write_chunks_run sv C l [])|]. cbv beta.
  intros [code open] sv1 (Ecode & C' & F' & Hw & Hready1). cbn in Ecode, Hw. subst code.
  destruct Hw as [W1 W2 W3 W4 W5 W6 _ W8 W9 W10 W11 [W12 W12'] W13].
  wp_step. apply wp_store. eapply wp_run; [by eapply finish_store|]. cbv beta. intros r w2 Erun [[S1 S2 S3 S4 S5] Ep2].
  wp_step. apply wp_store. cbn [sv_world set]. eapply wp_mono; [apply (commit_store false w2 C' F' S1); by eapply Hready1|]. cbv beta.
  intros _ w3 ([T1 T2 T3 T4 T5] & Ep3 & Hd3). rewrite Ep2 in Ep3.
  set (sv3 := sv1 <| sv_world := w2 |> <| sv_world := w3 |>).
  assert (Eh : snaplock_hash_bits (sb w3) = hash_bits sv1) by (apply fixed_hash; congruence).
  assert (Hlk3 : locks_ok sv3 open) by exact (locks_ok_world sv1 w3 open Eh W8).
  assert (Hla : forall x, lock_at sv3 x = lock_at sv1 x) by exact (fun x => lock_at_world sv1 w3 x Eh).
  assert (Hv : forall n x, 0 <= n < 64 -> snap_value w3 C' n x = snap_value w C n x).
  { intros n x Hn. unfold w. rewrite <- (W5 n x Hn). unfold snap_value. by rewrite T2, T3, S2, S3. }
  assert (Hgoal : (exists C' F', store_ok w3 C' F' /\ forall org' n x,
       (forall y, y ∉ l -> org' !! y = org_data w3 !! y) -> 0 <= n < 64 -> Z.testbit (snapmask (sb w)) n = true ->
       snap_value (w3 <| org_data := org' |>) C' n x = snap_value w C n x) /\
    org_data w3 = org_data w /\ pending_copies (sb w3) = [] /\ dirty_buffers w3 = []).
  { split_and!; [|unfold w; congruence|done|done]. exists C', F'. split; [done|]. intros org' n x Horg Hn Hb. by eapply value_of_origin. }
  destruct open as [p|].
  - destruct W9 as (Hx & Hwp & Hpn). eapply wp_mono; [apply (close_pending sv3 p c answer); [done|apply Hwp]|]. cbv beta.
    intros _ sv4 (Hlk4 & pd & Hpc & Hpm & ->). destruct Hgoal as (G1 & G2 & G3 & G4). split_and!; try done. right.
    exists p, pd. split_and!; try done; [apply lookup_insert_eq|]. intros x holds ws Hin Hl. pose proof (W10 x Hin) as E. rewrite Hl in E.
    rewrite <- E. apply Hla.
  - unfold send. wp_steps. destruct Hgoal as (G1 & G2 & G3 & G4). split_and!; try done.
    + destruct Hlk3 as [[] []]. by split; constructor.
    + left. split; [done|]. cbn. by rewrite W12.
Qed.
