(* ===== verification/SnapshotRead.v ===== *)
(** * A read of a snapshot

    The handler of [QUERY_SNAPSHOT_READ]: the answers name, chunk by chunk, where
    the snapshot has its data, and every chunk that it still shares with the
    origin is locked for the client that reads it there. *)

From S2P Require Import Prelude Bytes State Buffer Bitmap Leaf LeafSpec LeafInv LeafView Node Alloc Journal Btree Snapshot Locks Reply Server CacheInv CacheRoom CacheMem BitmapInv AllocInv JournalSpec MetaInv Tree CopyoutSpec Unique ReplySpec LockSpec OriginWrite.

(** ** Where the data is *)

(** The chunks of [l] that snapshot [n] has in the store, with their place, and
    those that it shares with the origin *)
Definition in_store (C : aleaf) (n : Z) (l : list Z) : list (Z * Z) :=
  omap (fun x => pair x <$> held C x n) l.
Definition in_origin (C : aleaf) (n : Z) (l : list Z) : list (Z * Z) :=
  omap (fun x => match held C x n with Some _ => None | None => Some (x, 0) end) l.

Lemma in_store_snoc C n l x :
  in_store C n (l ++ [x]) = in_store C n l ++ match held C x n with Some e => [(x, e)] | None => [] end.
Proof. unfold in_store. rewrite omap_app. cbn. by destruct (held C x n). Qed.

Lemma in_origin_snoc C n l x :
  in_origin C n (l ++ [x]) = in_origin C n l ++ match held C x n with Some _ => [] | None => [(x, 0)] end.
Proof. unfold in_origin. rewrite omap_app. cbn. by destruct (held C x n). Qed.

Lemma in_length C n l : (length (in_store C n l) + length (in_origin C n l) = length l)%nat.
Proof.
  induction l as [|x l IH] using rev_ind; [done|]. rewrite in_store_snoc, in_origin_snoc, !length_app. destruct (held C x n); cbn; lia.
Qed.

(** An exception is never 0. *)
Lemma held_pos w C F n x e : store_ok w C F -> held C x n = Some e -> 0 < e /\ is_u64 e.
Proof.
  intros Hst H. destruct (so_used _ _ _ Hst e) as [Hr _]; [by eapply held_in|].
  pose proof (sp_chunks _ _ (ly_sp _ (mo_layout _ _ (so_meta _ _ _ Hst)) SNAPDATA)). unfold is_u64. lia.
Qed.

(** ** Replies of a few chunks *)

Lemma add_all_snoc we l x r :
  add_all we l new_addto = Some r ->
  add_all we (l ++ [x]) new_addto =
  (r ← addto_response r x.1; if we then add_exception_addr r x.2 else Some r).
Proof. intros E. unfold add_all in *. rewrite foldl_app, E. done. Qed.

(** Up to 26 chunks always fit. *)
Lemma add_all_some we l : Forall addable l -> (length l <= 26)%nat -> is_Some (add_all we l new_addto).
Proof.
  intros Ha Hl. destruct l as [|x l]; [by eexists|]. pose proof (reply_spec we (x :: l) 0 0 ltac:(done) Ha) as H.
  destruct (add_all we (x :: l) new_addto); [by eexists|]. cbn in *. lia.
Qed.

(** The answer with the chunks [l], if there are any, byte by byte *)
Definition answered_with (we : bool) (code id : Z) (l : list (Z * Z)) (ms : list message) : Prop :=
  ms = match l with [] => [] | _ => [mkMessage code (reply_body we id l)] end.

Lemma send_reply_run we l r sock code id sv :
  Forall addable l -> (length l <= 26)%nat -> add_all we l new_addto = Some r ->
  wp (send_reply sock r code id) (fun _ sv' => exists ms, answered_with we code id l ms /\
    sv' = sv <| sent ::= fun t => t ++ (pair sock <$> ms) |>) sv.
Proof.
  intros Ha Hl Hr. unfold send_reply. destruct l as [|x l].
  - injection Hr as <-. cbn. wp_steps. exists []. split; [done|]. unfold set. cbn. rewrite app_nil_r. by destruct sv.
  - pose proof (reply_spec we (x :: l) code id ltac:(done) Ha) as H. rewrite Hr in H. destruct H as [Hm _]; [cbn in *; lia|].
    rewrite Hm. unfold send. wp_steps. by exists [mkMessage code (reply_body we id (x :: l))].
Qed.

(** ** The loop over the chunks *)

(** The chunks [l] of a read by client [c] for snapshot [n] are done. *)
Record reading (sv0 : server) (C : aleaf) (c n : Z) (l : list Z) (sv : server) (snap org : addto) : Prop := {
  rd_mem : mem_ok (sv_world sv);
  rd_step : cstep (sv_world sv0) (sv_world sv);
  rd_took : took (sv_world sv0) (sv_world sv) [];
  rd_locks : locks_ok sv None;
  rd_snap : add_all true (in_store C n l) new_addto = Some snap;
  rd_org : add_all false (in_origin C n l) new_addto = Some org;
  rd_held : forall x, x ∈ l -> held C x n = None -> exists holds ws, lock_at sv x = Some (holds, ws) /\ c ∈ holds;
  rd_keep : forall x holds ws, lock_at sv0 x = Some (holds, ws) -> exists more, lock_at sv x = Some (more ++ holds, ws);
  rd_rest : sent sv = sent sv0 /\ clients sv = clients sv0 /\ pendings sv = pendings sv0 }.

Section read.
Context (sv0 : server) (C : aleaf) (F : list Z) (c n : Z).
Context (Hst : store_ok (sv_world sv0) C F) (Hn : 0 <= n < 64) (Hdev : on_device (sv_world sv0))
  (Hroom : ~ no_room (sv_world sv0) (Z.of_nat (etree_levels (image (sb (sv_world sv0)))) + 1)).

Lemma in_store_addable l : Forall (fun x => 0 <= x < KEY_TOP) l -> Forall addable (in_store C n l).
Proof.
  induction l as [|x l IH] using rev_ind; [constructor|]. intros [Hl [Hx _]%Forall_cons]%Forall_app. rewrite in_store_snoc.
  apply Forall_app. split; [by apply IH|]. destruct (held C x n) as [e|] eqn:E; [|constructor]. constructor; [|constructor].
  split; cbn; [unfold KEY_TOP in *; lia|by eapply held_pos].
Qed.

Lemma in_origin_addable l : Forall (fun x => 0 <= x < KEY_TOP) l -> Forall addable (in_origin C n l).
Proof.
  induction l as [|x l IH] using rev_ind; [constructor|]. intros [Hl [Hx _]%Forall_cons]%Forall_app. rewrite in_origin_snoc.
  apply Forall_app. split; [by apply IH|]. destruct (held C x n) as [e|] eqn:E; [constructor|]. constructor; [|constructor].
  split; cbn; [unfold KEY_TOP in *; lia|unfold is_u64; lia].
Qed.

(** The lookup of one chunk *)
Lemma test_run w x :
  mem_ok w -> cstep (sv_world sv0) w -> took (sv_world sv0) w [] -> 0 <= x < KEY_TOP ->
  wp (test_unique x n) (fun r w' => r.2 = default 0 (held C x n) /\ mem_ok w' /\ cstep (sv_world sv0) w' /\ took (sv_world sv0) w' []) w.
Proof.
  intros Hm Hc Ht Hx. assert (Es : sb w = sb (sv_world sv0)) by apply Hc.
  assert (Htree : tree_ok w C F) by (apply (store_ok_cstep _ _ _ _ Hst Hm Hc)).
  eapply wp_mono; [apply (test_unique_spec w C F x n Hm Htree Hx); [lia|rewrite Es; apply Hst]|]. cbv beta.
  intros r w' (Hm' & Hc' & [[-> Ht']|(_ & Hwhy & _)]).
  - cbn [snd]. rewrite (proj2 (Z.eqb_neq n (-1))) by lia. unfold held. split; [by destruct (exc_for C x n)|]. split; [done|].
    split; [by eapply took_cstep|]. intros y. rewrite Ht', Ht, !occ_nil. lia.
  - exfalso. destruct Hwhy as [H|(y & Hy & Hd)].
    + apply Hroom. eapply took_no_room in H; [|apply (mo_mem _ _ (so_meta _ _ _ Hst))|done|done|done]. rewrite Es in H. cbn in H.
      eapply no_room_mono; [exact H|]. lia.
    + rewrite (same_disk _ _ (cs_store _ _ Hc)) in Hd. destruct (Hdev y) as [d Hd2]; [|congruence].
      destruct (so_tree _ _ _ Hst) as [Htr _]. pose proof (subtree_blocks _ _ _ _ _ _ _ Htr) as Hall. rewrite Forall_forall in Hall. by apply Hall.
Qed.

Lemma snapshot_read_chunks_run l2 l1 sv snap org :
  reading sv0 C c n l1 sv snap org -> Forall (fun x => 0 <= x < KEY_TOP) (l1 ++ l2) -> (length (l1 ++ l2) <= 26)%nat ->
  wp (snapshot_read_chunks c n l2 snap org) (fun r sv' => reading sv0 C c n (l1 ++ l2) sv' r.1 r.2) sv.
Proof.
  revert l1 sv snap org. induction l2 as [|x l2 IH]; intros l1 sv snap org [R1 R2 R3 R4 R5 R6 R7 R8 R9] Hall Hlen; cbn [snapshot_read_chunks].
  { wp_steps. rewrite app_nil_r. by constructor. }
  assert (Hx : 0 <= x < KEY_TOP) by (apply Forall_app in Hall as [_ [? _]%Forall_cons]; done).
  replace (l1 ++ x :: l2) with ((l1 ++ [x]) ++ l2) in * by by rewrite <- app_assoc.
  assert (Hpre : Forall (fun x => 0 <= x < KEY_TOP) (l1 ++ [x])) by by apply Forall_app in Hall as [? _].
  assert (Hlen1 : (length (l1 ++ [x]) <= 26)%nat) by (rewrite length_app in Hlen; lia). pose proof (in_length C n (l1 ++ [x])) as Hsum.
  destruct (add_all_some true _ (in_store_addable _ Hpre)) as [snap' Hs']; [lia|].
  destruct (add_all_some false _ (in_origin_addable _ Hpre)) as [org' Ho']; [lia|].
  rewrite in_store_snoc in Hs'. rewrite in_origin_snoc in Ho'.
  wp_step. apply wp_store. eapply wp_mono; [by apply (test_run _ x R1 R2 R3 Hx)|]. cbv beta. intros [u e] w' (He & Hm' & Hc' & Ht'). cbn [snd] in He. subst e.
  set (sv1 := sv <| sv_world := w' |>). assert (Eh : snaplock_hash_bits (sb w') = hash_bits sv).
  { unfold hash_bits. by rewrite (same_sb _ _ (cs_store _ _ Hc')), (same_sb _ _ (cs_store _ _ R2)). }
  assert (Hlk1 : locks_ok sv1 None) by by apply locks_ok_world.
  assert (Hla1 : forall y, lock_at sv1 y = lock_at sv y) by (intros y; by apply lock_at_world).
  destruct (held C x n) as [e|] eqn:Ex; cbn [default from_option id].
  - destruct (held_pos _ _ _ _ x e Hst Ex) as [Hpos _]. rewrite (proj2 (Z.eqb_neq e 0)) by lia. cbn [negb].
    pose proof Hs' as Hs0. rewrite (add_all_snoc _ _ _ _ R5) in Hs'. cbn [fst snd] in Hs'. unfold or_exit.
    destruct (addto_response snap x) as [snap1|]; [|done]. cbn in Hs'. wp_steps. rewrite Hs'. wp_steps.
    apply (IH (l1 ++ [x])); [|done|done]. constructor; try done.
    + by rewrite in_store_snoc, Ex.
    + by rewrite in_origin_snoc, Ex, app_nil_r.
    + intros y [Hy| ->%list_elem_of_singleton]%elem_of_app Hh; [rewrite Hla1; by apply R7|congruence].
    + intros y holds ws Hy. rewrite Hla1. by apply R8.
  - cbn [Z.eqb negb]. pose proof Ho' as Ho0. rewrite (add_all_snoc _ _ _ _ R6) in Ho'. cbn [fst snd] in Ho'. unfold or_exit.
    destruct (addto_response org x) as [org1|]; [|done]. injection Ho' as ->. wp_steps.
    eapply wp_mono; [by apply readlock_chunk_spec|]. cbv beta. intros _ sv2 (Hlk2 & Hthis & Hoth & t & Esv).
    assert (Hla2 : forall y holds ws, lock_at sv y = Some (holds, ws) -> exists more, lock_at sv2 y = Some (more ++ holds, ws)).
    { intros y holds ws Hy. destruct (decide (y = x)) as [->|Hne]; [|exists []; rewrite Hoth, Hla1 by done; by rewrite Hy].
      exists [c]. rewrite Hthis, Hla1, Hy. done. }
    assert (Ew : sv_world sv2 = w') by by rewrite Esv.
    apply (IH (l1 ++ [x])); [|done|done]. constructor; rewrite ?Ew; try done.
    + by rewrite in_store_snoc, Ex, app_nil_r.
    + by rewrite in_origin_snoc, Ex.
    + intros y [Hy| ->%list_elem_of_singleton]%elem_of_app Hh.
      * destruct (R7 y Hy Hh) as (holds & ws & Hl & Hin). destruct (Hla2 y holds ws Hl) as [more Hm2].
        exists (more ++ holds), ws. split; [done|]. apply elem_of_app. by right.
      * rewrite Hthis. destruct (lock_at sv1 x) as [[holds ws]|]; [exists (c :: holds), ws|exists [c], []]; (split; [done|by left]).
    + intros y holds ws Hy. destruct (R8 y holds ws Hy) as [m1 H1]. destruct (Hla2 y _ _ H1) as [m2 H2].
      exists (m2 ++ m1). by rewrite H2, app_assoc.
    + by rewrite Esv.
Qed.
End read.

Lemma client_snap_run c cl i sv :
  clients sv !! c = Some cl -> find_snap (sb (sv_world sv)) (u32 (cl_snaptag cl)) = Some i ->
  wp (client_snap c) (fun r sv' => r = i /\ sv' = sv) sv.
Proof.
  intros Hcl Hf. unfold client_snap, get_client. wp_steps. rewrite Hcl. wp_steps. apply wp_store. unfold getsb. wp_steps.
  rewrite Hf. wp_steps. split; [done|]. by destruct sv.
Qed.

Lemma snap_at_run i sn sv :
  snap_slot (sb (sv_world sv)) i = Some sn -> wp (snap_at i) (fun r sv' => r = sn /\ sv' = sv) sv.
Proof.
  intros Hs. unfold snap_at. wp_step. apply wp_store. unfold getsb. wp_steps. rewrite Hs. wp_steps. split; [done|]. by destruct sv.
Qed.

(** The rule for the handler *)
Lemma query_snapshot_read_spec c sock body sv C F cl i sn :
  let w := sv_world sv in
  let l := rw_chunks body in
  let n := sn_bit sn in
  store_ok w C F -> locks_ok sv None -> on_device w -> ~ no_room w (Z.of_nat (etree_levels (image (sb w))) + 1) ->
  clients sv !! c = Some cl -> find_snap (sb w) (u32 (cl_snaptag cl)) = Some i -> snap_slot (sb w) i = Some sn ->
  is_squashed sn = false -> 0 <= n < 64 -> Forall (fun x => 0 <= x < KEY_TOP) l -> (length l <= 26)%nat ->
  wp (query_snapshot_read c sock body) (fun _ sv' =>
    (exists m1 m2, sent sv' = sent sv ++ (pair sock <$> m1 ++ m2) /\
       answered_with false SNAPSHOT_READ_ORIGIN_OK (rw_id body) (in_origin C n l) m1 /\
       answered_with true SNAPSHOT_READ_OK (rw_id body) (in_store C n l) m2) /\
    (forall x, x ∈ l -> held C x n = None -> exists holds ws, lock_at sv' x = Some (holds, ws) /\ c ∈ holds) /\
    (forall x holds ws, lock_at sv x = Some (holds, ws) -> exists more, lock_at sv' x = Some (more ++ holds, ws)) /\
    locks_ok sv' None /\ clients sv' = clients sv /\ pendings sv' = pendings sv /\ cstep w (sv_world sv')) sv.
Proof.
  intros w l n Hst Hlk Hdev Hroom Hcl Hfind Hslot Hsq Hn Hall Hlen. unfold query_snapshot_read. fold l.
  wp_step. eapply wp_mono; [by eapply client_snap_run|]. cbv beta. intros j sv1 [-> ->].
  wp_step. eapply wp_mono; [by eapply snap_at_run|]. cbv beta. intros sn1 sv1 [-> ->]. rewrite Hsq.
  assert (Hstart : reading sv C c n [] sv new_addto new_addto).
  { constructor; try done; [apply Hst| | |by exists []].
    - intros y. rewrite occ_nil. lia.
    - intros y Hy. by apply elem_of_nil in Hy. }
  wp_step. eapply wp_mono; [by eapply (snapshot_read_chunks_run sv C F c n Hst Hn Hdev Hroom l [])|]. cbv beta.
  intros [snap org] sv1 [R1 R2 R3 R4 R5 R6 R7 R8 (R9 & R10 & R11)]. cbn [fst snd app] in *. pose proof (in_length C n l) as Hsum.
  wp_step. eapply wp_mono; [apply (send_reply_run false (in_origin C n l)); [by eapply in_origin_addable|lia|done]|]. cbv beta.
  intros _ sv2 (m1 & Hm1 & ->). eapply wp_mono; [apply (send_reply_run true (in_store C n l)); [by eapply in_store_addable|lia|done]|]. cbv beta.
  intros _ sv3 (m2 & Hm2 & ->). split_and!; try done.
  - exists m1, m2. split; [|done]. cbn. by rewrite R9, fmap_app, app_assoc.
  - destruct R4 as [[] []]. by split; constructor.
Qed.

(** C5: A read of a snapshot is answered with the place of every chunk: for the
    chunks that the snapshot has in the store, the chunk of the store that holds
    its data; the other chunks are to be read from the origin, and the client
    holds the lock of each of them, so that a write to them is not answered before
    the client has released it.  Nothing else changes: no lock is lost, and the
    metadata is as it was. *)
Theorem query_snapshot_read_correct c sock body sv C F cl i sn :
  let w := sv_world sv in
  let l := rw_chunks body in
  let n := sn_bit sn in
  store_ok w C F -> locks_ok sv None -> on_device w -> ~ no_room w (Z.of_nat (etree_levels (image (sb w))) + 1) ->
  clients sv !! c = Some cl -> find_snap (sb w) (u32 (cl_snaptag cl)) = Some i -> snap_slot (sb w) i = Some sn ->
  is_squashed sn = false -> 0 <= n < 64 -> Forall (fun x => 0 <= x < KEY_TOP) l -> (length l <= 26)%nat ->
  wp (query_snapshot_read c sock body) (fun _ sv' =>
    (exists m1 m2, sent sv' = sent sv ++ (pair sock <$> m1 ++ m2) /\
       answered_with false SNAPSHOT_READ_ORIGIN_OK (rw_id body) (in_origin C n l) m1 /\
       answered_with true SNAPSHOT_READ_OK (rw_id body) (in_store C n l) m2) /\
    (forall x, x ∈ l -> held C x n = None -> exists holds ws, lock_at sv' x = Some (holds, ws) /\ c ∈ holds) /\
    (forall x holds ws, lock_at sv x = Some (holds, ws) -> exists more, lock_at sv' x = Some (more ++ holds, ws)) /\
    locks_ok sv' None /\ clients sv' = clients sv /\ pendings sv' = pendings sv /\ cstep w (sv_world sv')) sv.
Proof. apply query_snapshot_read_spec. Qed.
