(* ===== verification/SnapshotWrite.v ===== *)
(** * A write to a snapshot

    The handler of [QUERY_WRITE] for a client of a snapshot: every chunk gets an
    exception that the snapshot shares with nobody, and the answer names it. *)

From S2P Require Import Prelude Bytes State Buffer Bitmap Leaf LeafSpec LeafInv LeafView Node Alloc Journal Btree Snapshot Locks Reply Server CacheInv CacheRoom CacheMem BitmapInv AllocInv JournalSpec MetaInv Tree TreeInsert CommitSpec CopyoutSpec Unique ReplySpec LockSpec OriginWrite SnapshotRead.

(** ** Only the store changes *)

(** Locks, clients and answers are as they were. *)
Definition same_server (sv sv' : server) : Prop := sv' = sv <| sv_world := sv_world sv' |>.

#[global] Instance same_server_preorder : PreOrder same_server.
Proof.
  split; [by intros []|]. intros x y z H1 H2. unfold same_server in *. rewrite H2, H1. reflexivity.
Qed.

Lemma same_server_locks sv sv' :
  same_server sv sv' -> fixed (sb (sv_world sv')) = fixed (sb (sv_world sv)) ->
  (forall open, locks_ok sv open -> locks_ok sv' open) /\ forall x, lock_at sv' x = lock_at sv x.
Proof.
  intros -> E%fixed_hash. cbn in E. split; intros; [by apply locks_ok_world|by apply lock_at_world].
Qed.

(** ** The loop over the chunks *)

(** A write for snapshot [n] that started in [w0] with the entries [C0] has given
    the chunks of [rs] their exceptions. *)
Record placing (w0 : world) (C0 : aleaf) (n : Z) (rs : list (Z * Z)) (w : world) (C : aleaf) (F : list Z) : Prop := {
  pl_store : store_ok w C F;
  pl_org : org_data w = org_data w0;
  pl_mask : snapmask (sb w) = snapmask (sb w0);
  pl_fixed : fixed (sb w) = fixed (sb w0);
  pl_values : forall m c, 0 <= m < 64 -> snap_value w C m c = snap_value w0 C0 m c;
  pl_own : forall c e, (c, e) ∈ rs -> held C c n = Some e /\ already_unique C c n (snapmask (sb w0)) = true;
  pl_pend : forall p, p ∈ pending_copies (sb w) -> exists c, c ∈ rs.*1 /\ p.2 ∈ excs_at C c }.

Lemma placing_step w0 C0 n rs w C F c r w' C' F' :
  placing w0 C0 n rs w C F -> c ∉ rs.*1 -> 0 <= n -> made_unique w C c n r w' C' F' -> placing w0 C0 n (rs ++ [(c, r)]) w' C' F'.
Proof.
  intros [P1 P2 P3 P4 P5 P6 P7] Hc Hn [M1 M2 M3 M4 [M5 M5'] M6 M7 M8 M9 M10 M11 M12].
  assert (Hsame : forall c', c' ∈ rs.*1 -> excs_of C' c' = excs_of C c') by (intros c' Hc'; apply M11; by intros ->).
  constructor; try congruence; try done.
  - intros m c' Hm. by rewrite M7, P5.
  - intros c' e [Hin|[= -> ->]%list_elem_of_singleton]%elem_of_app.
    + pose proof (Hsame c' (list_elem_of_fmap_2 fst rs (c', e) Hin)) as Eq. destruct (P6 c' e Hin) as [Hh Hu].
      unfold held. by rewrite (exc_for_ext _ _ _ _ Eq), (already_unique_ext _ _ _ _ _ Eq).
    + rewrite <- P3. split; [apply M9; lia|done].
  - intros p Hp. rewrite fmap_app. destruct (M12 p Hp) as [H|H].
    + destruct (P7 p H) as (c' & Hc' & He). exists c'. unfold excs_at. rewrite (Hsame c' Hc'). split; [|done]. apply elem_of_app. by left.
    + exists c. split; [|done]. apply elem_of_app. right. by left.
Qed.

Lemma placing_addable w0 C0 n rs w C F :
  placing w0 C0 n rs w C F -> Forall (fun x => 0 <= x < KEY_TOP) rs.*1 -> Forall addable rs.
Proof.
  intros Hp Hall. rewrite Forall_fmap in Hall. rewrite Forall_forall in *. intros [c e] Hin. specialize (Hall _ Hin).
  destruct (pl_own _ _ _ _ _ _ _ Hp c e Hin) as [Hh _]. cbn in Hall. split; cbn; [unfold KEY_TOP in *; lia|].
  by apply (held_pos _ _ _ _ _ _ (pl_store _ _ _ _ _ _ _ Hp) Hh).
Qed.

Section write.
Context (sv0 : server) (C0 : aleaf) (i : nat) (sn : snapshot).
Context (Hsn : snaplist (image (sb (sv_world sv0))) !! i = Some sn) (Hact : is_squashed sn = false) (Hbit : 0 <= sn_bit sn < 64).
Local Abbreviation n := (sn_bit sn).
Local Abbreviation w0 := (sv_world sv0).

Lemma same_slot sv : snaplist (image (sb (sv_world sv))) = snaplist (image (sb w0)) -> snap_slot (sb (sv_world sv)) i = Some sn.
Proof. intros E. unfold snap_slot. apply lookup_app_l_Some. by rewrite E. Qed.

Lemma snapshot_write_chunks_run l rs sv r C F :
  placing w0 C0 n rs (sv_world sv) C F -> same_server sv0 sv -> snaplist (image (sb (sv_world sv))) = snaplist (image (sb w0)) -> add_all true rs new_addto = Some r ->
  NoDup (rs.*1 ++ l) -> (length (rs.*1 ++ l) <= 26)%nat -> Forall (fun x => 0 <= x < KEY_TOP) (rs.*1 ++ l) ->
  Forall (fun c => is_Some (org_data w0 !! c)) l -> write_ready n l (sv_world sv) ->
  wp (snapshot_write_chunks i l SNAPSHOT_WRITE_OK r) (fun o sv' => o.1 = SNAPSHOT_WRITE_OK /\ exists rs' C' F',
    rs'.*1 = rs.*1 ++ l /\ add_all true rs' new_addto = Some o.2 /\ placing w0 C0 n rs' (sv_world sv') C' F' /\
    same_server sv0 sv' /\ write_ready n [] (sv_world sv')) sv.
Proof.
  revert rs sv r C F. induction l as [|c l IH]; intros rs sv r C F Hp Hsame Hlist Hadd Hnd Hlen Hkey Horg Hready; cbn [snapshot_write_chunks].
  { wp_steps. split; [done|]. exists rs, C, F. by rewrite app_nil_r. }
  cbn [write_ready] in Hready. destruct Hready as [Hen Hready]. apply Forall_cons in Horg as [Hoc Horg].
  assert (Hc : c ∉ rs.*1). { apply NoDup_app in Hnd as (_ & Hd & _). intros H. apply (Hd c H). by left. }
  pose proof Hkey as [_ [Hck _]%Forall_cons]%Forall_app. pose proof (pl_store _ _ _ _ _ _ _ Hp) as Hst.
  wp_step. eapply wp_mono; [by apply snap_at_run, same_slot|]. cbv beta. intros sn1 sv1 [-> ->]. rewrite Hact.
  wp_step. apply wp_store. eapply wp_run.
  { apply (make_unique_spec (sv_world sv) C F c n); [done|eapply enough_resources; [done|apply Hst]|done|lia| |].
    - by rewrite (pl_org _ _ _ _ _ _ _ Hp).
    - intros p Hpp Hin. destruct (pl_pend _ _ _ _ _ _ _ Hp p Hpp) as (c' & Hc' & He).
      assert (c' = c) as -> by (eapply excs_at_apart; [apply (so_apart _ _ _ Hst)|done|done]). done. }
  cbv beta. intros e w' Erun (C' & F' & Hmu). rewrite (proj2 (Z.eqb_neq _ _) (mu_result _ _ _ _ _ _ _ _ Hmu)).
  pose proof (placing_step _ _ _ _ _ _ _ _ _ _ _ _ Hp Hc (proj1 Hbit) Hmu) as Hp'.
  assert (Ers : (rs ++ [(c, e)]).*1 ++ l = rs.*1 ++ c :: l) by (rewrite fmap_app, <- app_assoc; done).
  rewrite <- Ers in *. destruct (add_all_some true (rs ++ [(c, e)])) as [r' Hr'].
  { eapply placing_addable; [done|]. by apply Forall_app in Hkey as [? _]. }
  { rewrite length_app, length_fmap in Hlen. lia. }
  pose proof Hr' as Hr0. rewrite (add_all_snoc _ _ _ _ Hadd) in Hr'. cbn [fst snd] in Hr'. unfold or_exit.
  destruct (addto_response r c) as [r1|]; [|done]. cbn in Hr'. wp_steps. rewrite Hr'. wp_steps.
  eapply IH; [done|by etransitivity| |done|done|done|done|done|by eapply Hready].
  cbn. by rewrite (proj2 (mu_snaps _ _ _ _ _ _ _ _ Hmu)).
Qed.
End write.

(** ** What is written then *)

(** The exceptions of the answer belong to the snapshot alone. *)
Lemma placed_values w0 C0 n rs w C F (snap' : gmap Z Z) :
  placing w0 C0 n rs w C F -> pending_copies (sb w) = [] -> 0 <= n < 64 ->
  (forall e, e ∉ rs.*2 -> snap' !! e = snap_data w !! e) ->
  (forall c e, (c, e) ∈ rs -> snap_value (w <| snap_data := snap' |>) C n c = snap' !! e) /\
  (forall m c, 0 <= m < 64 -> m <> n \/ c ∉ rs.*1 -> snap_value (w <| snap_data := snap' |>) C m c = snap_value w0 C0 m c).
Proof.
  intros Hp Hnone Hn Hother. split.
  - intros c e Hin. destruct (pl_own _ _ _ _ _ _ _ Hp c e Hin) as [Hh _]. unfold snap_value, settled. cbn. by rewrite Hh, Hnone.
  - intros m c Hm Hne. rewrite <- (pl_values _ _ _ _ _ _ _ Hp) by done. unfold snap_value, settled. cbn. rewrite Hnone. cbn.
    destruct (held C c m) as [e|] eqn:E; [|done]. apply Hother. intros ([c' e'] & Ee & Hin)%list_elem_of_fmap. cbn in Ee. subst e'.
    destruct (pl_own _ _ _ _ _ _ _ Hp c' e Hin) as [Hh Hu].
    destruct (unique_alone C c' n _ e c m (so_apart _ _ _ (pl_store _ _ _ _ _ _ _ Hp)) Hu Hn Hm Hh E) as [-> ->].
    destruct Hne as [|Hc]; [done|]. by apply Hc, (list_elem_of_fmap_2 fst rs (c', e)).
Qed.

Lemma find_snap_slot s tag i sn : find_snap s tag = Some i -> snap_slot s i = Some sn -> snaplist (image s) !! i = Some sn.
Proof.
  unfold find_snap, find_snap_in, snap_slot. intros ([j x] & Hf & ->)%fmap_Some Hs. cbn in Hs.
  apply list_find_Some in Hf as (Hx & _ & _). rewrite lookup_app_l in Hs; [done|]. by eapply lookup_lt_Some.
Qed.

(** The rule for the handler *)
Lemma query_snapshot_write_spec c sock body sv C F cl i sn :
  let w := sv_world sv in
  let l := rw_chunks body in
  let n := sn_bit sn in
  store_ok w C F -> copy_chunks (sb w) = 0 -> locks_ok sv None ->
  clients sv !! c = Some cl -> find_snap (sb w) (u32 (cl_snaptag cl)) = Some i -> snap_slot (sb w) i = Some sn ->
  is_squashed sn = false -> 0 <= n < 64 -> NoDup l -> (length l <= 26)%nat ->
  Forall (fun x => 0 <= x < KEY_TOP /\ is_Some (org_data w !! x)) l -> write_ready n l w ->
  wp (query_snapshot_write c sock body) (fun _ sv' => let w' := sv_world sv' in
    exists C' F' rs ms, store_ok w' C' F' /\ rs.*1 = l /\
      sent sv' = sent sv ++ (pair sock <$> ms) /\ answered_with true SNAPSHOT_WRITE_OK (rw_id body) rs ms /\
      (forall snap', (forall e, e ∉ rs.*2 -> snap' !! e = snap_data w' !! e) ->
         (forall x e, (x, e) ∈ rs -> snap_value (w' <| snap_data := snap' |>) C' n x = snap' !! e) /\
         (forall m x, 0 <= m < 64 -> m <> n \/ x ∉ l -> snap_value (w' <| snap_data := snap' |>) C' m x = snap_value w C m x)) /\
      (forall m x, 0 <= m < 64 -> snap_value w' C' m x = snap_value w C m x) /\
      org_data w' = org_data w /\ pending_copies (sb w') = [] /\ dirty_buffers w' = [] /\
      locks_ok sv' None /\ (forall x, lock_at sv' x = lock_at sv x) /\ clients sv' = clients sv /\ pendings sv' = pendings sv) sv.
Proof.
  intros w l n Hst H0 Hlk Hcl Hfind Hslot Hact Hn Hnd Hlen Hall Hready. unfold query_snapshot_write. fold l.
  apply Forall_and in Hall as [Hkey Horg]. pose proof (find_snap_slot _ _ _ _ Hfind Hslot) as Hsn.
  wp_step. eapply wp_mono; [by eapply client_snap_run|]. cbv beta. intros j sv1 [-> ->].
  assert (Hstart : placing w C n [] w C F).
  { constructor; try done; [by intros x e []%elem_of_nil|]. intros p Hp. unfold pending_copies in Hp. rewrite H0 in Hp. by apply elem_of_nil in Hp. }
  wp_step. eapply wp_mono; [by apply (snapshot_write_chunks_run sv C i sn Hsn Hact Hn l [] sv new_addto C F)|]. cbv beta.
  intros [code r] sv1 (Ecode & rs & C' & F' & Ers & Hadd & Hp & Hsame & Hready1). cbn in Ecode, Ers, Hadd. subst code.
  wp_step. apply wp_store. eapply wp_run; [eapply finish_store, Hp|]. cbv beta. intros r2 w2 Erun [[S1 S2 S3 S4 S5] Ep2].
  wp_step. apply wp_store. cbn [sv_world set]. eapply wp_mono; [apply (commit_store false w2 C' F' S1); by eapply Hready1|]. cbv beta.
  intros _ w3 ([T1 T2 T3 T4 T5] & Ep3 & Hd3). rewrite Ep2 in Ep3. set (sv3 := sv1 <| sv_world := w2 |> <| sv_world := w3 |>).
  assert (Hs3 : same_server sv sv3) by (etransitivity; [exact Hsame|reflexivity]).
  assert (Hfix : fixed (sb w3) = fixed (sb w)) by (rewrite T5, S5; apply Hp).
  assert (Hrest : sent sv1 = sent sv /\ clients sv1 = clients sv /\ pendings sv1 = pendings sv) by by rewrite Hsame.
  destruct Hrest as (R1 & R2 & R3). destruct (same_server_locks sv sv3 Hs3 Hfix) as [Hlk3 Hla].
  assert (Hp3 : placing w C n rs w3 C' F').
  { destruct Hp as [P1 P2 P3 P4 P5 P6 P7]. fold w in P2, P3, P4, P5. constructor; try done; try (cbn in S3, S4; congruence).
    - intros m x Hm. rewrite <- P5 by done. unfold snap_value. by rewrite T2, T3, S2, S3.
    - intros p Hpp. rewrite Ep3 in Hpp. by apply elem_of_nil in Hpp. }
  eapply wp_mono; [apply (send_reply_run true rs); [eapply placing_addable; [done|by rewrite Ers]| |done]|].
  { by rewrite <- (length_fmap fst), Ers. }
  cbv beta. intros _ sv4 (ms & Hms & ->). exists C', F', rs, ms.
  split_and!; try done.
  - cbn. by rewrite R1.
  - intros snap' Hsn'. destruct (placed_values w C n rs w3 C' F' snap' Hp3 Ep3 Hn Hsn') as [V1 V2]. split; [exact V1|].
    intros m x Hm Hx. apply V2; [done|by rewrite Ers].
  - apply Hp3.
  - apply Hp3.
  - destruct (Hlk3 None Hlk) as [[] []]. by split; constructor.
Qed.

(** C4: A write to a snapshot is answered with a chunk of the store for every
    chunk of the query, and the snapshot shares none of them: whatever is written
    to these chunks of the store, the snapshot reads it back, while every other
    snapshot, and the snapshot itself at every other chunk, reads what it read
    before the query.  When the answer goes out, the copies are done and the
    metadata is on the device. *)
Theorem query_snapshot_write_correct c sock body sv C F cl i sn :
  let w := sv_world sv in
  let l := rw_chunks body in
  let n := sn_bit sn in
  store_ok w C F -> copy_chunks (sb w) = 0 -> locks_ok sv None ->
  clients sv !! c = Some cl -> find_snap (sb w) (u32 (cl_snaptag cl)) = Some i -> snap_slot (sb w) i = Some sn ->
  is_squashed sn = false -> 0 <= n < 64 -> NoDup l -> (length l <= 26)%nat ->
  Forall (fun x => 0 <= x < KEY_TOP /\ is_Some (org_data w !! x)) l -> write_ready n l w ->
  wp (query_snapshot_write c sock body) (fun _ sv' => let w' := sv_world sv' in
    exists C' F' rs ms, store_ok w' C' F' /\ rs.*1 = l /\
      sent sv' = sent sv ++ (pair sock <$> ms) /\ answered_with true SNAPSHOT_WRITE_OK (rw_id body) rs ms /\
      (forall snap', (forall e, e ∉ rs.*2 -> snap' !! e = snap_data w' !! e) ->
         (forall x e, (x, e) ∈ rs -> snap_value (w' <| snap_data := snap' |>) C' n x = snap' !! e) /\
         (forall m x, 0 <= m < 64 -> m <> n \/ x ∉ l -> snap_value (w' <| snap_data := snap' |>) C' m x = snap_value w C m x)) /\
      (forall m x, 0 <= m < 64 -> snap_value w' C' m x = snap_value w C m x) /\
      org_data w' = org_data w /\ pending_copies (sb w') = [] /\ dirty_buffers w' = [] /\
      locks_ok sv' None /\ (forall x, lock_at sv' x = lock_at sv x) /\ clients sv' = clients sv /\ pendings sv' = pendings sv) sv.
Proof. apply query_snapshot_write_spec. Qed.
