(* ===== verification/Client.v ===== *)
(** * The device-mapper client (kernel/dm-ddsnap.c)

    A client serves one block device, the origin or a snapshot.  [ddsnap_map]
    takes requests ([struct bio]); three kernel threads do the rest: [worker]
    sends queries and releases to the server, [incoming] handles the answers and
    [control] the connection.  The code between two points where a thread can
    wait or let another one run (a semaphore, the end of a spinlock, a message)
    is one step; a thread is where it stands in its function.

    Pointers to bios and hooks are names in finite maps, so that a pointer to
    freed memory is a name that is not in its map: a bio leaves its map when it is
    handed back to its owner, who may free it.  A name stands for one request and
    is not used again.  Semaphores are their counts.
    A message to a socket arrives or fails as a whole. *)

From stdpp Require Import strings.
From S2P Require Import Prelude Bytes State Locks Reply Server.

(** ** Messages that only the client and the agent use *)

Definition SNAPSHOT_READ_ORIGIN_ERROR : Z := code_base + 13.
Definition NEED_SERVER : Z := code_base + 22.
Definition CONNECT_SERVER : Z := code_base + 23.
Definition CONNECT_SERVER_OK : Z := code_base + 24.
Definition CONNECT_SERVER_ERROR : Z := code_base + 25.
Definition SET_IDENTITY : Z := code_base + 30.

(** ** Data *)

Definition SECTOR_SHIFT : Z := 9.
Definition IS_SNAP_FLAG : Z := 1.
Definition REPORT_FLAG : Z := 2.
Definition RECOVER_FLAG : Z := 4.
Definition FINISH_FLAG : Z := 8.
Definition READY_FLAG : Z := 16.
Definition NUM_BUCKETS : nat := 64.

Inductive direction := READ | WRITE.
Inductive device := ORGDEV | SNAPDEV.

#[export] Instance direction_eq_dec : EqDecision direction.
Proof. solve_decision. Defined.
#[export] Instance device_eq_dec : EqDecision device.
Proof. solve_decision. Defined.

(** [struct bio]; [bi_end_io] is the hook in [bi_private] when the completion
    goes to [snapshot_read_end_io], and None for the owner's callback. *)
Record bio := mkBio {
  bi_rw : direction;
  bi_bdev : device;
  bi_sector : Z;
  bi_end_io : option Z }.

#[export] Instance eta_bio : Eta bio := fun r => mkBio (bi_rw r) (bi_bdev r) (bi_sector r) (bi_end_io r).

(** [struct pending] of the client *)
Record request := mkRequest {
  rq_id : Z;
  rq_chunk : Z;
  rq_chunks : Z;
  rq_bio : Z }.

(** [struct hook]; [hk_ended] is [old_end_io == NULL]. *)
Record hook := mkHook { hk_sector : Z; hk_ended : bool }.

#[export] Instance eta_hook : Eta hook := fun r => mkHook (hk_sector r) (hk_ended r).

(** [struct devinfo], the bios and hooks it points to, and what the client did:
    bios at the devices, bios handed back (with or without an error), messages
    to the server (with the number of the connection) and to the agent. *)
Record devinfo := mkInfo {
  di_id : Z;
  di_flags : Z;
  di_chunksize_bits : Z;
  di_chunkshift : Z;
  di_snap : Z;
  di_nextid : Z;
  di_sock : option Z;
  di_more_work : Z;
  di_server_in : Z;
  di_server_out : Z;
  di_recover : Z;
  di_identify : Z;
  di_pending : list (list request);
  di_queries : list request;
  di_releases : list Z;
  di_locked : list Z;
  di_dont_switch : bool;
  di_bios : gmap Z bio;
  di_hooks : gmap Z hook;
  di_next_hook : Z;
  di_accepted : list Z;
  di_inflight : list Z;
  di_ended : list Z;
  di_failed : list Z;
  di_to_server : list (Z * message);
  di_to_control : list message }.

#[export] Instance eta_info : Eta devinfo := fun r =>
  mkInfo (di_id r) (di_flags r) (di_chunksize_bits r) (di_chunkshift r) (di_snap r) (di_nextid r) (di_sock r)
    (di_more_work r) (di_server_in r) (di_server_out r) (di_recover r) (di_identify r) (di_pending r) (di_queries r)
    (di_releases r) (di_locked r) (di_dont_switch r) (di_bios r) (di_hooks r) (di_next_hook r) (di_accepted r)
    (di_inflight r) (di_ended r) (di_failed r) (di_to_server r) (di_to_control r).

Abbreviation kprog := (M devinfo).

Definition flag (i : devinfo) (f : Z) : bool := negb (Z.land (di_flags i) f =? 0).
Definition set_flag (f : Z) (i : devinfo) : devinfo := i <| di_flags ::= fun x => Z.lor x f |>.
Definition clear_flag (f : Z) (i : devinfo) : devinfo := i <| di_flags ::= fun x => Z.land x (Z.lnot f) |>.

Definition is_snapshot (i : devinfo) : bool := flag i IS_SNAP_FLAG.
Definition running (i : devinfo) : bool := negb (flag i FINISH_FLAG).
Definition worker_running (i : devinfo) : bool := negb (flag i (Z.lor FINISH_FLAG RECOVER_FLAG)).
Definition worker_ready (i : devinfo) : bool := worker_running i && flag i READY_FLAG.

Definition hash_pending (id : Z) : nat := Z.to_nat (Z.land id 63).

(** Following a pointer to a bio or a hook *)
Definition get_bio (b : Z) : kprog bio :=
  i ← get; match di_bios i !! b with Some x => mret x | None => halt_with WildAccess end.
Definition upd_bio (b : Z) (f : bio -> bio) : kprog unit :=
  x ← get_bio b; modify (fun i => i <| di_bios ::= insert b (f x) |>).
Definition get_hook (h : Z) : kprog hook :=
  i ← get; match di_hooks i !! h with Some x => mret x | None => halt_with WildAccess end.
Definition upd_hook (h : Z) (f : hook -> hook) : kprog unit :=
  x ← get_hook h; modify (fun i => i <| di_hooks ::= insert h (f x) |>).
(** [kmem_cache_free(end_io_cache, hook)] *)
Definition free_hook (h : Z) : kprog unit := modify (fun i => i <| di_hooks ::= delete h |>).

(** [bio_io_error] hands a bio back, [generic_make_request] gives it to a device. *)
Definition bio_io_error (b : Z) : kprog unit :=
  get_bio b;; modify (fun i => i <| di_failed ::= cons b |> <| di_bios ::= delete b |>).
Definition generic_make_request (b : Z) : kprog unit :=
  get_bio b;; modify (fun i => i <| di_inflight ::= cons b |>).

(** [list_del] of a hook from the list that it is on *)
Definition unlink (h : Z) (l : list Z) : list Z := filter (fun x => x <> h) l.
(** [list_move(&hook->list, &info->releases)] *)
Definition move_to_releases (h : Z) (i : devinfo) : devinfo :=
  i <| di_locked ::= unlink h |> <| di_releases ::= fun l => h :: unlink h l |>.

(** [up] *)
Definition up_more_work (i : devinfo) : devinfo := i <| di_more_work ::= Z.add 1 |>.

(** ** Messages to the server *)

(** [struct rw_request1] with one range *)
Definition rw_request1 (id chunk chunks : Z) : list Z :=
  le_split 4 id ++ le_split 2 1 ++ le_split 8 chunk ++ le_split 2 chunks.

(** [outbead] and [writesocket]: [ok] is false when the socket is broken. *)
Definition out_socket (sock : option Z) (ok : bool) (m : message) : kprog Z :=
  match sock with
  | None => halt_with WildAccess
  | Some s => if ok then modify (fun i => i <| di_to_server ::= fun l => l ++ [(s, m)] |>);; mret 0 else mret (-1)
  end.
Definition out_server (ok : bool) (m : message) : kprog Z := i ← get; out_socket (di_sock i) ok m.
Definition out_control (ok : bool) (m : message) : kprog Z :=
  if ok then modify (fun i => i <| di_to_control ::= fun l => l ++ [m] |>);; mret 0 else mret (-1).

(** ** Requests *)

(** [ddsnap_map]: 1 for a request that goes to the origin as it is, 0 for one
    that is kept, negative for an error. *)
Definition ddsnap_map (b : Z) (rw : direction) (sector : Z) : kprog Z :=
  i ← get;
  if negb (flag i READY_FLAG) then mret (- EIO)
  else if bool_decide (rw = READ) && negb (is_snapshot i) then mret 1
  else
    let id := u32 (di_nextid i) in
    modify (fun i => i <| di_nextid := s32 (u32 (id + 1)) |>);;
    if negb (worker_ready i) then mret (- EIO)
    else
      modify (fun i => i <| di_bios ::= insert b (mkBio rw ORGDEV sector None) |>
        <| di_queries ::= cons (mkRequest id (Z.shiftr sector (di_chunkshift i)) 1 b) |>
        <| di_accepted ::= cons b |>);;
      modify up_more_work;;
      mret 0.

(** ** The end of a read from the origin, in interrupt context *)

Definition snapshot_read_end_io (b h : Z) : kprog unit :=
  upd_bio b (fun x => x <| bi_end_io := None |>);;
  upd_hook h (fun x => x <| hk_ended := true |>);;
  i ← get;
  (if negb (flag i READY_FLAG) then free_hook h
   else if negb (di_dont_switch i) then modify (move_to_releases h)
   else mret tt);;
  modify up_more_work.

(** A device is done with a bio, which goes back to its owner. *)
Definition end_io (b : Z) : kprog unit :=
  x ← get_bio b;
  (match bi_end_io x with Some h => snapshot_read_end_io b h | None => mret tt end);;
  modify (fun i => i <| di_inflight ::= fun l => unlink b l |> <| di_ended ::= cons b |> <| di_bios ::= delete b |>).

(** ** Answers *)

(** The first request of a bucket with the id, taken off its list *)
Fixpoint take_request (id : Z) (l : list request) : option (request * list request) :=
  match l with
  | [] => None
  | r :: l' =>
      if rq_id r =? id then Some (r, l')
      else '(x, l'') ← take_request id l'; Some (x, r :: l'')
  end.

(** The chunks of a range in the snapshot store, from the exceptions at [p] *)
Fixpoint remap (b shift : Z) (body : list Z) (chunks p : nat) : kprog nat :=
  match chunks with
  | O => mret p
  | S n =>
      upd_bio b (fun x => x <| bi_bdev := SNAPDEV |>
        <| bi_sector ::= fun sector =>
             u64 (u64 (Z.shiftl (ld64 p body) shift) + Z.land sector (Z.shiftl 1 shift - 1)) |>);;
      remap b shift body n (p + 8)
  end.

(** A read from the origin is hooked, so that its lock is released. *)
Definition add_hook (b : Z) : kprog unit :=
  x ← get_bio b;
  i ← get;
  let h := di_next_hook i in
  modify (fun i => i <| di_next_hook ::= Z.add 1 |> <| di_hooks ::= insert h (mkHook (bi_sector x) false) |>
    <| di_bios ::= insert b (x <| bi_end_io := Some h |>) |> <| di_locked ::= cons h |>).

(** The loop of [replied_rw] over [n] ranges, the next one at [p].  The body of a
    failed request is not skipped. *)
Fixpoint replied_ranges (body : list Z) (rw : direction) (snap failed_io : bool) (n p : nat) : kprog Z :=
  match n with
  | O => mret 0
  | S n' =>
      let chunks := ld16 (p + 8) body in
      let id := ld32 0 body in
      assertM (chunks =? 1);;
      i ← get;
      let k := hash_pending id in
      match di_pending i !! k ≫= take_request id with
      | None => mret (-1)
      | Some (r, l) =>
          modify (fun i => i <| di_pending ::= insert k l |>);;
          if failed_io : bool then bio_io_error (rq_bio r);; replied_ranges body rw snap failed_io n' p
          else if negb (chunks =? rq_chunks r) then bio_io_error (rq_bio r);; mret (-1)
          else
            let shift := u32 (di_chunksize_bits i - SECTOR_SHIFT) in
            p ← (if snap : bool then remap (rq_bio r) shift body (Z.to_nat chunks) (p + 10)
                 else (if bool_decide (rw = READ) then add_hook (rq_bio r) else mret tt);; mret (p + 10)%nat);
            generic_make_request (rq_bio r);;
            replied_ranges body rw snap failed_io n' p
      end
  end.

Definition replied_rw (body : list Z) (rw : direction) (snap failed_io : bool) : kprog Z :=
  replied_ranges body rw snap failed_io (Z.to_nat (ld16 4 body)) 6.

(** What an answer means: the direction, the snapshot store or the origin, and
    whether it failed *)
Definition rw_answer (code : Z) : option (direction * bool * bool) :=
  if code =? ORIGIN_WRITE_ERROR then Some (WRITE, false, true)
  else if code =? ORIGIN_WRITE_OK then Some (WRITE, false, false)
  else if code =? SNAPSHOT_WRITE_ERROR then Some (WRITE, true, true)
  else if code =? SNAPSHOT_WRITE_OK then Some (WRITE, true, false)
  else if code =? SNAPSHOT_READ_ORIGIN_ERROR then Some (READ, false, true)
  else if code =? SNAPSHOT_READ_ORIGIN_OK then Some (READ, false, false)
  else if code =? SNAPSHOT_READ_ERROR then Some (READ, true, true)
  else if code =? SNAPSHOT_READ_OK then Some (READ, true, false)
  else None.

Definition unknown_message (code : Z) (t : string) : message :=
  mkMessage PROTOCOL_ERROR (le_split 4 ERROR_UNKNOWN_MESSAGE ++ le_split 4 code ++ text_bytes t).

Definition identify_ok (ok : bool) (body : list Z) : kprog unit :=
  let bits := ld32 0 body in
  modify (fun i => set_flag READY_FLAG i <| di_chunksize_bits := bits |> <| di_chunkshift := u32 (bits - SECTOR_SHIFT) |>
    <| di_server_out ::= Z.add 1 |>);;
  out_control ok (mkMessage CONNECT_SERVER_OK []);;
  modify (fun i => i <| di_identify ::= Z.add 1 |>).

(** The error goes to the agent; its text ends with a NUL.  A body without room
    for the error makes a length that is not positive. *)
Definition identify_error (ok : bool) (body : list Z) : kprog unit :=
  if (length body <? 4)%nat then halt_with WildAccess
  else
    let text := drop 4 body in
    out_control ok (mkMessage CONNECT_SERVER_ERROR (take 4 body ++ take (length text - 1) text ++ (if text is [] then [] else [0])));;
    modify (fun i => i <| di_identify ::= Z.add 1 |>).

(** The body of the loop of [incoming] for a message of the server; false when
    the thread ends. *)
Definition incoming_message (sock : option Z) (ok : bool) (m : message) : kprog bool :=
  let body := m_body m in
  if (maxbody <? length body)%nat then mret false
  else match rw_answer (m_code m) with
  | Some (rw, snap, failed_io) =>
      if (length body <? sizeof_rw_request)%nat then mret false
      else replied_rw body rw snap failed_io;; mret true
  | None =>
      (if m_code m =? IDENTIFY_OK then identify_ok ok body
       else if m_code m =? IDENTIFY_ERROR then identify_error ok body
       else if m_code m =? PROTOCOL_ERROR then mret tt
       else out_socket sock ok (unknown_message (m_code m) "Unknown message accepted by client kernel thread");; mret tt);;
      mret true
  end.

(** ** Recovery *)

(** The first part of [upload_locks]: the releases are dropped. *)
Definition drop_releases : kprog unit :=
  i ← get;
  foreach (reverse (di_releases i)) (fun h => modify (fun i => i <| di_releases ::= unlink h |>);; free_hook h).

Definition upload_begin : kprog unit := modify (fun i => i <| di_dont_switch := true |>);; drop_releases.

(** One lock of the loop: a read that ended has no lock any more. *)
Definition upload_lock (ok : bool) (h : Z) : kprog unit :=
  x ← get_hook h;
  if hk_ended x then modify (fun i => i <| di_locked ::= unlink h |>);; free_hook h
  else
    i ← get;
    out_server ok (mkMessage UPLOAD_LOCK (rw_request1 0 (Z.shiftr (hk_sector x) (di_chunkshift i)) 1));;
    mret tt.

(** The last part of [upload_locks] *)
Definition upload_end : kprog unit :=
  i ← get;
  (if worker_ready i then
     foreach (di_locked i) (fun h => x ← get_hook h; if hk_ended x then modify (move_to_releases h) else mret tt)
   else mret tt);;
  modify (fun i => i <| di_dont_switch := false |>).

(** A bucket is emptied from its front into the queries. *)
Definition requeue_queries : kprog unit :=
  foreach (seq 0 NUM_BUCKETS) (fun k =>
    i ← get;
    let l := default [] (di_pending i !! k) in
    modify (fun i => i <| di_pending ::= insert k [] |> <| di_queries ::= fun q => reverse l ++ q |>
      <| di_more_work ::= Z.add (Z.of_nat (length l)) |>)).

(** ** The end of the agent *)

(** The requests of a list, which they are off *)
Definition flush_list (l : list request) : kprog unit := foreach l (fun r => bio_io_error (rq_bio r)).

Definition flush_pending_bio : kprog unit :=
  i ← get;
  modify (fun i => i <| di_queries := [] |>);;
  flush_list (di_queries i);;
  foreach (seq 0 NUM_BUCKETS) (fun k =>
    i ← get;
    modify (fun i => i <| di_pending ::= insert k [] |>);;
    flush_list (default [] (di_pending i !! k)));;
  i ← get;
  foreach (di_releases i) (fun h => modify (fun i => i <| di_releases ::= unlink h |>);; free_hook h);;
  modify up_more_work.

(** ** The threads *)

(** Where [worker] stands *)
Inductive worker_pc :=
  | WRecover                                      (* recover: down(recover_sem) *)
  | WUploadStart                                  (* the loop of upload_locks starts *)
  | WUpload (todo : list Z)                       (* ... has these hooks to do *)
  | WUploaded                                     (* the last part of upload_locks *)
  | WRequeue                                      (* requeue_queries *)
  | WLoop                                         (* while (worker_running(info)) *)
  | WWait                                         (* down(more_work_sem) *)
  | WQueries                                      (* the loop over the queries *)
  | WQuery (bio id chunk chunks : Z)              (* down(server_out_sem), then the query *)
  | WReleases                                     (* the loop over the releases *)
  | WRelease (chunk : Z)                          (* down(server_out_sem), then the release *)
  | WReport                                       (* report: report_error *)
  | WReporting                                    (* down(recover_sem) in report_error *)
  | WDown                                         (* down(server_out_sem) before recovery *)
  | WExit.

(** Where [incoming] stands *)
Inductive incoming_pc :=
  | IConnect                                      (* connect: NEED_SERVER *)
  | IWait                                         (* down(server_in_sem) *)
  | IRun (sock : option Z)                        (* while (running(info)) *)
  | IReport
  | IReporting
  | IExit.

Inductive control_pc := CRun | CExit.

Record kernel := mkKernel {
  k_info : devinfo;
  k_worker : worker_pc;
  k_incoming : incoming_pc;
  k_control : control_pc }.

#[export] Instance eta_kernel : Eta kernel := fun r => mkKernel (k_info r) (k_worker r) (k_incoming r) (k_control r).

(** A thread that waits has no step: [None]. *)
Abbreviation step_of pc := (kprog (option pc)).

Definition go {pc} (p : pc) : step_of pc := mret (Some p).
Definition blocked {pc} : step_of pc := mret None.

(** [down] of a semaphore, then the rest *)
Definition down {pc} (sem : devinfo -> Z) (take : devinfo -> devinfo) (rest : step_of pc) : step_of pc :=
  i ← get;
  if sem i <=? 0 then blocked else modify take;; rest.

Definition down_more_work {pc} : step_of pc -> step_of pc := down di_more_work (fun i => i <| di_more_work ::= fun n => n - 1 |>).
Definition down_server_in {pc} : step_of pc -> step_of pc := down di_server_in (fun i => i <| di_server_in ::= fun n => n - 1 |>).
Definition down_server_out {pc} : step_of pc -> step_of pc := down di_server_out (fun i => i <| di_server_out ::= fun n => n - 1 |>).
Definition down_recover {pc} : step_of pc -> step_of pc := down di_recover (fun i => i <| di_recover ::= fun n => n - 1 |>).
Definition up_server_out : kprog unit := modify (fun i => i <| di_server_out ::= Z.add 1 |>).

(** [report_error] up to its wait, and from there *)
Definition report_error {pc} (waiting back : pc) : step_of pc :=
  i ← get;
  if flag i REPORT_FLAG then go back
  else modify (fun i => up_more_work (set_flag REPORT_FLAG i));; go waiting.
Definition report_wait {pc} (back : pc) : step_of pc := down_recover (modify (set_flag RECOVER_FLAG);; go back).

(** A query goes from the end of the queries to its bucket. *)
Definition next_query : step_of worker_pc :=
  i ← get;
  match last (di_queries i) with
  | Some r =>
      if worker_ready i then
        let k := hash_pending (rq_id r) in
        modify (fun i => i <| di_queries ::= fun l => take (length l - 1) l |>
          <| di_pending ::= alter (cons r) k |>);;
        go (WQuery (rq_bio r) (rq_id r) (rq_chunk r) (rq_chunks r))
      else go WReleases
  | None => go WReleases
  end.

Definition next_release : step_of worker_pc :=
  i ← get;
  match last (di_releases i) with
  | Some h =>
      if worker_ready i then
        x ← get_hook h;
        modify (fun i => i <| di_releases ::= unlink h |>);;
        free_hook h;;
        go (WRelease (Z.shiftr (hk_sector x) (di_chunkshift i)))
      else go WLoop
  | None => go WLoop
  end.

(** A message that is sent with [server_out_sem] down; it stays down when the
    socket is broken. *)
Definition send_message (ok : bool) (make : kprog message) (next : worker_pc) : step_of worker_pc :=
  down_server_out (m ← make; err ← out_server ok m; if negb (err =? 0) then go WReport else up_server_out;; go next).

(** The direction of a query is found in the bio when the query is sent. *)
Definition query_message (bio id chunk chunks : Z) : kprog message :=
  x ← get_bio bio;
  mret (mkMessage (match bi_rw x with WRITE => QUERY_WRITE | READ => QUERY_SNAPSHOT_READ end) (rw_request1 id chunk chunks)).

Definition worker_step (ok : bool) (pc : worker_pc) : step_of worker_pc :=
  match pc with
  | WRecover => down_recover (
      i ← get;
      if flag i FINISH_FLAG then go WExit
      else if is_snapshot i then upload_begin;; go WUploadStart
      else go WRequeue)
  | WUploadStart => i ← get; go (WUpload (di_locked i))
  | WUpload (h :: todo) => upload_lock ok h;; go (WUpload todo)
  | WUpload [] => out_server ok (mkMessage FINISH_UPLOAD_LOCK []);; go WUploaded
  | WUploaded => upload_end;; go WRequeue
  | WRequeue =>
      requeue_queries;;
      modify (fun i => clear_flag (Z.lor RECOVER_FLAG REPORT_FLAG) i <| di_recover ::= Z.add 1 |>);;
      go WLoop
  | WLoop =>
      i ← get;
      if worker_running i then go WWait
      else if flag i RECOVER_FLAG then go WDown
      else go WExit
  | WWait => down_more_work (go WQueries)
  | WQueries => next_query
  | WQuery bio id chunk chunks => send_message ok (query_message bio id chunk chunks) WQueries
  | WReleases => next_release
  | WRelease chunk => send_message ok (mret (mkMessage FINISH_SNAPSHOT_READ (rw_request1 0 chunk 1))) WReleases
  | WReport => report_error WReporting WRecover
  | WReporting => report_wait WRecover
  | WDown => down_server_out (modify up_more_work;; go WRecover)
  | WExit => blocked
  end.

(** What [incoming] reads from the socket: a message, or an error. *)
Definition incoming_step (ok : bool) (input : option message) (pc : incoming_pc) : step_of incoming_pc :=
  match pc with
  | IConnect => out_control ok (mkMessage NEED_SERVER []);; go IWait
  | IWait => down_server_in (i ← get; go (IRun (di_sock i)))
  | IRun sock =>
      i ← get;
      if negb (running i) then go IExit
      else match input with
      | Some m => b ← incoming_message sock ok m; go (if b : bool then IRun sock else IExit)
      | None => go IReport
      end
  | IReport =>
      i ← get;
      if negb (running i) then go IExit else report_error IReporting IConnect
  | IReporting => report_wait IConnect
  | IExit => blocked
  end.

(** What [control] reads: an error, or a message; with it, what [recv_socket] gives
    if it is called then: an error, the end of the stream, or a socket. *)
Inductive received := RecvError | RecvEof | RecvSocket (s : Z).
Inductive control_input :=
  | ControlError
  | ControlMessage (m : message) (r : received).

(** The [IDENTIFY] message *)
Definition identify_body (id snap off len : Z) : list Z :=
  le_split 8 id ++ le_split 4 snap ++ le_split 8 off ++ le_split 8 len.

Section control.
(** The place and size of the target, in sectors *)
Context (begin len : Z).

Definition connect_server (ok : bool) (r : received) : kprog control_pc :=
  match r with
  | RecvError => mret CRun
  | _ =>
      modify (fun i => match r with RecvSocket s => i <| di_sock := Some s |> | _ => i end);;
      modify (fun i => i <| di_server_in ::= Z.add 1 |>);;
      i ← get;
      err ← out_server ok (mkMessage IDENTIFY (identify_body (di_id i) (di_snap i) begin len));
      if err <? 0 then mret CExit
      else modify (fun i => i <| di_recover ::= Z.add 1 |>);; mret CRun
  end.

Definition control_message (ok : bool) (m : message) (r : received) : kprog control_pc :=
  if (maxbody <? length (m_body m))%nat then mret CExit
  else if m_code m =? SET_IDENTITY then modify (fun i => i <| di_id := ld64 0 (m_body m) |>);; mret CRun
  else if m_code m =? CONNECT_SERVER then connect_server ok r
  else if m_code m =? PROTOCOL_ERROR then mret CRun
  else out_control ok (unknown_message (m_code m) "Unknown message accepted by control kernel thread");; mret CRun.

(** [socket_error] of [control]: the device is not ready any more. *)
Definition control_error : kprog control_pc :=
  i ← get;
  (if negb (flag i FINISH_FLAG) then modify (clear_flag READY_FLAG);; flush_pending_bio else mret tt);;
  mret CExit.

Definition control_step (ok : bool) (input : control_input) (pc : control_pc) : step_of control_pc :=
  match pc with
  | CExit => blocked
  | CRun =>
      i ← get;
      pc ← (if negb (running i) then mret CExit
            else match input with
            | ControlError => control_error
            | ControlMessage m r => control_message ok m r
            end);
      (match pc with CExit => modify (fun i => i <| di_identify ::= Z.add 1 |>) | CRun => mret tt end);;
      go pc
  end.

(** ** Creation and destruction *)

(** [ddsnap_create] before it starts the threads *)
Definition new_devinfo (snap : Z) : devinfo :=
  mkInfo 0 (if 0 <=? snap then IS_SNAP_FLAG else 0) 12 (12 - SECTOR_SHIFT) snap 0 None 0 0 0 0 0
    (replicate NUM_BUCKETS []) [] [] [] false ∅ ∅ 0 [] [] [] [] [] [].

Definition ddsnap_create (snap : Z) : kernel := mkKernel (new_devinfo snap) WRecover IConnect CRun.

(** [ddsnap_destroy] up to its wait for the threads *)
Definition ddsnap_destroy : kprog unit :=
  modify (fun i => set_flag FINISH_FLAG i <| di_server_in ::= Z.add 1 |> <| di_server_out ::= Z.add 1 |>
    <| di_recover ::= Z.add 1 |> <| di_more_work ::= Z.add 1 |>).

(** ** Steps of the client

    Any thread that is not blocked can do its next step, requests can come at any
    time, and a device can end a request that it has. *)

Inductive kstep : kernel -> kernel -> Prop :=
  | step_map k b rw sector r i :
      b ∉ di_accepted (k_info k) -> is_u64 sector ->
      ddsnap_map b rw sector (k_info k) = Done r i -> kstep k (k <| k_info := i |>)
  | step_end_io k b i :
      b ∈ di_inflight (k_info k) -> end_io b (k_info k) = Done tt i -> kstep k (k <| k_info := i |>)
  | step_worker k ok pc i :
      worker_step ok (k_worker k) (k_info k) = Done (Some pc) i -> kstep k (k <| k_info := i |> <| k_worker := pc |>)
  | step_incoming k ok input pc i :
      incoming_step ok input (k_incoming k) (k_info k) = Done (Some pc) i -> kstep k (k <| k_info := i |> <| k_incoming := pc |>)
  | step_control k ok input pc i :
      control_step ok input (k_control k) (k_info k) = Done (Some pc) i -> kstep k (k <| k_info := i |> <| k_control := pc |>)
  | step_destroy k i :
      ddsnap_destroy (k_info k) = Done tt i -> kstep k (k <| k_info := i |>).

(** A step as a function of what happens: [None] when it cannot *)
Inductive event :=
  | EMap (b : Z) (rw : direction) (sector : Z)
  | EEnd (b : Z)
  | EWorker (ok : bool)
  | EIncoming (ok : bool) (input : option message)
  | EControl (ok : bool) (input : control_input)
  | EDestroy.

Definition returned {A} (o : outcome devinfo A) : option (A * devinfo) :=
  match o with Done a i => Some (a, i) | Halt _ => None end.

Definition run_event (e : event) (k : kernel) : option kernel :=
  let i := k_info k in
  match e with
  | EMap b rw sector =>
      if bool_decide (b ∉ di_accepted i) && (0 <=? sector) && (sector <? 2 ^ 64)
      then '(_, i) ← returned (ddsnap_map b rw sector i); Some (k <| k_info := i |>) else None
  | EEnd b => if bool_decide (b ∈ di_inflight i) then '(_, i) ← returned (end_io b i); Some (k <| k_info := i |>) else None
  | EWorker ok => '(r, i) ← returned (worker_step ok (k_worker k) i); pc ← r; Some (k <| k_info := i |> <| k_worker := pc |>)
  | EIncoming ok input => '(r, i) ← returned (incoming_step ok input (k_incoming k) i); pc ← r; Some (k <| k_info := i |> <| k_incoming := pc |>)
  | EControl ok input => '(r, i) ← returned (control_step ok input (k_control k) i); pc ← r; Some (k <| k_info := i |> <| k_control := pc |>)
  | EDestroy => '(_, i) ← returned (ddsnap_destroy i); Some (k <| k_info := i |>)
  end.

Definition run_events (l : list event) (k : kernel) : option kernel := foldl (fun o e => o ≫= run_event e) (Some k) l.

Definition reachable (snap : Z) (k : kernel) : Prop := rtc kstep (ddsnap_create snap) k.
End control.

(** The counters of /proc/driver/ddsnap; a walk over hooks follows them. *)
Fixpoint walk_hooks (l : list Z) (total : nat) : kprog nat :=
  match l with
  | [] => mret total
  | h :: l' => get_hook h;; walk_hooks l' (S total)
  end.

Definition ddsnap_pending_queries (i : devinfo) : nat := sum_list (length <$> di_pending i).
Definition ddsnap_queries_queries (i : devinfo) : nat := length (di_queries i).
Definition ddsnap_releases_queries : kprog nat := i ← get; walk_hooks (di_releases i) 0.
Definition ddsnap_locked_queries : kprog nat := i ← get; walk_hooks (di_locked i) 0.
