(* ===== verification/ClientSpec.v ===== *)
(** * Requests of the client

    Every request that the client accepts is in one place at any time: it waits
    to be sent, it waits for its answer, it is at a device, or it was handed back,
    with or without an error.  None is lost and none is handed back twice,
    whatever the threads, the server, the agent and the devices do. *)

From S2P Require Import Prelude Bytes State Locks Reply Server Client.

(** ** The invariant *)

Definition outstanding (i : devinfo) : list request := di_queries i ++ concat (di_pending i).

(** The requests of [hand] are on their way from one place to another. *)
Record requests_with (hand : list Z) (i : devinfo) : Prop := {
  ro_buckets : length (di_pending i) = NUM_BUCKETS;
  ro_hash : forall k l r, di_pending i !! k = Some l -> r ∈ l -> hash_pending (rq_id r) = k;
  ro_once : NoDup (di_accepted i);
  ro_account : di_accepted i ≡ₚ hand ++ (rq_bio <$> outstanding i) ++ di_inflight i ++ di_ended i ++ di_failed i;
  (* the bios that were not handed back *)
  ro_bios : forall b, b ∈ hand ++ (rq_bio <$> outstanding i) ++ di_inflight i -> is_Some (di_bios i !! b);
  ro_one : forall r, r ∈ outstanding i -> rq_chunks r = 1 }.

Abbreviation requests_ok := (requests_with []).

(** Steps that leave the requests where they are *)
Record same_requests (i i' : devinfo) : Prop := {
  sr_pending : di_pending i' = di_pending i;
  sr_queries : di_queries i' = di_queries i;
  sr_accepted : di_accepted i' = di_accepted i;
  sr_inflight : di_inflight i' = di_inflight i;
  sr_ended : di_ended i' = di_ended i;
  sr_failed : di_failed i' = di_failed i;
  sr_nextid : di_nextid i' = di_nextid i;
  sr_bios : forall b, is_Some (di_bios i !! b) -> is_Some (di_bios i' !! b) }.

#[global] Instance same_requests_preorder : PreOrder same_requests.
Proof.
  split; [by constructor|]. intros x y z [H1 H2 H3 H4 H5 H6 H7 H8] [G1 G2 G3 G4 G5 G6 G7 G8]. constructor; try congruence. auto.
Qed.

Lemma requests_ok_same hand i i' : same_requests i i' -> requests_with hand i -> requests_with hand i'.
Proof.
  intros [H1 H2 H3 H4 H5 H6 _ H7] [R1 R2 R3 R4 R5 R6]. unfold outstanding in *.
  constructor; unfold outstanding; rewrite ?H1, ?H2, ?H3, ?H4, ?H5, ?H6; auto.
Qed.

Create HintDb quietly discriminated.

(** A bio that is changed in place *)
Lemma insert_keeps (m : gmap Z bio) b x b' : is_Some (m !! b') -> is_Some (<[b := x]> m !! b').
Proof. intros H. destruct (decide (b = b')) as [->|]; [by rewrite lookup_insert_eq|by rewrite lookup_insert_ne]. Qed.
#[export] Hint Resolve insert_keeps : quietly.

(** Straight-line code that does not touch the requests *)
Ltac same_requests :=
  solve [constructor; cbn; intros; auto with quietly].
Ltac quiet := wlp_steps; try same_requests.

Lemma upd_bio_quiet b f i : wlp (upd_bio b f) (fun _ => same_requests i) i.
Proof. unfold upd_bio, get_bio. quiet. Qed.

Lemma upd_hook_quiet h f i : wlp (upd_hook h f) (fun _ => same_requests i) i.
Proof. unfold upd_hook, get_hook. quiet. Qed.

Lemma free_hook_quiet h i : wlp (free_hook h) (fun _ => same_requests i) i.
Proof. unfold free_hook. quiet. Qed.

(** Sequences *)
Lemma requests_bind {A B} (m : kprog A) (f : A -> kprog B) i :
  wlp m (fun _ => same_requests i) i -> (forall a i', wlp (f a) (fun _ => same_requests i') i') ->
  wlp (m ≫= f) (fun _ => same_requests i) i.
Proof.
  intros H1 H2. apply wlp_bind. eapply wlp_mono; [exact H1|]. cbv beta. intros a i' Hi. eapply wlp_mono; [apply H2|].
  cbv beta. intros _ i'' Hi'. by etransitivity.
Qed.

Lemma quiet_foreach {A} (l : list A) (body : A -> kprog unit) i :
  (forall x i', wlp (body x) (fun _ => same_requests i') i') -> wlp (foreach l body) (fun _ => same_requests i) i.
Proof.
  intros Hb. apply (wlp_foreach (same_requests i)); [reflexivity| |done]. intros x i' _ Hi. eapply wlp_mono; [apply Hb|].
  cbv beta. intros _ i'' Hi'. by etransitivity.
Qed.

Lemma out_socket_quiet s ok m i : wlp (out_socket s ok m) (fun _ => same_requests i) i.
Proof. unfold out_socket. quiet. Qed.
Lemma out_server_quiet ok m i : wlp (out_server ok m) (fun _ => same_requests i) i.
Proof. unfold out_server. wlp_steps. apply out_socket_quiet. Qed.
Lemma out_control_quiet ok m i : wlp (out_control ok m) (fun _ => same_requests i) i.
Proof. unfold out_control. quiet. Qed.

Lemma snapshot_read_end_io_quiet b h i : wlp (snapshot_read_end_io b h) (fun _ => same_requests i) i.
Proof.
  unfold snapshot_read_end_io. apply requests_bind; [apply upd_bio_quiet|]. intros _ i1. apply requests_bind; [apply upd_hook_quiet|].
  intros _ i2. unfold free_hook. quiet.
Qed.

Lemma remap_quiet b shift body n p i : wlp (remap b shift body n p) (fun _ => same_requests i) i.
Proof.
  revert p i. induction n as [|n IH]; intros p i; cbn [remap]; [quiet|]. apply requests_bind; [apply upd_bio_quiet|]. intros _ i'. apply IH.
Qed.

Lemma add_hook_quiet b i : wlp (add_hook b) (fun _ => same_requests i) i.
Proof. unfold add_hook, get_bio. quiet. Qed.

Lemma drop_hooks_quiet l i :
  wlp (foreach l (fun h => modify (fun i => i <| di_releases ::= unlink h |>);; free_hook h)) (fun _ => same_requests i) i.
Proof. apply quiet_foreach. intros h i'. unfold free_hook. quiet. Qed.

Lemma upload_begin_quiet i : wlp upload_begin (fun _ => same_requests i) i.
Proof.
  unfold upload_begin, drop_releases. apply requests_bind; [quiet|]. intros _ i'. wlp_steps. apply drop_hooks_quiet.
Qed.

Lemma upload_lock_quiet ok h i : wlp (upload_lock ok h) (fun _ => same_requests i) i.
Proof.
  unfold upload_lock, get_hook, free_hook. wlp_steps; try same_requests. eapply wlp_mono; [apply out_server_quiet|].
  cbv beta. intros r i' Hi. quiet. done.
Qed.

Lemma upload_end_quiet i : wlp upload_end (fun _ => same_requests i) i.
Proof.
  unfold upload_end. apply wlp_bind, wlp_get. apply requests_bind.
  - wlp_steps; [|same_requests]. apply quiet_foreach. intros h i'. unfold get_hook. quiet.
  - intros _ i'. quiet.
Qed.

(** ** Lists *)

Lemma concat_insert {A} (p : list (list A)) k l0 :
  p !! k = Some l0 -> exists rest, concat p ≡ₚ l0 ++ rest /\ forall l, concat (<[k := l]> p) ≡ₚ l ++ rest.
Proof.
  intros Hk. exists (concat (take k p) ++ concat (drop (S k) p)). pose proof (lookup_lt_Some _ _ _ Hk) as Hlt. split.
  - rewrite <- (take_drop_middle p k l0 Hk) at 1. rewrite concat_app. cbn. by rewrite !(Permutation_app_comm (concat (take k p))), app_assoc.
  - intros l. rewrite insert_take_drop by done. rewrite concat_app. cbn. by rewrite !(Permutation_app_comm (concat (take k p))), app_assoc.
Qed.

Lemma take_request_perm id l r l' : take_request id l = Some (r, l') -> l ≡ₚ r :: l' /\ rq_id r = id.
Proof.
  revert r l'. induction l as [|x l IH]; intros r l'; cbn; [done|]. destruct (Z.eqb_spec (rq_id x) id) as [E|E]; [by intros [= <- <-]|].
  destruct (take_request id l) as [[y l2]|] eqn:Et; [|done]. intros [= <- <-]. destruct (IH _ _ eq_refl) as [Hp Hid].
  split; [|done]. rewrite Hp. apply Permutation_swap.
Qed.

Lemma unlink_perm b l : NoDup l -> b ∈ l -> l ≡ₚ b :: unlink b l.
Proof.
  induction 1 as [|x l Hx Hnd IH]; intros Hb; [by apply elem_of_nil in Hb|]. unfold unlink. destruct (decide (x = b)) as [->|Hne].
  - rewrite filter_cons_False by naive_solver. f_equiv. clear IH Hb Hnd.
    induction l as [|y l IH]; [done|]. apply not_elem_of_cons in Hx as [Hy Hx]. rewrite filter_cons_True by done. f_equiv. by apply IH.
  - apply elem_of_cons in Hb as [->|Hb]; [done|]. rewrite filter_cons_True by done. rewrite (IH Hb) at 1. apply Permutation_swap.
Qed.

Lemma not_in_unlink b l : b ∉ unlink b l.
Proof. unfold unlink. rewrite list_elem_of_filter. tauto. Qed.

Lemma in_unlink b x l : x ∈ unlink b l <-> x ∈ l /\ x <> b.
Proof. unfold unlink. rewrite list_elem_of_filter. tauto. Qed.

Lemma hash_pending_lt id : (hash_pending id < NUM_BUCKETS)%nat.
Proof.
  unfold hash_pending, NUM_BUCKETS. change 63 with (Z.ones 6). rewrite Z.land_ones by lia.
  pose proof (Z.mod_pos_bound id (2 ^ 6) ltac:(lia)). lia.
Qed.

(** ** Requests that move *)

(** A bio that was handed back is none of the others. *)
Lemma requests_apart b hand i : requests_with (b :: hand) i -> b ∉ hand ++ (rq_bio <$> outstanding i) ++ di_inflight i.
Proof.
  intros [_ _ R3 R4 _ _]. rewrite R4 in R3. apply NoDup_cons in R3 as [Hb _]. rewrite !elem_of_app in *. tauto.
Qed.

Lemma delete_keeps (m : gmap Z bio) b b' : b <> b' -> is_Some (m !! b') -> is_Some (delete b m !! b').
Proof. intros Hne. by rewrite lookup_delete_ne. Qed.

(** A request comes in. *)
Lemma ddsnap_map_ok b rw sector i :
  requests_ok i -> b ∉ di_accepted i -> wlp (ddsnap_map b rw sector) (fun _ => requests_ok) i.
Proof.
  intros [R1 R2 R3 R4 R5 R6] Hnew. unfold ddsnap_map. wlp_steps; try by constructor.
  constructor; cbn; try done.
  - by constructor.
  - unfold outstanding in *. cbn. by constructor.
  - intros b' [->|Hb']%elem_of_cons; [by rewrite lookup_insert_eq|]. apply insert_keeps. auto.
  - unfold outstanding in *. cbn. intros r [->|Hr]%elem_of_cons; auto.
Qed.

(** A bio at a device comes into hand, and is handed back. *)
Lemma request_done b i : requests_ok i -> b ∈ di_inflight i -> requests_with [b] (i <| di_inflight ::= fun l => unlink b l |>).
Proof.
  intros [R1 R2 R3 R4 R5 R6] Hb.
  assert (Hnd : NoDup (di_inflight i)). { rewrite R4 in R3. cbn in R3. by apply NoDup_app in R3 as (_ & _ & [? _]%NoDup_app). }
  pose proof (unlink_perm b (di_inflight i) Hnd Hb) as Hp. constructor; cbn; try done.
  - rewrite R4. cbn. rewrite Hp at 1. unfold outstanding. cbn. by rewrite <- Permutation_middle.
  - intros b' Hin. apply R5. cbn. rewrite Hp. revert Hin. unfold outstanding. cbn. rewrite !elem_of_app, !elem_of_cons, ?elem_of_app. tauto.
Qed.

Lemma requests_ended b hand i :
  requests_with (b :: hand) i -> requests_with hand (i <| di_ended ::= cons b |> <| di_bios ::= delete b |>).
Proof.
  intros Hi. pose proof (requests_apart _ _ _ Hi) as Hb. destruct Hi as [R1 R2 R3 R4 R5 R6]. constructor; cbn; try done.
  - rewrite R4. cbn. by rewrite <- !Permutation_middle.
  - intros b' Hin. apply delete_keeps; [by intros ->|]. apply R5. by right.
Qed.

(** A device hands a request back. *)
Lemma end_io_ok b i : requests_ok i -> b ∈ di_inflight i -> wlp (end_io b) (fun _ => requests_ok) i.
Proof.
  intros Hi Hb. unfold end_io. apply wlp_bind. eapply (wlp_mono _ (fun _ => same_requests i)); [unfold get_bio; quiet|].
  cbv beta. intros x i1 H1. apply wlp_bind. eapply (wlp_mono _ (fun _ => same_requests i)).
  { eapply wlp_mono; [|intros a s' H; etransitivity; [exact H1|exact H]]. destruct (bi_end_io x); [apply snapshot_read_end_io_quiet|quiet]. }
  cbv beta. intros _ i2 H2. wlp_steps. rewrite <- (sr_inflight _ _ H2) in Hb.
  apply (requests_ended b [] (i2 <| di_inflight ::= fun l => unlink b l |>)), request_done; [by eapply requests_ok_same|done].
Qed.

(** The worker sends a query. *)
Section query.
Context (i : devinfo) (l : list request) (r : request).
Context (Hsize : length (di_pending i) = NUM_BUCKETS) (Hl : di_queries i = l ++ [r]).
Let k := hash_pending (rq_id r).

Lemma query_bucket : exists l0, di_pending i !! k = Some l0 /\ alter (cons r) k (di_pending i) = <[k := r :: l0]> (di_pending i).
Proof.
  assert (Hk : (k < NUM_BUCKETS)%nat) by apply hash_pending_lt. destruct (lookup_lt_is_Some_2 (di_pending i) k) as [l0 Hl0]; [by rewrite Hsize|].
  exists l0. split; [done|]. apply list_eq. intros j. destruct (decide (j = k)) as [->|]; [|by rewrite list_lookup_alter_ne, list_lookup_insert_ne].
  rewrite list_lookup_alter_eq, Hl0. by rewrite list_lookup_insert_eq by by rewrite Hsize.
Qed.

Lemma query_taken : take (length (di_queries i) - 1) (di_queries i) = l.
Proof. rewrite Hl, length_app. cbn. rewrite Nat.add_sub. apply take_app_length. Qed.

Lemma query_moved :
  take (length (di_queries i) - 1) (di_queries i) ++ concat (alter (cons r) k (di_pending i)) ≡ₚ outstanding i.
Proof.
  destruct query_bucket as (l0 & Hl0 & ->). rewrite query_taken. destruct (concat_insert _ _ _ Hl0) as (rest & Hc0 & Hc).
  unfold outstanding. rewrite Hc, Hc0, Hl, <- app_assoc. done.
Qed.
End query.

Lemma next_query_ok i : requests_ok i -> wlp next_query (fun _ => requests_ok) i.
Proof.
  intros [R1 R2 R3 R4 R5 R6]. unfold next_query, go. wlp_steps; try by constructor.
  match goal with H : last _ = Some ?x |- _ => rename x into r; apply last_Some in H as [l Hl] end.
  destruct (query_bucket i r R1) as (l0 & Hl0 & Ea). pose proof (query_moved i l r R1 Hl) as Ho. constructor; cbn; try done.
  - by rewrite length_alter.
  - rewrite Ea. intros j l' r' Hj Hr'. destruct (decide (j = hash_pending (rq_id r))) as [->|Hne].
    + rewrite list_lookup_insert_eq in Hj by by eapply lookup_lt_Some. injection Hj as <-. apply elem_of_cons in Hr' as [->|Hr']; [done|]. by eapply R2.
    + rewrite list_lookup_insert_ne in Hj by done. by eapply R2.
  - rewrite Ho. done.
  - intros b Hb. apply R5. cbn. by rewrite <- Ho.
  - intros r' Hr'. apply R6. by rewrite <- Ho.
Qed.

(** An answer takes a request off its bucket. *)
Lemma outstanding_taken i k l id r l' :
  di_pending i !! k = Some l -> take_request id l = Some (r, l') -> outstanding i ≡ₚ r :: outstanding (i <| di_pending ::= insert k l' |>).
Proof.
  intros Hk [Hp _]%take_request_perm. destruct (concat_insert _ _ _ Hk) as (rest & Hc0 & Hc).
  unfold outstanding. cbn. rewrite Hc0, Hc, Hp. cbn. by rewrite <- Permutation_middle.
Qed.

Lemma request_taken hand i k l id r l' :
  requests_with hand i -> di_pending i !! k = Some l -> take_request id l = Some (r, l') ->
  requests_with (rq_bio r :: hand) (i <| di_pending ::= insert k l' |>) /\ r ∈ outstanding i.
Proof.
  intros [R1 R2 R3 R4 R5 R6] Hk Ht. pose proof (outstanding_taken _ _ _ _ _ _ Hk Ht) as Ho. apply take_request_perm in Ht as [Hp _].
  split; [|rewrite Ho; by left]. constructor; cbn; try done.
  - by rewrite length_insert.
  - intros j l2 r2 Hj Hr2. destruct (decide (j = k)) as [->|Hne]; [|rewrite list_lookup_insert_ne in Hj by done; by eapply R2].
    rewrite list_lookup_insert_eq in Hj by by eapply lookup_lt_Some. injection Hj as <-. apply (R2 k l r2 Hk). rewrite Hp. by right.
  - rewrite R4, Ho. cbn. by rewrite <- Permutation_middle.
  - intros b Hb. apply R5. rewrite Ho. revert Hb. cbn. rewrite !elem_of_cons, !elem_of_app, !elem_of_cons, ?elem_of_app. tauto.
  - intros r2 Hr2. apply R6. rewrite Ho. by right.
Qed.

(** What is in hand fails or goes to a device. *)
Lemma requests_failed b hand i :
  requests_with (b :: hand) i -> requests_with hand (i <| di_failed ::= cons b |> <| di_bios ::= delete b |>).
Proof.
  intros Hi. pose proof (requests_apart _ _ _ Hi) as Hb. destruct Hi as [R1 R2 R3 R4 R5 R6]. constructor; cbn; try done.
  - rewrite R4. cbn. by rewrite <- !Permutation_middle.
  - intros b' Hin. apply delete_keeps; [by intros ->|]. apply R5. by right.
Qed.

Lemma requests_submitted b hand i : requests_with (b :: hand) i -> requests_with hand (i <| di_inflight ::= cons b |>).
Proof.
  intros [R1 R2 R3 R4 R5 R6]. constructor; cbn; try done.
  - rewrite R4. cbn. by rewrite <- !Permutation_middle.
  - intros b' Hin. apply R5. revert Hin. cbn. rewrite !elem_of_cons, !elem_of_app, !elem_of_cons, ?elem_of_app. tauto.
Qed.

Lemma bio_io_error_run b hand i : requests_with (b :: hand) i -> wp (bio_io_error b) (fun _ => requests_with hand) i.
Proof.
  intros Hi. destruct (ro_bios _ _ Hi b) as [x Hx]; [by left|]. unfold bio_io_error, get_bio. wp_steps. rewrite Hx. wp_steps. by apply requests_failed.
Qed.

Lemma replied_ranges_ok body rw snap failed n p i :
  requests_ok i -> wlp (replied_ranges body rw snap failed n p) (fun _ => requests_ok) i.
Proof.
  revert p i. induction n as [|n IH]; intros p i Hi; cbn [replied_ranges]; [by wlp_steps|]. wlp_step. wlp_step. wlp_step. wlp_step.
  destruct (di_pending i !! hash_pending (ld32 0 body)) as [l|] eqn:Hk; cbn [mbind option_bind]; [|by wlp_steps].
  destruct (take_request (ld32 0 body) l) as [[r l']|] eqn:Ht; [|by wlp_steps].
  destruct (request_taken _ _ _ _ _ _ _ Hi Hk Ht) as [H1 _]. wlp_step. wlp_step. set (i1 := i <| di_pending ::= _ |>) in *. clearbody i1.
  destruct failed; [|destruct (negb _)].
  - apply wlp_bind. eapply wlp_mono; [by apply wp_wlp, bio_io_error_run|]. cbv beta. intros _ i2. apply IH.
  - apply wlp_bind. eapply wlp_mono; [by apply wp_wlp, bio_io_error_run|]. cbv beta. intros _ i2 H2. by wlp_steps.
  - unfold generic_make_request, get_bio. wlp_step. eapply (wlp_mono _ (fun _ => same_requests i1)).
    + destruct snap; [apply remap_quiet|]. apply requests_bind; [|intros; quiet]. destruct (bool_decide _); [apply add_hook_quiet|quiet].
    + cbv beta. intros p' i2 H2. wlp_steps. apply IH, requests_submitted. by eapply requests_ok_same.
Qed.

(** The buckets are emptied, into the queries or to nobody. *)
Lemma outstanding_emptied i k l :
  di_pending i !! k = Some l -> outstanding i ≡ₚ l ++ outstanding (i <| di_pending ::= insert k [] |>).
Proof.
  intros Hk. destruct (concat_insert _ _ _ Hk) as (rest & Hc0 & Hc). specialize (Hc []). cbn in Hc.
  unfold outstanding. cbn. rewrite Hc0, Hc, !app_assoc. by rewrite (Permutation_app_comm (di_queries i) l).
Qed.

Lemma bucket_emptied hand i k :
  (k < NUM_BUCKETS)%nat -> requests_with hand i ->
  let l := default [] (di_pending i !! k) in
  requests_with ((rq_bio <$> l) ++ hand) (i <| di_pending ::= insert k [] |>) /\ forall r, r ∈ l -> rq_chunks r = 1.
Proof.
  intros Hlt [R1 R2 R3 R4 R5 R6]. destruct (lookup_lt_is_Some_2 (di_pending i) k) as [l Hk]; [by rewrite R1|].
  rewrite Hk. cbn [default from_option id]. pose proof (outstanding_emptied i k l Hk) as Ho.
  split; [|intros r Hr; apply R6; rewrite Ho; apply elem_of_app; by left]. constructor; cbn; try done.
  - by rewrite length_insert.
  - intros j l2 r2 Hj Hr2. destruct (decide (j = k)) as [->|Hne]; [|rewrite list_lookup_insert_ne in Hj by done; by eapply R2].
    rewrite list_lookup_insert_eq in Hj by by rewrite R1. injection Hj as <-. by apply elem_of_nil in Hr2.
  - rewrite R4, Ho, fmap_app, <- !app_assoc. rewrite (app_assoc hand), (Permutation_app_comm hand), <- app_assoc. done.
  - intros b Hb. apply R5. rewrite Ho, fmap_app. revert Hb. rewrite !elem_of_app. tauto.
  - intros r Hr. apply R6. rewrite Ho. apply elem_of_app. by right.
Qed.

Lemma requeue_queries_ok i : requests_ok i -> wlp requeue_queries (fun _ => requests_ok) i.
Proof.
  intros Hi. apply (wlp_foreach requests_ok); [done| |done]. intros k i1 Hk Hi1. apply elem_of_seq in Hk. wlp_steps. cbv zeta. wlp_step.
  destruct (bucket_emptied [] i1 k) as [[R1 R2 R3 R4 R5 R6] Hone]; [unfold NUM_BUCKETS in *; lia|done|].
  set (l := default [] (di_pending i1 !! k)) in *. constructor; try done.
  - cbn in *. rewrite R4. rewrite app_nil_r, <- app_assoc, !fmap_app. by rewrite reverse_Permutation, <- !app_assoc.
  - intros b Hb. apply R5. revert Hb. unfold outstanding. cbn. rewrite app_nil_r, <- app_assoc, !fmap_app, reverse_Permutation, !elem_of_app. tauto.
  - cbn. intros r. rewrite <- app_assoc. intros [Hr|Hr]%elem_of_app; [apply Hone; by rewrite reverse_Permutation in Hr|exact (R6 r Hr)].
Qed.

Lemma flush_list_run l hand i :
  requests_with ((rq_bio <$> l) ++ hand) i -> wp (flush_list l) (fun _ => requests_with hand) i.
Proof.
  revert i. induction l as [|r l IH]; intros i Hi; [exact Hi|]. unfold flush_list in *. cbn [foreach]. apply wp_bind.
  eapply wp_mono; [apply (bio_io_error_run _ ((rq_bio <$> l) ++ hand)), Hi|]. cbv beta. intros _ i1. apply IH.
Qed.

Lemma flush_pending_bio_run i : requests_ok i -> wp flush_pending_bio (fun _ => requests_ok) i.
Proof.
  intros Hi. unfold flush_pending_bio. wp_steps.
  assert (Hq : requests_with ((rq_bio <$> di_queries i) ++ []) (i <| di_queries := [] |>)).
  { destruct Hi as [R1 R2 R3 R4 R5 R6]. constructor; cbn; try done.
    - rewrite R4. unfold outstanding. cbn. by rewrite app_nil_r, fmap_app, <- app_assoc.
    - intros b Hb. apply R5. revert Hb. unfold outstanding. cbn. rewrite fmap_app, !elem_of_app, elem_of_nil. tauto.
    - intros r Hr. apply R6. apply elem_of_app. by right. }
  eapply wp_mono; [by apply flush_list_run|]. cbv beta. intros _ i1 Hi1. wp_step.
  apply (wp_foreach (fun _ => requests_ok)); [done| |].
  - intros k _ i2 Hk%elem_of_seq Hi2. wp_steps. apply flush_list_run. apply bucket_emptied; [unfold NUM_BUCKETS in *; lia|done].
  - intros i2 Hi2. wp_steps. eapply (wp_mono _ (fun _ => same_requests i2)).
    + apply (wp_foreach (fun _ => same_requests i2)); [reflexivity| |done]. intros h _ i3 _ H3. unfold free_hook. wp_steps.
      etransitivity; [exact H3|same_requests].
    + cbv beta. intros _ i3 H3. wp_steps. eapply requests_ok_same; [|exact Hi2]. etransitivity; [exact H3|same_requests].
Qed.

Lemma flush_pending_bio_ok i : requests_ok i -> wlp flush_pending_bio (fun _ => requests_ok) i.
Proof. intros Hi. by apply wp_wlp, flush_pending_bio_run. Qed.

Ltac semaphores := unfold down_more_work, down_server_in, down_server_out, down_recover, down, up_server_out, go, blocked.

(** ** Every step

    What quiet steps and the four moves of requests keep, every step of a thread
    keeps. *)

Section keep.
Context (I : devinfo -> Prop).
Context (keep_same : forall i i', same_requests i i' -> I i -> I i').
Context (keep_reply : forall body rw snap failed n p i, I i -> wlp (replied_ranges body rw snap failed n p) (fun _ => I) i).
Context (keep_requeue : forall i, I i -> wlp requeue_queries (fun _ => I) i).
Context (keep_query : forall i, I i -> wlp next_query (fun _ => I) i).
Context (keep_flush : forall i, I i -> wlp flush_pending_bio (fun _ => I) i).

(** Steps that are quiet keep the invariant. *)
Lemma quiet_ok {A} (m : kprog A) i : I i -> wlp m (fun _ => same_requests i) i -> wlp m (fun _ => I) i.
Proof. intros Hi H. eapply wlp_mono; [exact H|]. cbv beta. intros _ i' H'. by eapply keep_same. Qed.

Lemma ok_bind {A B} (m : kprog A) (f : A -> kprog B) i :
  wlp m (fun _ => I) i -> (forall a i', I i' -> wlp (f a) (fun _ => I) i') ->
  wlp (m ≫= f) (fun _ => I) i.
Proof. intros H1 H2. apply wlp_bind. eapply wlp_mono; [exact H1|]. cbv beta. auto. Qed.

Ltac quietly := first [apply quiet_ok; [assumption|] | idtac]; quiet.

Lemma incoming_message_keep sock ok m i : I i -> wlp (incoming_message sock ok m) (fun _ => I) i.
Proof.
  intros Hi. unfold incoming_message. destruct (maxbody <? _)%nat; [quietly|].
  destruct (rw_answer (m_code m)) as [[[rw snap] failed]|].
  - destruct (_ <? _)%nat; [quietly|]. apply ok_bind; [by apply keep_reply|]. intros _ i' Hi'. quietly.
  - apply ok_bind; [|intros _ i' Hi'; quietly]. apply quiet_ok; [done|]. repeat destruct (_ =? _).
    + unfold identify_ok. apply requests_bind; [quiet|]. intros _ i1. apply requests_bind; [apply out_control_quiet|]. intros _ i2. quiet.
    + unfold identify_error. destruct (_ <? _)%nat; [quiet|]. apply requests_bind; [apply out_control_quiet|]. intros _ i2. quiet.
    + quiet.
    + apply requests_bind; [apply out_socket_quiet|]. intros _ i2. quiet.
Qed.

Lemma report_error_quiet {pc} (a b : pc) i : wlp (report_error a b) (fun _ => same_requests i) i.
Proof. unfold report_error, go. quiet. Qed.
Lemma report_wait_quiet {pc} (b : pc) i : wlp (report_wait b) (fun _ => same_requests i) i.
Proof. unfold report_wait. semaphores. quiet. Qed.

Lemma incoming_step_keep ok input pc i : I i -> wlp (incoming_step ok input pc) (fun _ => I) i.
Proof.
  intros Hi. destruct pc; cbn [incoming_step].
  - apply quiet_ok; [done|]. apply requests_bind; [apply out_control_quiet|]. intros. unfold go. quiet.
  - semaphores. quietly.
  - wlp_step. wlp_step. destruct (negb _); [unfold go; quietly|]. destruct input as [m|]; [|unfold go; quietly].
    apply ok_bind; [by apply incoming_message_keep|]. intros [] i' Hi'; unfold go; quietly.
  - apply quiet_ok; [done|]. wlp_step. wlp_step. destruct (negb _); [unfold go; quiet|apply report_error_quiet].
  - apply quiet_ok; [done|]. apply report_wait_quiet.
  - unfold blocked. quietly.
Qed.

Lemma send_message_quiet ok make next i :
  (forall i', wlp make (fun _ => same_requests i') i') -> wlp (send_message ok make next) (fun _ => same_requests i) i.
Proof.
  intros Hm. unfold send_message. semaphores. wlp_step. wlp_step. destruct (_ <=? _); [quiet|]. apply requests_bind; [quiet|]. intros _ i1.
  apply requests_bind; [apply Hm|]. intros m i2. apply requests_bind; [apply out_server_quiet|]. intros err i3. destruct (negb _); quiet.
Qed.

Lemma worker_step_keep ok pc i : I i -> wlp (worker_step ok pc) (fun _ => I) i.
Proof.
  intros Hi. destruct pc as [| |[|h todo]| | | | | | | | | | | |]; cbn [worker_step].
  - semaphores. apply quiet_ok; [done|]. wlp_step. wlp_step. destruct (_ <=? _); [quiet|]. apply requests_bind; [quiet|]. intros _ i1. wlp_step. wlp_step.
    destruct (flag _ _); [quiet|]. destruct (is_snapshot _); [|quiet]. apply requests_bind; [apply upload_begin_quiet|]. intros. quiet.
  - unfold go. quietly.
  - apply quiet_ok; [done|]. apply requests_bind; [apply out_server_quiet|]. intros. unfold go. quiet.
  - apply quiet_ok; [done|]. apply requests_bind; [apply upload_lock_quiet|]. intros. unfold go. quiet.
  - apply quiet_ok; [done|]. apply requests_bind; [apply upload_end_quiet|]. intros. unfold go. quiet.
  - apply ok_bind; [by apply keep_requeue|]. intros _ i' Hi'. unfold go. quietly.
  - unfold go. quietly.
  - semaphores. quietly.
  - by apply keep_query.
  - apply quiet_ok; [done|]. apply send_message_quiet. intros i'. unfold query_message, get_bio. quiet.
  - unfold next_release, get_hook, free_hook, go. quietly.
  - apply quiet_ok; [done|]. apply send_message_quiet. intros i'. quiet.
  - apply quiet_ok; [done|]. apply report_error_quiet.
  - apply quiet_ok; [done|]. apply report_wait_quiet.
  - semaphores. quietly.
  - unfold blocked. quietly.
Qed.

Lemma connect_server_quiet begin len ok rc i : wlp (connect_server begin len ok rc) (fun _ => same_requests i) i.
Proof.
  destruct rc; cbn [connect_server]; [quiet|..];
    (apply requests_bind; [quiet|]; intros; apply requests_bind; [quiet|]; intros; wlp_step; wlp_step;
     apply requests_bind; [apply out_server_quiet|]; intros; destruct (_ <? _); quiet).
Qed.

Lemma control_message_quiet begin len ok m rc i : wlp (control_message begin len ok m rc) (fun _ => same_requests i) i.
Proof.
  unfold control_message. destruct (_ <? _)%nat; [quiet|]. destruct (_ =? _); [quiet|]. destruct (_ =? _); [apply connect_server_quiet|].
  destruct (_ =? _); [quiet|]. apply requests_bind; [apply out_control_quiet|]. intros. quiet.
Qed.

Lemma control_step_keep begin len ok input pc i : I i -> wlp (control_step begin len ok input pc) (fun _ => I) i.
Proof.
  intros Hi. destruct pc; cbn [control_step]; [|unfold blocked; quietly]. wlp_step. wlp_step. apply ok_bind.
  - destruct (negb _); [quietly|]. destruct input as [|m rc].
    + unfold control_error. wlp_step. wlp_step. apply ok_bind; [|intros; quietly]. destruct (negb _); [|quietly].
      apply ok_bind; [quietly|]. intros _ i' Hi'. by apply keep_flush.
    + apply quiet_ok; [done|]. apply control_message_quiet.
  - intros pc' i' Hi'. apply quiet_ok; [done|]. apply requests_bind; [destruct pc'; quiet|]. intros. unfold go. quiet.
Qed.
End keep.

(** The invariant is one such thing. *)
Lemma worker_step_ok ok pc i : requests_ok i -> wlp (worker_step ok pc) (fun _ => requests_ok) i.
Proof.
  apply worker_step_keep; [apply requests_ok_same|apply requeue_queries_ok|apply next_query_ok].
Qed.
Lemma incoming_step_ok ok input pc i : requests_ok i -> wlp (incoming_step ok input pc) (fun _ => requests_ok) i.
Proof. apply incoming_step_keep; [apply requests_ok_same|apply replied_ranges_ok]. Qed.

Section control.
Context (begin len : Z).

Lemma control_step_ok ok input pc i : requests_ok i -> wlp (control_step begin len ok input pc) (fun _ => requests_ok) i.
Proof. apply control_step_keep; [apply requests_ok_same|apply flush_pending_bio_ok]. Qed.

Lemma kstep_requests k k' : kstep begin len k k' -> requests_ok (k_info k) -> requests_ok (k_info k').
Proof.
  destruct 1 as [k b rw sector r i Hb _ E|k b i Hb E|k ok pc i E|k ok input pc i E|k ok input pc i E|k i E]; intros Hk; cbn.
  - by eapply ddsnap_map_ok.
  - by eapply end_io_ok.
  - by eapply worker_step_ok.
  - by eapply incoming_step_ok.
  - by eapply control_step_ok.
  - revert E. apply (quiet_ok requests_ok (requests_ok_same _) ddsnap_destroy); [done|]. unfold ddsnap_destroy. quiet.
Qed.

Lemma new_requests snap : requests_ok (new_devinfo snap).
Proof.
  constructor.
  - reflexivity.
  - intros k l r [-> _]%lookup_replicate Hr. by apply elem_of_nil in Hr.
  - constructor.
  - done.
  - intros b Hb. by apply elem_of_nil in Hb.
  - intros r Hr. by apply elem_of_nil in Hr.
Qed.

Lemma reachable_requests snap k : reachable begin len snap k -> requests_ok (k_info k).
Proof.
  unfold reachable. intros Hr. remember (ddsnap_create snap) as k0 eqn:E. assert (H0 : requests_ok (k_info k0)) by (subst; apply new_requests).
  clear E. induction Hr as [|k0 k1 k Hs _ IH]; [done|]. apply IH. by eapply kstep_requests.
Qed.
End control.

(** C9: No request is lost and none is handed back twice.  In every state that the
    client can reach, whatever requests come, whatever the server and the agent
    send, whenever a socket breaks and the devices end requests, the requests it
    has accepted are, each once: those that wait to be sent, those that wait for
    an answer, those at a device, those that ended, and those that failed. *)
Theorem client_requests_conserved begin len snap k :
  reachable begin len snap k ->
  let i := k_info k in
  NoDup (di_accepted i) /\
  di_accepted i ≡ₚ (rq_bio <$> di_queries i ++ concat (di_pending i)) ++ di_inflight i ++ di_ended i ++ di_failed i.
Proof. intros Hr. apply reachable_requests in Hr. destruct Hr. by split. Qed.
