(* ===== verification/ClientLocks.v ===== *)
(** * Locks of the client

    A snapshot reads a chunk from the origin under a lock of the server.  The
    client releases it only when the read has ended.  While the agent is there no
    thread follows a hook that was freed or a bio that was handed back, but for the
    bio of the query that the worker is about to send. *)

From S2P Require Import Prelude Bytes State Locks Reply Server Client ClientSpec.

(** ** Flags *)

Lemma flag_bit i n : 0 <= n -> flag i (2 ^ n) = Z.testbit (di_flags i) n.
Proof.
  intros Hn. unfold flag. destruct (Z.testbit (di_flags i) n) eqn:E.
  - apply negb_true_iff, Z.eqb_neq. intros H. apply (f_equal (fun x => Z.testbit x n)) in H.
    by rewrite Z.land_spec, E, Z.pow2_bits_true, Z.bits_0 in H.
  - apply negb_false_iff, Z.eqb_eq, Z.bits_inj'. intros m Hm. rewrite Z.land_spec, Z.bits_0.
    destruct (decide (m = n)) as [->|Hne]; [by rewrite E|]. rewrite Z.pow2_bits_false by done. apply andb_false_r.
Qed.

Lemma flag_set i f n : 0 <= n -> flag i (2 ^ n) = true -> flag (set_flag f i) (2 ^ n) = true.
Proof. intros Hn. rewrite !flag_bit by done. cbn. rewrite Z.lor_spec. by intros ->. Qed.

Lemma flag_kept i f n : 0 <= n -> Z.testbit f n = false -> flag i (2 ^ n) = true -> flag (clear_flag f i) (2 ^ n) = true.
Proof. intros Hn Hf. rewrite !flag_bit by done. cbn. rewrite Z.land_spec, Z.lnot_spec, Hf by done. by intros ->. Qed.

(** ** The invariant *)

(** The query that the worker is about to send is for a request that came. *)
Definition query_held (i : devinfo) (pc : worker_pc) : Prop :=
  match pc with WQuery b _ _ _ => b ∈ di_accepted i | _ => True end.
#[local] Hint Extern 0 (query_held _ _) => exact I : core.

Record hooks_ok (i : devinfo) (pc : worker_pc) : Prop := {
  ho_nodup : NoDup (di_locked i ++ di_releases i);
  ho_live : forall h, h ∈ di_locked i ++ di_releases i -> is_Some (di_hooks i !! h);
  ho_fresh : forall h, is_Some (di_hooks i !! h) -> h < di_next_hook i;
  ho_ended : forall h x, h ∈ di_releases i -> di_hooks i !! h = Some x -> hk_ended x = true;
  (* a read at a device has its hook, which no other read has *)
  ho_read : forall b x h, b ∈ di_inflight i -> di_bios i !! b = Some x -> bi_end_io x = Some h ->
    h ∈ di_locked i /\ di_hooks i !! h = Some (mkHook (bi_sector x) false);
  ho_apart : forall b b' x x' h, b ∈ di_inflight i -> b' ∈ di_inflight i -> di_bios i !! b = Some x -> di_bios i !! b' = Some x' ->
    bi_end_io x = Some h -> bi_end_io x' = Some h -> b = b';
  ho_plain : forall r x, r ∈ outstanding i -> di_bios i !! rq_bio r = Some x -> bi_end_io x = None;
  ho_ready : di_accepted i <> [] -> flag i READY_FLAG = true;
  (* while locks are uploaded, hooks stay where they are *)
  ho_upload : match pc with
              | WUploadStart | WUploaded => di_dont_switch i = true
              | WUpload todo => di_dont_switch i = true /\ NoDup todo /\ forall h, h ∈ todo -> h ∈ di_locked i
              | _ => di_dont_switch i = false
              end;
  (* there is a socket before anything is sent *)
  ho_sock : di_sock i = None -> pc = WExit \/ pc = WRecover /\ (di_recover i <= 0 \/ flag i FINISH_FLAG = true);
  ho_query : query_held i pc }.

(** Steps that touch no hook and no bio *)
Record same_hooks (i i' : devinfo) : Prop := {
  sh_locked : di_locked i' = di_locked i;
  sh_releases : di_releases i' = di_releases i;
  sh_hooks : di_hooks i' = di_hooks i;
  sh_next : di_next_hook i' = di_next_hook i;
  sh_inflight : di_inflight i' = di_inflight i;
  sh_bios : di_bios i' = di_bios i;
  sh_out : forall r, r ∈ outstanding i' -> r ∈ outstanding i;
  sh_accepted : di_accepted i' = di_accepted i;
  sh_switch : di_dont_switch i' = di_dont_switch i;
  sh_ready : flag i READY_FLAG = true -> flag i' READY_FLAG = true;
  sh_finish : flag i FINISH_FLAG = true -> flag i' FINISH_FLAG = true;
  sh_sock : di_sock i' = None -> di_sock i = None /\ (di_recover i' <= di_recover i \/ flag i' FINISH_FLAG = true) }.

#[global] Instance same_hooks_preorder : PreOrder same_hooks.
Proof.
  split.
  - intros i. constructor; try done. intros H. split; [done|]. left. lia.
  - intros x y z [A1 A2 A3 A4 A5 A6 A7 A8 A9 A10 A11 A12] [B1 B2 B3 B4 B5 B6 B7 B8 B9 B10 B11 B12]. constructor; try congruence; auto.
    intros H. destruct (B12 H) as [H1 H2], (A12 H1) as [H3 H4]. split; [done|]. destruct H2, H4; auto. left. lia.
Qed.

(** Positions outside [upload_locks] *)
Definition plain_pc (pc : worker_pc) : Prop :=
  match pc with WUploadStart | WUpload _ | WUploaded => False | _ => True end.

Lemma hooks_ok_same i i' pc : same_hooks i i' -> hooks_ok i pc -> hooks_ok i' pc.
Proof.
  intros [S1 S2 S3 S4 S5 S6 S7 S8 S9 S10 S11 S12] [H1 H2 H3 H4 H5 H6 H7 H8 H9 H10 H11].
  constructor; rewrite ?S1, ?S2, ?S3, ?S4, ?S5, ?S6, ?S8, ?S9; auto.
  - intros r x Hr. by apply H7, S7.
  - intros Hn. destruct (S12 Hn) as [Hn0 Hf], (H10 Hn0) as [|[-> Hr]]; [by left|right]. split; [done|].
    destruct Hf as [Hf|Hf]; [|by right]. destruct Hr; [left; lia|right; auto].
  - unfold query_held in *. by rewrite S8.
Qed.

Lemma hooks_ok_pc i pc pc' :
  hooks_ok i pc -> plain_pc pc -> plain_pc pc' -> (di_sock i = None -> pc' = WExit) -> query_held i pc' -> hooks_ok i pc'.
Proof.
  intros [H1 H2 H3 H4 H5 H6 H7 H8 H9 H10 H11] Hp Hp' Hs Hq. constructor; try done; [by destruct pc, pc'|]. intros Hn. left. by apply Hs.
Qed.

(** ** Bios that change *)

(** A bio that is on no list *)
Definition loose (b : Z) (i : devinfo) : Prop := (b ∉ di_inflight i) /\ forall r, r ∈ outstanding i -> rq_bio r <> b.

Lemma hand_loose b hand i : requests_with (b :: hand) i -> loose b i.
Proof.
  intros [_ _ R3 R4 _ _]. rewrite R4 in R3. cbn in R3. apply NoDup_cons in R3 as [Hb _]. rewrite !elem_of_app in Hb. split; [tauto|].
  intros r Hr <-. apply Hb. right. left. by apply list_elem_of_fmap_2.
Qed.

Lemma bio_changed b x i pc : hooks_ok i pc -> loose b i -> hooks_ok (i <| di_bios ::= insert b x |>) pc.
Proof.
  intros [H1 H2 H3 H4 H5 H6 H7 H8 H9 H10 H11] [Hb1 Hb2]. constructor; try done.
  - intros b' x' h Hin. cbn. rewrite lookup_insert_ne by (by intros <-). by apply H5.
  - intros b1 b2 x1 x2 h Hi1 Hi2. cbn. rewrite !lookup_insert_ne by (by intros <-). by apply H6.
  - intros r x' Hr. cbn. rewrite lookup_insert_ne by (intros E; by apply (Hb2 r Hr)). by apply H7.
Qed.

(** A bio that is handed back *)
Lemma bio_gone b i pc : hooks_ok i pc -> loose b i -> hooks_ok (i <| di_bios ::= delete b |>) pc.
Proof.
  intros [H1 H2 H3 H4 H5 H6 H7 H8 H9 H10 H11] [Hb1 Hb2]. constructor; try done.
  - intros b' x' h Hin. cbn. rewrite lookup_delete_ne by (by intros <-). by apply H5.
  - intros b1 b2 x1 x2 h Hi1 Hi2. cbn. rewrite !lookup_delete_ne by (by intros <-). by apply H6.
  - intros r x' Hr. cbn. rewrite lookup_delete_ne by (intros E; by apply (Hb2 r Hr)). by apply H7.
Qed.

Lemma bio_io_error_hooks b i pc : hooks_ok i pc -> loose b i -> wlp (bio_io_error b) (fun _ i' => hooks_ok i' pc) i.
Proof.
  intros Hok Hb. unfold bio_io_error, get_bio. wlp_steps. eapply (bio_gone b (i <| di_failed ::= cons b |>)); [|exact Hb].
  eapply hooks_ok_same; [|exact Hok]. constructor; try done. intros H; split; [done|left; cbn; lia].
Qed.

Lemma bio_submitted b i pc :
  hooks_ok i pc ->
  (forall x h, di_bios i !! b = Some x -> bi_end_io x = Some h ->
     h ∈ di_locked i /\ di_hooks i !! h = Some (mkHook (bi_sector x) false) /\
     forall b' x', b' ∈ di_inflight i -> di_bios i !! b' = Some x' -> bi_end_io x' <> Some h) ->
  hooks_ok (i <| di_inflight ::= cons b |>) pc.
Proof.
  intros [H1 H2 H3 H4 H5 H6 H7 H8 H9 H10 H11] Hnew. constructor; try done.
  - intros b' x h [->|Hin]%elem_of_cons; [|by apply H5]. intros E1 E2. destruct (Hnew x h E1 E2) as (? & ? & _). done.
  - intros b1 b2 x1 x2 h [->|Hi1]%elem_of_cons [->|Hi2]%elem_of_cons E1 E2 F1 F2; [done|..|by eapply H6].
    + destruct (Hnew x1 h E1 F1) as (_ & _ & Hno). by destruct (Hno b2 x2).
    + destruct (Hnew x2 h E2 F2) as (_ & _ & Hno). by destruct (Hno b1 x1).
Qed.

(** A new hook *)
Lemma hook_added b x i pc :
  hooks_ok i pc -> loose b i ->
  let h := di_next_hook i in
  hooks_ok (i <| di_next_hook ::= Z.add 1 |> <| di_hooks ::= insert h (mkHook (bi_sector x) false) |>
              <| di_bios ::= insert b (x <| bi_end_io := Some h |>) |> <| di_locked ::= cons h |> <| di_inflight ::= cons b |>) pc.
Proof.
  intros Hok Hb h. pose proof (ho_fresh _ _ Hok) as Hf.
  assert (Hnew : di_hooks i !! h = None). { destruct (di_hooks i !! h) eqn:E; [|done]. specialize (Hf h ltac:(by eexists)). lia. }
  assert (Hh : forall h', is_Some (di_hooks i !! h') -> h' <> h) by (intros h' Hs ->; rewrite Hnew in Hs; by destruct Hs).
  apply (bio_changed b (x <| bi_end_io := Some h |>)) in Hok; [|done].
  apply (bio_submitted b (i <| di_next_hook ::= Z.add 1 |> <| di_hooks ::= insert h (mkHook (bi_sector x) false) |>
              <| di_bios ::= insert b (x <| bi_end_io := Some h |>) |> <| di_locked ::= cons h |>)).
  - destruct Hok as [H1 H2 H3 H4 H5 H6 H7 H8 H9 H10 H11]. constructor; try done; cbn in *.
    + constructor; [|done]. intros Hin. by apply (Hh h (H2 h Hin)).
    + intros h' [->|Hin]%elem_of_cons; [by rewrite lookup_insert_eq|]. rewrite lookup_insert_ne; [by apply H2|]. intros <-. by apply (Hh h (H2 h Hin)).
    + intros h'. destruct (decide (h = h')) as [<-|]; [intros _; lia|]. rewrite lookup_insert_ne by done. intros Hs. specialize (Hf h' Hs). lia.
    + intros h' x' Hin. rewrite lookup_insert_ne; [by apply H4|]. intros <-. apply (Hh h); [|done]. apply H2, elem_of_app. by right.
    + intros b' x' h' Hin E1 E2. destruct (H5 b' x' h' Hin E1 E2) as [G1 G2]. split; [by right|]. rewrite lookup_insert_ne; [done|].
      intros <-. apply (Hh h); [by rewrite G2|done].
    + destruct pc; try done. destruct H9 as (? & ? & Ht). split_and!; try done. intros h' Hin. right. by apply Ht.
  - cbn. rewrite lookup_insert_eq. intros x' h' [= <-] [= <-]. split; [by left|]. rewrite lookup_insert_eq. split; [done|].
    intros b' x' Hin E1 E2. destruct (ho_read _ _ Hok b' x' h Hin E1 E2) as [_ G]. cbn in G. congruence.
Qed.

(** ** Answers *)

Ltac same_hooks := solve [constructor; cbn in *; try done; try (intros ?; split; [done|left; lia]); auto].

Lemma same_hooks_pending i k l l' :
  di_pending i !! k = Some l -> (forall r, r ∈ l' -> r ∈ l) -> same_hooks i (i <| di_pending ::= insert k l' |>).
Proof.
  intros Hk Hl. constructor; try done; [|intros H; split; [done|left; cbn; lia]].
  intros r. unfold outstanding. cbn. rewrite !elem_of_app. intros [Hr|Hr]; [by left|right].
  destruct (concat_insert _ _ _ Hk) as (rest & Hc0 & Hc). rewrite Hc in Hr. rewrite Hc0. apply elem_of_app in Hr as [Hr|Hr]; apply elem_of_app; auto.
Qed.

Lemma remap_hooks b shift body n p i pc :
  hooks_ok i pc -> loose b i -> (forall x, di_bios i !! b = Some x -> bi_end_io x = None) ->
  wlp (remap b shift body n p) (fun _ i' => hooks_ok i' pc /\ forall x, di_bios i' !! b = Some x -> bi_end_io x = None) i.
Proof.
  revert p i. induction n as [|n IH]; intros p i Hok Hb Hx; cbn [remap]; unfold upd_bio, get_bio; wlp_steps; [done|]. apply IH.
  - by apply bio_changed.
  - exact Hb.
  - cbn. rewrite lookup_insert_eq. intros x [= <-]. cbn. by eapply Hx.
Qed.

Lemma replied_ranges_hooks body rw snap failed n p i pc :
  requests_ok i -> hooks_ok i pc -> wlp (replied_ranges body rw snap failed n p) (fun _ i' => hooks_ok i' pc) i.
Proof.
  revert p i. induction n as [|n IH]; intros p i Hi Hok; cbn [replied_ranges]; [by wlp_steps|]. wlp_step. wlp_step. wlp_step. wlp_step.
  destruct (di_pending i !! hash_pending (ld32 0 body)) as [l|] eqn:Hk; cbn [mbind option_bind]; [|by wlp_steps].
  destruct (take_request (ld32 0 body) l) as [[r l']|] eqn:Ht; [|by wlp_steps].
  destruct (request_taken _ _ _ _ _ _ _ Hi Hk Ht) as [H1 Hr].
  assert (Hplain : forall x, di_bios i !! rq_bio r = Some x -> bi_end_io x = None) by (intros x; by apply (ho_plain _ _ Hok)).
  assert (Hok1 : hooks_ok (i <| di_pending ::= insert (hash_pending (ld32 0 body)) l' |>) pc).
  { eapply hooks_ok_same; [|exact Hok]. eapply same_hooks_pending; [done|]. apply take_request_perm in Ht as [Ht _]. intros r' Hr'. rewrite Ht. by right. }
  wlp_step. wlp_step. set (i1 := i <| di_pending ::= _ |>) in *. change (di_bios i) with (di_bios i1) in Hplain. clearbody i1. clear Hi Hok Hk Hr.
  pose proof (hand_loose _ _ _ H1) as Hb. destruct failed; [|destruct (negb _)].
  - apply wlp_bind. intros u i2 E. apply IH.
    + exact (wp_wlp _ _ _ (bio_io_error_run _ _ _ H1) _ _ E).
    + exact (bio_io_error_hooks _ _ _ Hok1 Hb _ _ E).
  - apply wlp_bind. eapply wlp_mono; [by apply bio_io_error_hooks|]. cbv beta. intros _ i2 H2. by wlp_steps.
  - assert (Hrun : forall m : kprog nat, wlp m (fun _ => same_requests i1) i1 ->
      wlp m (fun _ i2 => hooks_ok (i2 <| di_inflight ::= cons (rq_bio r) |>) pc) i1 ->
      wlp (p ← m; generic_make_request (rq_bio r);; replied_ranges body rw snap false n p) (fun _ i' => hooks_ok i' pc) i1).
    { intros m Hm1 Hm2. apply wlp_bind. intros p' i2 E. pose proof (Hm1 _ _ E) as Hs. pose proof (Hm2 _ _ E) as Hh. cbv beta in Hs, Hh. unfold generic_make_request, get_bio. wlp_steps.
      apply IH; [|done]. apply requests_submitted. by eapply requests_ok_same. }
    apply Hrun; clear Hrun.
    + destruct snap; [apply remap_quiet|]. apply requests_bind; [|intros; quiet]. destruct (bool_decide _); [apply add_hook_quiet|quiet].
    + destruct snap.
      * eapply wlp_mono; [by apply (remap_hooks _ _ _ _ _ _ pc Hok1 Hb)|]. cbv beta. intros _ i2 [Hok2 Hx]. apply bio_submitted; [done|].
        intros x h E1 E2. specialize (Hx x E1). congruence.
      * destruct (bool_decide _); unfold add_hook, get_bio; wlp_steps.
        -- by apply hook_added.
        -- apply bio_submitted; [done|]. intros x h E1 E2. specialize (Hplain x E1). congruence.
Qed.

(** ** The end of a read *)

Lemma move_perm h l r : NoDup (l ++ r) -> h ∈ l ++ r -> unlink h l ++ h :: unlink h r ≡ₚ l ++ r.
Proof.
  intros Hnd Hin. rewrite (unlink_perm h (l ++ r) Hnd Hin), <- Permutation_middle. f_equiv. unfold unlink. by rewrite filter_app.
Qed.

Lemma moved h x i pc :
  hooks_ok i pc -> (match pc with WUpload _ => False | _ => True end) -> h ∈ di_locked i ++ di_releases i ->
  di_hooks i !! h = Some x -> hk_ended x = true -> hooks_ok (move_to_releases h i) pc.
Proof.
  intros [H1 H2 H3 H4 H5 H6 H7 H8 H9 H10 H11] Hpc Hin Hh Hx. pose proof (move_perm h _ _ H1 Hin) as Hp. constructor; try done; cbn.
  - by rewrite Hp.
  - intros h'. rewrite Hp. apply H2.
  - intros h' x' [->|[Hin' _]%in_unlink]%elem_of_cons E; [congruence|by eapply H4].
  - intros b x' h' Hb E1 E2. destruct (H5 b x' h' Hb E1 E2) as [G1 G2]. split; [|done]. apply in_unlink. split; [done|].
    intros ->. rewrite Hh in G2. injection G2 as ->. done.
  - by destruct pc.
Qed.

(** The read of hook [h] by bio [b] ended. *)
Lemma read_ended b x h i pc :
  hooks_ok i pc -> b ∈ di_inflight i -> di_bios i !! b = Some x -> bi_end_io x = Some h ->
  let i' := i <| di_bios ::= insert b (x <| bi_end_io := None |>) |> <| di_hooks ::= insert h (mkHook (bi_sector x) true) |> in
  (forall r, r ∈ outstanding i -> rq_bio r <> b) -> hooks_ok i' pc.
Proof.
  intros Hok Hb Hx Eh i' Hout. pose proof Hok as [H1 H2 H3 H4 H5 H6 H7 H8 H9 H10 H11]. destruct (H5 b x h Hb Hx Eh) as [Hl Hh]. constructor; try done; cbn.
  - intros h' Hin. destruct (decide (h = h')) as [<-|]; [by rewrite lookup_insert_eq|]. rewrite lookup_insert_ne by done. by apply H2.
  - intros h'. destruct (decide (h = h')) as [<-|]; [intros _; apply H3; by rewrite Hh|]. rewrite lookup_insert_ne by done. apply H3.
  - intros h' x' Hin. destruct (decide (h = h')) as [<-|]; [by rewrite lookup_insert_eq; intros [= <-]|]. rewrite lookup_insert_ne by done. by apply H4.
  - intros b' x' h' Hb'. destruct (decide (b = b')) as [<-|Hne]; [rewrite lookup_insert_eq; by intros [= <-]|]. rewrite lookup_insert_ne by done.
    intros E1 E2. destruct (H5 b' x' h' Hb' E1 E2) as [G1 G2]. split; [done|]. rewrite lookup_insert_ne; [done|]. intros <-. by apply Hne, (H6 b b' x x' h).
  - intros b1 b2 x1 x2 h' Hb1 Hb2. destruct (decide (b = b1)) as [<-|]; [rewrite lookup_insert_eq; by intros [= <-]|].
    destruct (decide (b = b2)) as [<-|]; [rewrite lookup_insert_eq; by intros _ [= <-]|]. rewrite !lookup_insert_ne by done. by apply H6.
  - intros r x' Hr. rewrite lookup_insert_ne by (intros E; by apply (Hout r Hr)). by apply H7.
Qed.

Lemma bio_ended b i pc :
  hooks_ok i pc -> (forall r, r ∈ outstanding i -> rq_bio r <> b) ->
  hooks_ok (i <| di_inflight ::= fun l => unlink b l |> <| di_ended ::= cons b |> <| di_bios ::= delete b |>) pc.
Proof.
  intros [H1 H2 H3 H4 H5 H6 H7 H8 H9 H10 H11] Hb.
  apply (bio_gone b (i <| di_inflight ::= fun l => unlink b l |> <| di_ended ::= cons b |>)); [|split; [apply not_in_unlink|exact Hb]].
  constructor; try done; cbn.
  - intros b' x h [Hb' _]%in_unlink. by apply H5.
  - intros b1 b2 x1 x2 h [Hb1 _]%in_unlink [Hb2 _]%in_unlink. by apply H6.
Qed.

Lemma inflight_apart b i : requests_ok i -> b ∈ di_inflight i -> forall r, r ∈ outstanding i -> rq_bio r <> b.
Proof.
  intros [_ _ R3 R4 _ _] Hb r Hr <-. rewrite R4 in R3. cbn in R3. apply NoDup_app in R3 as (_ & Hd & _). apply (Hd (rq_bio r)).
  - by apply list_elem_of_fmap_2.
  - apply elem_of_app. by left.
Qed.

Lemma inflight_accepted b i : requests_ok i -> b ∈ di_inflight i -> b ∈ di_accepted i.
Proof. intros Hi Hb. rewrite (ro_account _ _ Hi), !elem_of_app. tauto. Qed.

Lemma end_io_hooks b i pc :
  requests_ok i -> hooks_ok i pc -> b ∈ di_inflight i -> wp (end_io b) (fun _ i' => hooks_ok i' pc) i.
Proof.
  intros Hi Hok Hb. pose proof (inflight_accepted b i Hi Hb) as Hacc.
  destruct (ro_bios _ _ Hi b) as [x Hx]; [cbn; apply elem_of_app; by right|]. pose proof (inflight_apart b i Hi Hb) as Hout. unfold end_io, get_bio. wp_steps. rewrite Hx. wp_steps.
  destruct (bi_end_io x) as [h|] eqn:Eh; wp_steps; [|by apply bio_ended].
  destruct (ho_read _ _ Hok b x h Hb Hx Eh) as [Hl Hh].
  pose proof (read_ended b x h i pc Hok Hb Hx Eh (inflight_apart b i Hi Hb)) as Hok1.
  unfold snapshot_read_end_io, upd_bio, upd_hook, get_bio, get_hook. wp_steps. rewrite Hx. wp_steps. cbn [di_hooks set]. rewrite Hh. wp_steps.
  assert (Hready : flag i READY_FLAG = true). { apply (ho_ready _ _ Hok). intros E. rewrite E in Hacc. by apply elem_of_nil in Hacc. }
  match goal with |- context [flag ?j READY_FLAG] => change (flag j READY_FLAG) with (flag i READY_FLAG) end. rewrite Hready. cbn [negb].
  match goal with |- context [di_dont_switch ?j] => change (di_dont_switch j) with (di_dont_switch i) end.
  destruct (di_dont_switch i) eqn:Ed; cbn [negb]; wp_steps.
  - apply bio_ended; [|exact Hout]. eapply hooks_ok_same; [|exact Hok1]. same_hooks.
  - apply bio_ended; [|exact Hout]. eapply hooks_ok_same; [|eapply (moved h _ _ pc Hok1)].
    + same_hooks.
    + destruct pc; try done. destruct (ho_upload _ _ Hok1) as [E _]. cbn in E. congruence.
    + apply elem_of_app. by left.
    + apply lookup_insert_eq.
    + done.
Qed.

(** ** The worker *)

(** Hooks that are dropped from the releases *)
Lemma drop_hooks_run l i :
  wp (foreach l (fun h => modify (fun i => i <| di_releases ::= unlink h |>);; free_hook h))
    (fun _ i' => exists R H, i' = i <| di_releases := R |> <| di_hooks := H |> /\
       (forall h, h ∈ R <-> h ∈ di_releases i /\ h ∉ l) /\ (forall h, h ∉ l -> H !! h = di_hooks i !! h) /\
       forall h, is_Some (H !! h) -> is_Some (di_hooks i !! h)) i.
Proof.
  revert i. induction l as [|h l IH]; intros i.
  - cbn. exists (di_releases i), (di_hooks i). split_and!; [by destruct i|..]; try done. intros h. rewrite elem_of_nil. tauto.
  - cbn [foreach]. change (wp ((modify (fun i => i <| di_releases ::= unlink h |>);; free_hook h) ≫= fun _ => foreach l (fun h => modify (fun i => i <| di_releases ::= unlink h |>);; free_hook h))
      (fun _ i' => exists R H, i' = i <| di_releases := R |> <| di_hooks := H |> /\
       (forall h', h' ∈ R <-> h' ∈ di_releases i /\ h' ∉ h :: l) /\ (forall h', h' ∉ h :: l -> H !! h' = di_hooks i !! h') /\
       forall h, is_Some (H !! h) -> is_Some (di_hooks i !! h)) i).
    unfold free_hook. wp_steps. eapply wp_mono; [apply IH|]. cbv beta. intros _ i' (R & H & -> & HR & HH & HL). exists R, H.
    split_and!; [done|..]; cbn in *.
    + intros h'. rewrite HR, in_unlink, not_elem_of_cons. tauto.
    + intros h' [Hne Hl]%not_elem_of_cons. by rewrite HH, lookup_delete_ne.
    + intros h' Hs. specialize (HL h' Hs). destruct (decide (h = h')) as [<-|]; [by rewrite lookup_delete_eq in HL; destruct HL|].
      by rewrite lookup_delete_ne in HL.
Qed.

Lemma nil_of {A} (l : list A) : (forall x, x ∈ l <-> False) -> l = [].
Proof. destruct l as [|x l]; [done|]. intros H. destruct (H x) as [[] _]. by left. Qed.

Lemma upload_begin_hooks i :
  hooks_ok i WRecover -> di_sock i <> None -> wp upload_begin (fun _ i' => hooks_ok i' WUploadStart) i.
Proof.
  intros [H1 H2 H3 H4 H5 H6 H7 H8 H9 H10 H11] Hs. unfold upload_begin, drop_releases. wp_steps.
  eapply wp_mono; [apply drop_hooks_run|]. cbv beta. intros _ i' (R & H & -> & HR & HH & HL).
  assert (R = []) as ->. { apply nil_of. intros h. rewrite HR, reverse_Permutation. tauto. }
  assert (Hlock : forall h, h ∈ di_locked i -> H !! h = di_hooks i !! h).
  { intros h Hh. apply HH. rewrite reverse_Permutation. intros Hr. apply NoDup_app in H1 as (_ & Hd & _). by apply (Hd h). }
  constructor; cbn; try done.
  - rewrite app_nil_r. by apply NoDup_app in H1 as (? & _).
  - intros h. rewrite app_nil_r. intros Hh. rewrite Hlock by done. apply H2, elem_of_app. by left.
  - intros h Hh. apply H3. by apply HL.
  - intros h x Hh. by apply elem_of_nil in Hh.
  - intros b x h Hb E1 E2. destruct (H5 b x h Hb E1 E2) as [G1 G2]. split; [done|]. by rewrite Hlock.
Qed.

Lemma out_server_run ok m i : di_sock i <> None -> wp (out_server ok m) (fun _ => same_hooks i) i.
Proof.
  intros Hs. unfold out_server, out_socket. wp_steps. destruct (di_sock i); [|done]. destruct ok; wp_steps; [same_hooks|reflexivity].
Qed.

Lemma same_hooks_sock i i' : same_hooks i i' -> di_sock i <> None -> di_sock i' <> None.
Proof. intros H Hs Hn. by destruct (sh_sock _ _ H Hn). Qed.

(** An ended read leaves the locked ones. *)
Lemma unlocked h x todo i :
  hooks_ok i (WUpload (h :: todo)) -> di_hooks i !! h = Some x -> hk_ended x = true ->
  hooks_ok (i <| di_locked ::= unlink h |> <| di_hooks ::= delete h |>) (WUpload todo).
Proof.
  intros [H1 H2 H3 H4 H5 H6 H7 H8 (H9 & Hnd & Ht) H10 H11] Hh Hx. apply NoDup_cons in Hnd as [Hnt Hnd].
  assert (Hp : di_locked i ++ di_releases i ≡ₚ h :: unlink h (di_locked i) ++ di_releases i).
  { rewrite (unlink_perm h (di_locked i)) at 1; [done|by apply NoDup_app in H1 as (? & _)|apply Ht; by left]. }
  rewrite Hp in H1. apply NoDup_cons in H1 as [Hno H1]. constructor; cbn; try done.
  - intros h' Hin. rewrite lookup_delete_ne by (by intros <-). apply H2. rewrite Hp. by right.
  - intros h'. destruct (decide (h = h')) as [<-|]; [rewrite lookup_delete_eq; by intros []|]. rewrite lookup_delete_ne by done. apply H3.
  - intros h' x' Hin. rewrite lookup_delete_ne; [by apply H4|]. intros <-. apply Hno, elem_of_app. by right.
  - intros b x' h' Hb E1 E2. destruct (H5 b x' h' Hb E1 E2) as [G1 G2]. assert (h <> h') by (intros <-; rewrite Hh in G2; by injection G2 as ->).
    rewrite lookup_delete_ne by done. split; [by apply in_unlink|done].
  - split_and!; try done. intros h' Hin. apply in_unlink. split; [apply Ht; by right|]. by intros ->.
  - intros Hn. destruct (H10 Hn) as [|[? _]]; done.
Qed.

Lemma hooks_next_todo h todo i : hooks_ok i (WUpload (h :: todo)) -> hooks_ok i (WUpload todo).
Proof.
  intros [H1 H2 H3 H4 H5 H6 H7 H8 (H9 & Hnd & Ht) H10 H11]. apply NoDup_cons in Hnd as [_ Hnd]. constructor; try done.
  - split_and!; try done. intros h' Hin. apply Ht. by right.
  - intros Hn. destruct (H10 Hn) as [|[? _]]; done.
Qed.

Lemma upload_sock i pc : hooks_ok i pc -> pc <> WExit -> pc <> WRecover -> di_sock i <> None.
Proof. intros Hok H1 H2 Hn. destruct (ho_sock _ _ Hok Hn) as [|[? _]]; done. Qed.

Lemma upload_lock_hooks ok h todo i :
  hooks_ok i (WUpload (h :: todo)) -> wp (upload_lock ok h) (fun _ i' => hooks_ok i' (WUpload todo)) i.
Proof.
  intros Hok. assert (Hs : di_sock i <> None) by by eapply upload_sock. destruct (ho_upload _ _ Hok) as (_ & _ & Ht).
  assert (Hin : h ∈ di_locked i) by (apply Ht; by left). destruct (ho_live _ _ Hok h) as [x Hx]; [apply elem_of_app; by left|].
  unfold upload_lock, get_hook, free_hook. wp_steps. rewrite Hx. wp_steps. destruct (hk_ended x) eqn:Ex; wp_steps; [by eapply unlocked|].
  eapply wp_mono; [by apply out_server_run|]. cbv beta. intros r i' Hi'. wp_steps. eapply hooks_ok_same; [done|]. by eapply hooks_next_todo.
Qed.

Lemma upload_end_hooks i : hooks_ok i WUploaded -> wp upload_end (fun _ i' => hooks_ok i' WRequeue) i.
Proof.
  intros Hok. assert (Hs : di_sock i <> None) by by eapply upload_sock. unfold upload_end. wp_steps.
  assert (Hend : forall i', hooks_ok i' WUploaded -> hooks_ok (i' <| di_dont_switch := false |>) WRequeue).
  { intros i' Hok'. pose proof (upload_sock _ _ Hok' ltac:(done) ltac:(done)) as Hs'. by destruct Hok'. }
  destruct (worker_ready i); wp_steps; [|by apply Hend].
  apply (wp_foreach (fun l i' => hooks_ok i' WUploaded /\ di_hooks i' = di_hooks i /\ (forall h, h ∈ l -> h ∈ di_locked i' ++ di_releases i'))).
  - split_and!; try done. intros h Hh. apply elem_of_app. by left.
  - intros h l i1 _ (Hok1 & Eh & Hl). assert (Hh : h ∈ di_locked i1 ++ di_releases i1) by (apply Hl; by left).
    destruct (ho_live _ _ Hok1 h Hh) as [x Hx]. unfold get_hook. wp_steps. rewrite Hx. wp_steps.
    destruct (hk_ended x) eqn:Ex; wp_steps; [|split_and!; try done; intros; apply Hl; by right].
    split_and!; [by eapply moved|done|]. intros h' Hh'. cbn. rewrite (move_perm h _ _ (ho_nodup _ _ Hok1) Hh). apply Hl. by right.
  - intros i1 (Hok1 & _). wp_steps. by apply Hend.
Qed.

Lemma requeue_queries_hooks i : wp requeue_queries (fun _ => same_hooks i) i.
Proof.
  apply (wp_foreach (fun _ => same_hooks i)); [reflexivity| |done]. intros k _ i1 _ Hi1. wp_steps. cbv zeta. wp_steps.
  etransitivity; [exact Hi1|]. constructor; try done; [|intros H; split; [done|left; cbn; lia]].
  intros r. unfold outstanding. cbn [di_queries di_pending set]. rewrite !elem_of_app, reverse_Permutation.
  destruct (di_pending i1 !! k) as [l|] eqn:Hk; cbn [default from_option id].
  - destruct (concat_insert _ _ _ Hk) as (rest & Hc0 & Hc). rewrite (Hc []), Hc0, !elem_of_app, elem_of_nil. tauto.
  - rewrite list_insert_ge by by apply lookup_ge_None. rewrite elem_of_nil. tauto.
Qed.

(** Steps to another position *)
Lemma plain_go i i' pc pc' :
  hooks_ok i pc -> plain_pc pc -> plain_pc pc' -> pc <> WExit -> pc <> WRecover -> query_held i' pc' -> same_hooks i i' -> hooks_ok i' pc'.
Proof.
  intros Hok Hp Hp' H1 H2 Hq Hs. pose proof (same_hooks_sock _ _ Hs (upload_sock _ _ Hok H1 H2)) as Hk.
  eapply hooks_ok_pc; [by eapply hooks_ok_same|done|done|done|done].
Qed.

Lemma hook_released h i pc :
  hooks_ok i pc -> plain_pc pc -> h ∈ di_releases i -> hooks_ok (i <| di_releases ::= unlink h |> <| di_hooks ::= delete h |>) pc.
Proof.
  intros [H1 H2 H3 H4 H5 H6 H7 H8 H9 H10 H11] Hpc Hh.
  assert (Hp : di_locked i ++ di_releases i ≡ₚ h :: di_locked i ++ unlink h (di_releases i)).
  { rewrite (unlink_perm h (di_releases i)) at 1; [by rewrite <- Permutation_middle|by apply NoDup_app in H1 as (_ & _ & ?)|done]. }
  rewrite Hp in H1. apply NoDup_cons in H1 as [Hno H1]. constructor; cbn; try done.
  - intros h' Hin. rewrite lookup_delete_ne by (by intros <-). apply H2. rewrite Hp. by right.
  - intros h'. destruct (decide (h = h')) as [<-|]; [rewrite lookup_delete_eq; by intros []|]. rewrite lookup_delete_ne by done. apply H3.
  - intros h' x' [Hin Hne]%in_unlink. rewrite lookup_delete_ne by done. by apply H4.
  - intros b x' h' Hb E1 E2. destruct (H5 b x' h' Hb E1 E2) as [G1 G2]. split; [done|]. rewrite lookup_delete_ne; [done|].
    intros <-. apply Hno, elem_of_app. by left.
Qed.

Lemma send_message_hooks ok make next i pc :
  hooks_ok i pc -> plain_pc pc -> plain_pc next -> pc <> WExit -> pc <> WRecover -> (forall i, query_held i next) ->
  (0 < di_server_out i -> forall i', same_hooks i i' -> wp make (fun _ i2 => i2 = i') i') ->
  wp (send_message ok make next) (fun r i' => match r with Some pc' => hooks_ok i' pc' | None => True end) i.
Proof.
  intros Hok Hp Hn H1 H2 Hq Hm. pose proof (upload_sock _ _ Hok H1 H2) as Hs. unfold send_message. semaphores. wp_steps.
  destruct (_ <=? _) eqn:Eo; wp_steps; [done|]. apply Z.leb_gt in Eo. set (i1 := i <| di_server_out ::= _ |>). assert (S1 : same_hooks i i1) by same_hooks.
  eapply wp_mono; [by apply Hm|]. cbv beta. intros m i' ->. wp_steps.
  eapply wp_mono; [apply out_server_run; exact Hs|]. cbv beta. intros err i2 S2. destruct (negb _); wp_steps.
  - eapply plain_go; [exact Hok|done|done|done|done|done|by etransitivity].
  - eapply plain_go; [exact Hok|done|done|done|done|apply Hq|]. etransitivity; [exact S1|]. etransitivity; [exact S2|]. same_hooks.
Qed.

Lemma next_query_hooks i :
  requests_ok i -> hooks_ok i WQueries -> wp next_query (fun r i' => match r with Some pc' => hooks_ok i' pc' | None => True end) i.
Proof.
  intros Hi Hok. unfold next_query, go. wp_steps. destruct (last (di_queries i)) as [r|] eqn:Hl; wp_steps; [|by eapply plain_go].
  destruct (worker_ready i); wp_steps; [|by eapply plain_go]. apply last_Some in Hl as [l Hl].
  assert (Hacc : rq_bio r ∈ di_accepted i).
  { rewrite (ro_account _ _ Hi). cbn. apply elem_of_app. left. apply list_elem_of_fmap_2. unfold outstanding. rewrite Hl, !elem_of_app. left. right. by left. }
  cbv zeta. wp_steps. eapply plain_go; [exact Hok|done..|exact Hacc|].
  constructor; try done; [|intros H; split; [done|left; cbn; lia]].
  intros r'. change (outstanding _) with (take (length (di_queries i) - 1) (di_queries i) ++ concat (alter (cons r) (hash_pending (rq_id r)) (di_pending i))) at 1.
  by rewrite (query_moved i l r (ro_buckets _ _ Hi) Hl).
Qed.

Lemma next_release_hooks i :
  hooks_ok i WReleases -> wp next_release (fun r i' => match r with Some pc' => hooks_ok i' pc' | None => True end) i.
Proof.
  intros Hok. unfold next_release, go, get_hook, free_hook. wp_steps. destruct (last (di_releases i)) as [h|] eqn:Hl; wp_steps; [|by eapply plain_go].
  destruct (worker_ready i); wp_steps; [|by eapply plain_go].
  assert (Hh : h ∈ di_releases i). { apply last_Some in Hl as [l ->]. apply elem_of_app. right. by left. }
  destruct (ho_live _ _ Hok h) as [x Hx]; [apply elem_of_app; by right|]. rewrite Hx. wp_steps.
  eapply plain_go; [by apply hook_released|done..|]. reflexivity.
Qed.

Lemma same_set_flag f i : same_hooks i (set_flag f i).
Proof.
  constructor; try done.
  - apply (flag_set i f 4). lia.
  - apply (flag_set i f 3). lia.
  - intros Hn. split; [done|left; cbn; lia].
Qed.

Lemma report_hooks (waiting back : worker_pc) i pc :
  hooks_ok i pc -> plain_pc pc -> plain_pc waiting -> plain_pc back -> pc <> WExit -> pc <> WRecover ->
  (forall i, query_held i waiting) -> (forall i, query_held i back) ->
  wp (report_error waiting back) (fun r i' => match r with Some pc' => hooks_ok i' pc' | None => True end) i.
Proof.
  intros Hok Hp Hw Hb H1 H2 Hq1 Hq2. unfold report_error, go. wp_steps. destruct (flag _ _); wp_steps; [by eapply plain_go; auto|].
  eapply plain_go; [exact Hok|done|done|done|done|apply Hq1|]. etransitivity; [apply (same_set_flag REPORT_FLAG)|same_hooks].
Qed.

Abbreviation next_ok := (fun r i' => match r with Some pc' => hooks_ok i' pc' | None => True end).

Lemma worker_recover_hooks ok i : hooks_ok i WRecover -> wp (worker_step ok WRecover) next_ok i.
Proof.
  intros Hok. cbn [worker_step]. semaphores. wp_steps. destruct (_ <=? _) eqn:Er; wp_steps; [done|]. apply Z.leb_gt in Er.
  set (i1 := i <| di_recover ::= _ |>). assert (S1 : same_hooks i i1) by same_hooks. pose proof (hooks_ok_same _ _ _ S1 Hok) as Hok1.
  change (flag i1 FINISH_FLAG) with (flag i FINISH_FLAG). destruct (flag i FINISH_FLAG) eqn:Ef; wp_steps; [by eapply hooks_ok_pc|].
  assert (Hs : di_sock i1 <> None). { intros Hn. destruct (ho_sock _ _ Hok Hn) as [|[_ [|]]]; [done|lia|congruence]. }
  destruct (is_snapshot i1); wp_steps; [|by eapply hooks_ok_pc]. eapply wp_mono; [by apply upload_begin_hooks|]. cbv beta. intros _ i2 Hok2. by wp_steps.
Qed.

Lemma worker_requeue_hooks ok i : hooks_ok i WRequeue -> wp (worker_step ok WRequeue) next_ok i.
Proof.
  intros Hok. cbn [worker_step]. unfold go. wp_steps. eapply wp_mono; [apply requeue_queries_hooks|]. cbv beta. intros _ i1 S1. wp_steps.
  pose proof (same_hooks_sock _ _ S1 (upload_sock _ _ Hok ltac:(done) ltac:(done))) as Hs.
  eapply plain_go; [exact Hok|done..|]. etransitivity; [exact S1|]. constructor; try done.
  - by apply (flag_kept i1 (Z.lor RECOVER_FLAG REPORT_FLAG) 4).
  - by apply (flag_kept i1 (Z.lor RECOVER_FLAG REPORT_FLAG) 3).
Qed.

(** The bio of the query that the worker is about to send was not handed back. *)
Definition bio_there (i : devinfo) (pc : worker_pc) : Prop :=
  match pc with WQuery b _ _ _ => is_Some (di_bios i !! b) | _ => True end.

(** The worker follows no bad pointer but that one, and keeps the invariant. *)
Lemma worker_step_hooks ok pc i : requests_ok i -> hooks_ok i pc -> bio_there i pc -> wp (worker_step ok pc) next_ok i.
Proof.
  intros Hi Hok Hthere. destruct pc as [| |[|h todo]| | | | | | | | | | | |].
  - by apply worker_recover_hooks.
  - cbn [worker_step]. unfold go. wp_steps. pose proof Hok as [H1 H2 H3 H4 H5 H6 H7 H8 H9 H10 H11]. constructor; try done.
    + split_and!; [done|by apply NoDup_app in H1 as (? & _)|done].
    + intros Hn. by destruct (upload_sock _ _ Hok ltac:(done) ltac:(done)).
  - cbn [worker_step]. unfold go. pose proof (upload_sock _ _ Hok ltac:(done) ltac:(done)) as Hs. wp_steps.
    eapply wp_mono; [by apply out_server_run|]. cbv beta. intros r i1 S1. wp_steps. apply (hooks_ok_same _ _ _ S1) in Hok.
    pose proof (same_hooks_sock _ _ S1 Hs). destruct Hok as [H1 H2 H3 H4 H5 H6 H7 H8 [H9 _] H10 H11]. by constructor.
  - cbn [worker_step]. unfold go. wp_steps. eapply wp_mono; [by apply upload_lock_hooks|]. cbv beta. intros _ i1 H. by wp_steps.
  - cbn [worker_step]. unfold go. wp_steps. eapply wp_mono; [by apply upload_end_hooks|]. cbv beta. intros _ i1 H. by wp_steps.
  - by apply worker_requeue_hooks.
  - cbn [worker_step]. unfold go. wp_steps. destruct (worker_running i); [|destruct (flag _ _)]; wp_steps; by eapply plain_go.
  - cbn [worker_step]. semaphores. wp_steps. destruct (_ <=? _); wp_steps; [done|]. eapply plain_go; [exact Hok|done..|same_hooks].
  - by apply next_query_hooks.
  - cbn [worker_step]. eapply send_message_hooks; [exact Hok|done..|]. intros _ i' S. unfold query_message, get_bio. wp_steps.
    destruct Hthere as [x Hx]. rewrite (sh_bios _ _ S), Hx. by wp_steps.
  - by apply next_release_hooks.
  - cbn [worker_step]. eapply send_message_hooks; [exact Hok|done..|]. intros _ i' S. by wp_steps.
  - by eapply report_hooks.
  - cbn [worker_step]. unfold report_wait. semaphores. wp_steps. destruct (_ <=? _); wp_steps; [done|].
    pose proof (upload_sock _ _ Hok ltac:(done) ltac:(done)) as Hs. eapply plain_go; [exact Hok|done..|]. etransitivity; [|apply (same_set_flag RECOVER_FLAG)]. same_hooks.
  - cbn [worker_step]. semaphores. wp_steps. destruct (_ <=? _); wp_steps; [done|]. eapply plain_go; [exact Hok|done..|same_hooks].
  - cbn [worker_step]. unfold blocked. by wp_steps.
Qed.

(** A step of the worker that returned *)
Lemma query_gone ok b id chunk chunks i r i' :
  di_bios i !! b = None -> worker_step ok (WQuery b id chunk chunks) i = Done r i' -> r = None.
Proof.
  intros Hb. cbn [worker_step]. unfold send_message, query_message, get_bio. semaphores. unfold mbind, M_bind, m_bind, get, modify, mret, M_ret, m_ret.
  destruct (di_server_out i <=? 0); [by intros [= <- _]|]. cbn. by rewrite Hb.
Qed.

Lemma bio_there_or i pc : bio_there i pc \/ exists b id chunk chunks, pc = WQuery b id chunk chunks /\ di_bios i !! b = None.
Proof.
  destruct pc as [| | | | | | | |b id chunk chunks| | | | | |]; try by left. cbn. destruct (di_bios i !! b) eqn:E; [left; by eexists|right; eauto 10].
Qed.

Lemma worker_step_returned ok pc i : requests_ok i -> hooks_ok i pc -> wlp (worker_step ok pc) next_ok i.
Proof.
  intros Hi Hok. destruct (bio_there_or i pc) as [Ht|(b & id & chunk & chunks & -> & Hb)]; [by apply wp_wlp, worker_step_hooks|].
  intros r i' E. by rewrite (query_gone _ _ _ _ _ _ _ _ Hb E).
Qed.

(** ** The other threads *)

Lemma out_socket_same s ok m i : wlp (out_socket s ok m) (fun _ => same_hooks i) i.
Proof. unfold out_socket. wlp_steps; try same_hooks; reflexivity. Qed.
Lemma out_control_same ok m i : wlp (out_control ok m) (fun _ => same_hooks i) i.
Proof. unfold out_control. wlp_steps; try same_hooks; reflexivity. Qed.

Lemma same_bind {A B} (m : kprog A) (f : A -> kprog B) i :
  wlp m (fun _ => same_hooks i) i -> (forall a i', wlp (f a) (fun _ => same_hooks i') i') -> wlp (m ≫= f) (fun _ => same_hooks i) i.
Proof.
  intros H1 H2. apply wlp_bind. eapply wlp_mono; [exact H1|]. cbv beta. intros a i' Hi. eapply wlp_mono; [apply H2|].
  cbv beta. intros _ i'' Hi'. by etransitivity.
Qed.

Lemma identify_ok_same ok body i : wlp (identify_ok ok body) (fun _ => same_hooks i) i.
Proof.
  unfold identify_ok. apply same_bind; [wlp_steps|].
  - etransitivity; [apply (same_set_flag READY_FLAG)|same_hooks].
  - intros _ i1. apply same_bind; [apply out_control_same|]. intros _ i2. wlp_steps. same_hooks.
Qed.

Lemma identify_error_same ok body i : wlp (identify_error ok body) (fun _ => same_hooks i) i.
Proof.
  unfold identify_error. destruct (_ <? _)%nat; [wlp_steps|]. apply same_bind; [apply out_control_same|]. intros _ i2. wlp_steps. same_hooks.
Qed.

Lemma same_keeps {A} (m : kprog A) i pc : hooks_ok i pc -> wlp m (fun _ => same_hooks i) i -> wlp m (fun _ i' => hooks_ok i' pc) i.
Proof. intros Hok H. eapply wlp_mono; [exact H|]. cbv beta. intros _ i' S. by eapply hooks_ok_same. Qed.

Lemma incoming_message_hooks sock ok m i pc :
  requests_ok i -> hooks_ok i pc -> wlp (incoming_message sock ok m) (fun _ i' => hooks_ok i' pc) i.
Proof.
  intros Hi Hok. unfold incoming_message. destruct (maxbody <? _)%nat; [by wlp_steps|].
  destruct (rw_answer (m_code m)) as [[[rw snap] failed]|].
  - destruct (_ <? _)%nat; [by wlp_steps|]. apply wlp_bind. eapply wlp_mono; [by apply replied_ranges_hooks|]. cbv beta. intros _ i' Hi'. by wlp_steps.
  - apply same_keeps; [done|]. apply same_bind; [|intros; wlp_steps; reflexivity]. repeat destruct (_ =? _).
    + apply identify_ok_same.
    + apply identify_error_same.
    + wlp_steps. reflexivity.
    + apply same_bind; [apply out_socket_same|]. intros. wlp_steps. reflexivity.
Qed.

Lemma report_error_same {pc} (a b : pc) i : wlp (report_error a b) (fun _ => same_hooks i) i.
Proof.
  unfold report_error, go. wlp_steps; [reflexivity|]. etransitivity; [apply (same_set_flag REPORT_FLAG)|same_hooks].
Qed.

Lemma report_wait_same {pc} (b : pc) i : wlp (report_wait b) (fun _ => same_hooks i) i.
Proof.
  unfold report_wait. semaphores. wlp_steps; [reflexivity|]. etransitivity; [|apply (same_set_flag RECOVER_FLAG)]. same_hooks.
Qed.

Lemma incoming_step_hooks ok input ipc i pc :
  requests_ok i -> hooks_ok i pc -> wlp (incoming_step ok input ipc) (fun _ i' => hooks_ok i' pc) i.
Proof.
  intros Hi Hok. destruct ipc; cbn [incoming_step].
  - apply same_keeps; [done|]. apply same_bind; [apply out_control_same|]. intros. unfold go. wlp_steps. reflexivity.
  - apply same_keeps; [done|]. semaphores. wlp_steps; [reflexivity|same_hooks].
  - wlp_step. wlp_step. destruct (negb _); [unfold go; by wlp_steps|]. destruct input as [m|]; [|unfold go; by wlp_steps].
    apply wlp_bind. eapply wlp_mono; [by apply incoming_message_hooks|]. cbv beta. intros b i' Hi'. unfold go. by wlp_steps.
  - apply same_keeps; [done|]. wlp_step. wlp_step. destruct (negb _); [unfold go; wlp_steps; reflexivity|apply report_error_same].
  - apply same_keeps; [done|]. apply report_wait_same.
  - unfold blocked. by wlp_steps.
Qed.

Lemma ddsnap_map_hooks b rw sector i pc :
  requests_ok i -> hooks_ok i pc -> b ∉ di_accepted i -> wlp (ddsnap_map b rw sector) (fun _ i' => hooks_ok i' pc) i.
Proof.
  intros Hi Hok Hnew. unfold ddsnap_map. destruct (negb (flag i READY_FLAG)) eqn:Er.
  { wlp_step. wlp_step. rewrite Er. by wlp_steps. }
  apply negb_false_iff in Er. wlp_steps; try done; try (eapply hooks_ok_same; [|done]; same_hooks).
  assert (Hloose : loose b i).
  { split; [intros H; by apply Hnew, inflight_accepted|]. intros r Hr <-. apply Hnew. rewrite (ro_account _ _ Hi). cbn.
    apply elem_of_app. left. by apply list_elem_of_fmap_2. }
  destruct (bio_changed b (mkBio rw ORGDEV sector None) i pc Hok Hloose) as [H1 H2 H3 H4 H5 H6 H7 H8 H9 H10 H11]. constructor; try done.
  - cbn. intros r x [->|Hr]%elem_of_cons; cbn; [rewrite lookup_insert_eq; by intros [= <-]|by apply H7].
  - destruct pc; try done. by right.
Qed.

Lemma out_server_some ok m i : wlp (out_server ok m) (fun _ i' => same_hooks i i' /\ di_sock i <> None) i.
Proof. unfold out_server, out_socket. wlp_steps; (split; [|done]); [same_hooks|reflexivity]. Qed.

Section control.
Context (begin len : Z).

Lemma connect_server_hooks ok rc i pc :
  hooks_ok i pc -> wlp (connect_server begin len ok rc) (fun c i' => c = CRun -> hooks_ok i' pc) i.
Proof.
  intros Hok. assert (Hrun : forall i1, same_hooks i i1 -> wlp (
      err ← out_server ok (mkMessage IDENTIFY (identify_body (di_id i1) (di_snap i1) begin len));
      if err <? 0 then mret CExit else modify (fun i => i <| di_recover ::= Z.add 1 |>);; mret CRun) (fun c i' => c = CRun -> hooks_ok i' pc) i1).
  { intros i1 S1. apply wlp_bind. eapply wlp_mono; [apply out_server_some|]. cbv beta. intros err i2 [S2 Hs].
    destruct (_ <? _); wlp_steps; [done|]. intros _. eapply hooks_ok_same; [|exact Hok]. etransitivity; [exact S1|].
    pose proof (same_hooks_sock _ _ S2 Hs) as Hs2. destruct S2 as [A1 A2 A3 A4 A5 A6 A7 A8 A9 A10 A11 A12]. by constructor. }
  destruct rc as [| |s]; cbn [connect_server]; [by wlp_steps|..]; do 6 wlp_step; apply Hrun; same_hooks.
Qed.

(** The agent's thread, while it does not end *)
Lemma control_step_hooks ok input i pc :
  hooks_ok i pc -> wlp (control_step begin len ok input CRun) (fun r i' => r = Some CRun -> hooks_ok i' pc) i.
Proof.
  intros Hok. cbn [control_step]. wlp_step. wlp_step. apply wlp_bind.
  eapply (wlp_mono _ (fun c i' => c = CRun -> hooks_ok i' pc)).
  - destruct (negb (running i)) eqn:Er; [by wlp_steps|]. destruct input as [|m rc].
    + unfold control_error. intros c i' E. apply bind_done in E as (i1 & i2 & _ & E). apply bind_done in E as (u & i3 & _ & E). by injection E as <- <-.
    + unfold control_message. destruct (_ <? _)%nat; [by wlp_steps|]. destruct (m_code m =? SET_IDENTITY); [wlp_steps; intros _; eapply hooks_ok_same; [|done]; same_hooks|].
      destruct (m_code m =? CONNECT_SERVER); [by apply connect_server_hooks|]. eapply wlp_mono; [apply (same_keeps _ i pc Hok)|by cbv beta].
      destruct (_ =? _); [wlp_steps; reflexivity|]. apply same_bind; [apply out_control_same|]. intros. wlp_steps. reflexivity.
  - cbv beta. intros c i' Hc. unfold go. destruct c; wlp_steps; [|done]. intros _. by apply Hc.
Qed.

(** Both invariants, the one for hooks while the agent is there *)
Definition kernel_ok (k : kernel) : Prop :=
  requests_ok (k_info k) /\ (k_control k = CRun -> hooks_ok (k_info k) (k_worker k)).

Lemma kstep_ok k k' : kstep begin len k k' -> kernel_ok k -> kernel_ok k'.
Proof.
  intros Hs [Hr Hh]. split; [by eapply kstep_requests|].
  destruct Hs as [k b rw sector r i Hb _ E|k b i Hb E|k ok pc i E|k ok input pc i E|k ok input pc i E|k i E]; cbn; intros Hc.
  - by eapply (ddsnap_map_hooks b rw sector (k_info k) (k_worker k) Hr (Hh Hc) Hb).
  - pose proof (end_io_hooks b _ _ Hr (Hh Hc) Hb) as Hw. unfold wp in Hw. by rewrite E in Hw.
  - exact (worker_step_returned ok _ _ Hr (Hh Hc) _ _ E).
  - by eapply (incoming_step_hooks ok input _ _ _ Hr (Hh Hc)).
  - subst pc. destruct (k_control k) eqn:Ek; [|discriminate E]. by eapply (control_step_hooks ok input _ _ (Hh eq_refl)).
  - injection E as <-. eapply hooks_ok_same; [|by apply Hh]. etransitivity; [apply (same_set_flag FINISH_FLAG)|]. constructor; try done.
    intros Hn. split; [done|]. right. change (flag (set_flag FINISH_FLAG (k_info k)) (2 ^ 3) = true). rewrite flag_bit by lia.
    change (Z.testbit (Z.lor (di_flags (k_info k)) FINISH_FLAG) 3 = true). rewrite Z.lor_spec. apply orb_true_r.
Qed.

Lemma new_hooks snap : hooks_ok (new_devinfo snap) WRecover.
Proof.
  constructor; cbn; try done.
  - constructor.
  - intros h Hh. by apply elem_of_nil in Hh.
  - intros h [x Hx]. rewrite lookup_empty in Hx. done.
  - intros _. right. split; [done|]. by left.
Qed.

Lemma reachable_ok snap k : reachable begin len snap k -> kernel_ok k.
Proof.
  unfold reachable. intros Hr. remember (ddsnap_create snap) as k0 eqn:E.
  assert (H0 : kernel_ok k0) by (subst; split; [apply new_requests|intros _; apply new_hooks]).
  clear E. induction Hr as [|k0 k1 k Hs _ IH]; [done|]. apply IH. by eapply kstep_ok.
Qed.
End control.

(** ** The theorems *)

(** C10: A lock is released only when its read has ended.  While the agent is there,
    every hook on the list of releases belongs to a read that ended, and every
    read of the origin that is at a device has its hook on the list of locks, with
    the sector it reads, and not on the list of releases: the worker, which sends
    releases for the hooks of that list only, cannot release its lock. *)
Theorem client_locks_safe begin len snap k :
  reachable begin len snap k -> k_control k = CRun ->
  let i := k_info k in
  (forall h, h ∈ di_releases i -> exists x, di_hooks i !! h = Some x /\ hk_ended x = true) /\
  (forall b x h, b ∈ di_inflight i -> di_bios i !! b = Some x -> bi_end_io x = Some h ->
     di_hooks i !! h = Some (mkHook (bi_sector x) false) /\ h ∈ di_locked i /\ (h ∉ di_releases i)).
Proof.
  intros Hr Hc i. destruct (reachable_ok _ _ _ _ Hr) as [_ Hok]. specialize (Hok Hc). fold i in Hok. split.
  - intros h Hh. destruct (ho_live _ _ Hok h) as [x Hx]; [apply elem_of_app; by right|]. exists x. split; [done|]. by eapply (ho_ended _ _ Hok).
  - intros b x h Hb E1 E2. destruct (ho_read _ _ Hok b x h Hb E1 E2) as [G1 G2]. split_and!; try done.
    intros Hh. pose proof (ho_ended _ _ Hok h _ Hh G2) as H. done.
Qed.

Lemma walk_hooks_run l n i : (forall h, h ∈ l -> is_Some (di_hooks i !! h)) -> wp (walk_hooks l n) (fun r i' => r = (n + length l)%nat /\ i' = i) i.
Proof.
  revert n. induction l as [|h l IH]; intros n Hl; cbn [walk_hooks]; wp_steps; [split; [cbn; lia|done]|]. unfold get_hook. wp_steps.
  destruct (Hl h) as [x ->]; [by left|]. wp_steps. eapply wp_mono; [apply IH; intros; apply Hl; by right|]. cbv beta. cbn. intros r i' [-> ->]. split; [lia|done].
Qed.

(** ** Answers follow no bio that was handed back *)

Definition tame {A} (m : kprog A) (i : devinfo) : Prop := m i <> Halt WildAccess.

Lemma tame_bind {A B} (m : kprog A) (f : A -> kprog B) i :
  tame m i -> (forall a i', m i = Done a i' -> tame (f a) i') -> tame (m ≫= f) i.
Proof.
  intros H1 H2. unfold tame, mbind, M_bind, m_bind in *. destruct (m i) as [a i'|h] eqn:E; [by apply H2|].
  intros [= ->]. by apply H1.
Qed.

Lemma wp_tame {A} (m : kprog A) Q i : wp m Q i -> tame m i.
Proof. unfold wp, tame. by destruct (m i). Qed.

Lemma get_bio_tame b i : is_Some (di_bios i !! b) -> tame (get_bio b) i.
Proof. intros [x Hx]. unfold tame, get_bio, mbind, M_bind, m_bind, get. by rewrite Hx. Qed.

Lemma get_bio_same b i x i' : get_bio b i = Done x i' -> i' = i.
Proof. unfold get_bio, mbind, M_bind, m_bind, get. destruct (_ !! _); [|done]. by intros [= _ <-]. Qed.

Lemma upd_bio_tame b f i : is_Some (di_bios i !! b) -> tame (upd_bio b f) i.
Proof. intros Hb. unfold upd_bio. apply tame_bind; [by apply get_bio_tame|]. done. Qed.

Lemma remap_tame b shift body n p i : is_Some (di_bios i !! b) -> tame (remap b shift body n p) i.
Proof.
  revert p i. induction n as [|n IH]; intros p i Hb; cbn [remap]; [done|]. apply tame_bind; [by apply upd_bio_tame|].
  intros u i' E. apply IH. by apply (sr_bios _ _ (upd_bio_quiet _ _ _ _ _ E)).
Qed.

Lemma replied_ranges_tame body rw snap failed n p i : requests_ok i -> tame (replied_ranges body rw snap failed n p) i.
Proof.
  revert p i. induction n as [|n IH]; intros p i Hi; cbn [replied_ranges]; [done|].
  apply tame_bind; [by destruct (_ =? 1)|]. intros u i' E. assert (i' = i) as -> by (destruct (_ =? 1); [by injection E|done]). clear u E.
  apply tame_bind; [done|]. intros i' i'' [= <- <-].
  destruct (di_pending i !! hash_pending (ld32 0 body)) as [l|] eqn:Hk; cbn [mbind option_bind]; [|done].
  destruct (take_request (ld32 0 body) l) as [[r l']|] eqn:Ht; [|done].
  destruct (request_taken _ _ _ _ _ _ _ Hi Hk Ht) as [H1 _]. apply tame_bind; [done|]. intros u i1 [= _ <-].
  set (i1 := i <| di_pending ::= _ |>) in *. clearbody i1. clear Hi Hk.
  destruct failed; [|destruct (negb _)].
  - apply tame_bind; [eapply wp_tame, bio_io_error_run, H1|]. intros u2 i2 E. apply IH. exact (wp_wlp _ _ _ (bio_io_error_run _ _ _ H1) _ _ E).
  - apply tame_bind; [eapply wp_tame, bio_io_error_run, H1|]. done.
  - assert (Hb : is_Some (di_bios i1 !! rq_bio r)) by (apply (ro_bios _ _ H1); by left). apply tame_bind.
    + destruct snap; [by apply remap_tame|]. apply tame_bind; [|done]. destruct (bool_decide _); [|done]. unfold add_hook.
      apply tame_bind; [by apply get_bio_tame|done].
    + intros p' i2 E. assert (Hs : same_requests i1 i2).
      { revert E. apply (fun H : wlp _ (fun _ => same_requests i1) i1 => H p' i2). destruct snap; [apply remap_quiet|].
        apply requests_bind; [|intros; quiet]. destruct (bool_decide _); [apply add_hook_quiet|quiet]. }
      pose proof (requests_ok_same _ _ _ Hs H1) as H2. apply tame_bind; [unfold generic_make_request; apply tame_bind; [|done]|].
      * apply get_bio_tame. by apply (sr_bios _ _ Hs).
      * intros u3 i3 E3. apply IH. unfold generic_make_request in E3. apply bind_done in E3 as (x & i4 & E4%get_bio_same & E3). subst i4.
        injection E3 as _ <-. by apply requests_submitted.
Qed.

(** A bio that came and is in no list any more was handed back. *)
Lemma handed_back b i : requests_ok i -> b ∈ di_accepted i -> di_bios i !! b = None -> b ∈ di_ended i ++ di_failed i.
Proof.
  intros Hi Hb Hn. rewrite (ro_account _ _ Hi) in Hb. cbn in Hb.
  assert (Hno : b ∉ (rq_bio <$> outstanding i) ++ di_inflight i). { intros Hin. destruct (ro_bios _ _ Hi b Hin). congruence. }
  revert Hb Hno. rewrite !elem_of_app. tauto.
Qed.

(** C29: While the agent is there, the client follows no pointer to freed memory,
    but for one, and uses no socket that it does not have.  The end of any request
    at a device, the counters of the proc file, an answer of the server, whatever
    it says, and the flush of all requests when the agent is lost follow no hook
    that was freed and no bio that was handed back.  The next step of the worker
    returns, unless the worker is about to send the query for a request that has
    been handed back in the meantime: its bio is the one that it can follow. *)
Theorem client_steps_return begin len snap k :
  reachable begin len snap k -> k_control k = CRun ->
  let i := k_info k in
  (forall ok, (exists r i', worker_step ok (k_worker k) i = Done r i') \/
     exists b id chunk chunks, k_worker k = WQuery b id chunk chunks /\ b ∈ di_ended i ++ di_failed i) /\
  (forall b, b ∈ di_inflight i -> exists i', end_io b i = Done tt i') /\
  (forall body rw snap failed_io, replied_rw body rw snap failed_io i <> Halt WildAccess) /\
  (exists i', flush_pending_bio i = Done tt i') /\
  ddsnap_locked_queries i = Done (length (di_locked i)) i /\
  ddsnap_releases_queries i = Done (length (di_releases i)) i.
Proof.
  intros Hr Hc i. destruct (reachable_ok _ _ _ _ Hr) as [Hi Hok]. specialize (Hok Hc). fold i in Hi, Hok.
  assert (Hwalk : forall l, (forall h, h ∈ l -> h ∈ di_locked i ++ di_releases i) -> walk_hooks l 0 i = Done (length l) i).
  { intros l Hl. pose proof (walk_hooks_run l 0 i (fun h Hh => ho_live _ _ Hok h (Hl h Hh))) as Hw. unfold wp in Hw.
    destruct (walk_hooks l 0 i); [|done]. by destruct Hw as [-> ->]. }
  split_and!.
  - intros ok. destruct (bio_there_or i (k_worker k)) as [Ht|(b & id & chunk & chunks & E & Hb)].
    + left. pose proof (worker_step_hooks ok _ _ Hi Hok Ht) as Hw. unfold wp in Hw. destruct (worker_step ok (k_worker k) i); [by do 2 eexists|done].
    + right. exists b, id, chunk, chunks. split; [done|]. apply handed_back; [done| |done]. pose proof (ho_query _ _ Hok) as Hq. by rewrite E in Hq.
  - intros b Hb. pose proof (end_io_hooks b _ _ Hi Hok Hb) as Hw. unfold wp in Hw. destruct (end_io b i) as [[] i'|]; [by eexists|done].
  - intros body rw sn failed. by apply replied_ranges_tame.
  - pose proof (flush_pending_bio_run i Hi) as Hw. unfold wp in Hw. destruct (flush_pending_bio i) as [[] i'|]; [by eexists|done].
  - apply Hwalk. intros h Hh. apply elem_of_app. by left.
  - apply Hwalk. intros h Hh. apply elem_of_app. by right.
Qed.
