(* ===== verification/ClientIds.v ===== *)
(** * Ids of requests

    A request has a 32-bit id, by which the answer finds it.  Ids are not used
    twice before 2^32 requests have come, and till then every answer finds the
    request it is for. *)

From S2P Require Import Prelude Bytes State Locks Reply Server Client ClientSpec.

(** Steps that give out no id *)
Definition fewer (i i' : devinfo) : Prop :=
  (rq_id <$> outstanding i') ⊆+ (rq_id <$> outstanding i) /\ di_nextid i' = di_nextid i.

#[global] Instance fewer_preorder : PreOrder fewer.
Proof.
  split; [done|]. intros x y z [H1 E1] [H2 E2]. split; [by etransitivity|congruence].
Qed.

Lemma fewer_same i i' : same_requests i i' -> fewer i i'.
Proof. intros [H1 H2 _ _ _ _ H7 _]. unfold fewer, outstanding. by rewrite H1, H2. Qed.

Lemma fewer_perm i i' l : outstanding i ≡ₚ l ++ outstanding i' -> di_nextid i' = di_nextid i -> fewer i i'.
Proof. intros Hp E. split; [|done]. rewrite Hp, fmap_app. apply submseteq_inserts_l. done. Qed.

(** ** Every step but [ddsnap_map] *)

Lemma few_bind {A B} (m : kprog A) (f : A -> kprog B) i :
  wlp m (fun _ => fewer i) i -> (forall a i', wlp (f a) (fun _ => fewer i') i') -> wlp (m ≫= f) (fun _ => fewer i) i.
Proof.
  intros H1 H2. apply wlp_bind. eapply wlp_mono; [exact H1|]. cbv beta. intros a i' Hi. eapply wlp_mono; [apply H2|].
  cbv beta. intros _ i'' Hi'. by etransitivity.
Qed.

Lemma few_quiet {A} (m : kprog A) i : wlp m (fun _ => same_requests i) i -> wlp m (fun _ => fewer i) i.
Proof. intros H. eapply wlp_mono; [exact H|]. cbv beta. intros _ i'. apply fewer_same. Qed.

Lemma few_foreach {A} (l : list A) (body : A -> kprog unit) i :
  (forall x i', wlp (body x) (fun _ => fewer i') i') -> wlp (foreach l body) (fun _ => fewer i) i.
Proof.
  intros Hb. apply (wlp_foreach (fewer i)); [reflexivity| |done]. intros x i' _ Hi. eapply wlp_mono; [apply Hb|].
  cbv beta. intros _ i'' Hi'. by etransitivity.
Qed.

Ltac few := wlp_steps; try solve [split; reflexivity].

Lemma replied_ranges_fewer body rw snap failed n p i : wlp (replied_ranges body rw snap failed n p) (fun _ => fewer i) i.
Proof.
  revert p i. induction n as [|n IH]; intros p i; cbn [replied_ranges]; [few|]. wlp_step. wlp_step. wlp_step. wlp_step.
  destruct (di_pending i !! hash_pending (ld32 0 body)) as [l|] eqn:Hk; cbn [mbind option_bind]; [|few].
  destruct (take_request (ld32 0 body) l) as [[r l']|] eqn:Ht; [|few].
  pose proof (outstanding_taken _ _ _ _ _ _ Hk Ht) as Ho. apply few_bind; [wlp_steps; by apply (fewer_perm _ _ [r])|]. intros _ i1.
  destruct failed; [|destruct (negb _)]; unfold bio_io_error, generic_make_request, get_bio.
  - apply few_bind; [few|intros; apply IH].
  - few.
  - apply few_bind.
    + apply few_quiet. destruct snap; [apply remap_quiet|]. apply requests_bind; [|intros; quiet]. destruct (bool_decide _); [apply add_hook_quiet|quiet].
    + intros p' i2. apply few_bind; [few|intros; apply IH].
Qed.

Lemma bucket_fewer (f : list request -> list request) k i :
  (forall l, exists l2, l ≡ₚ l2 ++ f l) ->
  fewer i (i <| di_pending ::= insert k [] |> <| di_queries ::= fun q => f (default [] (di_pending i !! k)) ++ q |>).
Proof.
  intros Hf. destruct (Hf (default [] (di_pending i !! k))) as [l2 Hl2].
  apply (fewer_perm _ _ l2); [|done]. unfold outstanding. cbn. rewrite !app_assoc, <- Hl2.
  destruct (di_pending i !! k) as [l|] eqn:Hk; cbn [default from_option id].
  - pose proof (outstanding_emptied i k l Hk) as Ho. unfold outstanding in Ho. cbn in Ho. by rewrite Ho, app_assoc.
  - by rewrite list_insert_ge by by apply lookup_ge_None.
Qed.

Lemma requeue_queries_fewer i : wlp requeue_queries (fun _ => fewer i) i.
Proof.
  apply few_foreach. intros k i1. wlp_steps. cbv zeta. wlp_steps.
  etransitivity; [apply (bucket_fewer reverse k)|by split]. intros l. exists []. by rewrite reverse_Permutation.
Qed.

Lemma flush_list_fewer l i : wlp (flush_list l) (fun _ => fewer i) i.
Proof. apply few_foreach. intros r i'. unfold bio_io_error, get_bio. few. Qed.

Lemma flush_pending_bio_fewer i : wlp flush_pending_bio (fun _ => fewer i) i.
Proof.
  unfold flush_pending_bio. wlp_step. wlp_step. apply few_bind.
  - wlp_steps. by apply (fewer_perm _ _ (di_queries i)).
  - intros _ i1. apply few_bind; [apply flush_list_fewer|]. intros _ i2. apply few_bind.
    + apply few_foreach. intros k i3. wlp_step. wlp_step. apply few_bind; [|intros; apply flush_list_fewer]. wlp_steps.
      etransitivity; [apply (bucket_fewer (fun _ => []) k)|by split]. intros l. exists l. by rewrite app_nil_r.
    + intros _ i3. wlp_step. wlp_step. apply few_bind; [apply few_quiet, drop_hooks_quiet|]. intros. few.
Qed.

Lemma next_query_fewer i : requests_ok i -> wlp next_query (fun _ => fewer i) i.
Proof.
  intros Hi. unfold next_query, go. few.
  match goal with H : last _ = Some ?x |- _ => rename x into r; apply last_Some in H as [l Hl] end.
  apply (fewer_perm _ _ []); [|done]. symmetry. exact (query_moved i l r (ro_buckets _ _ Hi) Hl).
Qed.

(** ** Ids *)

(** [m] ids were given out. *)
Record ids_ok (m : Z) (i : devinfo) : Prop := {
  io_next : u32 (di_nextid i) = u32 m;
  io_nodup : NoDup (rq_id <$> outstanding i);
  io_range : forall r, r ∈ outstanding i -> 0 <= rq_id r < m }.

Lemma ids_ok_fewer m i i' : fewer i i' -> ids_ok m i -> ids_ok m i'.
Proof.
  intros [Hs E] [I1 I2 I3]. destruct (submseteq_Permutation _ _ Hs) as [rest Hp]. constructor.
  - by rewrite E.
  - rewrite Hp in I2. by apply NoDup_app in I2 as (? & _).
  - intros r Hr. assert (Hin : rq_id r ∈ rq_id <$> outstanding i) by (rewrite Hp; apply elem_of_app; left; by apply list_elem_of_fmap_2).
    apply list_elem_of_fmap in Hin as (r' & -> & Hr'). by apply I3.
Qed.

Lemma ids_ok_mono m m' i : u32 m = u32 m' -> m <= m' -> ids_ok m i -> ids_ok m' i.
Proof. intros E Hm [I1 I2 I3]. constructor; [by rewrite I1|done|]. intros r Hr. specialize (I3 r Hr). lia. Qed.

(** A new request gets a new id. *)
Lemma ddsnap_map_ids b rw sector m i :
  0 <= m < 2 ^ 32 -> ids_ok m i -> wlp (ddsnap_map b rw sector) (fun _ i' => ids_ok m i' \/ ids_ok (m + 1) i') i.
Proof.
  intros Hm [I1 I2 I3]. rewrite (u32_id m) in I1 by done.
  assert (Hnext : u32 (s32 (u32 (u32 (di_nextid i) + 1))) = u32 (m + 1)).
  { rewrite I1. unfold s32. set (y := u32 (m + 1) mod 2 ^ 32). assert (Ey : y = u32 (m + 1)) by (unfold y, u32; by rewrite Z.mod_mod).
    destruct (_ <? _); [rewrite Ey; apply u32_id, u32_range|]. rewrite Ey. unfold u32. rewrite <- (Z.mod_add _ (-1) (2 ^ 32)) by lia.
    replace ((m + 1) mod 2 ^ 32 - 2 ^ 32 + -1 * 2 ^ 32) with ((m + 1) mod 2 ^ 32 + -2 * 2 ^ 32) by lia. by rewrite Z.mod_add, Z.mod_mod by lia. }
  unfold ddsnap_map. wlp_steps; try (left; by constructor; [rewrite I1, u32_id|..]).
  - right. constructor; [done|done|]. intros r Hr. specialize (I3 r Hr). lia.
  - right. constructor; [done| |].
    + cbn. constructor; [|done]. rewrite I1. intros (r & E & Hr)%list_elem_of_fmap. specialize (I3 r Hr). lia.
    + cbn. intros r [->|Hr]%elem_of_cons; [cbn; lia|]. specialize (I3 r Hr). lia.
Qed.

(** ** Every step *)

Section steps.
Context (m : Z).
Let I (i : devinfo) : Prop := requests_ok i /\ ids_ok m i.

Lemma both {A} (p : kprog A) i :
  I i -> (requests_ok i -> wlp p (fun _ => requests_ok) i) -> (requests_ok i -> wlp p (fun _ => fewer i) i) -> wlp p (fun _ => I) i.
Proof. intros [Hi Hids] H1 H2 a i' E. split; [by eapply H1|]. eapply ids_ok_fewer; [by eapply H2|done]. Qed.

Lemma keep_same_ids i i' : same_requests i i' -> I i -> I i'.
Proof. intros Hs [Hi Hids]. split; [by eapply requests_ok_same|]. eapply ids_ok_fewer; [by apply fewer_same|done]. Qed.

Lemma worker_step_ids ok pc i : I i -> wlp (worker_step ok pc) (fun _ => I) i.
Proof.
  apply worker_step_keep; [apply keep_same_ids|..]; intros i1 Hi1.
  - apply both; [exact Hi1|apply requeue_queries_ok|]. intros _. apply requeue_queries_fewer.
  - apply both; [exact Hi1|apply next_query_ok|apply next_query_fewer].
Qed.

Lemma incoming_step_ids ok input pc i : I i -> wlp (incoming_step ok input pc) (fun _ => I) i.
Proof.
  apply incoming_step_keep; [apply keep_same_ids|]. intros body rw snap failed n p i1 Hi1. apply both; [done|apply replied_ranges_ok|].
  intros _. apply replied_ranges_fewer.
Qed.

Lemma control_step_ids begin len ok input pc i : I i -> wlp (control_step begin len ok input pc) (fun _ => I) i.
Proof.
  apply control_step_keep; [apply keep_same_ids|]. intros i1 Hi1. apply both; [done|apply flush_pending_bio_ok|]. intros _. apply flush_pending_bio_fewer.
Qed.

Lemma end_io_fewer b i : wlp (end_io b) (fun _ => fewer i) i.
Proof.
  unfold end_io. apply few_bind; [unfold get_bio; few|]. intros x i1. apply few_bind; [|intros; few].
  destruct (bi_end_io x); [apply few_quiet, snapshot_read_end_io_quiet|few].
Qed.

Lemma kstep_ids begin len k k' :
  kstep begin len k k' -> 0 <= m < 2 ^ 32 -> I (k_info k) -> exists m', m <= m' <= m + 1 /\ requests_ok (k_info k') /\ ids_ok m' (k_info k').
Proof.
  intros Hs Hm HI. pose proof (kstep_requests _ _ _ _ Hs (proj1 HI)) as Hr.
  destruct Hs as [k b rw sector r i Hb _ E|k b i Hb E|k ok pc i E|k ok input pc i E|k ok input pc i E|k i E]; cbn in *.
  - destruct (ddsnap_map_ids b rw sector m _ Hm (proj2 HI) _ _ E) as [H|H]; [exists m|exists (m + 1)]; (split; [lia|done]).
  - exists m. split; [lia|]. split; [done|]. eapply ids_ok_fewer; [by eapply end_io_fewer|apply HI].
  - exists m. split; [lia|]. by eapply worker_step_ids.
  - exists m. split; [lia|]. by eapply incoming_step_ids.
  - exists m. split; [lia|]. by eapply control_step_ids.
  - exists m. split; [lia|]. split; [done|]. injection E as <-. eapply ids_ok_fewer; [|apply HI]. by split.
Qed.
End steps.

Lemma ids_after begin len n k k' m :
  nsteps (kstep begin len) n k k' -> 0 <= m -> m + Z.of_nat n <= 2 ^ 32 -> requests_ok (k_info k) -> ids_ok m (k_info k) ->
  exists m', requests_ok (k_info k') /\ ids_ok m' (k_info k').
Proof.
  intros Hn. revert m. induction Hn as [k|n k k1 k' Hs Hn IH]; intros m Hm Hb Hr Hi; [by exists m|].
  destruct (kstep_ids m begin len k k1 Hs) as (m1 & Hm1 & Hr1 & Hi1); [lia|done|]. apply (IH m1); [lia|lia|done|done].
Qed.

Lemma take_request_found r l : NoDup (rq_id <$> l) -> r ∈ l -> exists l', take_request (rq_id r) l = Some (r, l').
Proof.
  induction l as [|x l IH]; cbn; [intros _ Hr; by apply elem_of_nil in Hr|]. intros [Hx Hnd]%NoDup_cons Hr.
  destruct (Z.eqb_spec (rq_id x) (rq_id r)) as [E|E].
  - apply elem_of_cons in Hr as [->|Hr]; [by eexists|]. destruct Hx. rewrite E. by apply list_elem_of_fmap_2.
  - apply elem_of_cons in Hr as [->|Hr]; [done|]. destruct (IH Hnd Hr) as [l' ->]. by eexists.
Qed.

(** C30: Ids do not clash before they wrap.  In the first 2^32 steps of a client,
    the requests that wait have different ids, and every request that waits for
    its answer is the one that an answer with its id finds. *)
Theorem request_ids_distinct begin len snap n k :
  nsteps (kstep begin len) n (ddsnap_create snap) k -> Z.of_nat n <= 2 ^ 32 ->
  let i := k_info k in
  NoDup (rq_id <$> di_queries i ++ concat (di_pending i)) /\
  forall r, r ∈ concat (di_pending i) -> exists l, di_pending i !! hash_pending (rq_id r) ≫= take_request (rq_id r) = Some (r, l).
Proof.
  intros Hn Hb i. destruct (ids_after begin len n _ k 0 Hn) as (m & Hr & [I1 I2 I3]); [done|lia|apply new_requests| |].
  { constructor; [done|constructor|]. intros r Hr. by apply elem_of_nil in Hr. }
  fold i in Hr, I2. split; [exact I2|]. intros r Hin. apply list_elem_of_In, in_concat in Hin as (l & Hl%list_elem_of_In & Hrl%list_elem_of_In).
  apply list_elem_of_lookup in Hl as [j Hj]. rewrite (ro_hash _ _ Hr j l r Hj Hrl), Hj. cbn. apply take_request_found; [|done].
  unfold outstanding in I2. rewrite fmap_app in I2. apply NoDup_app in I2 as (_ & _ & I2).
  destruct (concat_insert _ _ _ Hj) as (rest & Hc & _). rewrite Hc, fmap_app in I2. by apply NoDup_app in I2 as (? & _).
Qed.
