(* ===== verification/ClientWork.v ===== *)
(** * The work of the client's worker

    With a server that is there, a round of the worker sends every query and
    every release that waits, the oldest first, and ends. *)

From S2P Require Import Prelude Bytes State Locks Reply Server Client ClientSpec ClientLocks.

(** The worker alone, [n] steps, with a socket that works *)
Fixpoint worker_run (n : nat) (pc : worker_pc) : kprog worker_pc :=
  match n with
  | O => mret pc
  | S n' =>
      r ← worker_step true pc;
      match r with Some pc' => worker_run n' pc' | None => mret pc end
  end.

Lemma worker_run_step n pc pc' i i' (P : worker_pc -> devinfo -> Prop) :
  worker_step true pc i = Done (Some pc') i' -> wp (worker_run n pc') P i' -> wp (worker_run (S n) pc) P i.
Proof. intros E H. cbn [worker_run]. apply wp_bind. unfold wp at 1. by rewrite E. Qed.

(** ** Messages *)

Definition query_of (i : devinfo) (r : request) : message :=
  mkMessage (match bi_rw <$> di_bios i !! rq_bio r with Some READ => QUERY_SNAPSHOT_READ | _ => QUERY_WRITE end)
    (rw_request1 (rq_id r) (rq_chunk r) (rq_chunks r)).

Definition release_of (i : devinfo) (h : Z) : message :=
  mkMessage FINISH_SNAPSHOT_READ (rw_request1 0 (Z.shiftr (default 0 (hk_sector <$> di_hooks i !! h)) (di_chunkshift i)) 1).

(** What the messages depend on, and what lets the worker go on *)
Record steady (i i' : devinfo) : Prop := {
  st_flags : di_flags i' = di_flags i;
  st_bios : di_bios i' = di_bios i;
  st_shift : di_chunkshift i' = di_chunkshift i;
  st_sock : di_sock i' = di_sock i;
  st_out : di_server_out i' = di_server_out i }.

#[global] Instance steady_preorder : PreOrder steady.
Proof. split; [by constructor|]. intros x y z [] []. constructor; congruence. Qed.

Lemma steady_ready i i' : steady i i' -> worker_ready i' = worker_ready i.
Proof. intros H. unfold worker_ready, worker_running, flag. by rewrite (st_flags _ _ H). Qed.

Lemma query_of_steady i i' r : steady i i' -> query_of i' r = query_of i r.
Proof. intros H. unfold query_of. by rewrite (st_bios _ _ H). Qed.

(** ** One message *)

Section round.
Context (s : Z).

Lemma query_sent i l r :
  requests_ok i -> di_queries i = l ++ [r] -> worker_ready i = true -> 0 < di_server_out i -> di_sock i = Some s ->
  exists pc i1 i2, worker_step true WQueries i = Done (Some pc) i1 /\ worker_step true pc i1 = Done (Some WQueries) i2 /\
    steady i i2 /\ requests_ok i2 /\ di_queries i2 = l /\ di_releases i2 = di_releases i /\ di_hooks i2 = di_hooks i /\
    di_to_server i2 = di_to_server i ++ [(s, query_of i r)].
Proof.
  intros Hi Hl Hr Ho Hs.
  destruct (ro_bios _ _ Hi (rq_bio r)) as [x Hx].
  { cbn. apply elem_of_app. left. apply list_elem_of_fmap_2. unfold outstanding. rewrite Hl, !elem_of_app. left. right. by left. }
  set (i1 := i <| di_queries ::= fun l => take (length l - 1) l |> <| di_pending ::= alter (cons r) (hash_pending (rq_id r)) |>).
  assert (E1 : worker_step true WQueries i = Done (Some (WQuery (rq_bio r) (rq_id r) (rq_chunk r) (rq_chunks r))) i1).
  { cbn [worker_step]. unfold next_query, go, mbind, M_bind, m_bind, get, modify, mret, M_ret, m_ret. assert (Elast : last (di_queries i) = Some r) by (rewrite Hl; apply last_snoc). rewrite Elast, Hr.
    reflexivity. }
  set (m := query_of i r).
  assert (E2 : worker_step true (WQuery (rq_bio r) (rq_id r) (rq_chunk r) (rq_chunks r)) i1 =
    Done (Some WQueries) (i1 <| di_server_out ::= fun n => n - 1 |> <| di_to_server ::= fun l => l ++ [(s, m)] |> <| di_server_out ::= Z.add 1 |>)).
  { cbn [worker_step]. unfold send_message, query_message, get_bio. semaphores. unfold out_server, out_socket, mbind, M_bind, m_bind, get, modify, mret, M_ret, m_ret.
    assert (Ho1 : (di_server_out i1 <=? 0) = false) by by apply Z.leb_gt. assert (Hs1 : di_sock i1 = Some s) by exact Hs.
    assert (Hx1 : di_bios i1 !! rq_bio r = Some x) by exact Hx. clearbody i1.
    rewrite Ho1. cbn -[QUERY_WRITE QUERY_SNAPSHOT_READ]. rewrite Hx1. cbn -[QUERY_WRITE QUERY_SNAPSHOT_READ]. rewrite Hs1. unfold m, query_of. rewrite Hx. cbn [fmap option_fmap option_map].
    by destruct (bi_rw x). }
  eexists _, i1, _. split; [exact E1|]. split; [exact E2|].
  pose proof (worker_step_ok true _ _ Hi _ _ E1) as H1. pose proof (worker_step_ok true _ _ H1 _ _ E2) as H2.
  split_and!; try done; [|by apply (query_taken i l r)]. constructor; try done. cbn. lia.
Qed.

(** All queries, and then [n] more steps *)
Lemma queries_sent n (P : worker_pc -> devinfo -> Prop) i l :
  requests_ok i -> di_queries i = l -> worker_ready i = true -> 0 < di_server_out i -> di_sock i = Some s ->
  (forall i', steady i i' -> requests_ok i' -> di_queries i' = [] -> di_releases i' = di_releases i -> di_hooks i' = di_hooks i ->
     hooks_ok i' WReleases -> di_to_server i' = di_to_server i ++ (pair s ∘ query_of i <$> reverse l) -> wp (worker_run n WReleases) P i') ->
  hooks_ok i WQueries -> wp (worker_run (S (2 * length l) + n) WQueries) P i.
Proof.
  revert i. induction l as [|r l IH] using rev_ind; intros i Hi Hl Hr Ho Hs Hrest Hok.
  - assert (E : worker_step true WQueries i = Done (Some WReleases) i).
    { cbn [worker_step]. unfold next_query, go, mbind, M_bind, m_bind, get. by rewrite Hl. }
    eapply worker_run_step; [exact E|]. apply Hrest; try done; [|by rewrite app_nil_r].
    exact (worker_step_returned true _ _ Hi Hok _ _ E).
  - destruct (query_sent i l r Hi Hl Hr Ho Hs) as (pc & i1 & i2 & E1 & E2 & Hst & Hi2 & Hl2 & Hr2 & Hh2 & Hm2).
    assert (Hok2 : hooks_ok i2 WQueries).
    { pose proof (worker_step_returned true _ _ Hi Hok _ _ E1) as Hw.
      exact (worker_step_returned true _ _ (worker_step_ok true _ _ Hi _ _ E1) Hw _ _ E2). }
    rewrite length_app. cbn [length]. replace (S (2 * (length l + 1)) + n)%nat with (S (S (S (2 * length l) + n))) by lia.
    eapply worker_run_step; [exact E1|]. eapply worker_run_step; [exact E2|].
    apply (IH i2); [done|done|by rewrite (steady_ready i i2)|by rewrite (st_out _ _ Hst)|by rewrite (st_sock _ _ Hst)| |done].
    intros i' Hst' Hi' Hl' Hr' Hh' Hok' Hm'. apply Hrest; try done; try congruence; [by etransitivity|].
    rewrite Hm', Hm2, reverse_snoc, <- app_assoc. cbn. do 2 f_equal. apply list_fmap_ext. intros k x _. cbn. by rewrite (query_of_steady i i2).
Qed.

Lemma release_sent i l h :
  requests_ok i -> hooks_ok i WReleases -> di_releases i = l ++ [h] -> worker_ready i = true -> 0 < di_server_out i -> di_sock i = Some s ->
  exists pc i1 i2, worker_step true WReleases i = Done (Some pc) i1 /\ worker_step true pc i1 = Done (Some WReleases) i2 /\
    steady i i2 /\ requests_ok i2 /\ hooks_ok i2 WReleases /\ di_queries i2 = di_queries i /\ di_releases i2 = l /\
    di_to_server i2 = di_to_server i ++ [(s, release_of i h)] /\ forall h', h' ∈ l -> di_hooks i2 !! h' = di_hooks i !! h'.
Proof.
  intros Hi Hok Hl Hr Ho Hs. assert (Hin : h ∈ di_releases i) by (rewrite Hl; apply elem_of_app; right; by left).
  assert (Hnd : NoDup (l ++ [h])). { rewrite <- Hl. by pose proof (ho_nodup _ _ Hok) as (_ & _ & ?)%NoDup_app. }
  assert (Hnl : h ∉ l). { apply NoDup_app in Hnd as (_ & Hd & _). intros Hh. apply (Hd h Hh). by left. }
  destruct (ho_live _ _ Hok h) as [x Hx]; [apply elem_of_app; by right|].
  set (i1 := i <| di_releases ::= unlink h |> <| di_hooks ::= delete h |>). set (c := Z.shiftr (hk_sector x) (di_chunkshift i)).
  assert (E1 : worker_step true WReleases i = Done (Some (WRelease c)) i1).
  { cbn [worker_step]. unfold next_release, get_hook, free_hook, go, mbind, M_bind, m_bind, get, modify, mret, M_ret, m_ret.
    assert (Elast : last (di_releases i) = Some h) by (rewrite Hl; apply last_snoc). rewrite Elast, Hr, Hx. reflexivity. }
  set (m := release_of i h).
  assert (E2 : worker_step true (WRelease c) i1 =
    Done (Some WReleases) (i1 <| di_server_out ::= fun n => n - 1 |> <| di_to_server ::= fun l => l ++ [(s, m)] |> <| di_server_out ::= Z.add 1 |>)).
  { cbn [worker_step]. unfold send_message. semaphores. unfold out_server, out_socket, mbind, M_bind, m_bind, get, modify, mret, M_ret, m_ret.
    assert (Ho1 : (di_server_out i1 <=? 0) = false) by by apply Z.leb_gt. assert (Hs1 : di_sock i1 = Some s) by exact Hs. clearbody i1.
    rewrite Ho1. cbn -[FINISH_SNAPSHOT_READ]. rewrite Hs1. unfold m, release_of. by rewrite Hx. }
  eexists _, i1, _. split; [exact E1|]. split; [exact E2|].
  pose proof (worker_step_ok true _ _ Hi _ _ E1) as H1. pose proof (worker_step_ok true _ _ H1 _ _ E2) as H2.
  pose proof (worker_step_returned true _ _ Hi Hok _ _ E1) as Hw. pose proof (worker_step_returned true _ _ H1 Hw _ _ E2) as Hw2.
  split_and!; try done.
  - constructor; try done. cbn. lia.
  - cbn. rewrite Hl. unfold unlink. rewrite filter_app, filter_cons_False by (intros Hne; by apply Hne). rewrite filter_nil, app_nil_r.
    clear -Hnl. induction l as [|y l IH]; [done|]. apply not_elem_of_cons in Hnl as [Hy Hnl]. rewrite filter_cons_True by done. f_equal. by apply IH.
  - intros h' Hh'. cbn. apply lookup_delete_ne. by intros <-.
Qed.

Lemma releases_sent i l :
  requests_ok i -> hooks_ok i WReleases -> di_releases i = l -> worker_ready i = true -> 0 < di_server_out i -> di_sock i = Some s ->
  wp (worker_run (S (2 * length l)) WReleases) (fun pc i' => pc = WLoop /\ di_queries i' = di_queries i /\ di_releases i' = [] /\
    di_to_server i' = di_to_server i ++ (pair s ∘ release_of i <$> reverse l)) i.
Proof.
  revert i. induction l as [|h l IH] using rev_ind; intros i Hi Hok Hl Hr Ho Hs.
  - eapply worker_run_step.
    { cbn [worker_step]. unfold next_release, go, mbind, M_bind, m_bind, get. rewrite Hl. reflexivity. }
    cbn [worker_run]. wp_steps. cbn. rewrite app_nil_r. by split_and!.
  - destruct (release_sent i l h Hi Hok Hl Hr Ho Hs) as (pc & i1 & i2 & E1 & E2 & Hst & Hi2 & Hok2 & Hq2 & Hl2 & Hm2 & Hh2).
    rewrite length_app. cbn [length]. replace (S (2 * (length l + 1))) with (S (S (S (2 * length l)))) by lia.
    eapply worker_run_step; [exact E1|]. eapply worker_run_step; [exact E2|]. eapply wp_mono.
    { apply (IH i2); [done|done|done|by rewrite (steady_ready i i2)|by rewrite (st_out _ _ Hst)|by rewrite (st_sock _ _ Hst)]. }
    cbv beta. intros pc' i' (-> & Hq' & Hl' & Hm'). split_and!; try done; [congruence|].
    rewrite Hm', Hm2, reverse_snoc, <- app_assoc. cbn. do 2 f_equal. apply list_fmap_ext. intros k x Hx. cbn.
    unfold release_of. rewrite Hh2, (st_shift _ _ Hst); [done|]. apply list_elem_of_lookup_2 in Hx. by rewrite reverse_Permutation in Hx.
Qed.
End round.

(** C11: What waits is sent.  In a state that the client can reach, with the agent
    and the server there, the worker at the start of its round takes two steps for
    each query and each release that waits and two more; then none waits any more,
    and the server has been sent a query for each request, with its id and chunk,
    and then a release for each read that ended, in the order in which they came. *)
Theorem worker_drains begin len snap k s :
  reachable begin len snap k -> k_control k = CRun -> k_worker k = WQueries ->
  let i := k_info k in
  worker_ready i = true -> 0 < di_server_out i -> di_sock i = Some s ->
  wp (worker_run (2 * (length (di_queries i) + length (di_releases i)) + 2) WQueries) (fun pc i' =>
    pc = WLoop /\ di_queries i' = [] /\ di_releases i' = [] /\
    di_to_server i' = di_to_server i ++ (pair s ∘ query_of i <$> reverse (di_queries i)) ++
                                        (pair s ∘ release_of i <$> reverse (di_releases i))) i.
Proof.
  intros Hr Hc Hw i Hrd Ho Hs. destruct (reachable_ok _ _ _ _ Hr) as [Hi Hok]. specialize (Hok Hc). rewrite Hw in Hok. fold i in Hi, Hok.
  replace (2 * (length (di_queries i) + length (di_releases i)) + 2)%nat
    with (S (2 * length (di_queries i)) + S (2 * length (di_releases i)))%nat by lia.
  apply (queries_sent s); [done|done|done|done|done| |done]. intros i' Hst Hi' Hq Hrel Hh Hok' Hm. rewrite <- Hrel. eapply wp_mono.
  { apply (releases_sent s i'); [done|done|done|by rewrite (steady_ready i i')|by rewrite (st_out _ _ Hst)|by rewrite (st_sock _ _ Hst)]. }
  cbv beta. intros pc i2 (-> & Hq2 & Hr2 & Hm2). split_and!; try done; [congruence|]. rewrite Hm2, Hm, <- app_assoc. do 2 f_equal.
  apply list_fmap_ext. intros j h _. cbn. unfold release_of. by rewrite Hh, (st_shift _ _ Hst).
Qed.
