(* ===== verification/ClientFlaws.v ===== *)
(** * Where the client goes wrong

    Reads that end while a recovering client uploads its locks are never released;
    reads that end after the agent is gone leave freed hooks on the list of locks;
    and the worker looks at a bio that may have been handed back. *)

From S2P Require Import Prelude Bytes State Locks Reply Server Client ClientSpec ClientLocks.

(** ** Runs are made of steps *)

Section runs.
Context (begin len : Z).

Lemma run_event_step e k k' : run_event begin len e k = Some k' -> kstep begin len k k'.
Proof.
  destruct e as [b rw sector|b|ok|ok input|ok input|]; cbn [run_event].
  - destruct (_ && _ && _) eqn:Eb; [|done]. apply andb_true_iff in Eb as [[Eb E0]%andb_true_iff E1].
    apply bool_decide_eq_true in Eb. apply Z.leb_le in E0. apply Z.ltb_lt in E1.
    destruct (ddsnap_map b rw sector (k_info k)) as [r i|] eqn:E; [|done]. intros [= <-]. eapply step_map; [done|by split|done].
  - destruct (bool_decide _) eqn:Eb; [|done]. apply bool_decide_eq_true in Eb.
    destruct (end_io b (k_info k)) as [[] i|] eqn:E; [|done]. intros [= <-]. by eapply step_end_io.
  - destruct (worker_step ok (k_worker k) (k_info k)) as [[pc|] i|] eqn:E; [|done|done]. intros [= <-]. by eapply step_worker.
  - destruct (incoming_step ok input (k_incoming k) (k_info k)) as [[pc|] i|] eqn:E; [|done|done]. intros [= <-]. by eapply step_incoming.
  - destruct (control_step begin len ok input (k_control k) (k_info k)) as [[pc|] i|] eqn:E; [|done|done]. intros [= <-]. by eapply step_control.
  - destruct (ddsnap_destroy (k_info k)) as [[] i|] eqn:E; [|done]. intros [= <-]. by eapply step_destroy.
Qed.

Lemma run_events_steps l k k' : run_events begin len l k = Some k' -> rtc (kstep begin len) k k'.
Proof.
  revert k'. induction l as [|e l IH] using rev_ind; intros k'; unfold run_events in *; [by intros [= <-]|].
  rewrite foldl_snoc. destruct (foldl _ _ l) as [k1|] eqn:E; [|done]. intros Hs%run_event_step. eapply rtc_r; [by apply IH|done].
Qed.
End runs.

(** The number of steps of a run *)
Lemma run_events_nsteps begin len l k k' : run_events begin len l k = Some k' -> nsteps (kstep begin len) (length l) k k'.
Proof.
  revert k'. induction l as [|e l IH] using rev_ind; intros k'; unfold run_events in *; [intros [= <-]; constructor|].
  rewrite foldl_snoc. destruct (foldl _ _ l) as [k1|] eqn:E; [|done]. intros Hs%run_event_step. rewrite length_app. cbn.
  rewrite Nat.add_1_r. eapply nsteps_r; [by apply IH|done].
Qed.

(** The state at the end of a run *)
Definition after (l : list event) : kernel := default (ddsnap_create 7) (run_events 0 1024 l (ddsnap_create 7)).

Lemma after_reachable l : is_Some (run_events 0 1024 l (ddsnap_create 7)) -> reachable 0 1024 7 (after l).
Proof. intros [k E]. unfold after, reachable. rewrite E. by apply (run_events_steps 0 1024 l). Qed.

(** ** The runs *)

Definition work (n : nat) : list event := replicate n (EWorker true).

(** Connection [s] is made. *)
Definition connected (s : Z) : list event :=
  [EIncoming true None; EControl true (ControlMessage (mkMessage CONNECT_SERVER []) (RecvSocket s)); EIncoming true None].
Definition identified : list event := [EIncoming true (Some (mkMessage IDENTIFY_OK [12; 0; 0; 0]))].

(** Snapshot 7 reads sector 40, in chunk 5, from the origin. *)
Definition read_40 : list event :=
  connected 1 ++ work 6 ++ identified ++ [EMap 1 READ 40] ++ work 6 ++
  [EIncoming true (Some (mkMessage SNAPSHOT_READ_ORIGIN_OK (rw_request1 0 5 1)))].

(** The server is lost and found again; the read ends after its lock was uploaded,
    and the worker is at the end of the upload. *)
Definition read_in_recovery : list event :=
  read_40 ++ [EIncoming true None; EIncoming true None; EIncoming true None] ++ work 4 ++
  [EIncoming true None; EWorker true] ++ [EControl true (ControlMessage (mkMessage CONNECT_SERVER []) (RecvSocket 2)); EIncoming true None] ++
  work 3 ++ [EEnd 1] ++ work 1.

(** The agent is lost when the worker waits to send the query. *)
Definition flushed_before_sent : list event :=
  connected 1 ++ work 6 ++ identified ++ [EMap 1 READ 40] ++ work 2 ++ [EControl true ControlError].

(** The agent is lost; then the read ends. *)
Definition read_without_agent : list event := read_40 ++ [EControl true ControlError; EEnd 1].

(** ** Ended reads that stay on the list of locks *)

Section stuck.
Context (h : Z).

(** Steps that leave hook [h], and its place among the locks, as they are *)
Definition untouched (i i' : devinfo) : Prop :=
  h < di_next_hook i ->
  di_next_hook i <= di_next_hook i' /\ di_hooks i' !! h = di_hooks i !! h /\ (h ∈ di_locked i -> h ∈ di_locked i').

#[local] Instance untouched_preorder : PreOrder untouched.
Proof.
  split; [by intros i Hh|]. intros x y z H1 H2 Hh. destruct (H1 Hh) as (N1 & E1 & L1). destruct H2 as (N2 & E2 & L2); [lia|].
  split_and!; [lia|congruence|auto].
Qed.

Lemma same_untouched i i' : same_hooks i i' -> untouched i i'.
Proof. intros S _. by rewrite (sh_next _ _ S), (sh_hooks _ _ S), (sh_locked _ _ S). Qed.

Lemma untouched_bind {A B} (m : kprog A) (f : A -> kprog B) i :
  wlp m (fun _ => untouched i) i -> (forall a i', wlp (f a) (fun _ => untouched i') i') -> wlp (m ≫= f) (fun _ => untouched i) i.
Proof.
  intros H1 H2. apply wlp_bind. eapply wlp_mono; [exact H1|]. cbv beta. intros a i' Hi. eapply wlp_mono; [apply H2|].
  cbv beta. intros _ i'' Hi'. by etransitivity.
Qed.

Lemma untouched_same {A} (m : kprog A) i : wlp m (fun _ => same_hooks i) i -> wlp m (fun _ => untouched i) i.
Proof. intros H. eapply wlp_mono; [exact H|]. cbv beta. intros _ i'. apply same_untouched. Qed.

Ltac untouched := wlp_steps; try solve [intros ?; cbn; done].

Lemma remap_untouched b shift body n p i : wlp (remap b shift body n p) (fun _ => untouched i) i.
Proof.
  revert p i. induction n as [|n IH]; intros p i; cbn [remap]; [untouched|]. apply untouched_bind; [|intros; apply IH].
  unfold upd_bio, get_bio. untouched.
Qed.

Lemma add_hook_untouched b i : wlp (add_hook b) (fun _ => untouched i) i.
Proof.
  unfold add_hook, get_bio. wlp_steps. intros Hh. cbn. split_and!; [lia|by rewrite lookup_insert_ne by lia|by right].
Qed.

Lemma replied_ranges_untouched body rw snap failed n p i : wlp (replied_ranges body rw snap failed n p) (fun _ => untouched i) i.
Proof.
  revert p i. induction n as [|n IH]; intros p i; cbn [replied_ranges]; [untouched|]. wlp_step. wlp_step. wlp_step. wlp_step.
  destruct (di_pending i !! hash_pending (ld32 0 body) ≫= take_request (ld32 0 body)) as [[r l']|]; [|untouched].
  apply untouched_bind; [untouched|]. intros _ i1. unfold bio_io_error, generic_make_request, get_bio.
  destruct failed; [|destruct (negb _)].
  - apply untouched_bind; [untouched|]. intros. apply IH.
  - apply untouched_bind; [untouched|]. intros. untouched.
  - apply untouched_bind; [|intros; apply untouched_bind; [untouched|intros; apply IH]].
    destruct snap; [apply remap_untouched|]. apply untouched_bind; [|intros; untouched]. destruct (bool_decide _); [apply add_hook_untouched|untouched].
Qed.

Lemma incoming_message_untouched sock ok m i : wlp (incoming_message sock ok m) (fun _ => untouched i) i.
Proof.
  unfold incoming_message. destruct (maxbody <? _)%nat; [untouched|]. destruct (rw_answer (m_code m)) as [[[rw snap] failed]|].
  - destruct (_ <? _)%nat; [untouched|]. apply untouched_bind; [apply replied_ranges_untouched|]. intros. untouched.
  - apply untouched_same, same_bind; [|intros; wlp_steps; reflexivity]. repeat destruct (_ =? _).
    + apply identify_ok_same.
    + apply identify_error_same.
    + wlp_steps. reflexivity.
    + apply same_bind; [apply out_socket_same|]. intros. wlp_steps. reflexivity.
Qed.

Lemma incoming_step_untouched ok input pc i : wlp (incoming_step ok input pc) (fun _ => untouched i) i.
Proof.
  destruct pc; cbn [incoming_step].
  - apply untouched_bind; [apply untouched_same, out_control_same|]. intros. unfold go. untouched.
  - semaphores. untouched.
  - wlp_step. wlp_step. destruct (negb _); [unfold go; untouched|]. destruct input as [m|]; [|unfold go; untouched].
    apply untouched_bind; [apply incoming_message_untouched|]. intros. unfold go. untouched.
  - wlp_step. wlp_step. destruct (negb _); [unfold go; untouched|apply untouched_same, report_error_same].
  - apply untouched_same, report_wait_same.
  - unfold blocked. untouched.
Qed.

Lemma ddsnap_map_untouched b rw sector i : wlp (ddsnap_map b rw sector) (fun _ => untouched i) i.
Proof. unfold ddsnap_map. untouched. Qed.

(** The end of another read *)
Lemma end_io_untouched b i pc x :
  hooks_ok i pc -> b ∈ di_inflight i -> (di_hooks i !! h = None \/ di_hooks i !! h = Some x /\ hk_ended x = true) ->
  wlp (end_io b) (fun _ => untouched i) i.
Proof.
  intros Hok Hb Hh. unfold end_io, get_bio. wlp_step. wlp_step. wlp_step. destruct (di_bios i !! b) as [y|] eqn:Hy; [|by wlp_steps]. wlp_step.
  apply untouched_bind; [|intros; untouched]. destruct (bi_end_io y) as [h'|] eqn:Eh; [|untouched].
  destruct (ho_read _ _ Hok b y h' Hb Hy Eh) as [_ Hh']. assert (Hne : h' <> h) by (intros ->; destruct Hh as [|[? ?]]; simplify_eq).
  unfold snapshot_read_end_io, free_hook. apply untouched_bind; [unfold upd_bio, get_bio; untouched|]. intros _ i1. apply untouched_bind.
  { unfold upd_hook, get_hook. wlp_steps. intros _. cbn. by rewrite lookup_insert_ne. }
  intros _ i2. wlp_step. wlp_step. apply untouched_bind; [|intros; untouched]. wlp_steps; intros _; cbn; [by rewrite lookup_delete_ne| |done].
  split_and!; [done|done|]. intros Hin. by apply in_unlink.
Qed.

(** [h] belongs to a read that ended, is on the list of locks, and the upload of
    locks that may be under way has not passed it; or it was freed. *)
Definition stuck (i : devinfo) (pc : worker_pc) : Prop :=
  h < di_next_hook i /\
  (h ∈ di_locked i /\ (exists x, di_hooks i !! h = Some x /\ hk_ended x = true) /\
     match pc with WUpload todo => h ∈ todo | WUploaded => False | _ => True end
   \/ di_hooks i !! h = None).

Lemma stuck_untouched i i' pc : untouched i i' -> stuck i pc -> stuck i' pc.
Proof.
  intros H [Hh Hs]. destruct (H Hh) as (N & E & L). split; [lia|]. rewrite E. destruct Hs as [(Hl & Hx & Hpc)|Hs]; [left|by right]. auto.
Qed.

Lemma stuck_pc i pc pc' :
  match pc' with WUpload _ | WUploaded => False | _ => True end -> stuck i pc -> stuck i pc'.
Proof. intros Hp [Hh Hs]. split; [done|]. destruct Hs as [(Hl & Hx & _)|Hs]; [left|by right]. split_and!; try done. by destruct pc'. Qed.

Lemma stuck_not_released i pc pc' : hooks_ok i pc -> stuck i pc' -> h ∉ di_releases i.
Proof.
  intros Hok [_ [(Hl & _)|Hn]] Hr.
  - pose proof (ho_nodup _ _ Hok) as (_ & Hd & _)%NoDup_app. by apply (Hd h).
  - destruct (ho_live _ _ Hok h); [apply elem_of_app; by right|congruence].
Qed.

Abbreviation still r i' := (match r with Some pc' => stuck i' pc' | None => True end).

Lemma drop_untouched l i : (h ∉ l) ->
  wlp (foreach l (fun h => modify (fun i => i <| di_releases ::= unlink h |>);; free_hook h)) (fun _ => untouched i) i.
Proof.
  intros Hl. apply (wlp_foreach (untouched i)); [reflexivity| |done]. intros h' i1 Hin H1. unfold free_hook. wlp_steps.
  etransitivity; [exact H1|]. intros _. cbn. rewrite lookup_delete_ne by (by intros ->). done.
Qed.

(** A step of the worker to a position outside of the loop of [upload_locks] *)
Definition outside (pc : worker_pc) : Prop := match pc with WUpload _ | WUploaded => False | _ => True end.

Lemma stuck_go i i' pc pc' : stuck i pc -> untouched i i' -> outside pc' -> stuck i' pc'.
Proof. intros Hs Hu Hr. eapply stuck_pc; [|by eapply stuck_untouched]. by destruct pc'. Qed.

Ltac stay Hs := wlp_steps; first [done | eapply stuck_go; [exact Hs|by intros ?; cbn|done]].

Lemma send_message_stuck ok make next i pc :
  stuck i pc -> outside next -> (forall i', wlp make (fun _ i2 => i2 = i') i') -> wlp (send_message ok make next) (fun r i' => still r i') i.
Proof.
  intros Hs Hn Hm. unfold send_message. semaphores. wlp_step. wlp_step. destruct (_ <=? _); [stay Hs|]. wlp_step. wlp_step. wlp_step.
  eapply wlp_mono; [apply Hm|]. cbv beta. intros m i1 ->. wlp_step. eapply wlp_mono; [apply out_server_some|]. cbv beta. intros err i2 [S _].
  apply same_untouched in S. destruct (negb _); wlp_steps; (eapply stuck_go; [exact Hs|exact S|done]).
Qed.

(** The worker at the loop of [upload_locks] *)
Lemma upload_lock_stuck ok h' todo i :
  stuck i (WUpload (h' :: todo)) -> wlp (upload_lock ok h') (fun _ i' => stuck i' (WUpload todo)) i.
Proof.
  intros [Hh Hs]. unfold upload_lock, get_hook, free_hook. wlp_step. wlp_step. wlp_step. destruct (di_hooks i !! h') as [x|] eqn:Hx; [|by wlp_steps]. wlp_step.
  assert (Hkeep : forall i', untouched i i' -> h' <> h -> stuck i' (WUpload todo)).
  { intros i' Hu Hne. destruct (Hu Hh) as (N & E & L). split; [lia|]. rewrite E. destruct Hs as [(Hl & Hy & Ht)|Hs]; [left|by right].
    apply elem_of_cons in Ht as [->|Ht]; [done|]. auto. }
  destruct (hk_ended x) eqn:Ex.
  - wlp_steps. destruct (decide (h' = h)) as [->|Hne].
    + split; [done|]. right. apply lookup_delete_eq.
    + apply Hkeep; [|done]. intros _. cbn. rewrite lookup_delete_ne by done. split_and!; [done|done|]. intros Hin. by apply in_unlink.
  - assert (Hne : h' <> h) by (intros ->; destruct Hs as [(_ & (y & Hy & Ey) & _)|Hs]; congruence).
    wlp_step. wlp_step. wlp_step. eapply wlp_mono; [apply out_server_some|]. cbv beta. intros r i' [S _]. wlp_steps. apply Hkeep; [by apply same_untouched|done].
Qed.

Lemma upload_end_hooks_same i : wlp upload_end (fun _ i' => di_hooks i' = di_hooks i /\ di_next_hook i' = di_next_hook i) i.
Proof.
  unfold upload_end. wlp_step. wlp_step. wlp_step. eapply (wlp_mono _ (fun _ i' => di_hooks i' = di_hooks i /\ di_next_hook i' = di_next_hook i)).
  - destruct (worker_ready i); [|by wlp_steps].
    apply (wlp_foreach (fun i' => di_hooks i' = di_hooks i /\ di_next_hook i' = di_next_hook i)); [done| |done].
    intros h' i1 _ H1. unfold get_hook. by wlp_steps.
  - cbv beta. intros _ i1 H1. by wlp_steps.
Qed.

Lemma worker_stuck ok pc i : hooks_ok i pc -> stuck i pc -> wlp (worker_step ok pc) (fun r i' => still r i') i.
Proof.
  intros Hok Hs. pose proof (stuck_not_released i pc pc Hok Hs) as Hrel.
  destruct pc as [| |[|h' todo]| | | | | | | | | | | |]; cbn [worker_step].
  - semaphores. wlp_step. wlp_step. destruct (_ <=? _); [stay Hs|]. do 4 wlp_step. destruct (flag _ _); [stay Hs|].
    destruct (is_snapshot _); [|stay Hs]. unfold upload_begin, drop_releases. wlp_steps. eapply wlp_mono.
    { apply drop_untouched. by rewrite reverse_Permutation. }
    cbv beta. intros _ i1 Hu. wlp_steps. eapply stuck_go; [exact Hs| |done]. exact Hu.
  - unfold go. wlp_steps. destruct Hs as [Hh [(Hl & Hx & _)|Hs]]; (split; [done|]); [by left|by right].
  - unfold go. wlp_step. eapply wlp_mono; [apply out_server_some|]. cbv beta. intros r i1 [S _]. wlp_steps. destruct Hs as [Hh [(_ & _ & []%elem_of_nil)|Hs]].
    destruct (same_untouched _ _ S Hh) as (N & E & _). split; [lia|]. right. congruence.
  - unfold go. wlp_step. eapply wlp_mono; [by apply upload_lock_stuck|]. cbv beta. intros _ i1 H1. by wlp_steps.
  - unfold go. wlp_step. destruct Hs as [Hh [(_ & _ & [])|Hs]]. eapply wlp_mono; [apply upload_end_hooks_same|]. cbv beta. intros _ i1 [E N]. wlp_steps.
    split; [lia|]. right. congruence.
  - unfold go. wlp_step. eapply wlp_mono; [apply wp_wlp, requeue_queries_hooks|]. cbv beta. intros _ i1 S%same_untouched. wlp_steps.
    eapply stuck_go; [exact Hs|exact S|done].
  - unfold go. stay Hs.
  - semaphores. stay Hs.
  - unfold next_query, go. stay Hs.
  - eapply send_message_stuck; [exact Hs|done|]. intros i'. unfold query_message, get_bio. by wlp_steps.
  - unfold next_release, get_hook, free_hook, go. wlp_steps; try first [done | eapply stuck_go; [exact Hs|by intros ?; cbn|done]].
    match goal with H : last _ = Some ?x |- _ => rename x into h'; apply last_Some in H as [l Hl] end.
    eapply stuck_go; [exact Hs| |done]. intros _. cbn. rewrite lookup_delete_ne; [done|]. intros ->. apply Hrel. rewrite Hl. apply elem_of_app. right. by left.
  - eapply send_message_stuck; [exact Hs|done|]. intros i'. by wlp_steps.
  - unfold report_error, go. stay Hs.
  - unfold report_wait. semaphores. stay Hs.
  - semaphores. stay Hs.
  - unfold blocked. stay Hs.
Qed.

(** ** Every step, while the agent is there *)

Section steps.
Context (begin len : Z).

Lemma control_step_untouched ok input i :
  wlp (control_step begin len ok input CRun) (fun r i' => r = Some CRun -> untouched i i') i.
Proof.
  cbn [control_step]. wlp_step. wlp_step. apply wlp_bind. eapply (wlp_mono _ (fun c i' => c = CRun -> untouched i i')).
  - destruct (negb (running i)); [by wlp_steps|]. destruct input as [|m rc].
    + unfold control_error. intros c i' E. apply bind_done in E as (i1 & i2 & _ & E). apply bind_done in E as (u & i3 & _ & E). by injection E as <- <-.
    + unfold control_message. destruct (_ <? _)%nat; [by wlp_steps|]. destruct (_ =? _); [by wlp_steps|]. destruct (_ =? _).
      * unfold connect_server. destruct rc; [by wlp_steps|..]; do 6 wlp_step; (eapply wlp_bind, wlp_mono; [apply out_server_some|]);
          cbv beta; intros err i1 [S%same_untouched _]; destruct (_ <? _); wlp_steps; intros _; exact S.
      * destruct (_ =? _); [by wlp_steps|]. eapply wlp_mono; [apply untouched_bind; [apply untouched_same, out_control_same|intros; untouched]|done].
  - cbv beta. intros c i' Hc. unfold go. destruct c; wlp_steps; [|done]. intros _. by apply Hc.
Qed.

(** The agent's thread does not come back. *)
Lemma kstep_control k k' : kstep begin len k k' -> k_control k' = CRun -> k_control k = CRun.
Proof. destruct 1 as [| | | |k ok input pc i E|]; cbn; try done. by destruct (k_control k). Qed.

Lemma steps_control k k' : rtc (kstep begin len) k k' -> k_control k' = CRun -> k_control k = CRun.
Proof. induction 1 as [|k k1 k' Hs _ IH]; [done|]. intros Hc. eapply kstep_control; [done|auto]. Qed.

Lemma kstep_stuck k k' :
  kstep begin len k k' -> kernel_ok k -> k_control k' = CRun -> stuck (k_info k) (k_worker k) -> stuck (k_info k') (k_worker k').
Proof.
  intros Hstep [Hr Hh] Hc Hs. specialize (Hh (kstep_control _ _ Hstep Hc)).
  destruct Hstep as [k b rw sector r i Hb _ E|k b i Hb E|k ok pc i E|k ok input pc i E|k ok input pc i E|k i E]; cbn in *.
  - eapply stuck_untouched; [by eapply ddsnap_map_untouched|done].
  - assert (Hx : exists x, di_hooks (k_info k) !! h = None \/ di_hooks (k_info k) !! h = Some x /\ hk_ended x = true).
    { destruct Hs as [_ [(_ & (x & Hx) & _)|Hn]]; [exists x; by right|exists (mkHook 0 true); by left]. }
    destruct Hx as [x Hx]. eapply stuck_untouched; [by eapply (end_io_untouched b _ _ x Hh Hb Hx)|done].
  - exact (worker_stuck ok _ _ Hh Hs _ _ E).
  - eapply stuck_untouched; [by eapply incoming_step_untouched|done].
  - subst pc. destruct (k_control k) eqn:Ek; [|discriminate E]. eapply stuck_untouched; [|done].
    by eapply (control_step_untouched ok input (k_info k)).
  - injection E as <-. eapply stuck_untouched; [|exact Hs]. by intros ?; cbn.
Qed.

Lemma steps_stuck k k' :
  rtc (kstep begin len) k k' -> kernel_ok k -> k_control k' = CRun -> stuck (k_info k) (k_worker k) ->
  kernel_ok k' /\ stuck (k_info k') (k_worker k').
Proof.
  induction 1 as [k|k k1 k' Hstep Hsteps IH]; intros Hk Hc Hs; [done|].
  apply IH; [by eapply kstep_ok|done|]. apply (kstep_stuck k k1); [done|done|by apply (steps_control k1 k')|done].
Qed.
End steps.
End stuck.

(** In a recovery the worker is not ready, and the end of the upload moves no hook. *)
Lemma upload_end_recovering i : flag i RECOVER_FLAG = true -> upload_end i = Done tt (i <| di_dont_switch := false |>).
Proof.
  intros Hf. unfold upload_end, mbind, M_bind, m_bind, get, modify. replace (worker_ready i) with false; [done|].
  unfold worker_ready, worker_running. change (Z.lor FINISH_FLAG RECOVER_FLAG) with 12.
  assert (flag i 12 = true) as ->; [|done]. unfold flag in *. apply negb_true_iff, Z.eqb_neq in Hf. apply negb_true_iff, Z.eqb_neq. intros E.
  apply Hf. change RECOVER_FLAG with (Z.land 12 4). rewrite Z.land_assoc, E. done.
Qed.

(** C35: In a recovery, a read that ends while the locks are uploaded is never
    released.  Take any state that the client can reach in which the worker is at
    the last part of the upload, with the flag of a recovery set, and any hook that
    is on the list of locks though its read has ended.  The step of the worker
    returns, and in no state that the client can reach from there, while the agent
    is there, is the hook on the list of releases, from which alone releases are
    sent: it stays on the list of locks until a later recovery frees it. *)
Theorem ended_read_not_released begin len snap k ok h x :
  reachable begin len snap k -> k_control k = CRun -> k_worker k = WUploaded -> flag (k_info k) RECOVER_FLAG = true ->
  h ∈ di_locked (k_info k) -> di_hooks (k_info k) !! h = Some x -> hk_ended x = true ->
  exists i, worker_step ok WUploaded (k_info k) = Done (Some WRequeue) i /\
    forall k', rtc (kstep begin len) (k <| k_info := i |> <| k_worker := WRequeue |>) k' -> k_control k' = CRun ->
      (h ∉ di_releases (k_info k')) /\ (h ∈ di_locked (k_info k') \/ di_hooks (k_info k') !! h = None).
Proof.
  intros Hr Hc Hw Hf Hl Hx Ex. pose proof (reachable_ok _ _ _ _ Hr) as Hk. pose proof (proj2 Hk Hc) as Hok.
  set (i := (k_info k) <| di_dont_switch := false |>).
  assert (E : worker_step ok WUploaded (k_info k) = Done (Some WRequeue) i).
  { cbn [worker_step]. unfold go, mbind, M_bind, m_bind. by rewrite upload_end_recovering. }
  exists i. split; [exact E|]. intros k' Hsteps Hc'. set (k1 := k <| k_info := i |> <| k_worker := WRequeue |>) in *.
  assert (Hk1 : kernel_ok k1). { apply (kstep_ok begin len k k1); [|done]. apply (step_worker _ _ k ok WRequeue i). by rewrite Hw. }
  assert (Hs1 : stuck h (k_info k1) (k_worker k1)).
  { split; [apply (ho_fresh _ _ Hok); by rewrite Hx|]. left. split_and!; [done|by exists x|done]. }
  destruct (steps_stuck h begin len k1 k' Hsteps Hk1 Hc' Hs1) as [Hk' Hs']. split.
  - by eapply stuck_not_released; [apply Hk', Hc'|].
  - destruct Hs' as [_ [(? & _)|?]]; auto.
Qed.

(** A read that ends after the agent is gone frees its hook, but leaves it on
    the list of locks: there is a state that the client can reach in which reading
    the proc file follows a pointer to freed memory. *)
Lemma ended_read_dangles :
  let k := after read_without_agent in
  reachable 0 1024 7 k /\ di_locked (k_info k) = [0] /\ di_hooks (k_info k) !! 0 = None /\ ddsnap_locked_queries (k_info k) = Halt WildAccess.
Proof. cbv zeta. split; [apply after_reachable; vm_compute; by eexists|]. split_and!; vm_compute; reflexivity. Qed.

(** The worker finds the direction of a query in the bio after it has let go of the
    lock and waited: there is a state that the client can reach in which the bio
    was handed back with an error and the worker follows it. *)
Lemma query_follows_freed_bio :
  let k := after flushed_before_sent in
  reachable 0 1024 7 k /\ k_worker k = WQuery 1 0 5 1 /\ di_failed (k_info k) = [1] /\
  worker_step true (k_worker k) (k_info k) = Halt WildAccess.
Proof. cbv zeta. split; [apply after_reachable; vm_compute; by eexists|]. split_and!; vm_compute; reflexivity. Qed.
