(* ===== verification/ClientServer.v ===== *)
(** * The client and the server together

    What the client sends, the server reads; what the server answers, the client
    does: a read of a snapshot device reads the data of the snapshot, wherever
    it is. *)

From S2P Require Import Prelude Bytes State Buffer Bitmap Leaf LeafSpec LeafInv LeafView Node Alloc Journal Btree Snapshot Locks Reply Server CacheInv CacheRoom CacheMem BitmapInv AllocInv JournalSpec MetaInv Tree CopyoutSpec Unique ReplySpec LockSpec OriginWrite SnapshotRead SnapshotWrite Client ClientSpec.

(** ** Messages *)

(** The server reads the query that the client wrote. *)
Lemma rw_request1_read id chunk :
  is_u32 id -> is_u64 chunk -> rw_id (rw_request1 id chunk 1) = id /\ rw_chunks (rw_request1 id chunk 1) = [chunk].
Proof.
  intros Hid Hc. unfold rw_id, rw_request1. rewrite ld_head, Z.mod_small by done. split; [done|].
  unfold rw_chunks. rewrite (ld_app 2 (le_split 4 id)) by by rewrite length_le_split. change (1 mod 2 ^ (8 * Z.of_nat 2)) with 1.
  change (Z.to_nat 1) with 1%nat. cbn [seq mbind list_bind]. rewrite app_nil_r. unfold range_chunks. cbn [Nat.mul Nat.add].
  rewrite (ld_eq 2 _ (le_split 4 id ++ le_split 2 1 ++ le_split 8 chunk) 1 []) by (try app_norm; rewrite ?length_app, ?length_le_split; done).
  rewrite (ld_eq 8 _ (le_split 4 id ++ le_split 2 1) chunk (le_split 2 1)) by (try app_norm; rewrite ?length_app, ?length_le_split; done).
  change (1 mod 2 ^ (8 * Z.of_nat 2)) with 1. change (Z.to_nat 1) with 1%nat. cbn. rewrite Z.add_0_r, (Z.mod_small chunk) by done.
  by rewrite u64_id.
Qed.

(** The client reads an answer about one chunk. *)
Definition one_answer (we : bool) (id chunk e : Z) : list Z := le_split 4 id ++ le_split 2 1 ++ enc_range we (chunk, [e]).

Lemma one_answer_read we id chunk e :
  is_u32 id -> is_u64 chunk -> is_u64 e ->
  let body := one_answer we id chunk e in
  ld32 0 body = id /\ ld16 4 body = 1 /\ ld16 14 body = 1 /\ (we = true -> ld64 16 body = e) /\ (16 <= length body <= 24)%nat.
Proof.
  intros Hid Hc He body. unfold body, one_answer, enc_range, enc_excs. cbn [fst snd length].
  change (Z.of_nat 1) with 1. set (tl := if we then _ else _).
  assert (Htl : (length tl <= 8)%nat) by (unfold tl; destruct we; cbn [flat_map app length]; rewrite ?app_nil_r, ?length_le_split; lia).
  split_and!.
  - by rewrite ld_head, Z.mod_small.
  - by rewrite (ld_app 2 (le_split 4 id)) by by rewrite length_le_split.
  - by rewrite (ld_eq 2 _ (le_split 4 id ++ le_split 2 1 ++ le_split 8 chunk) 1 tl) by (try app_norm; rewrite ?length_app, ?length_le_split; done).
  - intros E. unfold tl. rewrite E. cbn [flat_map app].
    rewrite (ld_eq 8 _ (le_split 4 id ++ le_split 2 1 ++ le_split 8 chunk ++ le_split 2 1) e []) by (try app_norm; rewrite ?length_app, ?length_le_split; done).
    by rewrite Z.mod_small.
  - rewrite !length_app, !length_le_split. lia.
  - rewrite !length_app, !length_le_split. lia.
Qed.

(** ** The answer at the client *)

Section answer.
Context (i : devinfo) (r : request) (l : list request) (x : bio).
Let id := rq_id r.
Let k := hash_pending id.
Context (Hid : is_u32 id) (Hchunk : is_u64 (rq_chunk r)) (Hone : rq_chunks r = 1).
Context (Hfind : di_pending i !! k ≫= take_request id = Some (r, l)) (Hx : di_bios i !! rq_bio r = Some x).
Let taken := i <| di_pending ::= insert k l |>.
Let shift := u32 (di_chunksize_bits i - SECTOR_SHIFT).

Lemma answer_from_store sock ok code rw e :
  is_u64 e -> rw_answer code = Some (rw, true, false) ->
  wp (incoming_message sock ok (mkMessage code (one_answer true id (rq_chunk r) e))) (fun b i' => b = true /\
    i' = (taken <| di_bios ::= insert (rq_bio r) (x <| bi_bdev := SNAPDEV |>
      <| bi_sector ::= fun sector => u64 (u64 (Z.shiftl e shift) + Z.land sector (Z.shiftl 1 shift - 1)) |>) |>
    <| di_inflight ::= cons (rq_bio r) |>)) i.
Proof.
  intros He Hcode. destruct (one_answer_read true id (rq_chunk r) e Hid Hchunk He) as (E1 & E2 & E3 & E4 & Hlen).
  specialize (E4 eq_refl). unfold incoming_message. cbn [m_code m_body]. set (body := one_answer true id (rq_chunk r) e) in *. clearbody body.
  rewrite (proj2 (Nat.ltb_ge _ _)) by (unfold maxbody; lia). rewrite Hcode, (proj2 (Nat.ltb_ge _ _)) by (unfold sizeof_rw_request; lia).
  unfold replied_rw. rewrite E2. change (Z.to_nat 1) with 1%nat. cbn [replied_ranges Nat.add]. rewrite E3.
  do 3 wp_step; [done|]. do 2 wp_step. rewrite E1. fold k. rewrite Hfind, Hone. wp_steps. change (negb (1 =? 1)) with false. change (Z.to_nat 1) with 1%nat. cbn [remap]. unfold upd_bio, generic_make_request, get_bio.
  wp_steps. cbn [di_bios set]. rewrite Hx. wp_steps. cbn [di_bios set]. rewrite lookup_insert_eq. wp_steps. by rewrite E4.
Qed.

Lemma answer_from_origin sock ok e :
  is_u64 e ->
  let h := di_next_hook i in
  wp (incoming_message sock ok (mkMessage SNAPSHOT_READ_ORIGIN_OK (one_answer false id (rq_chunk r) e))) (fun b i' => b = true /\
    i' = (taken <| di_next_hook ::= Z.add 1 |> <| di_hooks ::= insert h (mkHook (bi_sector x) false) |>
    <| di_bios ::= insert (rq_bio r) (x <| bi_end_io := Some h |>) |> <| di_locked ::= cons h |> <| di_inflight ::= cons (rq_bio r) |>)) i.
Proof.
  intros He h. destruct (one_answer_read false id (rq_chunk r) e Hid Hchunk He) as (E1 & E2 & E3 & _ & Hlen).
  unfold incoming_message. cbn [m_code m_body]. set (body := one_answer false id (rq_chunk r) e) in *. clearbody body.
  rewrite (proj2 (Nat.ltb_ge _ _)) by (unfold maxbody; lia). change (rw_answer SNAPSHOT_READ_ORIGIN_OK) with (Some (READ, false, false)).
  rewrite (proj2 (Nat.ltb_ge _ _)) by (unfold sizeof_rw_request; lia).
  unfold replied_rw. rewrite E2. change (Z.to_nat 1) with 1%nat. cbn [replied_ranges Nat.add]. rewrite E3.
  do 3 wp_step; [done|]. do 2 wp_step. rewrite E1. fold k. rewrite Hfind, Hone. wp_steps. change (negb (1 =? 1)) with false. unfold add_hook, generic_make_request, get_bio.
  rewrite (bool_decide_eq_true_2 (READ = READ) eq_refl). wp_steps. cbn [di_bios set]. rewrite Hx. wp_steps.
  cbn [di_bios set]. rewrite lookup_insert_eq. by wp_steps.
Qed.
End answer.

(** ** Sectors *)

Lemma split_sector sector shift : 0 <= shift -> 0 <= sector ->
  sector = Z.shiftr sector shift * 2 ^ shift + Z.land sector (Z.shiftl 1 shift - 1) /\ 0 <= Z.land sector (Z.shiftl 1 shift - 1) < 2 ^ shift.
Proof.
  intros Hs Hx. rewrite Z.shiftl_1_l, Z.shiftr_div_pow2 by done. replace (2 ^ shift - 1) with (Z.ones shift) by (rewrite Z.ones_equiv; lia).
  rewrite Z.land_ones by done. pose proof (Z.pow_pos_nonneg 2 shift ltac:(lia) Hs) as Hp. pose proof (Z.mod_pos_bound sector (2 ^ shift) Hp).
  rewrite (Z.div_mod sector (2 ^ shift)) at 1 by lia. lia.
Qed.

(** The sector of chunk [e] that corresponds to [sector] *)
Lemma remapped_sector e sector shift :
  0 <= shift -> 0 <= sector -> 0 <= e -> (e + 1) * 2 ^ shift <= 2 ^ 64 ->
  let low := Z.land sector (Z.shiftl 1 shift - 1) in
  let s' := u64 (u64 (Z.shiftl e shift) + low) in
  s' = e * 2 ^ shift + low /\ Z.shiftr s' shift = e.
Proof.
  intros Hs Hx He Hb low s'. destruct (split_sector sector shift Hs Hx) as [_ Hlow]. fold low in Hlow.
  pose proof (Z.pow_pos_nonneg 2 shift ltac:(lia) Hs) as Hp.
  assert (E : s' = e * 2 ^ shift + low). { unfold s'. rewrite Z.shiftl_mul_pow2 by done. rewrite (u64_id (e * 2 ^ shift)) by (split; nia). apply u64_id. split; nia. }
  split; [done|]. rewrite E, Z.shiftr_div_pow2 by done. rewrite Z.div_add_l by lia. rewrite (Z.div_small low) by done. lia.
Qed.

(** ** A read of a snapshot device *)

(** What a chunk of a device holds when the copies that the server has put off are
    done; none are left when it has answered a write. *)
Definition device_value (w : world) (d : device) (chunk : Z) : option Z :=
  match d with SNAPDEV => settled w !! chunk | ORGDEV => org_data w !! chunk end.

Section read.
(** The server, and the snapshot that client [c] has open *)
Context (sv : server) (C : aleaf) (F : list Z) (c : Z) (cl : client) (j : nat) (sn : snapshot).
Let w := sv_world sv.
Let n := sn_bit sn.
Context (Hst : store_ok w C F) (Hlk : locks_ok sv None) (Hdev : on_device w).
Context (Hroom : ~ no_room w (Z.of_nat (etree_levels (image (sb w))) + 1)).
Context (Hcl : clients sv !! c = Some cl) (Hsnap : find_snap (sb w) (u32 (cl_snaptag cl)) = Some j) (Hslot : snap_slot (sb w) j = Some sn).
Context (Hsq : is_squashed sn = false) (Hn : 0 <= n < 64).

(** The client's device, with a request [r] for bio [x] that waits for its answer *)
Context (i : devinfo) (r : request) (l : list request) (x : bio).
Let shift := di_chunkshift i.
Context (Hbits : di_chunksize_bits i = shift + SECTOR_SHIFT) (Hshift : 0 <= shift < 32).
Context (Hid : is_u32 (rq_id r)) (Hone : rq_chunks r = 1) (Hfind : di_pending i !! hash_pending (rq_id r) ≫= take_request (rq_id r) = Some (r, l)).
Context (Hx : di_bios i !! rq_bio r = Some x) (Horg : bi_bdev x = ORGDEV) (Hsector : 0 <= bi_sector x).
Context (Hchunk : rq_chunk r = Z.shiftr (bi_sector x) shift) (Hkey : rq_chunk r < KEY_TOP).
(** The sectors of the snapshot device have 64 bits. *)
Context (Hsize : chunks (asi SNAPDATA (sb w)) * 2 ^ shift <= 2 ^ 64).

Lemma shift_bits : u32 (di_chunksize_bits i - SECTOR_SHIFT) = shift.
Proof. rewrite Hbits. rewrite Z.add_simpl_r. apply u32_id. unfold is_u32. lia. Qed.

Lemma read_through sock s ok :
  wp (query_snapshot_read c sock (rw_request1 (rq_id r) (rq_chunk r) (rq_chunks r))) (fun _ sv' =>
    exists m, sent sv' = sent sv ++ [(sock, m)] /\
    wp (incoming_message s ok m) (fun go_on i' => go_on = true /\ rq_bio r ∈ di_inflight i' /\ exists x',
      di_bios i' !! rq_bio r = Some x' /\
      device_value w (bi_bdev x') (Z.shiftr (bi_sector x') shift) = snap_value w C n (rq_chunk r) /\
      Z.land (bi_sector x') (Z.shiftl 1 shift - 1) = Z.land (bi_sector x) (Z.shiftl 1 shift - 1) /\
      (bi_bdev x' = ORGDEV -> (exists holds ws, lock_at sv' (rq_chunk r) = Some (holds, ws) /\ c ∈ holds) /\
         exists h, bi_end_io x' = Some h /\ h ∈ di_locked i' /\ di_hooks i' !! h = Some (mkHook (bi_sector x) false))) i) sv.
Proof.
  assert (Hc : 0 <= rq_chunk r < KEY_TOP). { split; [|done]. rewrite Hchunk, Z.shiftr_div_pow2 by lia. apply Z.div_pos; lia. }
  assert (Hc64 : is_u64 (rq_chunk r)) by (unfold is_u64, KEY_TOP in *; lia). rewrite Hone.
  destruct (rw_request1_read (rq_id r) (rq_chunk r) Hid Hc64) as [Eid Echunks].
  eapply wp_mono; [eapply (query_snapshot_read_spec c sock _ sv C F cl j sn Hst Hlk Hdev Hroom Hcl Hsnap Hslot Hsq Hn)|].
  { rewrite Echunks. by constructor. } { rewrite Echunks. cbn. lia. }
  cbv beta zeta. rewrite Echunks, Eid. intros _ sv' ((m1 & m2 & Hsent & H1 & H2) & Hheld & _).
  unfold answered_with, in_origin, in_store in H1, H2. cbn [omap list_omap] in H1, H2. fold n in H1, H2, Hheld.
  pose proof (split_sector (bi_sector x) shift ltac:(lia) Hsector) as [Hsplit Hlow].
  unfold snap_value. destruct (held C (rq_chunk r) n) as [e|] eqn:Eh; cbn in H1, H2.
  - rewrite reply_body_one in H2. subst m1 m2. destruct (held_pos _ _ _ _ _ _ Hst Eh) as [He0 He].
    destruct (so_used _ _ _ Hst e) as [[_ Hmax] _]; [by eapply held_in|].
    eexists. split; [exact Hsent|].
    eapply wp_mono; [by apply (answer_from_store i r l x Hid Hc64 Hone Hfind Hx s ok SNAPSHOT_READ_OK READ e He)|]. cbv beta.
    intros b i' [-> ->]. rewrite shift_bits. split; [done|]. split; [by left|]. eexists. split; [apply lookup_insert_eq|]. cbn.
    pose proof (Z.pow_pos_nonneg 2 shift ltac:(lia) ltac:(lia)) as Hp.
    destruct (remapped_sector e (bi_sector x) shift) as [R1 R2]; [lia|done|lia|nia|]. rewrite R2. split_and!; [done| |done].
    rewrite R1. set (low := Z.land (bi_sector x) (Z.shiftl 1 shift - 1)) in *. rewrite Z.shiftl_1_l. replace (2 ^ shift - 1) with (Z.ones shift) by (rewrite Z.ones_equiv; lia).
    rewrite Z.land_ones by lia. rewrite Z.add_comm, Z.mod_add by lia. by apply Z.mod_small.
  - rewrite reply_body_one in H1. subst m1 m2. eexists. split; [exact Hsent|].
    eapply wp_mono; [by apply (answer_from_origin i r l x Hid Hc64 Hone Hfind Hx s ok 0)|]. cbv beta.
    intros b i' [-> ->]. split; [done|]. split; [by left|]. eexists. split; [apply lookup_insert_eq|]. cbn. rewrite Horg. split_and!; [by rewrite Hchunk|done|].
    intros _. split; [by apply Hheld; [left|]|]. eexists. split; [done|]. split; [by left|]. apply lookup_insert_eq.
Qed.
End read.

(** C6: A read of a snapshot device reads the data of the snapshot.  The client's
    query for a request is answered with one message; when the client has it, the
    request is at a device and a sector such that the chunk of the device there
    holds what the snapshot shows at the chunk of the request, at the same place in
    the chunk.  When that device is the origin, the server holds the lock of the
    chunk for the client, and the client has a hook that will release it. *)
Theorem snapshot_device_read sv C F c cl j sn i r l x sock s ok :
  let w := sv_world sv in
  let n := sn_bit sn in
  let shift := di_chunkshift i in
  store_ok w C F -> locks_ok sv None -> on_device w -> ~ no_room w (Z.of_nat (etree_levels (image (sb w))) + 1) ->
  clients sv !! c = Some cl -> find_snap (sb w) (u32 (cl_snaptag cl)) = Some j -> snap_slot (sb w) j = Some sn ->
  is_squashed sn = false -> 0 <= n < 64 -> chunks (asi SNAPDATA (sb w)) * 2 ^ shift <= 2 ^ 64 ->
  di_chunksize_bits i = shift + SECTOR_SHIFT -> 0 <= shift < 32 ->
  is_u32 (rq_id r) -> rq_chunks r = 1 -> di_pending i !! hash_pending (rq_id r) ≫= take_request (rq_id r) = Some (r, l) ->
  di_bios i !! rq_bio r = Some x -> bi_bdev x = ORGDEV -> 0 <= bi_sector x ->
  rq_chunk r = Z.shiftr (bi_sector x) shift -> rq_chunk r < KEY_TOP ->
  wp (query_snapshot_read c sock (rw_request1 (rq_id r) (rq_chunk r) (rq_chunks r))) (fun _ sv' =>
    exists m, sent sv' = sent sv ++ [(sock, m)] /\
    wp (incoming_message s ok m) (fun go_on i' => go_on = true /\ rq_bio r ∈ di_inflight i' /\ exists x',
      di_bios i' !! rq_bio r = Some x' /\
      device_value w (bi_bdev x') (Z.shiftr (bi_sector x') shift) = snap_value w C n (rq_chunk r) /\
      Z.land (bi_sector x') (Z.shiftl 1 shift - 1) = Z.land (bi_sector x) (Z.shiftl 1 shift - 1) /\
      (bi_bdev x' = ORGDEV -> (exists holds ws, lock_at sv' (rq_chunk r) = Some (holds, ws) /\ c ∈ holds) /\
         exists h, bi_end_io x' = Some h /\ h ∈ di_locked i' /\ di_hooks i' !! h = Some (mkHook (bi_sector x) false))) i) sv.
Proof. intros w n shift. intros. by eapply (read_through sv C F c cl j sn). Qed.

(** ** Locks after a reconnection *)

(** C34: The lock of a read that is under way when the client connects again is
    lost.  The client's message for the lock names the chunk, and the server that
    gets it does nothing at all. *)
Theorem uploaded_lock_ignored fdsize64 h todo i s sector sv c cl :
  di_hooks i !! h = Some (mkHook sector false) -> di_sock i = Some s -> clients sv !! c = Some cl ->
  is_u64 (Z.shiftr sector (di_chunkshift i)) ->
  exists m, worker_step true (WUpload (h :: todo)) i = Done (Some (WUpload todo)) (i <| di_to_server ::= fun l => l ++ [(s, m)] |>) /\
    rw_chunks (m_body m) = [Z.shiftr sector (di_chunkshift i)] /\ incoming fdsize64 c m sv = Done 0 sv.
Proof.
  intros Hh Hs Hcl Hc. exists (mkMessage UPLOAD_LOCK (rw_request1 0 (Z.shiftr sector (di_chunkshift i)) 1)).
  destruct (rw_request1_read 0 (Z.shiftr sector (di_chunkshift i))) as [_ E]; [by split|done|]. split_and!; [|exact E|].
  - cbn [worker_step]. unfold upload_lock, get_hook, out_server, out_socket, go, mbind, M_bind, m_bind, get, modify, mret, M_ret, m_ret. cbn.
    rewrite Hh. cbn. by rewrite Hs.
  - unfold incoming, get_client, mbind, M_bind, m_bind, get. cbn [m_code m_body]. rewrite Hcl. cbn [mret M_ret m_ret].
    unfold mret, M_ret, m_ret. set (b := rw_request1 _ _ _). assert (Hl : length b = 16%nat) by (unfold b, rw_request1; by rewrite !length_app, !length_le_split).
    rewrite Hl. reflexivity.
Qed.
