(* ===== verification/Sample.v ===== *)
(** * A small snapshot store

    One store with blocks of 2048 bytes that the theorems are tried on: a
    bitmap block, a root with one leaf, two snapshots and one exception.  The
    cache is empty, so every block is on the disk. *)

From S2P Require Import Prelude Bytes State Buffer Bitmap Leaf LeafSpec LeafInv LeafView Node Alloc Journal Btree Snapshot Init CacheInv CacheRoom CacheMem BitmapInv AllocInv JournalSpec MetaInv Tree.

(** Sectors of the blocks: chunk [k] of the metadata device is sector [4 * k]. *)
Definition bitmap_at : Z := 16.
Definition root_at : Z := 40.
Definition leaf_at : Z := 44.

Definition sample_entries : aleaf := [(5, [Exc 1 12])].

(** Chunks 0 to 12 are in use: the superblock, the bitmap, the journal, the
    tree and one exception. *)
Definition sample_bitmap : block := 255 :: 31 :: replicate 2046 0.
Definition sample_root : block := node_bytes 0 [(0, leaf_at)] (replicate 2024 0).
Definition sample_leaf : block := leaf_bytes 2048 1 0 0 sample_entries (replicate 1992 0).

Definition sample_image : disksuper :=
  mkDisksuper SB_MAGIC 0 root_at 0 32 0 0
    [mkSnapshot 1 100 0 0 0 32; mkSnapshot 2 101 0 1 0 32] (replicate 62 (mkSnapshot 0 0 0 0 0 0))
    1 20 0 4 1 (mkAsi bitmap_at 64 51 12 1 11) (mkAsi 0 0 0 0 0 11).

Definition sample_sb : superblock :=
  mkSuperblock sample_image (mkAllocspace METADATA 2048 2 127) (mkAllocspace METADATA 2048 2 127) 3 0
    1 1 2 4 8192 (replicate 4 0) 0 0 0 100 (replicate 64 0) [] (mkRange 0 false 0).

Definition sample_disk : gmap Z block :=
  list_to_map (((fun k => (4 * Z.of_nat k, replicate 2048 0)) <$> seq 0 64)).

Definition sample : world :=
  mkWorld sample_sb ∅ [] [] [] [] 0 0
    (<[bitmap_at := sample_bitmap]> (<[root_at := sample_root]> (<[leaf_at := sample_leaf]> sample_disk)))
    sample_image
    (list_to_map ((fun k => (Z.of_nat k, 1000 + Z.of_nat k)) <$> seq 0 8))
    (list_to_map ((fun k => (Z.of_nat k, Z.of_nat k)) <$> seq 0 64)) [] 7.

(** ** The blocks *)

Lemma sample_leaf_rep : leaf_rep sample_leaf sample_entries.
Proof.
  split; [done|]. split.
  - constructor; [|constructor]. split; [done|]. constructor; [by split|constructor].
  - exists 1, 0, 0, (replicate 1992 0). reflexivity.
Qed.

Lemma sample_root_rep : node_rep sample_root [(0, leaf_at)].
Proof.
  split; [done|]. split.
  - constructor; [|constructor]. by split.
  - by exists 0, (replicate 2024 0).
Qed.

Lemma sample_wf : leaf_wf sample_entries.
Proof.
  split; [by repeat constructor|]. constructor; [|constructor]. split; [done|].
  split; [constructor; [done|constructor]|]. repeat constructor.
Qed.

(** ** The state *)

Lemma sample_view x : view sample x = disk sample !! x.
Proof. unfold view. cbn. by rewrite lookup_empty. Qed.

Lemma sample_bitmap_view : view sample bitmap_at = Some sample_bitmap.
Proof. rewrite sample_view. cbn. by rewrite lookup_insert_eq. Qed.
Lemma sample_root_view : view sample root_at = Some sample_root.
Proof. rewrite sample_view. cbn. by rewrite lookup_insert_ne, lookup_insert_eq. Qed.
Lemma sample_leaf_view : view sample leaf_at = Some sample_leaf.
Proof. rewrite sample_view. cbn. do 2 rewrite lookup_insert_ne by done. by rewrite lookup_insert_eq. Qed.

Lemma sample_mem : mem_ok sample.
Proof.
  constructor.
  - constructor; cbn; try (by constructor); try done.
    + intros x. rewrite lookup_empty, elem_of_nil. split; [done|]. by intros [? ?].
    + intros x. setoid_rewrite lookup_empty. rewrite elem_of_nil. split; [done|]. by intros (? & ? & _).
    + intros x. setoid_rewrite lookup_empty. rewrite elem_of_nil. split; [done|]. by intros (? & ? & _).
  - constructor; [intros x b; cbn; by rewrite lookup_empty|constructor|].
    intros x d. cbn [disk sample]. rewrite !lookup_insert_Some.
    intros [[_ <-]|[_ [[_ <-]|[_ [[_ <-]|[_ Hd]]]]]]; [done|done|done|].
    apply elem_of_list_to_map_2, list_elem_of_fmap in Hd as (k & [= _ ->] & _). done.
  - intros x b. cbn. by rewrite lookup_empty.
Qed.

Lemma sample_geometry : geometry sample_sb.
Proof. by constructor. Qed.

Lemma sample_asi which : asi which sample_sb = mkAsi bitmap_at 64 51 12 1 11.
Proof. by destruct which. Qed.

Lemma sample_space which : space_ok sample_sb which.
Proof. constructor; rewrite sample_asi; done. Qed.

Lemma sample_layout : layout sample_sb.
Proof. constructor; [apply sample_geometry|apply sample_space|done|done]. Qed.

Lemma sample_bits which c : 0 <= c < 13 -> bit_used (view sample) sample_sb which c.
Proof.
  intros Hc. exists sample_bitmap.
  assert (c = 0 \/ c = 1 \/ c = 2 \/ c = 3 \/ c = 4 \/ c = 5 \/ c = 6 \/ c = 7 \/ c = 8 \/ c = 9 \/ c = 10 \/ c = 11 \/ c = 12)
    as Hcs by lia.
  split.
  - unfold bitmap_sector. rewrite sample_asi. change (per_block sample_sb) with 16384. rewrite Z.div_small by lia.
    apply sample_bitmap_view.
  - repeat destruct Hcs as [->|Hcs]; [reflexivity..|]. by subst c.
Qed.

(** Block [i] of the journal is chunk [5 + i]. *)
Lemma sample_journal i : 0 <= i < 4 -> journal_sector sample_sb i = 4 * (5 + i).
Proof.
  intros Hi. change (u64 (20 + u32 (Z.shiftl i 2)) = 4 * (5 + i)). rewrite Z.shiftl_mul_pow2 by lia. change (2 ^ 2) with 4.
  rewrite u32_id by (unfold is_u32; lia). rewrite u64_id by (unfold is_u64; lia). lia.
Qed.

Lemma sample_in_journal x : in_journal sample_sb x -> 20 <= x <= 32.
Proof. intros (i & Hi & ->). change (0 <= i < 4) in Hi. rewrite sample_journal by done. lia. Qed.

Lemma sample_sector c : 0 <= c < 64 -> sector_of sample_sb c = 4 * c.
Proof.
  intros Hc. unfold sector_of. change (chunk_sectors_bits (metadata sample_sb)) with 2. rewrite Z.shiftl_mul_pow2 by lia.
  rewrite u64_id; [lia|]. unfold is_u64. lia.
Qed.

Lemma sample_meta : meta_ok sample [root_at; leaf_at].
Proof.
  constructor.
  - apply sample_mem.
  - apply sample_layout.
  - intros which c. change (sb sample) with sample_sb. rewrite sample_asi. cbn [chunks].
    change (8 * ((64 + 7) / 8)) with 64. lia.
  - intros which k. change (sb sample) with sample_sb. unfold bitmap_index. rewrite sample_asi. cbn [bitmap_blocks].
    intros Hk. assert (k = 0) as -> by lia. unfold bitmap_sector. rewrite sample_asi.
    change (u64 (bitmap_base (mkAsi bitmap_at 64 51 12 1 11) + Z.shiftl 0 (chunk_sectors_bits (metadata sample_sb)))) with 16.
    unfold root_at, leaf_at. rewrite !elem_of_cons, elem_of_nil. lia.
  - intros c. change (sb sample) with sample_sb. rewrite sample_asi. cbn [chunks]. intros Hc Hin. apply sample_bits.
    rewrite sample_sector in Hin by done. destruct Hin as [Hin|(which & k & Hk & E)].
    + unfold root_at, leaf_at in Hin. rewrite !elem_of_cons, elem_of_nil in Hin. lia.
    + unfold bitmap_index in Hk. rewrite sample_asi in Hk. cbn [bitmap_blocks] in Hk. assert (k = 0) as -> by lia.
      unfold bitmap_sector in E. rewrite sample_asi in E. change (4 * c = 16) in E. lia.
  - intros x Hx%sample_in_journal Hin. unfold root_at, leaf_at in Hin. rewrite !elem_of_cons, elem_of_nil in Hin. lia.
  - intros which k. change (sb sample) with sample_sb. unfold bitmap_index. rewrite sample_asi. cbn [bitmap_blocks].
    intros Hk Hj%sample_in_journal. assert (k = 0) as -> by lia. unfold bitmap_sector in Hj. rewrite sample_asi in Hj.
    change (20 <= 16 <= 32) in Hj. lia.
  - intros c. change (sb sample) with sample_sb. rewrite sample_asi. cbn [chunks]. intros Hc. rewrite sample_sector by done.
    intros Hx%sample_in_journal. apply sample_bits. lia.
Qed.

Lemma sample_tree : tree_ok sample sample_entries [root_at; leaf_at].
Proof.
  split; [|split; [|done]].
  - exists sample_root, [(0, leaf_at)], [leaf_at]. split_and!.
    + apply sample_root_view.
    + apply sample_root_rep.
    + done.
    + exists KEY_TOP, sample_entries, [], [leaf_at], []. split_and!; try done.
      exists sample_leaf. split_and!; [apply sample_leaf_view|apply sample_leaf_rep|apply sample_wf| |done].
      constructor; [done|constructor].
  - apply NoDup_cons. split; [unfold root_at, leaf_at; rewrite list_elem_of_singleton; lia|]. apply NoDup_singleton.
Qed.

Lemma sample_on_device : on_device sample.
Proof. intros x. by rewrite sample_view. Qed.

Lemma sample_room k : k <= 100 -> ~ no_room sample k.
Proof. unfold no_room. change (maxb sample) with 100. change (load sample) with 0. lia. Qed.
