(* ===== verification/Witness.v ===== *)
(** * The theorems at a concrete store

    Each lemma applies one theorem of the development to the sample store, with
    its hypotheses shown to hold there. *)

From S2P Require Import Prelude Bytes State Buffer Bitmap Leaf LeafSpec LeafInv LeafView Node Alloc Journal Btree Snapshot Init CacheInv CacheRoom CacheMem BitmapInv AllocInv MetaInv Tree TreeInsert FreeInv Traverse Sample.

Lemma test_unique_witness :
  wp (test_unique 5 0) (fun r w' => mem_ok w' /\ cstep sample w' /\
    r = (1, 12) /\ took sample w' []) sample.
Proof.
  eapply wp_mono.
  { apply (test_unique_correct sample sample_entries [root_at; leaf_at] 5 0 sample_mem sample_tree); done. }
  cbv beta. intros r w' (Hm & Hc & [[-> Ht]|(_ & Hwhy & _)]); [by split_and!|].
  exfalso. destruct Hwhy as [H|(x & Hx & Hd)]; [by eapply (sample_room 2)|].
  apply elem_of_cons in Hx as [->| ->%list_elem_of_singleton].
  - by rewrite <- sample_view, sample_root_view in Hd.
  - by rewrite <- sample_view, sample_leaf_view in Hd.
Defined.

Lemma bread_witness :
  wp (bread leaf_at (Z.to_nat (allocsize (metadata (sb sample))))) (fun r w' => mem_ok w' /\ same_store sample w' /\
    (forall x, view w' x = view sample x) /\
    match r with
    | Some x => x = leaf_at /\ (exists b, bufs w' !! leaf_at = Some b /\ view sample leaf_at = Some (bdata b)) /\
        forall x, pins w' x = pins sample x + if decide (x = leaf_at) then 1 else 0
    | None => (forall x, pins w' x = pins sample x) /\ (no_room sample 1 \/ disk sample !! leaf_at = None)
    end) sample.
Proof. apply (bread_correct leaf_at sample sample_mem). Defined.

Lemma alloc_chunk_witness :
  wp (alloc_chunk METADATA) (fun c w' => mem_ok w' /\ took sample w' [] /\
    ((c = NOCHUNK /\ sb w' = sb sample /\ (forall x, view w' x = view sample x) /\ alloc_failed sample METADATA) \/
     (0 <= c < 64 /\ bit_free (view sample) (sb sample) METADATA c /\ bit_used (view w') (sb sample) METADATA c /\
      (forall x, x <> bitmap_sector (sb sample) METADATA (c / per_block (sb sample)) -> view w' x = view sample x) /\
      (forall c', c' <> c -> 0 <= c' -> c' / per_block (sb sample) = c / per_block (sb sample) ->
         bit_used (view w') (sb sample) METADATA c' <-> bit_used (view sample) (sb sample) METADATA c') /\
      last_alloc (asi METADATA (sb w')) = c /\
      freechunks (asi METADATA (sb w')) = 50))) sample.
Proof.
  apply (alloc_chunk_correct METADATA sample sample_mem sample_geometry (sample_space METADATA)); [done|].
  apply (mo_tail _ _ sample_meta).
Defined.

Lemma add_exception_to_leaf_witness :
  already_unique sample_entries 5 1 3 = false /\
  ((exists b' L', add_exception_to_leaf sample_leaf 5 20 1 3 = (b', 0) /\ leaf_rep b' L' /\ leaf_wf L' /\
     length b' = length sample_leaf /\ forall c' n, 0 <= n < 64 -> held L' c' n = held_after sample_entries 5 20 1 3 c' n) \/
  (add_exception_to_leaf sample_leaf 5 20 1 3 = (sample_leaf, - EFULL) /\ leaf_freespace sample_leaf < 24)).
Proof.
  split; [done|].
  apply (add_exception_to_leaf_correct sample_leaf sample_entries 5 20 1 3 sample_leaf_rep sample_wf); done.
Defined.

(** A leaf of 2048 bytes that is full: 84 chunks with one exception each. *)
Definition full_entries : aleaf := (fun k => (Z.of_nat k, [Exc 1 (Z.of_nat k + 100)])) <$> seq 0 84.
Definition full_leaf : block := leaf_bytes 2048 1 0 0 full_entries [].

Lemma full_leaf_rep : leaf_rep full_leaf full_entries.
Proof.
  split; [done|]. split.
  - apply Forall_fmap, Forall_forall. intros k Hk. apply elem_of_seq in Hk.
    split; [unfold is_u32; cbn; lia|]. constructor; [|constructor]. split; [done|]. unfold is_u64. cbn. lia.
  - by exists 1, 0, 0, [].
Qed.

Lemma sorted_seq (f : nat -> list exc) a n :
  leaf_sorted ((fun k => (Z.of_nat k, f k)) <$> seq a n).
Proof.
  revert a. induction n as [|n IH]; intros a; [constructor|]. cbn. constructor; [apply IH|].
  apply Forall_fmap, Forall_forall. intros k Hk. apply elem_of_seq in Hk. cbn. lia.
Qed.

Lemma full_wf : leaf_wf full_entries.
Proof.
  split; [apply (sorted_seq (fun k => [Exc 1 (Z.of_nat k + 100)]))|].
  apply Forall_fmap, Forall_forall. intros k _. split; [done|]. split; [constructor; [done|constructor]|].
  repeat constructor.
Qed.

Lemma split_leaf_witness :
  exists b1' b2' key L1 L2, split_leaf full_leaf (replicate 2048 0) = (b1', b2', key) /\ leaf_rep b1' L1 /\ leaf_rep b2' L2 /\
    leaf_wf L1 /\ leaf_wf L2 /\ L1 <> [] /\ L2 <> [] /\ length b1' = length full_leaf /\ length b2' = length full_leaf /\
    (forall c' n, held full_entries c' n = if c' <? key then held L1 c' n else held L2 c' n) /\
    exists b', add_exception_to_leaf (if 5 <? key then b1' else b2') 5 20 1 3 = (b', 0) /\
      leaf_rep b' (add_entry 5 20 1 3 (if 5 <? key then L1 else L2)).
Proof.
  apply (split_leaf_correct full_leaf (replicate 2048 0) full_entries 5 20 1 3 full_leaf_rep full_wf); try done.
Defined.

(** Two leaves that fit into one. *)
Definition left_entries : aleaf := [(1, [Exc 1 30])].
Definition left_leaf : block := leaf_bytes 2048 1 0 0 left_entries (replicate 1992 0).

Lemma left_leaf_rep : leaf_rep left_leaf left_entries.
Proof.
  split; [done|]. split.
  - constructor; [|constructor]. split; [done|]. constructor; [by split|constructor].
  - by exists 1, 0, 0, (replicate 1992 0).
Qed.

Lemma left_wf : leaf_wf left_entries.
Proof.
  split; [by repeat constructor|]. constructor; [|constructor]. split; [done|].
  split; [constructor; [done|constructor]|]. repeat constructor.
Qed.

Lemma merge_leaves_witness :
  exists L, leaf_rep (merge_leaves left_leaf sample_leaf) L /\ leaf_wf L /\
    length (merge_leaves left_leaf sample_leaf) = length left_leaf /\
    forall c n, held L c n = match held left_entries c n with Some x => Some x | None => held sample_entries c n end.
Proof.
  apply (merge_leaves_correct left_leaf sample_leaf left_entries sample_entries left_leaf_rep sample_leaf_rep);
    [done|apply left_wf|apply sample_wf| |].
  - constructor; [|constructor]. constructor; [done|constructor].
  - vm_compute. discriminate.
Defined.

(** ** Insertion into the tree *)

(** The state after [probe] found the leaf of chunk 5. *)
Definition probed : world :=
  match probe 5 sample with Done _ w => w | Halt _ => sample end.

Lemma probe_runs : probe 5 sample = Done (Some (leaf_at, [(root_at, 1%nat)])) probed.
Proof. vm_compute. reflexivity. Qed.

Lemma probe_found : found 5 sample_entries [root_at; leaf_at] sample (Some (leaf_at, [(root_at, 1%nat)])) probed.
Proof.
  pose proof (probe_mem 5 sample_entries [root_at; leaf_at] sample sample_mem sample_tree) as H.
  unfold wp in H. rewrite probe_runs in H. by apply H.
Qed.

Lemma add_exception_to_tree_witness :
  wp (add_exception_to_tree leaf_at 5 20 1 [(root_at, 1%nat)] (etree_levels (image (sb probed)))) (fun r w' =>
    exists C' F', let q := (etree_levels (image (sb probed)) + 2)%nat in
      tree_ok w' C' F' /\ meta_ok w' F' /\ mstep q probed w' [root_at; leaf_at] F' /\ xstep probed w' /\
      ((r = 0 /\ took w' probed [leaf_at] /\
        forall c' n, 0 <= n < 64 -> held C' c' n = held_after sample_entries 5 20 1 (snapmask (sb probed)) c' n) \/
       (r = - ENOMEM /\ lack probed q /\ C' = sample_entries /\ took probed w' []) \/
       (r = - ENOMEM /\ lack probed q /\ took w' probed [leaf_at] /\
        C' `sublist_of` add_entry 5 20 1 (snapmask (sb probed)) sample_entries))) probed.
Proof.
  assert (Hm : mem_ok probed) by apply probe_found. assert (Hc : cstep sample probed) by apply probe_found.
  assert (Es : sb probed = sample_sb) by apply Hc.
  apply (add_exception_to_tree_correct sample probed sample_entries [root_at; leaf_at] 5 20 1 leaf_at [(root_at, 1%nat)]).
  - exact (meta_ok_cstep _ _ _ sample_meta Hm Hc).
  - exact sample_tree.
  - exact probe_found.
  - done.
  - lia.
  - rewrite Es. by split.
  - rewrite Es. reflexivity.
  - rewrite Es. discriminate.
Defined.

(** ** Freeing a chunk and walking the tree *)

Lemma free_chunk_witness :
  wp (free_chunk METADATA 12) (fun r w' => mem_ok w' /\ took sample w' [] /\ r = true /\
    bit_used (view sample) (sb sample) METADATA 12 /\ bit_free (view w') (sb sample) METADATA 12 /\
    freechunks (asi METADATA (sb w')) = 52) sample.
Proof.
  eapply wp_mono; [apply (free_chunk_correct METADATA 12 sample sample_mem sample_geometry); lia|].
  cbv beta. intros [|] w' (Hm & Ht & H).
  - destruct H as (Hu & Hf & _ & _ & Hc). split_and!; try done.
  - exfalso. destruct H as (_ & _ & [(d & Hd & Hb)|[H|H]]).
    + destruct (sample_bits METADATA 12) as (d' & Hd' & Hb'); [lia|]. change (sb sample) with sample_sb in *. congruence.
    + by eapply (sample_room 1).
    + assert (E : view sample bitmap_at = None) by by rewrite sample_view. by rewrite sample_bitmap_view in E.
Defined.

(** A visitor that collects the entries of the leaves sees those of the tree. *)
Lemma traverse_witness :
  wp (traverse_tree_range (fun b l => mret (l ++ leaf_entries b)) 0 []) (fun '(err, l) w' =>
    mem_ok w' /\ cstep sample w' /\ took sample w' [] /\ err = 0 /\ l = sample_entries) sample.
Proof.
  eapply wp_mono.
  { apply (traverse_tree_range_correct (fun b l => mret (l ++ leaf_entries b)) (fun C l => l = C) sample sample_entries
      [root_at; leaf_at] [] sample_mem sample_tree); [cbn; lia|exact sample_on_device| |reflexivity].
    intros b L C l w1 _ Hr _ ->. wp_steps. split; [reflexivity|]. by rewrite (leaf_rep_entries b L Hr). }
  cbv beta. intros [err l] w' (Hm & Hc & [(-> & Ht & ->)|(_ & Hno & _)]); [by split_and!|].
  exfalso. by eapply (sample_room 2).
Defined.
