(* ===== verification/WitnessServer.v ===== *)
(** * The theorems on snapshots, copies, replies, change lists and locks at
      concrete inputs *)

From S2P Require Import Prelude Bytes State Buffer Bitmap Leaf LeafSpec LeafInv LeafView Alloc Journal Btree Snapshot Locks Reply Changelist Status CacheInv CacheRoom CacheMem BitmapInv AllocInv StatusSpec SnapshotSpec CopyoutSpec ReplySpec ChangelistSpec Tree Traverse ReportSpec LockSpec Sample.

(** ** The status report *)

Lemma calc_sharing_witness :
  wp (calc_sharing sample_leaf (replicate 4096 0)) (fun table' w' => w' = sample /\ table' !! cell 0 0 = Some 1) sample.
Proof.
  eapply wp_mono.
  { apply (calc_sharing_correct sample_leaf sample_entries (replicate 4096 0) sample sample_leaf_rep sample_wf).
    - apply length_replicate.
    - apply Forall_replicate. split; [reflexivity|lia]. }
  cbv beta. intros t w' [-> H]. split; [reflexivity|].
  assert (E0 : replicate 4096 0 !! cell 0 0 = Some 0) by (apply lookup_replicate; split; [reflexivity|unfold cell; lia]).
  rewrite (H 0%nat 0%nat 0 ltac:(lia) ltac:(lia) E0). reflexivity.
Defined.

Lemma get_status_witness :
  wp get_status (fun b w' => mem_ok w' /\ cstep sample w' /\ took sample w' [] /\
    exists table, b = status_bytes (sb sample) table /\ share_counts sample_entries table) sample.
Proof.
  apply (get_status_correct sample sample_entries [root_at; leaf_at] sample_mem sample_tree);
    [cbn; lia|exact sample_on_device|by apply sample_room|reflexivity].
Defined.

(** ** Snapshots *)

Lemma find_victim_witness :
  wp find_victim (fun '(i, v) w' => w' = sample /\ snaplist (image (sb sample)) !! i = Some v /\
    (forall j x, snaplist (image (sb sample)) !! j = Some x ->
       (is_squashed v = true -> is_squashed x = true) /\
       (is_squashed v = false -> is_squashed x = false ->
          (in_use (sb sample) v = true -> in_use (sb sample) x = true) /\
          (in_use (sb sample) v = in_use (sb sample) x -> sn_prio v <= sn_prio x))) /\
    (forall j x, (j < i)%nat -> snaplist (image (sb sample)) !! j = Some x -> victim_before (sb sample) v x)) sample.
Proof. apply (find_victim_correct sample). discriminate. Defined.

Lemma find_unused_witness :
  wp find_unused (fun '(i, v) w' => w' = sample /\ snaplist (image (sb sample)) !! i = Some v /\
    (forall j x, snaplist (image (sb sample)) !! j = Some x ->
       (in_use (sb sample) v = true -> in_use (sb sample) x = true) /\
       (in_use (sb sample) v = in_use (sb sample) x -> sn_prio v <= sn_prio x)) /\
    (forall j x, (j < i)%nat -> snaplist (image (sb sample)) !! j = Some x -> use_before (sb sample) v x)) sample.
Proof. apply (find_unused_correct sample). discriminate. Defined.

Lemma sample_snaps_ok : snaps_ok sample_sb.
Proof.
  constructor.
  - reflexivity.
  - apply (bool_decide_unpack (NoDup [100; 101])). reflexivity.
  - apply (bool_decide_unpack (NoDup [0; 1])). reflexivity.
  - repeat constructor; cbn; lia.
  - reflexivity.
Qed.

Lemma create_snapshot_witness :
  wp (create_snapshot 102) (fun r w' => (r = - EEXIST /\ (102 ∈ [100; 101]) /\ w' = sample) \/
    (0 <= r < 64 /\ (102 ∉ [100; 101]) /\ (r ∉ [0; 1]) /\ Z.testbit 3 r = false /\
     snaplist (image (sb w')) = snaplist sample_image ++ [mkSnapshot 7 102 0 r 0 32] /\
     snapmask (sb w') = Z.lor 3 (2 ^ r) /\ Z.testbit (runflags (sb w')) 0 = true /\ snaps_ok (sb w'))) sample.
Proof. apply (create_snapshot_correct 102 sample sample_snaps_ok). reflexivity. Defined.

(** ** Copies *)

(** Two consecutive copies from the origin and one inside the store *)
Definition sample_reqs : list (Z * Z) := [(2, 20); (3, 21); (2 ^ 63 + 12, 30)].

Lemma sample_device (f : nat -> Z) n x :
  is_Some ((list_to_map ((fun k => (Z.of_nat k, f k)) <$> seq 0 n) : gmap Z Z) !! x) -> 0 <= x < Z.of_nat n.
Proof.
  intros [v Hv%elem_of_list_to_map_2]. apply list_elem_of_fmap in Hv as (k & [= -> ->] & Hk%elem_of_seq). lia.
Qed.

Lemma sample_copies : copies_ok sample.
Proof.
  constructor; cbn -[list_to_map seq]; try lia; try done.
  - intros x Hx%sample_device. lia.
  - intros x Hx%sample_device. lia.
  - constructor; cbn -[list_to_map seq]; intros; lia.
Qed.

Lemma sample_reqs_ok : reqs_ok sample sample_reqs.
Proof.
  split.
  - repeat constructor; cbn; try lia; eexists; reflexivity.
  - intros p q Hp Hq. change (pending_copies (sb sample) ++ sample_reqs) with sample_reqs in Hq. unfold sample_reqs in *.
    repeat match goal with
    | H : _ ∈ _ :: _ |- _ => apply elem_of_cons in H as [->|H]
    | H : _ ∈ [] |- _ => by apply elem_of_nil in H
    end; cbn; lia.
Qed.

Lemma copyout_witness :
  wp (foreach sample_reqs (fun p => copyout p.1 p.2;; mret tt);; finish_copyout) (fun r w' =>
    r = 0 /\ only_copies sample w' /\ copy_chunks (sb w') = 0 /\
    snap_data w' = foldl (copy_one (org_data sample)) (settled sample) sample_reqs) sample.
Proof. apply (copyout_correct sample_reqs sample sample_copies sample_reqs_ok). Defined.

(** ** Replies *)

Definition sample_chunks : list (Z * Z) := [(4, 40); (5, 41); (9, 50)].

Lemma sample_addable : Forall addable sample_chunks.
Proof. repeat constructor; cbn; lia. Qed.

Lemma reply_witness :
  match add_all true sample_chunks new_addto with
  | Some r => finish_reply r 1 77 = Some (mkMessage 1
      ([77; 0; 0; 0; 1; 0] ++
       [4; 0; 0; 0; 0; 0; 0; 0; 2; 0] ++ [40; 0; 0; 0; 0; 0; 0; 0] ++ [41; 0; 0; 0; 0; 0; 0; 0] ++
       [9; 0; 0; 0; 0; 0; 0; 0; 1; 0] ++ [50; 0; 0; 0; 0; 0; 0; 0]))
  | None => False
  end.
Proof.
  destruct (reply_correct true sample_chunks 1 77) as [_ H]; [discriminate|apply sample_addable|reflexivity|].
  destruct (add_all true sample_chunks new_addto) as [r|].
  - destruct H as [H _]. rewrite H. reflexivity.
  - cbn in H. lia.
Defined.


(** ** Change lists *)

Definition sample_cl : change_list := mkCl 1024 12 100 101 [3; 5; 8].

Lemma changelist_roundtrip_witness :
  exists cl', read_changelist (write_changelist sample_cl) = Some cl' /\ cl_ok cl' /\ cl_chunks cl' = [3; 5; 8] /\
    cl_chunksize_bits cl' = 12 /\ cl_src_snap cl' = 100 /\ cl_tgt_snap cl' = 101.
Proof.
  apply (changelist_roundtrip sample_cl); [split; cbn; lia..| |reflexivity].
  repeat constructor; cbn; unfold CL_MARKER, u64; cbn; lia.
Defined.

Lemma gen_changelist_leaf_witness :
  let cl' := gen_changelist_leaf sample_sb (bit64 0) (bit64 1) sample_leaf sample_cl in
  cl_ok cl' /\ cl_chunks cl' = [3; 5; 8; 5].
Proof.
  apply (gen_changelist_leaf_correct sample_sb sample_leaf sample_entries sample_cl 0 1 sample_leaf_rep sample_wf);
    [split; vm_compute; congruence|reflexivity|lia..|split; vm_compute; congruence|vm_compute; congruence].
Defined.

Lemma stream_changelist_witness :
  wp (traverse_tree_range (fun leaf cl => s ← getsb; mret (gen_changelist_leaf s (bit64 0) (bit64 1) leaf cl)) 0
        (mkCl 1024 12 100 101 []))
    (fun '(err, cl') w' => mem_ok w' /\ cstep sample w' /\ err = 0 /\ cl_chunks cl' = [5]) sample.
Proof.
  eapply wp_mono.
  { apply (stream_changelist_walk sample sample_entries [root_at; leaf_at] (mkCl 1024 12 100 101 []) 0 1 sample_mem sample_tree);
      [cbn; lia|exact sample_on_device|lia|lia|split; vm_compute; congruence|vm_compute; congruence|split; vm_compute; congruence|reflexivity]. }
  cbv beta. intros [err cl] w' (Hm & Hc & [(-> & _ & _ & ->)|(_ & Hno & _)]); [by split_and!|].
  exfalso. by eapply (sample_room 2).
Defined.

(** ** Locks *)

(** A server with two clients: client 7 has read chunk 5, and a write of client
    8 waits for it. *)
Definition idle_server : server :=
  mkServer sample (replicate 16 []) ∅ 1 (<[7 := mkClient 0 30 100 1]> (<[8 := mkClient 1 31 (-1) 0]> ∅)) 9 [7; 8] [].

Definition sample_lock : snaplock := mkLock [0] [7] 5.
Definition sample_pendings : gmap Z pending := {[0 := mkPending 1 (Some 8) (mkMessage 9 [1])]}.
Definition busy_server : server :=
  idle_server <| snaplocks := <[bin_of idle_server 5 := [sample_lock]]> (replicate 16 []) |>
              <| pendings := sample_pendings |>.

Lemma idle_ok : locks_ok idle_server None.
Proof. apply locks_ok_empty; [split; vm_compute; discriminate|reflexivity|reflexivity]. Qed.

Lemma busy_table : table_ok busy_server.
Proof.
  apply (table_ok_set idle_server busy_server (bin_of idle_server 5) [sample_lock] (proj1 idle_ok)); [reflexivity|reflexivity|].
  split; [constructor; [reflexivity|constructor]|apply NoDup_singleton|constructor; [discriminate|constructor]].
Qed.

Lemma busy_waits p : waits busy_server p = if decide (p = 0) then 1 else 0.
Proof. change (waits busy_server p) with (occ p [0]). rewrite occ_cons, occ_nil. lia. Qed.

Lemma busy_pending p pd : pendings busy_server !! p = Some pd -> p = 0 /\ pd = mkPending 1 (Some 8) (mkMessage 9 [1]).
Proof.
  change (sample_pendings !! p = Some pd -> p = 0 /\ pd = mkPending 1 (Some 8) (mkMessage 9 [1])).
  unfold sample_pendings. by intros [<- <-]%lookup_singleton_Some.
Qed.

Lemma busy_ok : locks_ok busy_server None.
Proof.
  split; [apply busy_table|]. constructor.
  - intros p pd [-> ->]%busy_pending. rewrite busy_waits. reflexivity.
  - intros p. rewrite busy_waits. case_decide as E; [subst; intros _; by eexists|lia].
  - discriminate.
  - intros p pd [-> ->]%busy_pending _. rewrite busy_waits. split; [reflexivity|by eexists].
  - intros p Hp. change (sample_pendings !! p = None). unfold sample_pendings. apply lookup_singleton_ne. change (1 <= p) in Hp. lia.
Qed.

Lemma readlock_witness :
  wp (readlock_chunk 5 7) (fun _ sv' => locks_ok sv' None /\ lock_at sv' 5 = Some ([7], []) /\
    (forall chunk', chunk' <> 5 -> lock_at sv' chunk' = lock_at idle_server chunk') /\
    exists t, sv' = idle_server <| snaplocks := t |>) idle_server.
Proof. apply (readlock_chunk_correct 5 7 idle_server None idle_ok). Defined.

Lemma waitfor_witness :
  wp (waitfor_chunk 5 None) (fun r sv' => exists p, r = Some p /\ (None = Some p \/ None = @None Z /\ pendings busy_server !! p = None) /\
    locks_ok sv' (Some p) /\ lock_at sv' 5 = Some ([7], [p; 0]) /\
    (forall chunk', chunk' <> 5 -> lock_at sv' chunk' = lock_at busy_server chunk') /\
    waits sv' p = waits busy_server p + 1 /\ (forall q, q <> p -> waits sv' q = waits busy_server q) /\
    (forall q, q <> p -> pendings sv' !! q = pendings busy_server !! q) /\
    sent sv' = [] /\ clients sv' = clients busy_server /\ sv_world sv' = sample) busy_server.
Proof. apply (waitfor_chunk_correct 5 busy_server None busy_ok). discriminate. Defined.

Lemma release_witness :
  wp (release_chunk 5 7) (fun _ sv' => locks_ok sv' None /\
    (forall chunk', chunk' <> 5 -> lock_at sv' chunk' = lock_at busy_server chunk') /\
    clients sv' = clients busy_server /\ sv_world sv' = sample /\
    exists h1 h2, [7] = h1 ++ 7 :: h2 /\ (7 ∉ h1) /\
    if decide (h1 ++ h2 = []) then
      lock_at sv' 5 = None /\ exists done, NoDup done /\
        (forall p, p ∈ done <-> p ∈ [0] /\ waits sv' p = 0) /\ (forall p, p ∈ done -> pendings sv' !! p = None) /\
        sent sv' = [] ++ (reply_of busy_server <$> done)
    else lock_at sv' 5 = Some (h1 ++ h2, [0]) /\ sent sv' = [] /\ pendings sv' = pendings busy_server) busy_server.
Proof.
  apply (release_chunk_correct 5 7 busy_server [7] [0] busy_ok); [reflexivity|by left|].
  intros p pd Hp%list_elem_of_singleton Hpd. subst p. injection Hpd as <-. exists 8, (mkClient 1 31 (-1) 0). split; reflexivity.
Defined.

(** Client 8 releases the lock of client 7. *)
Lemma release_stranger_witness :
  wp (release_chunk 5 8) (fun r sv' => r = -2 /\ [7] <> [] /\ lock_at sv' 5 = None /\ sent sv' = [] /\
    pendings sv' = pendings busy_server /\
    exists l1 lk l2, snaplocks busy_server !! bin_of busy_server 5 = Some (l1 ++ lk :: l2) /\ lk_chunk lk = 5 /\
      snaplocks sv' !! bin_of busy_server 5 = Some l1) busy_server.
Proof.
  apply (release_chunk_stranger 5 8 busy_server [7] [0] busy_ok); [reflexivity|].
  intros Hin%list_elem_of_singleton. discriminate.
Defined.
