(* ===== verification/WitnessUnique.v ===== *)
(** * Making chunks unique in the sample store *)

From S2P Require Import Prelude Bytes State Buffer Bitmap Leaf LeafSpec LeafInv LeafView Node Alloc Journal Btree Snapshot CacheInv CacheRoom CacheMem BitmapInv AllocInv MetaInv Tree TreeInsert CopyoutSpec Unique Sample WitnessServer.

Lemma sample_present (f : nat -> Z) n x :
  0 <= x < Z.of_nat n -> is_Some ((list_to_map ((fun k => (Z.of_nat k, f k)) <$> seq 0 n) : gmap Z Z) !! x).
Proof.
  intros Hx. exists (f (Z.to_nat x)). apply elem_of_list_to_map_1.
  - rewrite <- list_fmap_compose. apply (NoDup_fmap_2 Z.of_nat), NoDup_seq.
  - apply list_elem_of_fmap. exists (Z.to_nat x). split; [by rewrite Z2Nat.id by lia|]. apply elem_of_seq. lia.
Qed.

Lemma sample_store : store_ok sample sample_entries [root_at; leaf_at].
Proof.
  constructor; [apply sample_meta|apply sample_tree|apply sample_copies| |by apply sample_bits| | | |done|done].
  - intros e ->%list_elem_of_singleton. cbn [chunk_of]. change (sb sample) with sample_sb. rewrite sample_asi.
    split; [cbn; lia|]. by apply sample_bits.
  - apply NoDup_singleton.
  - intros e He. change (sb sample) with sample_sb in He. rewrite sample_asi in He. cbn [chunks] in He.
    apply (sample_present (fun k => Z.of_nat k) 64). lia.
  - intros p Hp. by apply elem_of_nil in Hp.
Qed.

Lemma sample_free which c : 13 <= c < 64 -> available sample which c.
Proof.
  intros Hc. exists sample_bitmap. change (sb sample) with sample_sb. split_and!.
  - unfold bitmap_sector. rewrite sample_asi. change (per_block sample_sb) with 16384. rewrite Z.div_small by lia.
    apply sample_bitmap_view.
  - unfold sample_bitmap, bytes_ok. constructor; [done|]. constructor; [done|]. by apply Forall_replicate.
  - change (per_block sample_sb) with 16384. rewrite Z.mod_small by lia.
    assert (Hall : forallb (fun c => negb (get_bitmap_bit sample_bitmap c)) (seqZ 13 51) = true) by (vm_compute; reflexivity).
    rewrite forallb_forall in Hall. apply negb_true_iff, Hall, list_elem_of_In, elem_of_seqZ. lia.
  - unfold is_deferred_alloc, chunk_within. cbn. rewrite orb_false_r. apply Z.ltb_ge, u64_range.
Qed.

Lemma sample_resources : resources sample [root_at; leaf_at].
Proof.
  constructor; change (sb sample) with sample_sb.
  - by apply sample_room.
  - intros x [->| ->%list_elem_of_singleton]%elem_of_cons; rewrite <- sample_view.
    + by rewrite sample_root_view.
    + by rewrite sample_leaf_view.
  - intros which (k & Hk & Hd). change (sb sample) with sample_sb in *. rewrite sample_asi in Hk. cbn [bitmap_blocks] in Hk.
    assert (k = 0) as -> by lia. unfold bitmap_sector in Hd. rewrite sample_asi in Hd.
    change (disk sample !! bitmap_at = None) in Hd. by rewrite <- sample_view, sample_bitmap_view in Hd.
  - exists 13. rewrite sample_asi. split; [cbn; lia|]. by apply sample_free.
  - exists (seqZ 13 51). rewrite length_seqZ. split_and!; [apply NoDup_seqZ|cbn; lia|]. apply Forall_forall.
    intros c Hc%elem_of_seqZ. rewrite sample_asi. split; [cbn; lia|]. apply sample_free. lia.
  - rewrite !sample_asi. by split.
Qed.

Lemma make_unique_witness :
  wp (make_unique 5 (-1)) (fun r w' => r <> NOCHUNK /\ org_data w' = org_data sample /\ snapmask (sb w') = 3 /\
    exists C' F', store_ok w' C' F' /\
      (forall n c', 0 <= n < 64 -> snap_value w' C' n c' = snap_value sample sample_entries n c') /\
      (-1 = -1 -> forall n, 0 <= n < 64 -> Z.testbit 3 n = true -> is_Some (held C' 5 n)) /\
      (-1 <> -1 -> held C' 5 (-1) = Some r /\
         forall n c', 0 <= n < 64 -> held C' c' n = Some r -> c' = 5 /\ n = -1)) sample.
Proof.
  apply (make_unique_correct sample sample_entries [root_at; leaf_at] 5 (-1) sample_store sample_resources); [done|done| |].
  - by apply (sample_present (fun k => 1000 + Z.of_nat k) 8).
  - intros p Hp. by apply elem_of_nil in Hp.
Defined.
