(* ===== verification/WitnessCommit.v ===== *)
(** * A transaction of the sample store *)

From S2P Require Import Prelude Bytes State Buffer Bitmap Leaf LeafSpec Journal CacheInv CacheRoom CacheMem JournalSpec CommitSpec ReplaySpec Sample.

(** The leaf has a new exception, in the cache only. *)
Definition dirty_leaf : block := (add_exception_to_leaf sample_leaf 6 13 (-1) 3).1.

Definition dirty_sample : world :=
  sample <| bufs := {[leaf_at := mkBuffer dirty_leaf 0 BUFFER_DIRTY]} |> <| lru_buffers := [leaf_at] |> <| dirty_buffers := [leaf_at] |>.

Lemma dirty_bufs x b : bufs dirty_sample !! x = Some b <-> x = leaf_at /\ b = mkBuffer dirty_leaf 0 BUFFER_DIRTY.
Proof.
  change (({[leaf_at := mkBuffer dirty_leaf 0 BUFFER_DIRTY]} : gmap Z buffer) !! x = Some b <-> x = leaf_at /\ b = mkBuffer dirty_leaf 0 BUFFER_DIRTY).
  rewrite lookup_singleton_Some. split; intros [-> ->]; done.
Qed.

Lemma dirty_mem : mem_ok dirty_sample.
Proof.
  destruct sample_mem as [_ [_ _ Hd] _]. constructor; [constructor|constructor|].
  - apply NoDup_singleton.
  - intros x. cbn [lru_buffers set dirty_sample]. split.
    + intros ->%list_elem_of_singleton. by eexists.
    + intros [b [-> _]%dirty_bufs]. by left.
  - apply NoDup_singleton.
  - intros x. split.
    + intros ->%list_elem_of_singleton. by eexists.
    + intros (b & [-> _]%dirty_bufs & _). by left.
  - constructor.
  - intros x. split; [by intros ?%elem_of_nil|]. by intros (b & [_ ->]%dirty_bufs & ?).
  - by intros x b [_ ->]%dirty_bufs.
  - by intros x b [_ ->]%dirty_bufs.
  - by intros x b [_ ->]%dirty_bufs.
  - constructor.
  - exact Hd.
  - by intros x b [_ ->]%dirty_bufs.
Qed.

Lemma sample_block k : 0 <= k < 64 -> is_Some (disk sample !! (4 * k)).
Proof.
  intros Hk. cbn [disk sample]. rewrite !lookup_insert_is_Some'. right. right. right. unfold sample_disk.
  exists (replicate 2048 0). apply elem_of_list_to_map_1.
  - rewrite <- list_fmap_compose. apply NoDup_fmap_2_strong; [|apply NoDup_seq]. cbn. lia.
  - apply list_elem_of_fmap. exists (Z.to_nat k). split; [by rewrite Z2Nat.id by lia|]. apply elem_of_seq. lia.
Qed.

Lemma dirty_journal : journal_ok dirty_sample.
Proof.
  constructor; [done|done|done|done| |].
  - intros i Hi. rewrite sample_journal by exact Hi. apply sample_block. change (0 <= i < 4) in Hi. lia.
  - intros i b Hi [E _]%dirty_bufs. rewrite sample_journal in E by exact Hi. unfold leaf_at in E. change (0 <= i < 4) in Hi. lia.
Qed.

Lemma dirty_ready : commit_ready dirty_sample.
Proof.
  constructor; [apply dirty_mem|apply dirty_journal| |by split_and!|done| |done|done|vm_compute; congruence].
  - unfold no_room. change (maxb dirty_sample) with 100. pose proof (busies_load dirty_sample dirty_sample) as _.
    assert (load dirty_sample <= 1); [|lia]. unfold load.
    change (lru_buffers dirty_sample) with [leaf_at]. pose proof (length_filter (busy dirty_sample) [leaf_at]). cbn in *. lia.
  - intros x ->%list_elem_of_singleton. apply (sample_block 11). lia.
Qed.

Lemma leaf_apart : ~ in_journal sample_sb leaf_at.
Proof. intros (i & Hi & E). rewrite sample_journal in E by exact Hi. change (0 <= i < 4) in Hi. unfold leaf_at in E. lia. Qed.

Lemma commit_witness :
  wp (commit_transaction false) (fun _ w' => mem_ok w' /\ journal_ok w' /\ dirty_buffers w' = [] /\
    disk w' !! leaf_at = Some dirty_leaf) dirty_sample.
Proof.
  eapply wp_mono; [apply (commit_transaction_correct false dirty_sample dirty_ready)|]. cbv beta.
  intros _ w' (Hm & Hj & Hd & Hx). split_and!; [done|done|done|]. destruct (Hx leaf_at) as [_ ->]; [exact leaf_apart|reflexivity].
Defined.

(** When the leaf is found changed after a crash, it is the new leaf, and the
    journal has it. *)
Lemma commit_write_ahead_witness :
  wp (commit_transaction false) (fun _ w' => exists L, disk w' = apply_writes L (disk sample) /\
    forall k, let m := apply_writes (take k L) (disk sample) in
      m !! leaf_at <> Some sample_leaf -> in_the_journal dirty_sample m /\ m !! leaf_at = Some dirty_leaf) dirty_sample.
Proof.
  eapply wp_mono; [apply (commit_write_ahead false dirty_sample dirty_ready)|]; [done|by constructor|].
  cbv beta. intros _ w' (L & _ & Hd & Hk). exists L. split; [exact Hd|]. intros k m Hm.
  assert (E : disk dirty_sample !! leaf_at = Some sample_leaf) by reflexivity. rewrite <- E in Hm.
  destruct (Hk k) as [Ho|[Hj Ho]]; [by destruct Hm; apply Ho, leaf_apart|]. split; [exact Hj|].
  destruct (Ho leaf_at leaf_apart) as [?|[_ E2]]; [done|]. etransitivity; [exact E2|reflexivity].
Defined.

(** ** A replay *)

(** The journal has a commit of the root and the leaf; a crash came before they
    were written. *)
Definition two_blocks : block := commit_body sample_sb false (commit_header 2048 1 [root_at; leaf_at]).
Definition crashed : world :=
  sample <| disk := <[20 := sample_root]> (<[24 := dirty_leaf]> (<[28 := two_blocks]> (disk sample))) |>.

Definition is_done {S A} (o : outcome S A) : bool := match o with Done _ _ => true | Halt _ => false end.

(** The replay ends, and the leaf is not restored. *)
Lemma replay_commit_witness :
  match replay_commit 0 2 two_blocks crashed with
  | Done _ w' => disk w' !! leaf_at = Some sample_leaf
  | Halt _ => False
  end.
Proof.
  assert (Hd : is_done (replay_commit 0 2 two_blocks crashed) = true) by (vm_compute; reflexivity).
  destruct (replay_commit 0 2 two_blocks crashed) as [[] w'|h] eqn:E; [|discriminate].
  rewrite (replay_commit_one_sector 0 2 two_blocks crashed w' E leaf_at).
  - rewrite <- sample_leaf_view, sample_view. reflexivity.
  - vm_compute. discriminate.
Defined.
