(* ===== verification/WitnessOrigin.v ===== *)
(** * A write to the origin of the sample store *)

From S2P Require Import Prelude Bytes State Buffer Bitmap Leaf LeafSpec LeafInv LeafView Node Alloc Journal Btree Snapshot Locks Server CacheInv CacheRoom CacheMem BitmapInv AllocInv JournalSpec MetaInv Tree TreeInsert CommitSpec CopyoutSpec Unique LockSpec OriginWrite Sample WitnessServer WitnessUnique WitnessCommit.

(** ** States that can be committed, by evaluation *)

Definition some_b {A} (o : option A) : bool := match o with Some _ => true | None => false end.

Definition idle_b (w : world) (i : Z) : bool :=
  some_b (disk w !! journal_sector (sb w) i) &&
  match bufs w !! journal_sector (sb w) i with Some b => bool_decide (bstate b = BUFFER_INVAL) | None => true end.

Definition ready_b (w : world) : bool :=
  let s := sb w in let i := image s in let n := Z.of_nat (length (dirty_buffers w)) in
  (0 <=? journal_next i) && (journal_next i <? journal_size i) && (0 <=? chunk_sectors_bits (metadata s)) &&
  (journal_size i * 2 ^ chunk_sectors_bits (metadata s) <=? 2 ^ 32) && (0 <=? journal_base i) && (journal_base i <? 2 ^ 63) &&
  forallb (idle_b w) (seqZ 0 (journal_size i)) && (load w + 1 <=? maxb w) &&
  negb (deferring s) && (ar_count (defer s) =? 0) && bool_decide (length (deferred_alloc s) = 0%nat) && bool_decide (journaled_buffers w = []) &&
  (Z.land (runflags s) RUN_SELFCHECK =? 0) && forallb (fun x => some_b (disk w !! x)) (dirty_buffers w) &&
  (n + 1 <=? journal_size i) && (n <=? max_commit_blocks s) && (52 + 8 * max_commit_blocks s <=? allocsize (metadata s)).

Lemma some_b_true {A} (o : option A) : some_b o = true -> is_Some o.
Proof. destruct o; [by eexists|done]. Qed.

Lemma ready_b_true w : mem_ok w -> ready_b w = true -> commit_ready w.
Proof.
  intros Hm Hb. unfold ready_b in Hb. cbv zeta in Hb. rewrite !andb_true_iff in Hb.
  destruct Hb as [[[[[[[[[[[[[[[[B1 B2] B3] B4] B5] B6] B7] B8] B9] B10] B11] B12] B13] B14] B15] B16] B17].
  apply Z.leb_le in B1, B3, B4, B5, B8, B15, B16, B17. apply Z.ltb_lt in B2, B6. apply Z.eqb_eq in B10, B13. apply negb_true_iff in B9.
  apply bool_decide_eq_true in B11, B12. rewrite forallb_forall in B7, B14.
  assert (Hidle : forall i, 0 <= i < journal_size (image (sb w)) -> idle_b w i = true).
  { intros i Hi. apply B7, list_elem_of_In, elem_of_seqZ. lia. }
  constructor; try done.
  - constructor; try done.
    + intros i Hi. specialize (Hidle i Hi). unfold idle_b in Hidle. apply andb_true_iff in Hidle as [? _]. by apply some_b_true.
    + intros i b Hi Hbuf. specialize (Hidle i Hi). unfold idle_b in Hidle. rewrite Hbuf in Hidle.
      apply andb_true_iff in Hidle as [_ Hst]. by apply bool_decide_eq_true in Hst.
  - unfold no_room. lia.
  - split_and!; try done. by destruct (deferred_alloc (sb w)).
  - intros x Hx. by apply some_b_true, B14, list_elem_of_In.
Qed.

(** ** The write *)

(** The state after chunk [c] was made unique and the copies were done *)
Definition after_write (c snapbit : Z) : option world :=
  match make_unique c snapbit sample with
  | Done _ w1 => match finish_copyout w1 with Done _ w2 => Some w2 | Halt _ => None end
  | Halt _ => None
  end.

Lemma after_write_ready c snapbit :
  (c, snapbit) ∈ [(5, -1); (6, 0)] -> from_option ready_b false (after_write c snapbit) = true.
Proof. intros [[= -> ->]|[[= -> ->]|[]%elem_of_nil]%elem_of_cons]%elem_of_cons; vm_compute; reflexivity. Qed.

Lemma sample_enough : enough sample.
Proof.
  pose proof sample_resources as [H1 _ H3 H4 H5 H6]. constructor; try done. apply sample_on_device.
Qed.

Lemma sample_made c snapbit : 0 <= c < 8 -> -1 <= snapbit < 64 ->
  wp (make_unique c snapbit) (fun r w' => exists C' F', made_unique sample sample_entries c snapbit r w' C' F') sample.
Proof.
  intros Hc Hs. apply (make_unique_spec sample sample_entries [root_at; leaf_at] c snapbit sample_store sample_resources).
  - unfold KEY_TOP. lia.
  - done.
  - by apply (sample_present (fun k => 1000 + Z.of_nat k) 8).
  - intros p Hp. by apply elem_of_nil in Hp.
Qed.

Lemma sample_write_ready c snapbit :
  0 <= c < 8 -> -1 <= snapbit < 64 -> from_option ready_b false (after_write c snapbit) = true -> write_ready snapbit [c] sample.
Proof.
  intros Hc Hn Hb. split; [apply sample_enough|]. intros r w1 E1 r2 w2 E2. unfold after_write in Hb.
  rewrite E1, E2 in Hb. apply ready_b_true; [|exact Hb].
  pose proof (sample_made c snapbit Hc Hn) as Hmu. unfold wp in Hmu. rewrite E1 in Hmu. destruct Hmu as (C1 & F1 & Hmu).
  pose proof (finish_store w1 C1 F1 (mu_store _ _ _ _ _ _ _ _ Hmu)) as Hf. unfold wp in Hf. rewrite E2 in Hf.
  destruct Hf as [Hs _]. apply (ss_store _ _ _ _ Hs).
Qed.

Lemma sample_ready c snapbit : (c, snapbit) ∈ [(5, -1); (6, 0)] -> write_ready snapbit [c] sample.
Proof.
  intros Hin. apply sample_write_ready; [..|by apply after_write_ready];
    by apply elem_of_cons in Hin as [[= -> ->]|[[= -> ->]|[]%elem_of_nil]%elem_of_cons].
Qed.

(** A query for one range: chunk 5 *)
Definition write_5 : list Z := [9; 0; 0; 0] ++ [1; 0] ++ [5; 0; 0; 0; 0; 0; 0; 0] ++ [1; 0].

(** Client 8 writes chunk 5, which client 7 reads: the answer has to wait. *)
Lemma query_origin_write_witness :
  wp (query_origin_write 8 31 write_5) (fun _ sv' =>
    (exists C' F', store_ok (sv_world sv') C' F' /\
       forall v, snap_value ((sv_world sv') <| org_data ::= insert 5 v |>) C' 1 5 = Some 1005) /\
    dirty_buffers (sv_world sv') = [] /\ sent sv' = [] /\
    exists p, lock_at sv' 5 = Some ([7], [p; 0]) /\ is_Some (pendings sv' !! p)) busy_server.
Proof.
  eapply wp_mono.
  { apply (query_origin_write_correct 8 31 write_5 busy_server sample_entries [root_at; leaf_at] sample_store);
      change (rw_chunks write_5) with [5]; [reflexivity|exact busy_ok|apply NoDup_singleton|reflexivity| |apply sample_ready; by left].
    constructor; [|constructor]. split; [split; [done|reflexivity]|]. by apply (sample_present (fun k => 1000 + Z.of_nat k) 8). }
  cbv beta zeta. change (rw_chunks write_5) with [5].
  intros _ sv' ((C' & F' & Hst & Hv) & _ & _ & Hd & _ & [[Hno _]|(p & pd & Hs & _ & _ & Hp & _ & _ & Hl)]).
  { specialize (Hno 5 ltac:(by left)). vm_compute in Hno. discriminate Hno. }
  split; [|split; [done|split; [done|]]].
  - exists C', F'. split; [done|]. intros v.
    etransitivity; [apply (Hv (<[5 := v]> (org_data (sv_world sv'))) 1 5); [|lia|reflexivity]|reflexivity]. intros y Hy. rewrite lookup_insert_ne; [done|]. intros <-. apply Hy. by left.
  - exists p. split; [|by eexists]. apply (Hl 5 [7] [0]); [by left|reflexivity].
Defined.
