(* ===== verification/WitnessRead.v ===== *)
(** * A read of a snapshot of the sample store *)

From S2P Require Import Prelude Bytes State Buffer Bitmap Leaf LeafSpec LeafInv LeafView Node Alloc Journal Btree Snapshot Locks Reply Server CacheInv CacheRoom CacheMem BitmapInv AllocInv JournalSpec MetaInv Tree CopyoutSpec Unique ReplySpec LockSpec OriginWrite SnapshotRead Sample WitnessServer WitnessUnique.

(** A query for one range: chunks 5 and 6 *)
Definition read_5_6 : list Z := [9; 0; 0; 0] ++ [1; 0] ++ [5; 0; 0; 0; 0; 0; 0; 0] ++ [2; 0].

(** Client 7 reads snapshot 100, which has chunk 5 in chunk 12 of the store and
    shares chunk 6 with the origin. *)
Lemma query_snapshot_read_witness :
  wp (query_snapshot_read 7 30 read_5_6) (fun _ sv' =>
    sent sv' =
      [(30, mkMessage SNAPSHOT_READ_ORIGIN_OK [9; 0; 0; 0; 1; 0; 6; 0; 0; 0; 0; 0; 0; 0; 1; 0]);
       (30, mkMessage SNAPSHOT_READ_OK [9; 0; 0; 0; 1; 0; 5; 0; 0; 0; 0; 0; 0; 0; 1; 0; 12; 0; 0; 0; 0; 0; 0; 0])] /\
    (exists holds ws, lock_at sv' 6 = Some (holds, ws) /\ 7 ∈ holds) /\ locks_ok sv' None) idle_server.
Proof.
  eapply wp_mono.
  { apply (query_snapshot_read_correct 7 30 read_5_6 idle_server sample_entries [root_at; leaf_at]
             (mkClient 0 30 100 1) 0 (mkSnapshot 1 100 0 0 0 32) sample_store idle_ok sample_on_device);
      [by apply sample_room|reflexivity..|split; [discriminate|reflexivity]| |vm_compute; lia].
    change (rw_chunks read_5_6) with [5; 6]. repeat constructor; discriminate. }
  cbv beta zeta. change (rw_chunks read_5_6) with [5; 6]. change (sn_bit _) with 0.
  intros _ sv' ((m1 & m2 & Hs & Hm1 & Hm2) & Hl & _ & Hlk & _).
  split; [|split; [by apply (Hl 6); [right; left|]|done]].
  change (in_origin sample_entries 0 [5; 6]) with [(6, 0)] in Hm1. change (in_store sample_entries 0 [5; 6]) with [(5, 12)] in Hm2.
  rewrite Hs, Hm1, Hm2. reflexivity.
Defined.
