(* ===== verification/WitnessWrite.v ===== *)
(** * A write to a snapshot of the sample store *)

From S2P Require Import Prelude Bytes State Buffer Bitmap Leaf LeafSpec LeafInv LeafView Node Alloc Journal Btree Snapshot Locks Reply Server CacheInv CacheRoom CacheMem BitmapInv AllocInv JournalSpec MetaInv Tree CommitSpec CopyoutSpec Unique ReplySpec LockSpec OriginWrite SnapshotRead SnapshotWrite Sample WitnessServer WitnessUnique WitnessOrigin.

(** A query for one range: chunk 6 *)
Definition write_6 : list Z := [9; 0; 0; 0] ++ [1; 0] ++ [6; 0; 0; 0; 0; 0; 0; 0] ++ [1; 0].

(** Client 7 writes chunk 6 of snapshot 100, which is shared with the origin: the
    answer names a chunk of the store that snapshot 101 does not read. *)
Lemma query_snapshot_write_witness :
  wp (query_snapshot_write 7 30 write_6) (fun _ sv' => exists C' F' e,
    store_ok (sv_world sv') C' F' /\ sent sv' =
      [(30, mkMessage SNAPSHOT_WRITE_OK ([9; 0; 0; 0; 1; 0; 6; 0; 0; 0; 0; 0; 0; 0; 1; 0] ++ le_split 8 e))] /\
    snap_value (sv_world sv') C' 0 6 = Some 1006 /\
    forall v, snap_value ((sv_world sv') <| snap_data ::= insert e v |>) C' 0 6 = Some v /\
      snap_value ((sv_world sv') <| snap_data ::= insert e v |>) C' 1 6 = Some 1006) idle_server.
Proof.
  eapply wp_mono.
  { apply (query_snapshot_write_correct 7 30 write_6 idle_server sample_entries [root_at; leaf_at]
             (mkClient 0 30 100 1) 0 (mkSnapshot 1 100 0 0 0 32) sample_store); change (rw_chunks write_6) with [6];
      [reflexivity|exact idle_ok|reflexivity..|split; [discriminate|reflexivity]|apply NoDup_singleton|vm_compute; lia| |].
    - constructor; [|constructor]. split; [split; [done|reflexivity]|]. by apply (sample_present (fun k => 1000 + Z.of_nat k) 8).
    - apply sample_ready. right. by left. }
  cbv beta zeta. change (rw_chunks write_6) with [6].
  intros _ sv' (C' & F' & rs & ms & Hst & Hrs & Hsent & Hans & Hv & Hsame & _).
  destruct rs as [|[x e] [|]]; [discriminate|injection Hrs as ->|discriminate]. rewrite Hans in Hsent.
  exists C', F', e. split; [done|]. split; [exact Hsent|]. split; [by rewrite (Hsame 0 6)|]. intros v.
  destruct (Hv (<[e := v]> (snap_data (sv_world sv')))) as [H1 H2].
  { intros y Hy. rewrite lookup_insert_ne; [done|]. intros <-. apply Hy. by left. }
  split.
  - etransitivity; [apply (H1 6 e); by left|]. apply lookup_insert_eq.
  - etransitivity; [apply (H2 1 6); [lia|by left]|reflexivity].
Defined.
