(* ===== verification/WitnessClient.v ===== *)
(** * The theorems on the client at concrete runs *)

From S2P Require Import Prelude Bytes State Buffer Bitmap Leaf LeafSpec LeafInv LeafView Node Alloc Journal Btree Snapshot Locks Reply Server CacheInv CacheRoom CacheMem BitmapInv AllocInv JournalSpec MetaInv Tree CopyoutSpec Unique ReplySpec LockSpec OriginWrite SnapshotRead Client ClientSpec ClientLocks ClientServer ClientWork ClientFlaws ClientIds Sample WitnessServer WitnessUnique.

(** ** The requests of a run *)

Lemma read_40_reachable : reachable 0 1024 7 (after read_40).
Proof. apply after_reachable. vm_compute. by eexists. Qed.

(** The read is at a device, and nowhere else. *)
Lemma client_requests_witness :
  di_accepted (k_info (after read_40)) = [1] /\ di_inflight (k_info (after read_40)) = [1] /\
  [1] ≡ₚ (rq_bio <$> di_queries (k_info (after read_40)) ++ concat (di_pending (k_info (after read_40)))) ++
    [1] ++ di_ended (k_info (after read_40)) ++ di_failed (k_info (after read_40)).
Proof.
  split; [vm_compute; reflexivity|]. split; [vm_compute; reflexivity|].
  exact (proj2 (client_requests_conserved 0 1024 7 (after read_40) read_40_reachable)).
Defined.

Lemma client_locks_witness :
  di_hooks (k_info (after read_40)) !! 0 = Some (mkHook 40 false) /\ 0 ∈ di_locked (k_info (after read_40)) /\ (0 ∉ di_releases (k_info (after read_40))).
Proof.
  assert (Hc : k_control (after read_40) = CRun) by (vm_compute; reflexivity).
  destruct (client_locks_safe 0 1024 7 (after read_40) read_40_reachable Hc) as [_ H].
  apply (H 1 (mkBio READ ORGDEV 40 (Some 0)) 0); [|vm_compute; reflexivity|reflexivity].
  assert (E : di_inflight (k_info (after read_40)) = [1]) by (vm_compute; reflexivity). rewrite E. by left.
Defined.

Lemma client_steps_witness :
  (forall ok, exists r i', worker_step ok WWait (k_info (after read_40)) = Done r i') /\ exists i', end_io 1 (k_info (after read_40)) = Done tt i'.
Proof.
  assert (Hc : k_control (after read_40) = CRun) by (vm_compute; reflexivity).
  assert (Hw : k_worker (after read_40) = WWait) by (vm_compute; reflexivity).
  assert (E : di_inflight (k_info (after read_40)) = [1]) by (vm_compute; reflexivity).
  destruct (client_steps_return 0 1024 7 (after read_40) read_40_reachable Hc) as (H1 & H2 & _). rewrite Hw in H1.
  split; [intros ok; destruct (H1 ok) as [|(b & id & c & n & [=] & _)]; done|].
  apply H2. rewrite E. by left.
Defined.

(** ** A round of the worker: a new query and a release *)

Definition busy_round : list event := read_40 ++ [EEnd 1; EMap 2 READ 80; EWorker true].

Lemma worker_drains_witness :
  wp (worker_run 6 WQueries) (fun pc i' => pc = WLoop /\ di_queries i' = [] /\ di_releases i' = [] /\
    di_to_server i' = di_to_server (k_info (after busy_round)) ++
      [(1, mkMessage QUERY_SNAPSHOT_READ (rw_request1 1 10 1)); (1, mkMessage FINISH_SNAPSHOT_READ (rw_request1 0 5 1))])
    (k_info (after busy_round)).
Proof.
  apply (worker_drains 0 1024 7 (after busy_round) 1);
    [apply after_reachable; vm_compute; by eexists|vm_compute; reflexivity..].
Defined.

(** ** Ids *)

(** Two requests wait for their answers. *)
Definition two_reads : list event :=
  connected 1 ++ work 6 ++ identified ++ [EMap 1 READ 40; EMap 2 READ 80] ++ work 6.

Lemma request_ids_witness :
  let i := k_info (after two_reads) in
  concat (di_pending i) = [mkRequest 0 5 1 1; mkRequest 1 10 1 2] /\
  NoDup (rq_id <$> di_queries i ++ concat (di_pending i)) /\
  exists l, di_pending i !! hash_pending 1 ≫= take_request 1 = Some (mkRequest 1 10 1 2, l).
Proof.
  cbv zeta. assert (Hrun : run_events 0 1024 two_reads (ddsnap_create 7) = Some (after two_reads)) by (vm_compute; reflexivity).
  pose proof (run_events_nsteps _ _ _ _ _ Hrun) as Hn.
  destruct (request_ids_distinct 0 1024 7 (length two_reads) (after two_reads) Hn) as [H1 H2]; [vm_compute; discriminate|].
  assert (E : concat (di_pending (k_info (after two_reads))) = [mkRequest 0 5 1 1; mkRequest 1 10 1 2]) by (vm_compute; reflexivity).
  split; [exact E|]. split; [exact H1|]. apply (H2 (mkRequest 1 10 1 2)). rewrite E. right. by left.
Defined.

(** ** A read that ends in a recovery *)

(** The lock of chunk 5 was uploaded to the new server; it is never released. *)
Lemma ended_read_witness :
  di_to_server (k_info (after read_in_recovery)) !! 4%nat = Some (2, mkMessage UPLOAD_LOCK (rw_request1 0 5 1)) /\
  exists i, worker_step true WUploaded (k_info (after read_in_recovery)) = Done (Some WRequeue) i /\
    forall k', rtc (kstep 0 1024) ((after read_in_recovery) <| k_info := i |> <| k_worker := WRequeue |>) k' -> k_control k' = CRun ->
      (0 ∉ di_releases (k_info k')) /\ (0 ∈ di_locked (k_info k') \/ di_hooks (k_info k') !! 0 = None).
Proof.
  split; [vm_compute; reflexivity|].
  apply (ended_read_not_released 0 1024 7 (after read_in_recovery) true 0 (mkHook 40 true)); try (vm_compute; reflexivity).
  - apply after_reachable. vm_compute. by eexists.
  - assert (E : di_locked (k_info (after read_in_recovery)) = [0]) by (vm_compute; reflexivity). rewrite E. by left.
Defined.

(** After three more steps the worker waits for work, and the lock is still held. *)
Example ended_read_later :
  let k := after (read_in_recovery ++ work 3) in
  k_worker k = WWait /\ worker_ready (k_info k) = true /\ di_inflight (k_info k) = [] /\ di_releases (k_info k) = [] /\ di_locked (k_info k) = [0].
Proof. split_and!; vm_compute; reflexivity. Qed.

(** ** A read that the server answers *)

(** The client of the sample store waits for the answer to a read of sector 21, in
    chunk 5. *)
Definition read_21 : list event :=
  connected 1 ++ work 6 ++ [EIncoming true (Some (mkMessage IDENTIFY_OK [11; 0; 0; 0]))] ++ [EMap 1 READ 21] ++ work 3.

Lemma snapshot_device_read_witness :
  wp (query_snapshot_read 7 30 (rw_request1 0 5 1)) (fun _ sv' => exists m, sent sv' = [(30, m)] /\
    wp (incoming_message (Some 1) true m) (fun _ i' => exists x', di_bios i' !! 1 = Some x' /\ (1 ∈ di_inflight i') /\
      device_value sample (bi_bdev x') (Z.shiftr (bi_sector x') 2) = Some 12) (k_info (after read_21))) idle_server.
Proof.
  assert (Hshift : di_chunkshift (k_info (after read_21)) = 2) by (vm_compute; reflexivity).
  eapply wp_mono.
  { apply (snapshot_device_read idle_server sample_entries [root_at; leaf_at] 7 (mkClient 0 30 100 1) 0 (mkSnapshot 1 100 0 0 0 32)
             (k_info (after read_21)) (mkRequest 0 5 1 1) [] (mkBio READ ORGDEV 21 None) 30 (Some 1) true
             sample_store idle_ok sample_on_device); rewrite ?Hshift; cbn [rq_id rq_chunk rq_chunks rq_bio bi_bdev bi_sector];
      [by apply sample_room|reflexivity|reflexivity|reflexivity|reflexivity|split; [discriminate|reflexivity]|vm_compute; discriminate|
       vm_compute; reflexivity|lia|split; [discriminate|reflexivity]|reflexivity|vm_compute; reflexivity|vm_compute; reflexivity|
       reflexivity|lia|reflexivity|reflexivity]. }
  cbv beta. intros _ sv' (m & Hs & Hm). exists m. split; [exact Hs|]. eapply wp_mono; [exact Hm|]. cbv beta.
  intros _ i' (_ & Hin & x' & Hx & Hv & _). exists x'. split; [exact Hx|]. split; [exact Hin|]. rewrite Hshift in Hv. etransitivity; [exact Hv|reflexivity].
Defined.

(** ** An uploaded lock *)

Lemma uploaded_lock_witness :
  exists m, worker_step true (WUpload [0]) (k_info (after read_40)) =
      Done (Some (WUpload [])) ((k_info (after read_40)) <| di_to_server ::= fun l => l ++ [(1, m)] |>) /\
    rw_chunks (m_body m) = [5] /\ incoming (fun _ => 0) 7 m idle_server = Done 0 idle_server.
Proof.
  assert (Hshift : di_chunkshift (k_info (after read_40)) = 3) by (vm_compute; reflexivity).
  pose proof (uploaded_lock_ignored (fun _ => 0) 0 [] (k_info (after read_40)) 1 40 idle_server 7 (mkClient 0 30 100 1)) as H.
  rewrite Hshift in H. apply H; [vm_compute; reflexivity|vm_compute; reflexivity|reflexivity|split; [discriminate|reflexivity]].
Defined.
