(* ===== verification/WitnessDelete.v ===== *)
(** * Deleting a snapshot from a leaf in the sample store

    Snapshot 0 shares chunk 5 with snapshot 1 and has chunk 6 alone; the leaf is
    in a clean buffer that the caller holds. *)

From S2P Require Import Prelude Bytes State Buffer Bitmap Leaf LeafSpec LeafInv LeafView Alloc Journal Btree CacheInv CacheRoom CacheMem BitmapInv AllocInv MetaInv FreeInv DeleteLeaf DeleteFree DeleteSpec Sample.

Definition shared_entries : aleaf := [(5, [Exc 3 12]); (6, [Exc 1 9])].
Definition shared_leaf : block := leaf_bytes 2048 1 0 0 shared_entries (replicate 1968 0).
Definition shared_sb : superblock := sample_sb <| image ::= fun i => i <| journal_size := 100 |> |>.
Definition shared_world : world :=
  sample <| sb := shared_sb |> <| bufs := {[leaf_at := mkBuffer shared_leaf 1 BUFFER_CLEAN]} |> <| lru_buffers := [leaf_at] |>
         <| disk ::= <[leaf_at := shared_leaf]> |>.

Lemma shared_leaf_rep : leaf_rep shared_leaf shared_entries.
Proof.
  split; [done|]. split.
  - repeat constructor; done.
  - exists 1, 0, 0, (replicate 1968 0). reflexivity.
Qed.

Lemma shared_wf : leaf_wf shared_entries.
Proof. split; [by repeat constructor|]. repeat constructor; done. Qed.

Lemma shared_bitmap_view : view shared_world bitmap_at = Some sample_bitmap.
Proof. unfold view. cbn. rewrite lookup_insert_ne by done. rewrite lookup_empty, lookup_insert_ne by done. by rewrite lookup_insert_eq. Qed.

Lemma shared_mem : mem_ok shared_world.
Proof.
  assert (Hb : forall x b, bufs shared_world !! x = Some b -> x = leaf_at /\ b = mkBuffer shared_leaf 1 BUFFER_CLEAN).
  { intros x b H. change (({[leaf_at := mkBuffer shared_leaf 1 BUFFER_CLEAN]} : gmap Z buffer) !! x = Some b) in H. by apply lookup_singleton_Some in H as [<- <-]. }
  assert (Hd : disk shared_world !! leaf_at = Some shared_leaf) by (cbn; by rewrite lookup_insert_eq).
  constructor.
  - constructor; try (by constructor).
    + apply NoDup_singleton.
    + intros x. change (x ∈ [leaf_at] <-> is_Some (bufs shared_world !! x)). rewrite list_elem_of_singleton. split.
      * intros ->. cbn. rewrite lookup_insert_eq. by eexists.
      * intros [b Hx]. by apply Hb in Hx as [-> _].
    + intros x. change (x ∈ ([] : list Z) <-> exists b, bufs shared_world !! x = Some b /\ bstate b = BUFFER_DIRTY). rewrite elem_of_nil.
      split; [done|]. by intros (b & [_ ->]%Hb & ?).
    + intros x. change (x ∈ ([] : list Z) <-> exists b, bufs shared_world !! x = Some b /\ bstate b = BUFFER_JOURNALED). rewrite elem_of_nil.
      split; [done|]. by intros (b & [_ ->]%Hb & ?).
    + by intros x b [_ ->]%Hb.
    + by intros x b [_ ->]%Hb.
  - constructor; [by intros x b [_ ->]%Hb|constructor|]. intros x d. cbn [disk shared_world].
    change (<[leaf_at := shared_leaf]> (disk sample) !! x = Some d -> length d = 2048%nat). rewrite lookup_insert_Some.
    intros [[_ <-]|[_ H]]; [done|]. exact (sized_disk _ _ (mem_sized _ sample_mem) x d H).
  - intros x b [-> ->]%Hb _. exact Hd.
Qed.

Lemma shared_sector c : in_store shared_sb c -> exc_sector shared_sb c = bitmap_at.
Proof.
  intros Hc. change (0 <= c < 64) in Hc. unfold exc_sector. change (per_block shared_sb) with 16384. by rewrite Z.div_small by lia.
Qed.

Lemma shared_can_free : can_free shared_world leaf_at (free_excs 1 (all_excs shared_entries)) [bitmap_at].
Proof.
  change (free_excs 1 (all_excs shared_entries)) with [9]. change (sb shared_world) with shared_sb. constructor.
  - constructor; [by constructor|intros []; by constructor|done|done].
  - apply NoDup_singleton.
  - repeat constructor; done.
  - repeat constructor. exists sample_bitmap. split; [apply shared_bitmap_view|reflexivity].
  - intros c ->%list_elem_of_singleton. by left.
  - intros c Hc. by rewrite shared_sector.
  - intros x ->%list_elem_of_singleton. exists sample_bitmap. exact shared_bitmap_view.
  - unfold no_room. change (maxb shared_world) with 100. change (load shared_world) with 1. cbn. lia.
  - change (0 + 1 < 90). lia.
Qed.

(** Snapshot 1 keeps chunk 5, chunk 6 is gone and its exception is free. *)
Lemma delete_snapshots_from_leaf_witness :
  wp (delete_snapshots_from_leaf leaf_at 1) (fun any w' => any = true /\
    (exists b' L', view w' leaf_at = Some b' /\ leaf_rep b' L' /\ held L' 5 1 = Some 12 /\ held L' 5 0 = None /\ held L' 6 0 = None) /\
    bit_used (view w') shared_sb SNAPDATA 12 /\ bit_free (view w') shared_sb SNAPDATA 9) shared_world.
Proof.
  eapply wp_mono.
  { apply (delete_snapshots_from_leaf_correct shared_world leaf_at shared_leaf shared_entries 1 [bitmap_at] shared_mem).
    - exists (mkBuffer shared_leaf 1 BUFFER_CLEAN). split; [apply lookup_insert_eq|split; [discriminate|reflexivity]].
    - reflexivity.
    - exact shared_leaf_rep.
    - exact shared_wf.
    - split; [discriminate|reflexivity].
    - apply (NoDup_cons_2 12 [9]); [rewrite list_elem_of_singleton; discriminate|apply NoDup_singleton].
    - split; [discriminate|reflexivity].
    - exact shared_can_free. }
  cbv beta. intros any w' (b' & L' & gone & Hv & Hr & _ & Hh & Ha & _ & Hg & Hb & _).
  assert (H9 : 9 ∈ gone).
  { apply Hg. split; [exists 6, 0; split; [lia|reflexivity]|]. intros (c & n & Hn & H). rewrite Hh in H by lia.
    destruct (Z.testbit 1 n) eqn:E; [discriminate|]. apply held_exc in H as (e & He & Hbit & Hc).
    apply elem_of_cons in He as [->|He]; [discriminate|]. apply list_elem_of_singleton in He as ->. cbn in Hbit. congruence. }
  assert (H12 : 12 ∉ gone).
  { intros H. apply Hg in H as [_ H]. apply H. exists 5, 1. split; [lia|]. rewrite Hh by lia. reflexivity. }
  split; [apply Ha; exists 5, 0; split; [lia|]; split; [reflexivity|discriminate]|]. split.
  { exists b', L'. split; [exact Hv|]. split; [exact Hr|]. rewrite !Hh by lia. split; [reflexivity|]. split; reflexivity. }
  split.
  - apply Hb; [split; [lia|reflexivity]|]. split; [exists sample_bitmap; split; [apply shared_bitmap_view|reflexivity]|exact H12].
  - apply Hb; [split; [lia|reflexivity]|]. right. exact H9.
Defined.

(** The commit that [dirty_buffer_count_check] can start in the middle of a leaf:
    the bitmap that is on the device afterwards has the chunk free, and the leaf
    on the device still has the exception. *)
Definition small_journal : world :=
  shared_world <| sb ::= fun s => s <| image ::= fun i => i <| journal_size := 11 |> <| journal_base := 80 |> |> |>.

Lemma freed_before_leaf_written :
  wp (delete_snapshots_from_leaf leaf_at 1) (fun any w' => any = true /\
    disk w' !! leaf_at = Some shared_leaf /\ (fun d => get_bitmap_bit d 9) <$> disk w' !! bitmap_at = Some false) small_journal.
Proof. vm_compute. split; [|split]; reflexivity. Qed.
