(* ===== verification/Diskio.v ===== *)
(** * Transfers of a whole buffer (diskio.c)

    [fdio] repeats a system call until all bytes have moved.  The results of the
    calls are a list: how many bytes moved, an interruption, or an error. *)

From S2P Require Import Prelude State.

Inductive sysret : Set :=
  | Moved (n : Z)
  | Interrupted
  | Failed (errno : Z).

(** The value returned, and how many bytes have moved; [None] when the last call
    has not returned. *)
Fixpoint fdio (calls : list sysret) (count moved : Z) : option (Z * Z) :=
  if count =? 0 then Some (0, moved)
  else
    match calls with
    | [] => None
    | Interrupted :: rest => fdio rest count moved
    | Failed errno :: rest => Some (- errno, moved)
    | Moved ret :: rest => if ret =? 0 then Some (- EIO, moved) else fdio rest (count - ret) (moved + ret)
    end.

(** Calls on a file or device with [avail] bytes from the position on: each moves
    some of the bytes asked for, and none only at the end. *)
Fixpoint calls_ok (calls : list sysret) (count avail : Z) : Prop :=
  match calls with
  | [] => True
  | Interrupted :: rest => calls_ok rest count avail
  | Failed _ :: rest => False
  | Moved n :: rest => 0 <= n <= Z.min count avail /\ (n = 0 -> count = 0 \/ avail = 0) /\ calls_ok rest (count - n) (avail - n)
  end.

(** The calls that were not interrupted *)
Fixpoint effective (calls : list sysret) : nat :=
  match calls with
  | [] => 0
  | Moved _ :: rest => S (effective rest)
  | _ :: rest => effective rest
  end.

(** However the transfer is cut into calls, it moves all the bytes, or those that
    are there and then fails with [EIO]; it takes at most one call per byte and
    one more. *)
Lemma fdio_moves calls count avail moved :
  0 <= count -> 0 <= avail -> calls_ok calls count avail -> (Z.to_nat (Z.min count avail) < effective calls)%nat ->
  fdio calls count moved =
    Some (if Z.min count avail <? count then - EIO else 0, moved + Z.min count avail).
Proof.
  revert count avail moved. induction calls as [|c calls IH]; intros count avail moved Hc Ha Hok He; [cbn in He; lia|].
  cbn [fdio]. destruct (Z.eqb_spec count 0) as [->|Hc0].
  { rewrite Z.min_l by lia. cbn. by rewrite Z.add_0_r. }
  destruct c as [n| |e]; cbn in Hok.
  - destruct Hok as (Hn & Hn0 & Hok). destruct (Z.eqb_spec n 0) as [->|Hnz].
    + destruct (Hn0 eq_refl) as [Hx | ->]; [done|]. rewrite Z.min_r, (proj2 (Z.ltb_lt _ _)), Z.add_0_r by lia. done.
    + rewrite (IH (count - n) (avail - n)); [|lia|lia|done|].
      * replace (Z.min (count - n) (avail - n)) with (Z.min count avail - n) by lia.
        destruct (Z.ltb_spec (Z.min count avail - n) (count - n)), (Z.ltb_spec (Z.min count avail) count); do 2 f_equal; lia.
      * cbn in He. lia.
  - apply IH; done.
  - done.
Qed.
