(* ===== verification/Delta.v ===== *)
(** * Delta replication (ddsnap.c, delta.c)

    A delta is a sequence of extents, each a header and the new contents of a run
    of changed chunks: as they are, as an xdelta against the old contents, or
    either of them compressed by zlib.  [generate_delta] writes a delta for a
    change list from two snapshot devices, [apply_delta] applies it to a device
    downstream; [replication_send] and [delta_server] are the two ends of a
    transfer over a socket.  zlib and the stream functions of xdelta are
    parameters: the classes [Zlib] and [Xd3]. *)

From S2P Require Import Prelude Bytes State Leaf Changelist.

(** ** Constants and structures *)

Definition MAGIC_NUM : Z := 0xbead0023.
Definition XDELTA : Z := 1.
Definition RAW : Z := 2.
Definition BEST_COMP : Z := 4.
Definition MAX_MEM_SIZE : Z := 2 ^ 20.
Definition ENOENT : Z := 2.
Definition ENOSPC : Z := 28.
Definition EPIPE : Z := 32.
Definition ERANGE : Z := 34.
Definition Z_OK : Z := 0.
Definition Z_STREAM_ERROR : Z := -2.
Definition Z_DATA_ERROR : Z := -3.
Definition Z_MEM_ERROR : Z := -4.
Definition Z_BUF_ERROR : Z := -5.

(** [struct delta_extent_header] *)
Record delta_extent_header := mkDeh {
  de_magic_num : Z;
  de_mode : Z;
  de_gzip_on : Z;
  de_extent_addr : Z;
  de_num_of_chunks : Z;
  de_length : Z;
  de_ext1_chksum : Z;
  de_ext2_chksum : Z }.

#[export] Instance eta_deh : Eta delta_extent_header :=
  fun r => mkDeh (de_magic_num r) (de_mode r) (de_gzip_on r) (de_extent_addr r) (de_num_of_chunks r)
    (de_length r) (de_ext1_chksum r) (de_ext2_chksum r).

(** The packed structure in memory, and what a read of it gives. *)
Definition sizeof_deh : Z := 52.
Definition deh_bytes (d : delta_extent_header) : list Z :=
  le_split 4 (de_magic_num d) ++ le_split 4 (de_mode d) ++ le_split 4 (de_gzip_on d) ++
  le_split 8 (de_extent_addr d) ++ le_split 8 (de_num_of_chunks d) ++ le_split 8 (de_length d) ++
  le_split 8 (de_ext1_chksum d) ++ le_split 8 (de_ext2_chksum d).
Definition deh_of_bytes (b : list Z) : delta_extent_header :=
  mkDeh (ld32 0 b) (ld32 4 b) (ld32 8 b) (ld64 12 b) (ld64 20 b) (ld64 28 b) (ld64 36 b) (ld64 44 b).

(** [struct delta_header] *)
Record delta_header := mkDh {
  dh_magic : list Z;
  dh_chunk_num : Z;
  dh_chunk_size : Z;
  dh_src_snap : Z;
  dh_tgt_snap : Z }.

Definition sizeof_dh : Z := 28.
Definition dh_bytes (d : delta_header) : list Z :=
  dh_magic d ++ le_split 8 (dh_chunk_num d) ++ le_split 4 (dh_chunk_size d) ++ le_split 4 (dh_src_snap d) ++
  le_split 4 (dh_tgt_snap d).
Definition dh_of_bytes (b : list Z) : delta_header :=
  mkDh (slice 0 8 b) (ld64 8 b) (ld32 16 b) (ld32 20 b) (ld32 24 b).

(** "jc" padded to the eight bytes of the field by [strncpy] *)
Definition DELTA_MAGIC : list Z := [0x6a; 0x63; 0; 0; 0; 0; 0; 0].
(** [strncmp(magic, "jc", 8) == 0]: equal up to and including the NUL *)
Definition delta_magic_ok (magic : list Z) : bool := bool_decide (take 3 magic = take 3 DELTA_MAGIC).

(** A [struct change_list] as the code that reads it finds it in memory: a word
    of the array, or [None] outside of it. *)
Record cl_mem := mkCm {
  cm_count : Z;
  cm_bits : Z;
  cm_src_snap : Z;
  cm_tgt_snap : Z;
  cm_word : Z -> option Z }.

(** The array has [cl_length] words, those after the list hold anything. *)
Definition cm_of (stale : Z -> Z) (cl : change_list) : cl_mem :=
  mkCm (cl_count cl) (cl_chunksize_bits cl) (cl_src_snap cl) (cl_tgt_snap cl)
    (fun i => if i <? cl_count cl then cl_chunks cl !! Z.to_nat i
              else if i <? cl_length cl then Some (stale i) else None).

(** A block device: its bytes, and whether its size can be found out. *)
Record blockdev := mkDevice {
  dv_bytes : list Z;
  dv_sized : bool }.

Definition fdsize64 (d : blockdev) : Z := if dv_sized d then Z.of_nat (length (dv_bytes d)) else u64 (-1).

(** ** Libraries *)

(** zlib: [compress2] and [uncompress] with the room in the output buffer, the
    input (and the level) give a code and the output. *)
Class Zlib := {
  compress2 : Z -> list Z -> Z -> Z * list Z;
  uncompress : Z -> list Z -> Z * list Z }.

Definition XD3_INPUT : Z := -17703.
Definition XD3_OUTPUT : Z := -17704.
Definition XD3_GETSRCBLK : Z := -17705.
Definition XD3_GOTHEADER : Z := -17706.
Definition XD3_WINSTART : Z := -17707.
Definition XD3_WINFINISH : Z := -17708.
Definition SUCCESS_DELTA : Z := 0.
Definition UNKNOWN_ERROR : Z := -1.
Definition BUFFER_SIZE_ERROR : Z := -2.

(** The streams of xdelta3: [xd3_next_out] is the [avail_out] bytes at
    [next_out]; [xd3_calls] bounds the calls for a window of the given size. *)
Class Xd3 := {
  xd3_stream : Type;
  xd3_config_stream : Z -> option xd3_stream;
  xd3_set_source : xd3_stream -> list Z -> option xd3_stream;
  xd3_avail_input : xd3_stream -> list Z -> xd3_stream;
  xd3_encode_input : xd3_stream -> Z * xd3_stream;
  xd3_decode_input : xd3_stream -> Z * xd3_stream;
  xd3_next_out : xd3_stream -> list Z;
  xd3_consume_output : xd3_stream -> xd3_stream;
  xd3_calls : Z -> nat }.

(** Memory that nothing was written to: the byte at an offset of a buffer. *)
Class Uninit := uninit : nat -> Z.

Section delta.
Context `{Zlib, Xd3, Uninit}.

(** ** Buffers

    A buffer from [malloc] is the list of the bytes written to its start; the
    bytes after them, up to its size, are [uninit]. *)
Section buffers.
Context {S : Type}.

(** The first [n] bytes of a buffer of [cap] bytes *)
Definition rd (cap : Z) (buf : list Z) (n : Z) : M S (list Z) :=
  if n <=? cap then
    let k := Z.to_nat n in mret (take k buf ++ (uninit <$> seq (length buf) (k - length buf)))
  else halt_with WildAccess.

(** [memcpy(buf, data, n)] *)
Definition wr (cap : Z) (buf data : list Z) : M S (list Z) :=
  if Z.of_nat (length data) <=? cap then mret (data ++ drop (length data) buf) else halt_with WildAccess.

(** [checksum(data, data_length)], the length as a [u32] *)
Definition checksum (cap : Z) (buf : list Z) (data_length : Z) : M S Z :=
  data ← rd cap buf (u32 data_length);
  mret (foldl (fun result x => u64 (result + x)) 0 data).

(** [diskread] into a buffer of [cap] bytes: the error, and the buffer *)
Definition diskread (d : blockdev) (cap : Z) (buf : list Z) (count offset : Z) : M S (Z * list Z) :=
  if count =? 0 then mret (0, buf)
  else if 2 ^ 63 <=? offset then mret (- EINVAL, buf)
  else
    let size := Z.of_nat (length (dv_bytes d)) in
    let n := Z.min count (Z.max 0 (size - offset)) in
    buf' ← wr cap buf (slice (Z.to_nat (Z.min offset size)) (Z.to_nat n) (dv_bytes d));
    mret (if n <? count then - EIO else 0, buf').
End buffers.

(** ** xdelta on two buffers (delta.c) *)

(** The loop of [delta_chunk_helper]: the code and what was put out; [None] when
    the calls of [func] do not end. *)
Fixpoint xd3_loop (fuel : nat) (func : xd3_stream -> Z * xd3_stream) (max_size : Z) (stream : xd3_stream)
    (out : list Z) : option (Z * list Z) :=
  match fuel with
  | O => None
  | S f =>
      let '(ret, stream) := func stream in
      if ret =? XD3_INPUT then Some (UNKNOWN_ERROR, out)
      else if ret =? XD3_OUTPUT then
        let avail := xd3_next_out stream in
        if max_size <? u32 (Z.of_nat (length out) + Z.of_nat (length avail)) then Some (BUFFER_SIZE_ERROR, out)
        else xd3_loop f func max_size (xd3_consume_output stream) (out ++ avail)
      else if (ret =? XD3_GETSRCBLK) || (ret =? XD3_GOTHEADER) || (ret =? XD3_WINSTART) then
        xd3_loop f func max_size stream out
      else if ret =? XD3_WINFINISH then Some (SUCCESS_DELTA, out)
      else Some (UNKNOWN_ERROR, out)
  end.

(** The code and the bytes written to [output], [*output_size] of them *)
Definition delta_chunk_helper (func : xd3_stream -> Z * xd3_stream) (input1 input2 : list Z) (max_size : Z) : option (Z * list Z) :=
  match xd3_config_stream max_size with
  | None => Some (UNKNOWN_ERROR, [])
  | Some stream =>
      match xd3_set_source stream input1 with
      | None => Some (UNKNOWN_ERROR, [])
      | Some stream => xd3_loop (xd3_calls max_size) func max_size (xd3_avail_input stream input2) []
      end
  end.

Section xdelta.
Context {S : Type}.

Definition xd3_run (r : option (Z * list Z)) : M S (Z * list Z) :=
  match r with Some r => mret r | None => halt_with OutOfFuel end.

(** The code, [delta], and [*delta_size] *)
Definition create_delta_chunk (cap1 : Z) (buff1 : list Z) (cap2 : Z) (buff2 : list Z) (capd : Z) (delta : list Z) (buff_size : Z) : M S (Z * list Z * Z) :=
  in1 ← rd cap1 buff1 (u32 buff_size);
  in2 ← rd cap2 buff2 (u32 buff_size);
  '(ret, out) ← xd3_run (delta_chunk_helper xd3_encode_input in1 in2 (u32 buff_size));
  delta ← wr capd delta out;
  mret (ret, delta, Z.of_nat (length out)).

(** The code or the size of the output, and [buff2] *)
Definition apply_delta_chunk (cap1 : Z) (buff1 : list Z) (cap2 : Z) (buff2 : list Z) (capd : Z) (delta : list Z)
    (buff_size delta_size : Z) : M S (Z * list Z) :=
  in1 ← rd cap1 buff1 (u32 buff_size);
  in2 ← rd capd delta (u32 delta_size);
  '(ret, out) ← xd3_run (delta_chunk_helper xd3_decode_input in1 in2 (u32 buff_size));
  buff2 ← wr cap2 buff2 out;
  mret (if ret =? SUCCESS_DELTA then Z.of_nat (length out) else ret, buff2).
End xdelta.

(** ** Making the data of an extent *)

Definition GZIP_MEM_SIZE : Z := MAX_MEM_SIZE + 12 + Z.shiftr MAX_MEM_SIZE 9.

Section encode.
Context {S : Type}.

(** The result of these functions: the error, the header, the output buffer and
    [*output_size]. *)
Definition encoded : Type := Z * delta_extent_header * list Z * Z.

Definition create_raw_delta (deh : delta_extent_header) (cap_in : Z) (input : list Z) (cap_out : Z) (output : list Z)
    (input_size : Z) : M S encoded :=
  data ← rd cap_in input input_size;
  output ← wr cap_out output data;
  mret (0, deh <| de_mode := RAW |> <| de_length := input_size |>, output, input_size).

(** [*(int * )p = n] for a [u64 *p]: the low half is written *)
Definition set_low32 (x n : Z) : Z := Z.shiftl (Z.shiftr x 32) 32 + u32 n.

(** The memory of the test of the delta can be had. *)
Definition create_xdelta_delta (deh : delta_extent_header) (input1 input2 output : list Z) (input_size output_size : Z) : M S encoded :=
  '(ret, output, n) ← create_delta_chunk MAX_MEM_SIZE input1 MAX_MEM_SIZE input2 MAX_MEM_SIZE output input_size;
  let output_size := set_low32 output_size n in
  let deh := deh <| de_mode := XDELTA |> <| de_length := output_size |> in
  if (ret =? BUFFER_SIZE_ERROR) || (output_size =? input_size) then
    create_raw_delta deh MAX_MEM_SIZE input2 MAX_MEM_SIZE output input_size
  else if ret <? 0 then mret (- ERANGE, deh, output, output_size)
  else
    '(ret, delta_test) ← apply_delta_chunk MAX_MEM_SIZE input1 input_size [] MAX_MEM_SIZE output input_size output_size;
    if negb (u64 ret =? input_size) then mret (- ERANGE, deh, output, output_size)
    else
      test ← rd input_size delta_test input_size;
      data ← rd MAX_MEM_SIZE input2 input_size;
      if bool_decide (test = data) then mret (0, deh, output, output_size)
      else create_raw_delta deh MAX_MEM_SIZE input2 MAX_MEM_SIZE output input_size.

Definition gzip_on_delta (deh : delta_extent_header) (input output : list Z) (input_size level : Z) : M S encoded :=
  data ← rd MAX_MEM_SIZE input input_size;
  let '(comp_ret, comp) := compress2 (u64 (input_size + 12 + Z.shiftr input_size 9)) data level in
  output ← wr GZIP_MEM_SIZE output comp;
  let output_size := Z.of_nat (length comp) in
  if comp_ret =? Z_MEM_ERROR then mret (- ENOMEM, deh, output, output_size)
  else if comp_ret =? Z_BUF_ERROR then mret (- ERANGE, deh, output, output_size)
  else if comp_ret =? Z_STREAM_ERROR then mret (- ERANGE, deh, output, output_size)
  else if output_size <? input_size then
    mret (0, deh <| de_gzip_on := 1 |> <| de_length := output_size |>, output, output_size)
  else
    output ← wr GZIP_MEM_SIZE output data;
    mret (0, deh <| de_gzip_on := 0 |> <| de_length := input_size |>, output, input_size).
End encode.

(** ** Extents of a change list *)

Section extents.
Context {S : Type}.

Definition cl_word (cl : cl_mem) (i : Z) : M S Z :=
  match cm_word cl i with Some c => mret c | None => halt_with WildAccess end.

(** The loop of [chunks_in_extent]; a division by 0 ends the process. *)
Fixpoint extent_loop (fuel : nat) (cl : cl_mem) (pos chunk_size start cur num : Z) : M S Z :=
  if negb (cur =? u64 (start + num)) then mret num
  else if chunk_size =? 0 then halt_with Aborted
  else if negb (num <? MAX_MEM_SIZE / chunk_size) then mret num
  else match fuel with
       | O => halt_with OutOfFuel
       | Datatypes.S f =>
           cur ← cl_word cl (u64 (pos + (num + 1)));
           extent_loop f cl pos chunk_size start cur (num + 1)
       end.

Definition chunks_in_extent (cl : cl_mem) (pos chunk_size : Z) : M S Z :=
  start ← cl_word cl pos;
  cur ← cl_word cl (u64 (pos + 1));
  extent_loop (Z.to_nat (MAX_MEM_SIZE / chunk_size)) cl pos chunk_size start cur 1.
End extents.

(** ** Generating a delta *)

(** The variables of [generate_delta_extents] that live over its loop: the
    header, the buffers and their sizes, the counters, and the file that is
    written with the room that is left for it, the readings of the clock to come
    and the lines written to the progress file. *)
Record gen := mkGen {
  g_deh : delta_extent_header;
  g_dev1 : list Z;
  g_dev2 : list Z;
  g_delta : list Z;
  g_gzip : list Z;
  g_dev2_gzip : list Z;
  g_delta_size : Z;
  g_gzip_size : Z;
  g_dev2_gzip_size : Z;
  g_bytes_total : Z;
  g_bytes_sent : Z;
  g_last_update : Z;
  g_out : list Z;
  g_room : Z;
  g_clock : list Z;
  g_progress : list (list Z) }.

#[export] Instance eta_gen : Eta gen :=
  fun r => mkGen (g_deh r) (g_dev1 r) (g_dev2 r) (g_delta r) (g_gzip r) (g_dev2_gzip r) (g_delta_size r)
    (g_gzip_size r) (g_dev2_gzip_size r) (g_bytes_total r) (g_bytes_sent r) (g_last_update r) (g_out r) (g_room r)
    (g_clock r) (g_progress r).

(** The arguments, and the two devices they name; [ga_progress] is whether there
    is a progress file and, then, whether it can be written.  The rate limit only
    makes the process sleep. *)
Record gen_args := mkGenArgs {
  ga_mode : Z;
  ga_level : Z;
  ga_cl : cl_mem;
  ga_fullvolume : bool;
  ga_dev1 : blockdev;
  ga_dev2 : blockdev;
  ga_tgt_snap : Z;
  ga_progress : option bool }.

Definition usec_now : M gen Z := fun s =>
  match g_clock s with [] => Done 0 s | t :: l => Done t (s <| g_clock := l |>) end.

(** [fdwrite] to the delta file *)
Definition gen_write (data : list Z) : M gen Z := fun s =>
  let n := Z.of_nat (length data) in
  if n <=? g_room s then Done 0 (s <| g_out ::= fun o => o ++ data |> <| g_room := g_room s - n |>)
  else Done (- ENOSPC) (s <| g_out ::= fun o => o ++ take (Z.to_nat (g_room s)) data |> <| g_room := 0 |>).

Definition gen_write_progress (ok : bool) (chunk_num chunk_count extent_addr tgt_snap : Z) : M gen Z :=
  if ok then modify (fun s => s <| g_progress ::= fun l => l ++ [[tgt_snap; chunk_num; chunk_count; extent_addr]] |>);; mret 0
  else mret (-1).

(** Address, number of chunks and size of the extent that starts at a position of
    the list, cut at the end of the target volume *)
Definition next_extent (a : gen_args) (tgt_size chunk_num : Z) : M gen (Z * Z * Z) :=
  let cl := ga_cl a in
  let chunk_size := u32 (Z.shiftl 1 (cm_bits cl)) in
  '(extent_addr, num, size) ←
    (if ga_fullvolume a then mret (u64 (chunk_num * chunk_size), 1, chunk_size)
     else
       chunk ← cl_word cl chunk_num;
       num ← (if chunk_num =? u64 (cm_count cl - 1) then mret 1 else chunks_in_extent cl chunk_num chunk_size);
       mret (u64 (Z.shiftl chunk (cm_bits cl)), num, u64 (chunk_size * num)));
  mret (extent_addr, num, if u64 (tgt_size - size) <? extent_addr then u64 (tgt_size - extent_addr) else size).

(** The part of an extent that the source volume has *)
Definition source_extent (src_size extent_addr extent_size : Z) : Z :=
  if u64 (src_size - extent_size) <? extent_addr then u64 (src_size - extent_addr) else extent_size.

(** "read in extents from dev1 & dev2": the buffers and the checksums in the
    header, or an error *)
Definition read_extents (a : gen_args) (src_size extent_addr extent_size : Z) : M gen Z :=
  err ← (if negb (ga_fullvolume a) && (extent_addr <? src_size) then
           s ← get;
           let n := source_extent src_size extent_addr extent_size in
           '(err, buf) ← diskread (ga_dev1 a) MAX_MEM_SIZE (g_dev1 s) n extent_addr;
           modify (set g_dev1 (fun _ => buf));;
           if err <? 0 then mret err
           else
             c ← checksum MAX_MEM_SIZE buf n;
             modify (fun s => s <| g_deh ; de_ext1_chksum := c |>);; mret 0
         else mret 0);
  if err <? 0 then mret err
  else
    s ← get;
    '(err, buf) ← diskread (ga_dev2 a) MAX_MEM_SIZE (g_dev2 s) extent_size extent_addr;
    modify (set g_dev2 (fun _ => buf));;
    if err <? 0 then mret err
    else
      c ← checksum MAX_MEM_SIZE buf extent_size;
      modify (fun s => s <| g_deh ; de_ext2_chksum := c |>);; mret 0.

(** The choice of mode and compression: the header and [gzip_delta] are filled *)
Definition encode_extent (a : gen_args) (src_size extent_addr extent_size : Z) : M gen Z :=
  s ← get;
  if ga_fullvolume a || (u64 (src_size - extent_size) <? extent_addr) then
    let deh := (g_deh s) <| de_length := extent_size |> <| de_mode := RAW |> in
    '(err, deh, buf, n) ← gzip_on_delta deh (g_dev2 s) (g_gzip s) extent_size (ga_level a);
    modify (fun s => s <| g_deh := deh |> <| g_gzip := buf |> <| g_gzip_size := n |>);; mret err
  else
    '(err, deh, buf, n) ←
      (if ga_mode a =? RAW then create_raw_delta (g_deh s) MAX_MEM_SIZE (g_dev2 s) MAX_MEM_SIZE (g_delta s) extent_size
       else create_xdelta_delta (g_deh s) (g_dev1 s) (g_dev2 s) (g_delta s) extent_size (g_delta_size s));
    modify (fun s => s <| g_deh := deh |> <| g_delta := buf |> <| g_delta_size := n |>);;
    if err <? 0 then mret err
    else
      '(err, deh, gz, m) ← gzip_on_delta deh buf (g_gzip s) n (ga_level a);
      modify (fun s => s <| g_deh := deh |> <| g_gzip := gz |> <| g_gzip_size := m |>);;
      if err <? 0 then mret err
      else if negb (ga_mode a =? BEST_COMP) then mret 0
      else
        let deh2 := mkDeh MAGIC_NUM RAW 0 0 0 extent_size 0 0 in
        '(err, deh2, buf2, n2) ← gzip_on_delta deh2 (g_dev2 s) (g_dev2_gzip s) extent_size (ga_level a);
        modify (fun s => s <| g_dev2_gzip := buf2 |> <| g_dev2_gzip_size := n2 |>);;
        if err <? 0 then mret err
        else if n2 <=? m then
          data ← rd GZIP_MEM_SIZE buf2 n2;
          gz ← wr GZIP_MEM_SIZE gz data;
          modify (fun s => s <| g_gzip := gz |>
            <| g_deh ::= fun d => d <| de_mode := de_mode deh2 |> <| de_gzip_on := de_gzip_on deh2 |> <| de_length := de_length deh2 |> |>);;
          mret 0
        else mret 0.

(** The header and the data to the file *)
Definition send_extent : M gen Z :=
  s ← get;
  err ← gen_write (deh_bytes (g_deh s));
  if err <? 0 then mret err
  else
    data ← rd GZIP_MEM_SIZE (g_gzip s) (de_length (g_deh s));
    err ← gen_write data;
    if err <? 0 then mret err
    else modify (fun s => s <| g_bytes_sent ::= fun n => u64 (n + (de_length (g_deh s) + sizeof_deh)) |>);; mret 0.

(** One round of the loop: the next position, or the error to return with *)
Definition generate_extent (a : gen_args) (src_size tgt_size chunk_num : Z) : M gen (Z + Z) :=
  '(extent_addr, num, extent_size) ← next_extent a tgt_size chunk_num;
  modify (fun s => s <| g_bytes_total ::= fun n => u64 (n + extent_size) |>
    <| g_deh ::= fun d => d <| de_gzip_on := 0 |> <| de_extent_addr := extent_addr |> <| de_num_of_chunks := num |> |>);;
  err ← read_extents a src_size extent_addr extent_size;
  if err <? 0 then mret (inr err)
  else
    err ← encode_extent a src_size extent_addr extent_size;
    if err <? 0 then mret (inr err)
    else
      err ← send_extent;
      if err <? 0 then mret (inr err)
      else
        current_time ← usec_now;
        s ← get;
        match ga_progress a with
        | Some ok =>
            if 1000000 <? u64 (current_time - g_last_update s) then
              r ← gen_write_progress ok chunk_num (cm_count (ga_cl a)) extent_addr (ga_tgt_snap a);
              if r <? 0 then mret (inr err)
              else modify (set g_last_update (fun _ => current_time));; mret (inl (u64 (chunk_num + num)))
            else mret (inl (u64 (chunk_num + num)))
        | None => mret (inl (u64 (chunk_num + num)))
        end.

(** The loop; at the end the progress file is written and everything must have
    been sent *)
Definition generate_loop (fuel : nat) (a : gen_args) (src_size tgt_size start_chunk : Z) : M gen Z :=
  loopM fuel (fun chunk_num =>
    if chunk_num <? cm_count (ga_cl a) then generate_extent a src_size tgt_size chunk_num
    else if negb (chunk_num =? cm_count (ga_cl a)) then mret (inr (- ERANGE))
    else match ga_progress a with
         | Some ok =>
             s ← get;
             r ← gen_write_progress ok chunk_num (cm_count (ga_cl a)) (de_extent_addr (g_deh s)) (ga_tgt_snap a);
             mret (inr r)
         | None => mret (inr 0)
         end) start_chunk.

(** [open] of a snapshot device gives [None] when it fails; the memory of the
    buffers can be had. *)
Definition generate_delta_extents (mode level : Z) (cl : cl_mem) (snapdev : Z -> option blockdev) (src_snap tgt_snap : Z)
    (progress : option bool) (start_chunk : Z) : M gen Z :=
  let fullvolume := src_snap =? u32 (-1) in
  match (if fullvolume then Some (mkDevice [] true) else snapdev src_snap), snapdev tgt_snap with
  | Some dev1, Some dev2 =>
      let src_size := if fullvolume then 0 else fdsize64 dev1 in
      let tgt_size := fdsize64 dev2 in
      if negb fullvolume && (src_size =? u64 (-1)) then mret (- ENOMEM)
      else if tgt_size =? u64 (-1) then mret (- ENOMEM)
      else
        _ ← usec_now;
        generate_loop (Datatypes.S (Z.to_nat (cm_count cl - start_chunk)))
          (mkGenArgs mode level cl fullvolume dev1 dev2 tgt_snap progress) src_size tgt_size start_chunk
  | _, _ => mret (- ENOMEM)
  end.

Definition generate_delta (mode level : Z) (cl : cl_mem) (snapdev : Z -> option blockdev) : M gen Z :=
  let dh := mkDh DELTA_MAGIC (cm_count cl) (u32 (Z.shiftl 1 (cm_bits cl))) (cm_src_snap cl) (cm_tgt_snap cl) in
  err ← gen_write (dh_bytes dh);
  if err <? 0 then mret err
  else generate_delta_extents mode level cl snapdev (dh_src_snap dh) (dh_tgt_snap dh) None 0.

(** ** Applying a delta *)

(** The variables of [apply_delta_extents] that live over its loop, the rest of
    the delta file or socket, the target device, the readings of the clock to
    come and the lines written to the progress file. *)
Record app := mkApp {
  a_in : list Z;
  a_dev2 : blockdev;
  a_updated : list Z;
  a_extent : list Z;
  a_delta : list Z;
  a_comp : list Z;
  a_addr : Z;
  a_last_update : Z;
  a_clock : list Z;
  a_progress : list (list Z) }.

#[export] Instance eta_app : Eta app :=
  fun r => mkApp (a_in r) (a_dev2 r) (a_updated r) (a_extent r) (a_delta r) (a_comp r) (a_addr r) (a_last_update r)
    (a_clock r) (a_progress r).

(** The arguments: [aa_dev1] is the source snapshot, [None] for a full volume;
    [aa_fsync] is whether [fsync] of the target succeeds. *)
Record app_args := mkAppArgs {
  aa_chunk_size : Z;
  aa_chunk_count : Z;
  aa_dev1 : option blockdev;
  aa_tgt_snap : Z;
  aa_progress : option bool;
  aa_fsync : bool }.

(** [fdread] of [count] bytes into a buffer of [cap] bytes: the error and the
    buffer *)
Definition app_read (cap : Z) (buf : list Z) (count : Z) : M app (Z * list Z) :=
  s ← get;
  let n := Z.min count (Z.of_nat (length (a_in s))) in
  buf ← wr cap buf (take (Z.to_nat n) (a_in s));
  modify (set a_in (drop (Z.to_nat n)));;
  mret (if n <? count then - EIO else 0, buf).

(** [diskwrite] to the target, a block device *)
Definition app_write (data : list Z) (offset : Z) : M app Z :=
  s ← get;
  let bytes := dv_bytes (a_dev2 s) in
  let size := Z.of_nat (length bytes) in
  let count := Z.of_nat (length data) in
  if count =? 0 then mret 0
  else if 2 ^ 63 <=? offset then mret (- EINVAL)
  else
    let n := Z.min count (Z.max 0 (size - offset)) in
    modify (fun s => s <| a_dev2 ::= fun d => mkDevice (splice (Z.to_nat (Z.min offset size)) (take (Z.to_nat n) data) bytes) (dv_sized d) |>);;
    mret (if n <? count then - ENOSPC else 0).

Definition app_write_progress (ok : bool) (chunk_num chunk_count extent_addr tgt_snap : Z) : M app Z :=
  if ok then modify (fun s => s <| a_progress ::= fun l => l ++ [[tgt_snap; chunk_num; chunk_count; extent_addr]] |>);; mret 0
  else mret (-1).

(** [now()], in seconds *)
Definition now : M app Z := fun s =>
  match a_clock s with [] => Done 0 s | t :: l => Done t (s <| a_clock := l |>) end.

(** "check to see if the checksum of snap0 is the same on upstream and
    downstream": the error, 0 when all is well *)
Definition check_source (a : app_args) (deh : delta_extent_header) (src_size extent_size : Z) : M app Z :=
  match aa_dev1 a with
  | Some dev1 =>
      if de_extent_addr deh <? src_size then
        s ← get;
        let n := source_extent src_size (de_extent_addr deh) extent_size in
        '(err, buf) ← diskread dev1 MAX_MEM_SIZE (a_extent s) n (de_extent_addr deh);
        modify (set a_extent (fun _ => buf));;
        if err <? 0 then mret err
        else
          c ← checksum MAX_MEM_SIZE buf n;
          if negb (de_ext1_chksum deh =? c) then mret (- ERANGE) else mret 0
      else mret 0
  | None => mret 0
  end.

(** The data of the extent into [delta_data]: [inl] its size, or [inr] the value
    of [err] with which the function is left; a failed decompression leaves [err]
    as the read before set it *)
Definition read_delta (deh : delta_extent_header) (extent_size : Z) : M app (Z + Z) :=
  s ← get;
  if de_gzip_on deh =? 1 then
    '(err, comp) ← app_read MAX_MEM_SIZE (a_comp s) (de_length deh);
    modify (set a_comp (fun _ => comp));;
    if err <? 0 then mret (inr err)
    else
      data ← rd MAX_MEM_SIZE comp (de_length deh);
      let '(comp_ret, out) := uncompress extent_size data in
      buf ← wr MAX_MEM_SIZE (a_delta s) out;
      modify (set a_delta (fun _ => buf));;
      if (comp_ret =? Z_MEM_ERROR) || (comp_ret =? Z_BUF_ERROR) || (comp_ret =? Z_DATA_ERROR) then mret (inr err)
      else mret (inl (Z.of_nat (length out)))
  else
    '(err, buf) ← app_read MAX_MEM_SIZE (a_delta s) (de_length deh);
    modify (set a_delta (fun _ => buf));;
    if err <? 0 then mret (inr err) else mret (inl (de_length deh)).

(** The new contents of the extent into [updated] *)
Definition update_extent (a : app_args) (deh : delta_extent_header) (extent_size uncomp_size : Z) : M app Z :=
  s ← get;
  upd ← (if de_mode deh =? RAW then
           data ← rd MAX_MEM_SIZE (a_delta s) extent_size;
           wr MAX_MEM_SIZE (a_updated s) data
         else mret (a_updated s));
  modify (set a_updated (fun _ => upd));;
  match aa_dev1 a with
  | Some _ =>
      if de_mode deh =? XDELTA then
        '(ret, upd) ← apply_delta_chunk MAX_MEM_SIZE (a_extent s) MAX_MEM_SIZE upd MAX_MEM_SIZE (a_delta s) extent_size uncomp_size;
        modify (set a_updated (fun _ => upd));;
        mret (if ret <? 0 then - ERANGE else 0)
      else mret 0
  | None => mret 0
  end.

(** One round of the loop: the next position, or the value returned *)
Definition apply_extent (a : app_args) (src_size tgt_size chunk_num : Z) : M app (Z + Z) :=
  '(err, hd) ← app_read sizeof_deh [] sizeof_deh;
  if err <? 0 then mret (inr err)
  else
    let deh := deh_of_bytes hd in
    if negb (de_magic_num deh =? MAGIC_NUM) then mret (inr (- ERANGE))
    else
      let extent_addr := de_extent_addr deh in
      let size := u64 (de_num_of_chunks deh * aa_chunk_size a) in
      let extent_size := if u64 (tgt_size - size) <? extent_addr then u64 (tgt_size - extent_addr) else size in
      modify (set a_addr (fun _ => extent_addr));;
      err ← check_source a deh src_size extent_size;
      if err <? 0 then mret (inr err)
      else
        r ← read_delta deh extent_size;
        match r with
        | inr err => mret (inr err)
        | inl uncomp_size =>
            err ← update_extent a deh extent_size uncomp_size;
            if err <? 0 then mret (inr err)
            else
              s ← get;
              c ← checksum MAX_MEM_SIZE (a_updated s) extent_size;
              if negb (de_ext2_chksum deh =? c) then mret (inr (- ERANGE))
              else
                data ← rd MAX_MEM_SIZE (a_updated s) extent_size;
                err ← app_write data extent_addr;
                if err <? 0 then mret (inr err)
                else
                  let next := u64 (chunk_num + de_num_of_chunks deh) in
                  match aa_progress a with
                  | Some ok =>
                      current_time ← now;
                      s ← get;
                      if 0 <? s32 (current_time - a_last_update s) then
                        if negb (aa_fsync a) then mret (inr err)
                        else
                          r ← app_write_progress ok chunk_num (aa_chunk_count a) extent_addr (aa_tgt_snap a);
                          if r <? 0 then mret (inr err)
                          else modify (set a_last_update (fun _ => current_time));; mret (inl next)
                      else mret (inl next)
                  | None => mret (inl next)
                  end
        end.

(** Every round reads a header, so the length of the input bounds the rounds.
    [err] is 0 after the last of them, and when there was none. *)
Definition apply_loop (fuel : nat) (a : app_args) (src_size tgt_size : Z) : M app Z :=
  loopM fuel (fun chunk_num =>
    if chunk_num <? aa_chunk_count a then apply_extent a src_size tgt_size chunk_num
    else if negb (aa_fsync a) then mret (inr 0)
    else match aa_progress a with
         | Some ok =>
             s ← get;
             r ← app_write_progress ok chunk_num (aa_chunk_count a) (a_addr s) (aa_tgt_snap a);
             mret (inr r)
         | None => mret (inr 0)
         end) 0.

(** [dev1] is [None] without a source snapshot; the inner [None], and
    [dev2_ok = false], are devices that cannot be opened.  The memory of the
    buffers can be had. *)
Definition apply_delta_extents (chunk_size chunk_count : Z) (dev1 : option (option blockdev)) (dev2_ok : bool)
    (tgt_snap : Z) (progress : option bool) (fsync : bool) : M app Z :=
  match dev1 with
  | Some None => mret (- ENOENT)
  | _ =>
      if negb dev2_ok then mret (- ENOENT)
      else
        let a := mkAppArgs chunk_size chunk_count (mjoin dev1) tgt_snap progress fsync in
        s ← get;
        let src_size := match aa_dev1 a with Some d => fdsize64 d | None => 0 end in
        let tgt_size := fdsize64 (a_dev2 s) in
        if bool_decide (is_Some (aa_dev1 a)) && (src_size =? u64 (-1)) then mret 0
        else if tgt_size =? u64 (-1) then mret 0
        else apply_loop (Datatypes.S (Datatypes.S (length (a_in s)))) a src_size tgt_size
  end.

(** The source snapshot of a delta: none for [~0U] *)
Definition source_device (snapdev : Z -> option blockdev) (src_snap : Z) : option (option blockdev) :=
  if src_snap =? u32 (-1) then None else Some (snapdev src_snap).

Definition apply_delta (snapdev : Z -> option blockdev) (dev2_ok fsync : bool) : M app Z :=
  '(err, b) ← app_read sizeof_dh [] sizeof_dh;
  if err <? 0 then mret (-1)
  else
    let dh := dh_of_bytes b in
    if negb (delta_magic_ok (dh_magic dh)) then mret (-1)
    else if dh_chunk_size dh =? 0 then mret (-1)
    else
      err ← apply_delta_extents (dh_chunk_size dh) (dh_chunk_num dh) (source_device snapdev (dh_src_snap dh)) dev2_ok
        (dh_tgt_snap dh) None fsync;
      mret (if err <? 0 then err else 0).

(** ** A transfer over a socket *)

(** The change list as it comes from the server: an array of exactly its length;
    the word after it is readable and holds anything. *)
Definition streamed_changelist (chunksize_bits src_snap tgt_snap stale : Z) (l : list Z) : option cl_mem :=
  if chunksize_bits =? 0 then None
  else Some (mkCm (Z.of_nat (length l)) chunksize_bits src_snap tgt_snap
    (fun i => if i =? Z.of_nat (length l) then Some stale else if i <? 0 then None else l !! Z.to_nat i)).

(** The list of a full volume has a count and no array; [chunkmask] is
    [~(-1 << chunksize_bits)]. *)
Definition fullvolume_list (chunksize_bits sectors tgt_snap : Z) : cl_mem :=
  let vol_size_bytes := u64 (sectors * 512) in
  let chunkmask := u64 (Z.lnot (Z.shiftl (-1) chunksize_bits)) in
  mkCm (u64 (Z.shiftr vol_size_bytes chunksize_bits + (if Z.land vol_size_bytes chunkmask =? 0 then 0 else 1)))
    chunksize_bits (u32 (-1)) tgt_snap (fun _ => None).

Definition fullvolume_skip (cl : cl_mem) (sectors start_addr : Z) : Z :=
  u64 (cm_count cl - Z.shiftr (u64 (u64 (sectors * 512) - start_addr)) (cm_bits cl)).

(** "find the first chunk that starts after the start_addr" *)
Fixpoint resume_skip {S} (fuel : nat) (cl : cl_mem) (start_addr skip_chunks : Z) : M S Z :=
  match fuel with
  | O => halt_with OutOfFuel
  | Datatypes.S f =>
      if negb (skip_chunks <? cm_count cl) then mret skip_chunks
      else
        c ← cl_word cl skip_chunks;
        if u64 (Z.shiftl c (cm_bits cl)) <? start_addr then resume_skip f cl start_addr (skip_chunks + 1)
        else mret skip_chunks
  end.

(** What the snapshot server upstream answers: the chunk size and the sectors of
    the origin, for a full volume, and the change list for two snapshots *)
Record upstream := mkUpstream {
  up_chunksize_bits : Z;
  up_sectors : Z;
  up_changes : option cl_mem }.

(** The list to send and the number of its chunks to skip *)
Definition replication_plan {S} (up : upstream) (src_snap tgt_snap start_addr : Z) : M S (option (cl_mem * Z)) :=
  if src_snap =? u32 (-1) then
    let cl := fullvolume_list (up_chunksize_bits up) (up_sectors up) tgt_snap in
    mret (Some (cl, fullvolume_skip cl (up_sectors up) start_addr))
  else
    match up_changes up with
    | Some cl =>
        skip ← resume_skip (Datatypes.S (Z.to_nat (cm_count cl))) cl start_addr 0;
        mret (Some (cl, skip))
    | None => mret None
    end.

(** [ddsnap_replication_send]; the file that is written is the socket, where the
    head of the first message (its code and length) is left out; [proceed] and
    [finished] are whether downstream answers [SEND_DELTA_PROCEED] and
    [SEND_DELTA_DONE]. *)
Definition ddsnap_replication_send (up : upstream) (src_snap tgt_snap : Z) (snapdev : Z -> option blockdev) (mode level : Z)
    (progress : option bool) (start_addr : Z) (proceed finished : bool) : M gen Z :=
  plan ← replication_plan up src_snap tgt_snap start_addr;
  match plan with
  | None => mret (- EINVAL)
  | Some (cl, skip_chunks) =>
      err ← gen_write (dh_bytes (mkDh DELTA_MAGIC (u64 (cm_count cl - skip_chunks)) (u32 (Z.shiftl 1 (cm_bits cl))) src_snap tgt_snap));
      if err <? 0 then mret err
      else if negb proceed then mret (- EPIPE)
      else
        err ← generate_delta_extents mode level cl snapdev src_snap tgt_snap progress skip_chunks;
        if err <? 0 then mret err
        else if negb finished then mret (- EPIPE)
        else mret 0
  end.

(** The messages downstream sends *)
Inductive answer : Set := SEND_DELTA_PROCEED | SEND_DELTA_DONE | SEND_DELTA_ERROR.

(** The child process of [ddsnap_delta_server] for a message [SEND_DELTA] of
    which the body is [body] *)
Definition delta_server (body : list Z) (snapdev : Z -> option blockdev) (dev2_ok : bool) (progress : option bool) (fsync : bool) : M app (list answer) :=
  if Z.of_nat (length body) <? sizeof_dh then mret [SEND_DELTA_ERROR]
  else
    let dh := dh_of_bytes body in
    if dh_chunk_size dh =? 0 then mret [SEND_DELTA_ERROR]
    else
      err ← apply_delta_extents (dh_chunk_size dh) (dh_chunk_num dh) (source_device snapdev (dh_src_snap dh)) dev2_ok
        (dh_tgt_snap dh) progress fsync;
      mret (if err <? 0 then [SEND_DELTA_PROCEED; SEND_DELTA_ERROR] else [SEND_DELTA_PROCEED; SEND_DELTA_DONE]).
End delta.
