(* ===== verification/DeltaSpec.v ===== *)
(** * Deltas: the data of an extent

    What zlib and xdelta promise, the headers as bytes, and the encoding of one
    extent: whatever mode and compression is chosen, the header and the data
    decode to the new contents. *)

From S2P Require Import Prelude Bytes State Leaf Changelist Delta.

(** ** What the libraries promise *)

(** zlib: output stays in the room it is given; what was compressed comes back (there
    is memory to decompress it: [uncompress] never gives [Z_MEM_ERROR] for it) *)
Class ZlibLaws `{Zlib} : Prop := {
  compress2_fits room d level : 0 <= room -> Z.of_nat (length (compress2 room d level).2) <= room;
  compress2_codes room d level : (compress2 room d level).1 ∈ [Z_OK; Z_MEM_ERROR; Z_BUF_ERROR; Z_STREAM_ERROR];
  uncompress_compress2 room d level out room' :
    compress2 room d level = (Z_OK, out) -> Z.of_nat (length d) <= room' -> uncompress room' out = (Z_OK, d) }.

(** xdelta: [xd3_calls] calls end the work on a window, and the output of a call
    is smaller than 2^31 bytes.  Nothing is asked of the deltas themselves. *)
Class Xd3Laws `{Xd3} : Prop := {
  xd3_encode_ends w in1 in2 : is_Some (delta_chunk_helper xd3_encode_input in1 in2 w);
  xd3_decode_ends w in1 in2 : is_Some (delta_chunk_helper xd3_decode_input in1 in2 w);
  xd3_avail_out stream : Z.of_nat (length (xd3_next_out stream)) < 2 ^ 31 }.

(** Steps after a call that returned 0 *)
Ltac no_error := cbv beta iota; change (0 <? 0) with false; cbv beta iota; wp_steps.

Section delta_spec.
Context `{Zlib, Xd3, Uninit, !ZlibLaws, !Xd3Laws}.

(** ** Buffers *)

(** The buffer starts with these bytes. *)
Definition holds (buf data : list Z) : Prop := exists rest, buf = data ++ rest.

Lemma holds_wr data buf : holds (data ++ drop (length data) buf) data.
Proof. by eexists. Qed.

Section rules.
Context {S : Type}.
Implicit Types s : S.

Lemma wp_rd cap buf data n (Q : list Z -> S -> Prop) s :
  holds buf data -> n = Z.of_nat (length data) -> n <= cap -> Q data s -> wp (rd cap buf n) Q s.
Proof.
  intros [rest ->] -> Hc HQ. unfold rd. rewrite (proj2 (Z.leb_le _ _)) by done. apply wp_ret.
  rewrite Nat2Z.id, take_app_length, length_app. replace (length data - _)%nat with 0%nat by lia. cbn. by rewrite app_nil_r.
Qed.

Lemma wp_wr cap buf data (Q : list Z -> S -> Prop) s :
  Z.of_nat (length data) <= cap -> (forall buf', holds buf' data -> Q buf' s) -> wp (wr cap buf data) Q s.
Proof. intros Hc HQ. unfold wr. rewrite (proj2 (Z.leb_le _ _)) by done. apply wp_ret, HQ, holds_wr. Qed.

(** The sum of the bytes *)
Definition chksum (data : list Z) : Z := foldl (fun result x => u64 (result + x)) 0 data.

Lemma wp_checksum cap buf data n (Q : Z -> S -> Prop) s :
  holds buf data -> n = Z.of_nat (length data) -> n <= cap -> n < 2 ^ 32 -> Q (chksum data) s -> wp (checksum cap buf n) Q s.
Proof.
  intros Hh Hn Hc Hr HQ. unfold checksum. rewrite u32_id by (unfold is_u32; lia). wp_step.
  eapply wp_rd; [done..|]. by wp_step.
Qed.

(** A read that is inside the device *)
Lemma wp_diskread d cap buf n off (Q : Z * list Z -> S -> Prop) s :
  0 <= n <= cap -> 0 <= off -> off + n <= Z.of_nat (length (dv_bytes d)) -> off < 2 ^ 63 ->
  (forall buf', holds buf' (slice (Z.to_nat off) (Z.to_nat n) (dv_bytes d)) -> Q (0, buf') s) ->
  wp (diskread d cap buf n off) Q s.
Proof.
  intros Hn Ho Hl H63 HQ. unfold diskread. destruct (Z.eqb_spec n 0) as [->|Hn0].
  - apply wp_ret, HQ. by exists buf.
  - rewrite (proj2 (Z.leb_gt _ _)) by done. rewrite (Z.min_l off) by lia. rewrite Z.min_l, Z.ltb_irrefl by lia.
    wp_step. apply wp_wr; [rewrite length_slice; lia|]. intros buf' Hb. wp_step. by apply HQ.
Qed.
End rules.

Lemma chksum_u64 data : is_u64 (chksum data).
Proof.
  unfold chksum. destruct data as [|x l] using rev_ind; [by vm_compute|]. rewrite foldl_app. apply u64_range.
Qed.

(** ** Headers as bytes *)

Record deh_ok (d : delta_extent_header) : Prop := {
  dek_magic : is_u32 (de_magic_num d);
  dek_mode : is_u32 (de_mode d);
  dek_gzip : is_u32 (de_gzip_on d);
  dek_addr : is_u64 (de_extent_addr d);
  dek_num : is_u64 (de_num_of_chunks d);
  dek_length : is_u64 (de_length d);
  dek_ext1 : is_u64 (de_ext1_chksum d);
  dek_ext2 : is_u64 (de_ext2_chksum d) }.

Lemma slice_prefix off n (b rest : list Z) : (off + n <= length b)%nat -> slice off n (b ++ rest) = slice off n b.
Proof. intros Hl. unfold slice. rewrite drop_app_le by lia. apply take_app_le. rewrite length_drop. lia. Qed.

Lemma ld_prefix n off (b rest : list Z) : (off + n <= length b)%nat -> ld n off (b ++ rest) = ld n off b.
Proof. intros Hl. unfold ld. by rewrite slice_prefix. Qed.

Lemma length_deh_bytes d : length (deh_bytes d) = 52%nat.
Proof. unfold deh_bytes. by rewrite !length_app, !length_le_split. Qed.

Lemma deh_roundtrip d : deh_ok d -> deh_of_bytes (deh_bytes d) = d.
Proof.
  intros []. destruct d as [m mo gz ad nu le e1 e2]. cbn in *. unfold deh_of_bytes, deh_bytes. cbn [de_magic_num de_mode de_gzip_on de_extent_addr de_num_of_chunks de_length de_ext1_chksum de_ext2_chksum].
  assert (F : forall n pre v post off, off = length pre -> 0 <= v < 2 ^ (8 * Z.of_nat n) -> ld n off (pre ++ le_split n v ++ post) = v).
  { intros n pre v post off Ho Hv. rewrite ld_app by done. by apply Z.mod_small. }
  f_equal.
  - by apply (F 4%nat []).
  - by apply (F 4%nat (le_split 4 m)).
  - rewrite app_assoc. by apply (F 4%nat (le_split 4 m ++ le_split 4 mo)).
  - rewrite 2!app_assoc. by apply F.
  - rewrite 3!app_assoc. by apply F.
  - rewrite 4!app_assoc. by apply F.
  - rewrite 5!app_assoc. by apply F.
  - rewrite 6!app_assoc. rewrite <- (app_nil_r (le_split 8 e2)). by apply F.
Qed.

Lemma deh_of_prefix d rest : deh_ok d -> deh_of_bytes (deh_bytes d ++ rest) = d.
Proof.
  intros Hok. transitivity (deh_of_bytes (deh_bytes d)); [|by apply deh_roundtrip]. unfold deh_of_bytes.
  by rewrite !ld_prefix by (rewrite length_deh_bytes; lia).
Qed.

Lemma length_dh_bytes d : length (dh_magic d) = 8%nat -> length (dh_bytes d) = 28%nat.
Proof. intros Hm. unfold dh_bytes. by rewrite !length_app, !length_le_split, Hm. Qed.

Lemma dh_roundtrip d :
  length (dh_magic d) = 8%nat -> is_u64 (dh_chunk_num d) -> is_u32 (dh_chunk_size d) -> is_u32 (dh_src_snap d) ->
  is_u32 (dh_tgt_snap d) -> dh_of_bytes (dh_bytes d) = d.
Proof.
  destruct d as [m n c a t]. cbn. intros Hm Hn Hc Ha Ht. unfold dh_of_bytes, dh_bytes. cbn [dh_magic dh_chunk_num dh_chunk_size dh_src_snap dh_tgt_snap].
  f_equal.
  - by apply (slice_app []).
  - rewrite ld_app by done. by apply Z.mod_small.
  - rewrite app_assoc. rewrite ld_app by (rewrite length_app, length_le_split; lia). by apply Z.mod_small.
  - rewrite 2!app_assoc. rewrite ld_app by (rewrite !length_app, !length_le_split; lia). by apply Z.mod_small.
  - rewrite 3!app_assoc. rewrite <- (app_nil_r (le_split 4 t)). rewrite ld_app by (rewrite !length_app, !length_le_split; lia). by apply Z.mod_small.
Qed.

(** ** Encoding an extent *)

(** The output of xdelta stays in the window. *)
Lemma xd3_loop_fits fuel func w stream out r :
  0 <= w < 2 ^ 31 -> Z.of_nat (length out) <= w -> xd3_loop fuel func w stream out = Some r -> Z.of_nat (length r.2) <= w.
Proof.
  intros Hw. revert stream out. induction fuel as [|fuel IH]; intros stream out Ho; cbn; [done|].
  destruct (func stream) as [ret st]. repeat case_match; try (by intros [= <-]); try by apply IH.
  intros Hr. eapply IH; [|exact Hr]. pose proof (xd3_avail_out st). rewrite u32_id in * by (unfold is_u32; lia).
  rewrite length_app. lia.
Qed.

Lemma helper_codes func in1 in2 w r :
  delta_chunk_helper func in1 in2 w = Some r -> r.1 = SUCCESS_DELTA \/ r.1 = UNKNOWN_ERROR \/ r.1 = BUFFER_SIZE_ERROR.
Proof.
  assert (Hloop : forall fuel stream out, xd3_loop fuel func w stream out = Some r ->
    r.1 = SUCCESS_DELTA \/ r.1 = UNKNOWN_ERROR \/ r.1 = BUFFER_SIZE_ERROR).
  { induction fuel as [|fuel IH]; intros stream out; cbn; [done|]. destruct (func stream) as [ret st].
    repeat case_match; eauto; intros [= <-]; cbn; tauto. }
  unfold delta_chunk_helper. repeat case_match; eauto; intros [= <-]; cbn; tauto.
Qed.

Lemma helper_fits func in1 in2 w r :
  0 <= w < 2 ^ 31 -> delta_chunk_helper func in1 in2 w = Some r -> Z.of_nat (length r.2) <= w.
Proof.
  intros Hw. unfold delta_chunk_helper. repeat case_match; try (intros [= <-]; cbn; lia).
  apply xd3_loop_fits; cbn; lia.
Qed.

(** The data decodes to [want]: it is [raw], perhaps compressed, and [raw] is
    [want] or a delta that makes [want] from [src]. *)
Definition unpacks (gzip_on : Z) (n : nat) (data raw : list Z) : Prop :=
  gzip_on = 1 /\ uncompress (Z.of_nat n) data = (Z_OK, raw) \/ gzip_on = 0 /\ data = raw.
Definition yields (mode : Z) (src raw want : list Z) : Prop :=
  mode = RAW /\ raw = want \/
  mode = XDELTA /\ length src = length want /\ delta_chunk_helper xd3_decode_input src raw (Z.of_nat (length want)) = Some (SUCCESS_DELTA, want).

Definition decodes (src : list Z) (d : delta_extent_header) (data want : list Z) : Prop :=
  exists raw, unpacks (de_gzip_on d) (length want) data raw /\ yields (de_mode d) src raw want /\
    (length raw <= length want)%nat /\ de_length d = Z.of_nat (length data) /\ (length data <= length want)%nat.

(** The rest of the header is not touched. *)
Definition same_place (d d' : delta_extent_header) : Prop :=
  de_magic_num d' = de_magic_num d /\ de_extent_addr d' = de_extent_addr d /\ de_num_of_chunks d' = de_num_of_chunks d /\
  de_ext1_chksum d' = de_ext1_chksum d /\ de_ext2_chksum d' = de_ext2_chksum d.

(** The libraries do their work.  zlib compresses what fits into a buffer, at this
    level, into the room that [gzip_on_delta] gives it: 12 bytes and a five hundred
    and twelfth part more than the input has.  The delta of two extents of one size
    is either too long or makes the new contents. *)
Definition zlib_ok (level : Z) : Prop :=
  forall d, let n := Z.of_nat (length d) in n <= MAX_MEM_SIZE -> (compress2 (u64 (n + 12 + Z.shiftr n 9)) d level).1 = Z_OK.
Definition xdelta_ok : Prop :=
  forall in1 in2, length in1 = length in2 -> let n := Z.of_nat (length in2) in n <= MAX_MEM_SIZE ->
    exists out, delta_chunk_helper xd3_encode_input in1 in2 n = Some (BUFFER_SIZE_ERROR, out) \/
      delta_chunk_helper xd3_encode_input in1 in2 n = Some (SUCCESS_DELTA, out) /\
      delta_chunk_helper xd3_decode_input in1 out n = Some (SUCCESS_DELTA, in2).
Definition libs_ok (mode level : Z) : Prop := zlib_ok level /\ (mode = RAW \/ xdelta_ok).

Lemma gzip_room n : 0 <= n <= MAX_MEM_SIZE -> 0 <= u64 (n + 12 + Z.shiftr n 9) <= GZIP_MEM_SIZE.
Proof.
  unfold GZIP_MEM_SIZE, MAX_MEM_SIZE. change (Z.shiftr (2 ^ 20) 9) with 2048. intros Hn.
  rewrite Z.shiftr_div_pow2 by lia. change (2 ^ 9) with 512. change (2 ^ 20) with 1048576 in *.
  assert (0 <= n / 512 <= 2048) by (split; [apply Z.div_pos; lia|apply Z.div_le_upper_bound; lia]).
  rewrite u64_id; [lia|]. unfold is_u64. lia.
Qed.

Section encode_rules.
Context {S : Type}.
Implicit Types s : S.

(** Raw contents *)
Lemma wp_raw deh input output want n (Q : encoded -> S -> Prop) s :
  holds input want -> n = Z.of_nat (length want) -> n <= MAX_MEM_SIZE ->
  (forall out, holds out want -> Q (0, deh <| de_mode := RAW |> <| de_length := n |>, out, n) s) ->
  wp (create_raw_delta deh MAX_MEM_SIZE input MAX_MEM_SIZE output n) Q s.
Proof.
  intros Hh -> Hn HQ. unfold create_raw_delta. wp_step. eapply wp_rd; [done..|]. wp_step.
  apply wp_wr; [done|]. intros out Ho. wp_step. by apply HQ.
Qed.

(** Compression of [raw]: an error, or data that unpacks to it and is not longer *)
Lemma wp_gzip deh input output raw n level limit (Q : encoded -> S -> Prop) s :
  holds input raw -> n = Z.of_nat (length raw) -> n <= MAX_MEM_SIZE -> (length raw <= limit)%nat ->
  (forall e d out m, e < 0 -> ~ zlib_ok level -> Q (e, d, out, m) s) ->
  (forall gz out data, holds out data -> unpacks gz limit data raw -> (length data <= length raw)%nat ->
     Q (0, deh <| de_gzip_on := gz |> <| de_length := Z.of_nat (length data) |>, out, Z.of_nat (length data)) s) ->
  wp (gzip_on_delta deh input output n level) Q s.
Proof.
  intros Hh -> Hn Hl Herr HQ. unfold gzip_on_delta. wp_step. eapply wp_rd; [done..|].
  set (room := u64 _). destruct (compress2 room raw level) as [ret comp] eqn:E.
  pose proof (compress2_fits room raw level) as Hf. pose proof (compress2_codes room raw level) as Hc. rewrite E in Hf, Hc. cbn in Hf, Hc.
  pose proof (gzip_room (Z.of_nat (length raw))) as Hg. fold room in Hg. destruct Hg as [Hg0 Hg]; [lia|].
  assert (Hf' : Z.of_nat (length comp) <= GZIP_MEM_SIZE) by (specialize (Hf Hg0); lia).
  assert (Hbad : ret <> Z_OK -> ~ zlib_ok level).
  { intros Hr Ha. specialize (Ha raw Hn). fold room in Ha. by rewrite E in Ha. }
  wp_step. apply wp_wr; [done|]. intros out Hout.
  destruct (Z.eqb_spec ret Z_MEM_ERROR) as [->|Hr1]; [wp_step; apply Herr; [done|by apply Hbad]|].
  destruct (Z.eqb_spec ret Z_BUF_ERROR) as [->|Hr2]; [wp_step; apply Herr; [done|by apply Hbad]|].
  destruct (Z.eqb_spec ret Z_STREAM_ERROR) as [->|Hr3]; [wp_step; apply Herr; [done|by apply Hbad]|].
  assert (ret = Z_OK) as -> by (revert Hc; rewrite !elem_of_cons, elem_of_nil; tauto).
  destruct (Z.ltb_spec (Z.of_nat (length comp)) (Z.of_nat (length raw))).
  - wp_step. apply HQ; [done| |lia]. left. split; [done|]. eapply uncompress_compress2; [exact E|lia].
  - wp_step. apply wp_wr. { unfold GZIP_MEM_SIZE. change (Z.shiftr MAX_MEM_SIZE 9) with 2048. lia. }
    intros out' Hout'. wp_step. apply HQ; [done| |done]. by right.
Qed.

Lemma set_low32_small x n : 0 <= x < 2 ^ 32 -> 0 <= n < 2 ^ 32 -> set_low32 x n = n.
Proof.
  intros Hx Hn. unfold set_low32. rewrite Z.shiftr_div_pow2, Z.div_small, Z.shiftl_0_l, u32_id by (unfold is_u32; lia). lia.
Qed.

(** The delta of an extent against the old contents, or its raw contents *)
Lemma wp_xdelta deh input1 input2 output src want n osize (Q : encoded -> S -> Prop) s :
  holds input1 src -> holds input2 want -> length src = length want -> n = Z.of_nat (length want) -> n <= MAX_MEM_SIZE ->
  0 <= osize < 2 ^ 32 ->
  (forall e d out m, e < 0 -> ~ xdelta_ok -> 0 <= m < 2 ^ 32 -> Q (e, d, out, m) s) ->
  (forall mode out raw, holds out raw -> yields mode src raw want -> (length raw <= length want)%nat ->
     Q (0, deh <| de_mode := mode |> <| de_length := Z.of_nat (length raw) |>, out, Z.of_nat (length raw)) s) ->
  wp (create_xdelta_delta deh input1 input2 output n osize) Q s.
Proof.
  intros H1' H2' Hl -> Hn Ho Herr HQ. unfold create_xdelta_delta, create_delta_chunk. set (n := Z.of_nat (length want)) in *.
  assert (Hn' : 0 <= n < 2 ^ 31) by (unfold n, MAX_MEM_SIZE in *; lia).
  assert (Hu : u32 n = n) by (apply u32_id; unfold is_u32, n, MAX_MEM_SIZE in *; lia).
  rewrite Hu. do 2 wp_step. eapply wp_rd; [exact H1'|unfold n; lia|done|]. wp_step. eapply wp_rd; [exact H2'|done|done|].
  destruct (xd3_encode_ends n src want) as [[ret out] Ee]. rewrite Ee. cbn [xd3_run]. wp_steps.
  pose proof (helper_fits _ _ _ n _ ltac:(unfold n, MAX_MEM_SIZE in *; lia) Ee) as Hfit. cbn in Hfit.
  apply wp_wr; [lia|]. intros buf Hb. wp_step. rewrite set_low32_small by (unfold n, MAX_MEM_SIZE in *; lia).
  assert (Hraw : forall d buf, (exists m l, d = deh <| de_mode := m |> <| de_length := l |>) ->
    wp (create_raw_delta d MAX_MEM_SIZE input2 MAX_MEM_SIZE buf n) Q s).
  { intros d b (m & l & ->). eapply wp_raw; [done..|]. intros out' Ho'. apply (HQ RAW out' want); [done| |done]. by left. }
  destruct ((_ || _) : bool) eqn:Eb; [apply Hraw; eauto|]. apply orb_false_iff in Eb as [Eb1 Eb2].
  apply Z.eqb_neq in Eb1, Eb2.
  destruct (Z.ltb_spec ret 0) as [Hneg|Hpos].
  { wp_step. apply Herr; [done| |lia]. intros Hlib. destruct (Hlib src want Hl Hn) as (o & [E|[E _]]); fold n in E; simplify_eq. }
  unfold apply_delta_chunk. rewrite Hu. do 2 wp_step. eapply wp_rd; [exact H1'|unfold n; lia|done|]. wp_step.
  rewrite u32_id by (unfold is_u32, n, MAX_MEM_SIZE in *; lia). eapply wp_rd; [exact Hb|done|lia|].
  destruct (xd3_decode_ends n src out) as [[ret2 test] Ed]. rewrite Ed. cbn [xd3_run]. wp_steps.
  pose proof (helper_fits _ _ _ n _ ltac:(unfold n, MAX_MEM_SIZE in *; lia) Ed) as Hfit2. cbn in Hfit2.
  apply wp_wr; [lia|]. intros buf2 Hb2. wp_step.
  destruct (negb _) eqn:Es.
  { wp_step. apply Herr; [done| |lia]. intros Hlib. destruct (Hlib src want Hl Hn) as (o & [E|[E E2]]); fold n in E; rewrite Ee in E; injection E as E0 E1; [done|].
    fold n in E2. rewrite <- E1, Ed in E2. injection E2 as E2 E3. subst ret2 test.
    rewrite Z.eqb_refl in Es. fold n in Es. by rewrite u64_id, Z.eqb_refl in Es by (unfold is_u64; lia). }
  apply negb_false_iff, Z.eqb_eq in Es.
  assert (ret2 = SUCCESS_DELTA) as ->.
  { destruct (Z.eqb_spec ret2 SUCCESS_DELTA); [done|]. exfalso.
    destruct (helper_codes _ _ _ _ _ Ed) as [E|[E|E]]; cbn in E; [done|rewrite E in Es..]; unfold UNKNOWN_ERROR, BUFFER_SIZE_ERROR, u64 in Es.
    - change (-1 mod 2 ^ 64) with (2 ^ 64 - 1) in Es. lia.
    - change (-2 mod 2 ^ 64) with (2 ^ 64 - 2) in Es. lia. }
  rewrite Z.eqb_refl in Es. rewrite u64_id in Es by (unfold is_u64, n, MAX_MEM_SIZE in *; lia).
  wp_step. eapply wp_rd; [exact Hb2|done|done|]. wp_step. eapply wp_rd; [exact H2'|done|done|].
  case_bool_decide as Heq; [|apply Hraw; eauto]. subst test. wp_step. apply (HQ XDELTA buf out); [done| |lia]. right. by fold n.
Qed.
End encode_rules.
End delta_spec.
