(* ===== verification/DeltaGen.v ===== *)
(** * Deltas: generation

    The extents of a change list cover its chunks in order, and what is written
    for each of them is a header and data that decode to the contents of the
    target snapshot. *)

From S2P Require Import Prelude Bytes State Leaf Changelist Delta DeltaSpec.

(** ** Volumes and extents *)

(** The size of a chunk *)
Definition csize (bits : Z) : Z := 2 ^ bits.
Definition zlen (l : list Z) : Z := Z.of_nat (length l).

(** The volumes of a delta: chunks are not larger than the buffers; the target is
    a whole number of chunks, or at least as large as the largest extent, and the
    source, if there is one, not smaller than one extent. *)
Record volumes_ok (bits : Z) (src : option (list Z)) (tgt : list Z) : Prop := {
  vo_bits : 0 <= bits <= 20;
  vo_size : zlen tgt < 2 ^ 62;
  vo_whole : (csize bits | zlen tgt) \/ MAX_MEM_SIZE <= zlen tgt \/ src = None /\ csize bits <= zlen tgt;
  vo_src s : src = Some s -> Z.min MAX_MEM_SIZE (zlen tgt) <= zlen s < 2 ^ 62 }.

(** The extent of [num] chunks from chunk [c] is not larger than a buffer and the
    volume of [size] bytes, and starts each of its chunks inside the volume. *)
Record extent_in (bits size c num : Z) : Prop := {
  ei_chunk : 0 <= c;
  ei_num : 1 <= num;
  ei_mem : num * csize bits <= MAX_MEM_SIZE;
  ei_fits : num * csize bits <= size;
  ei_last : (c + num - 1) * csize bits < size }.

(** Its size, cut at the end of the volume *)
Definition ext_size (bits size c num : Z) : Z := Z.min (num * csize bits) (size - c * csize bits).
(** Some bytes of a volume *)
Definition bytes_at (addr n : Z) (l : list Z) : list Z := slice (Z.to_nat addr) (Z.to_nat n) l.

Lemma length_bytes_at addr n l : 0 <= addr -> 0 <= n -> addr + n <= zlen l -> zlen (bytes_at addr n l) = n.
Proof. unfold zlen, bytes_at. intros. rewrite length_slice by lia. lia. Qed.

Section gen_spec.
Context `{Zlib, Xd3, Uninit, !ZlibLaws, !Xd3Laws}.
Context (bits : Z) (src : option (list Z)) (tgt : list Z) (Hvol : volumes_ok bits src tgt).

Lemma csize_pos : 1 <= csize bits <= MAX_MEM_SIZE.
Proof using Hvol.
  clear -Hvol. destruct Hvol as [Hb _ _ _]. unfold csize, MAX_MEM_SIZE. split.
  - pose proof (Z.pow_pos_nonneg 2 bits). lia.
  - apply Z.pow_le_mono_r; lia.
Qed.

Lemma csize_u32 : u32 (Z.shiftl 1 bits) = csize bits.
Proof using Hvol.
  pose proof csize_pos. unfold csize, MAX_MEM_SIZE in *. rewrite Z.shiftl_1_l. apply u32_id. unfold is_u32. lia.
Qed.

Lemma src_case : src = None \/ exists s, src = Some s.
Proof. destruct src; eauto. Qed.

(** The sizes of an extent as the code computes them *)
Lemma ext_cut c num :
  extent_in bits (zlen tgt) c num ->
  (if u64 (zlen tgt - num * csize bits) <? c * csize bits then u64 (zlen tgt - c * csize bits) else num * csize bits)
  = ext_size bits (zlen tgt) c num /\
  0 < ext_size bits (zlen tgt) c num /\ c * csize bits + ext_size bits (zlen tgt) c num <= zlen tgt /\
  ext_size bits (zlen tgt) c num <= MAX_MEM_SIZE.
Proof using Hvol.
  intros [Hc Hn Hm Hf Hl]. pose proof csize_pos as Hp. pose proof (vo_size _ _ _ Hvol) as Hs. unfold ext_size.
  set (cs := csize bits) in *. assert (0 <= c * cs) by nia. assert (0 < num * cs) by nia.
  assert (Hlt : c * cs < zlen tgt) by nia. unfold MAX_MEM_SIZE in *. split; [|lia].
  rewrite u64_id by (unfold is_u64; lia). destruct (Z.ltb_spec (zlen tgt - num * cs) (c * cs)); [|lia].
  rewrite u64_id by (unfold is_u64; lia). lia.
Qed.

Lemma source_cut s c num :
  src = Some s -> extent_in bits (zlen tgt) c num ->
  (u64 (zlen s - ext_size bits (zlen tgt) c num) <? c * csize bits) =
    (zlen s <? c * csize bits + ext_size bits (zlen tgt) c num) /\
  (c * csize bits < zlen s -> source_extent (zlen s) (c * csize bits) (ext_size bits (zlen tgt) c num) =
    Z.min (ext_size bits (zlen tgt) c num) (zlen s - c * csize bits)).
Proof using Hvol.
  intros Hs He. destruct (ext_cut c num He) as (_ & Hpos & Hend & Hmem). destruct He as [Hc _ _ _ _].
  pose proof csize_pos as Hp. pose proof (vo_src _ _ _ Hvol s Hs). unfold source_extent. set (n := ext_size _ _ _ _) in *.
  set (cs := csize bits) in *. assert (0 <= c * cs) by nia. rewrite (u64_id (zlen s - n)) by (unfold is_u64; lia).
  split.
  - destruct (Z.ltb_spec (zlen s - n) (c * cs)), (Z.ltb_spec (zlen s) (c * cs + n)); lia.
  - intros Hlt. destruct (Z.ltb_spec (zlen s - n) (c * cs)); [|lia]. rewrite u64_id by (unfold is_u64; lia). lia.
Qed.

(** ** One extent *)

(** The header and the data of the extent, as they are in the file *)
Record extent_sent (c num : Z) (d : delta_extent_header) (data : list Z) : Prop := {
  es_in : extent_in bits (zlen tgt) c num;
  es_header : deh_ok d;
  es_magic : de_magic_num d = MAGIC_NUM;
  es_addr : de_extent_addr d = c * csize bits;
  es_num : de_num_of_chunks d = num;
  es_source s : src = Some s -> c * csize bits < zlen s ->
    de_ext1_chksum d = chksum (bytes_at (c * csize bits) (Z.min (ext_size bits (zlen tgt) c num) (zlen s - c * csize bits)) s);
  es_target : de_ext2_chksum d = chksum (bytes_at (c * csize bits) (ext_size bits (zlen tgt) c num) tgt);
  es_data : exists old, decodes old d data (bytes_at (c * csize bits) (ext_size bits (zlen tgt) c num) tgt) /\
    (de_mode d = XDELTA -> exists s, src = Some s /\ c * csize bits + ext_size bits (zlen tgt) c num <= zlen s /\
       old = bytes_at (c * csize bits) (ext_size bits (zlen tgt) c num) s) }.

(** The arguments of a run for these volumes *)
Record args_ok (a : gen_args) (src_size : Z) : Prop := {
  ao_full : ga_fullvolume a = bool_decide (src = None);
  ao_src s : src = Some s -> dv_bytes (ga_dev1 a) = s /\ src_size = zlen s;
  ao_tgt : dv_bytes (ga_dev2 a) = tgt;
  ao_bits : cm_bits (ga_cl a) = bits }.

(** The state between two extents *)
Record gen_ok (g : gen) : Prop := {
  go_magic : de_magic_num (g_deh g) = MAGIC_NUM;
  go_ext1 : is_u64 (de_ext1_chksum (g_deh g));
  go_size : 0 <= g_delta_size g < 2 ^ 32 }.

Section run.
Context (a : gen_args) (src_size : Z) (Hargs : args_ok a src_size).
Context (c num : Z) (Hext : extent_in bits (zlen tgt) c num).

Abbreviation addr := (c * csize bits).
Abbreviation size := (ext_size bits (zlen tgt) c num).
Abbreviation want := (bytes_at addr size tgt).

Lemma want_length : zlen want = size.
Proof using Hvol Hext.
  destruct (ext_cut c num Hext) as (_ & H1' & H2' & _). destruct Hext. pose proof csize_pos.
  apply length_bytes_at; [nia|lia|done].
Qed.

Lemma addr_range : 0 <= addr < 2 ^ 62.
Proof using Hvol Hext.
  destruct (ext_cut c num Hext) as (_ & H1' & H2' & _). destruct Hext. pose proof csize_pos. pose proof (vo_size _ _ _ Hvol). nia.
Qed.

(** What the source buffer holds and the checksum says, after reading *)
Definition source_read (g : gen) : Prop :=
  forall s, src = Some s -> addr < zlen s ->
    let old := bytes_at addr (Z.min size (zlen s - addr)) s in
    holds (g_dev1 g) old /\ de_ext1_chksum (g_deh g) = chksum old.

Lemma read_extents_spec g :
  gen_ok g ->
  wp (read_extents a src_size addr size) (fun e g' => e = 0 /\ source_read g' /\ holds (g_dev2 g') want /\
    gen_ok g' /\ (g_out g' = g_out g /\ g_room g' = g_room g) /\ de_ext2_chksum (g_deh g') = chksum want /\
    de_extent_addr (g_deh g') = de_extent_addr (g_deh g) /\ de_num_of_chunks (g_deh g') = de_num_of_chunks (g_deh g) /\
    de_gzip_on (g_deh g') = de_gzip_on (g_deh g)) g.
Proof using Hvol Hargs Hext.
  intros [G1 G2 G3]. destruct (ext_cut c num Hext) as (_ & Hpos & Hend & Hmem). pose proof addr_range as Ha.
  destruct Hargs as [Hf Hs Ht _]. pose proof want_length as Hw. unfold read_extents. wp_step.
  apply (wp_mono _ (fun e g' => e = 0 /\ source_read g' /\ gen_ok g' /\ (g_out g' = g_out g /\ g_room g' = g_room g) /\
    de_extent_addr (g_deh g') = de_extent_addr (g_deh g) /\ de_num_of_chunks (g_deh g') = de_num_of_chunks (g_deh g) /\
    de_gzip_on (g_deh g') = de_gzip_on (g_deh g))).
  - rewrite Hf. destruct src_case as [Es|[s Es]].
    { rewrite bool_decide_eq_true_2 by done. cbn. split; [done|]. split; [intros s' E; by rewrite Es in E|]. done. }
    rewrite bool_decide_eq_false_2 by (by rewrite Es). destruct (Hs s Es) as [Hd ->]. cbn [negb andb].
    destruct (Z.ltb_spec addr (zlen s)) as [Hlt|Hge].
    2:{ wp_step. split; [done|]. split; [intros s' E; rewrite Es in E; injection E as <-; lia|]. done. }
    rewrite (proj2 (source_cut s c num Es Hext) Hlt). wp_steps.
    apply wp_diskread; [unfold MAX_MEM_SIZE in *; lia|lia| |lia|].
    { rewrite Hd. unfold zlen in *. lia. }
    intros buf Hb. rewrite Hd in Hb. no_error. fold (bytes_at addr (Z.min size (zlen s - addr)) s) in Hb.
    wp_steps. no_error. eapply wp_checksum; [exact Hb| | | |].
    + symmetry. apply length_bytes_at; lia.
    + lia.
    + unfold MAX_MEM_SIZE in *. lia.
    + wp_steps. split; [done|]. split; [intros s' E; rewrite Es in E; by injection E as <-|].
      split; [constructor; [done|apply chksum_u64|done]|done].
  - cbv beta. intros e g1 (-> & Hsr & [K1 K2 K3] & E1 & E2 & E3 & E4). no_error.
    apply wp_diskread; [lia|lia|rewrite Ht; unfold zlen in *; lia|lia|]. intros buf Hb. rewrite Ht in Hb. fold want in Hb.
    wp_steps. no_error. eapply wp_checksum; [exact Hb|by symmetry|done|unfold MAX_MEM_SIZE in *; lia|].
    wp_steps. split; [done|]. split; [exact Hsr|]. done.
Qed.

(** The old contents that a delta is made from *)
Definition old_of (d : delta_extent_header) (old : list Z) : Prop :=
  de_mode d = XDELTA -> exists s, src = Some s /\ addr + size <= zlen s /\ old = bytes_at addr size s.

Definition extent_encoded (g g' : gen) : Prop :=
  exists old data, holds (g_gzip g') data /\ decodes old (g_deh g') data want /\ old_of (g_deh g') old /\
    gen_ok g' /\ same_place (g_deh g) (g_deh g') /\ g_out g' = g_out g /\ g_room g' = g_room g.

(** Compressed raw contents *)
Lemma raw_decodes old gz data d :
  unpacks gz (length want) data want -> (length data <= length want)%nat ->
  decodes old (d <| de_mode := RAW |> <| de_gzip_on := gz |> <| de_length := Z.of_nat (length data) |>) data want.
Proof. intros Hu Hd. exists want. split; [done|]. split; [by left|]. done. Qed.

Lemma encode_extent_spec g :
  gen_ok g -> source_read g -> holds (g_dev2 g) want ->
  wp (encode_extent a src_size addr size) (fun e g' => e < 0 /\ ~ libs_ok (ga_mode a) (ga_level a) \/ e = 0 /\ extent_encoded g g') g.
Proof using All.
  intros [G1 G2 G3] Hsr Hw2. destruct (ext_cut c num Hext) as (_ & Hpos & Hend & Hmem). pose proof addr_range as Ha.
  pose proof want_length as Hw. destruct Hargs as [Hf Hs Ht _]. unfold encode_extent. wp_steps.
  assert (Hlw : size = Z.of_nat (length want)) by (symmetry; exact Hw).
  destruct ((_ || _) : bool) eqn:Eraw.
  { wp_step. eapply (wp_gzip _ _ _ want _ _ (length want)); [exact Hw2|exact Hlw|exact Hmem|done| |].
    - intros e d out m He Hbad. wp_steps. left. split; [done|]. intros [Hz _]. by apply Hbad.
    - intros gz out data Ho Hu Hd. wp_steps. right. split; [done|]. exists [], data. split; [exact Ho|].
      split; [by apply (raw_decodes [] gz data (g_deh g))|]. split; [done|]. done. }
  apply orb_false_iff in Eraw as [Efull Esrc]. rewrite Hf in Efull. apply bool_decide_eq_false in Efull.
  destruct src_case as [|[s Es]]; [done|]. destruct (Hs s Es) as [Hd1 ->].
  rewrite (proj1 (source_cut s c num Es Hext)) in Esrc. apply Z.ltb_ge in Esrc.
  destruct (Hsr s Es) as [Hold _]; [lia|]. rewrite Z.min_l in Hold by lia. set (old := bytes_at addr size s) in *.
  assert (Hlo : length old = length want).
  { apply Nat2Z.inj. rewrite <- Hlw. apply length_bytes_at; lia. }
  wp_step.
  apply (wp_mono _ (fun '(e, d, out, m) g' => g' = g /\ 0 <= m < 2 ^ 32 /\ (e < 0 /\ ~ libs_ok (ga_mode a) (ga_level a) \/
    e = 0 /\ exists mode raw, d = (g_deh g) <| de_mode := mode |> <| de_length := m |> /\ m = Z.of_nat (length raw) /\
      holds out raw /\ yields mode old raw want /\ (length raw <= length want)%nat))).
  { destruct (Z.eqb_spec (ga_mode a) RAW) as [Er|Er].
    - eapply wp_raw; [exact Hw2|exact Hlw|exact Hmem|]. intros out Ho. split; [done|]. unfold MAX_MEM_SIZE in *. split; [lia|]. right. split; [done|].
      exists RAW, want. split; [done|]. split; [done|]. split; [done|]. split; [by left|done].
    - eapply (wp_xdelta _ _ _ _ old want); [exact Hold|exact Hw2|exact Hlo|exact Hlw|exact Hmem|exact G3| |].
      + intros e d out m He Hbad Hm. split; [done|]. split; [done|]. left. split; [done|]. intros [Hz [|Hx]]; [done|]. by apply Hbad.
      + intros mode out raw Ho Hy Hr. split; [done|]. unfold MAX_MEM_SIZE in *. split; [lia|]. right. split; [done|]. eauto 10. }
  cbv beta. intros [[[e d] out] m] g1 (-> & Hm & Hcase). wp_steps.
  destruct Hcase as [[He Hbad]|(-> & mode & raw & -> & -> & Ho & Hy & Hr)].
  { rewrite (proj2 (Z.ltb_lt _ _)) by done. wp_step. by left. }
  no_error. eapply (wp_gzip _ _ _ raw _ _ (length want)); [exact Ho|done|lia|exact Hr| |].
  { intros e d out' m' He Hbad. wp_steps. rewrite (proj2 (Z.ltb_lt _ _)) by done. wp_step. left. split; [done|]. intros [Hz _]. by apply Hbad. }
  intros gz out' data Ho' Hu Hd. no_error.
  assert (Hdec : decodes old (((g_deh g) <| de_mode := mode |> <| de_length := Z.of_nat (length raw) |>) <| de_gzip_on := gz |> <| de_length := Z.of_nat (length data) |>) data want).
  { exists raw. split; [done|]. split; [done|]. split; [done|]. split; [done|]. lia. }
  assert (Holdof : forall d, old_of d old) by (intros d _; eauto).
  destruct (negb (ga_mode a =? BEST_COMP)).
  { wp_step. right. split; [done|]. exists old, data. done. }
  wp_step. eapply (wp_gzip _ _ _ want _ _ (length want)); [exact Hw2|exact Hlw|exact Hmem|done| |].
  { intros e d out2 m' He Hbad. wp_steps. rewrite (proj2 (Z.ltb_lt _ _)) by done. wp_step. left. split; [done|]. intros [Hz _]. by apply Hbad. }
  intros gz2 out2 data2 Ho2 Hu2 Hd2. no_error. destruct (_ <=? _).
  - wp_step. eapply wp_rd; [exact Ho2|done| |].
    { unfold GZIP_MEM_SIZE. change (Z.shiftr MAX_MEM_SIZE 9) with 2048. lia. }
    wp_step. apply wp_wr. { unfold GZIP_MEM_SIZE. change (Z.shiftr MAX_MEM_SIZE 9) with 2048. lia. }
    intros out3 Ho3. wp_steps. right. split; [done|]. exists old, data2. split; [exact Ho3|].
    split; [|done]. exists want. split; [done|]. split; [by left|]. done.
  - wp_step. right. split; [done|]. exists old, data. done.
Qed.

Lemma wp_write data (Q : Z -> gen -> Prop) g :
  (forall g', g' = g <| g_out ::= fun o => o ++ data |> <| g_room := g_room g - zlen data |> -> Q 0 g') ->
  (forall g', g_room g < zlen data -> Q (- ENOSPC) g') -> wp (gen_write data) Q g.
Proof. intros H1' H2'. unfold wp, gen_write. destruct (Z.leb_spec (Z.of_nat (length data)) (g_room g)); eauto. Qed.

Lemma send_extent_spec g data :
  holds (g_gzip g) data -> de_length (g_deh g) = zlen data -> zlen data <= MAX_MEM_SIZE -> gen_ok g ->
  wp send_extent (fun e g' => e = - ENOSPC /\ g_room g < sizeof_deh + zlen data \/
    e = 0 /\ gen_ok g' /\ g_deh g' = g_deh g /\ g_out g' = g_out g ++ deh_bytes (g_deh g) ++ data /\
    g_room g' = g_room g - (sizeof_deh + zlen data)) g.
Proof.
  intros Hh Hl Hm [G1 G2 G3]. assert (Hd : zlen (deh_bytes (g_deh g)) = sizeof_deh) by (unfold zlen; by rewrite length_deh_bytes).
  unfold send_extent. wp_steps. apply wp_write.
  2:{ intros g' Hr. change (- ENOSPC <? 0) with true. left. split; [done|]. unfold zlen in *. lia. }
  intros g1 ->. no_error. rewrite Hl. eapply wp_rd; [exact Hh|done| |].
  { unfold GZIP_MEM_SIZE. change (Z.shiftr MAX_MEM_SIZE 9) with 2048. lia. }
  wp_step. apply wp_write.
  2:{ intros g' Hr. change (- ENOSPC <? 0) with true. left. split; [done|]. cbn in Hr. lia. }
  intros g2 ->. no_error. right. split; [done|]. split; [done|]. split; [done|]. cbn. split; [by rewrite <- app_assoc|lia].
Qed.
End run.

(** ** The extents of a list *)

Context (cl : cl_mem) (L : list Z).
Abbreviation count := (zlen L).

(** The memory of the list: its chunks, or none for a full volume, are in the
    target; the word after the array does not continue the last extent. *)
Record list_ok : Prop := {
  lo_count : cm_count cl = count;
  lo_max : count < 2 ^ 62;
  lo_full : src = None -> L = seqZ 0 count;
  lo_word k c : src <> None -> 0 <= k -> L !! Z.to_nat k = Some c -> cm_word cl k = Some c;
  lo_after : src <> None -> exists w, cm_word cl count = Some w /\ forall c, last L = Some c -> w <> c + 1;
  lo_in : Forall (fun c => 0 <= c /\ c * csize bits < zlen tgt) L }.

(** From position [k], [num] chunks that follow each other, starting at [c] *)
Definition chunk_run (k c num : Z) : Prop :=
  forall j, 0 <= j < num -> L !! Z.to_nat (k + j) = Some (c + j).

Lemma chunk_run_in k c num :
  list_ok -> chunk_run k c num -> 1 <= num -> (src = None -> num = 1) -> num * csize bits <= MAX_MEM_SIZE ->
  extent_in bits (zlen tgt) c num.
Proof using Hvol.
  intros Hl Hr Hn H1' Hm. pose proof (lo_in Hl) as Hin. rewrite Forall_lookup in Hin.
  pose proof (Hin _ _ (Hr 0 ltac:(lia))). pose proof (Hin _ _ (Hr (num - 1) ltac:(lia))).
  assert (Hlast : (c + num - 1) * csize bits < zlen tgt) by (replace (c + num - 1) with (c + (num - 1)) by lia; lia).
  constructor; [lia|done|done| |done]. pose proof csize_pos. destruct (vo_whole _ _ _ Hvol) as [[q Hq]|[Hw|[Hs Hw]]].
  - rewrite Hq in *. assert (c + num - 1 < q) by nia. nia.
  - lia.
  - rewrite (H1' Hs). lia.
Qed.

Lemma chunk_run_room k c num : 0 <= k -> chunk_run k c num -> 1 <= num -> num <= count - k.
Proof.
  intros Hk Hr Hn. pose proof (lookup_lt_Some _ _ _ (Hr (num - 1) ltac:(lia))). unfold zlen. lia.
Qed.

Lemma word_after k c num :
  list_ok -> src <> None -> 0 <= k -> 1 <= num -> chunk_run k c num ->
  exists w, cm_word cl (k + num) = Some w /\ (w = c + num -> chunk_run k c (num + 1)).
Proof.
  intros Hl Hs Hk Hn Hr. pose proof (chunk_run_room k c num Hk Hr Hn) as Hroom.
  destruct (decide (k + num < count)) as [Hlt|Hge].
  - destruct (lookup_lt_is_Some_2 L (Z.to_nat (k + num))) as [w Hw]; [unfold zlen in *; lia|].
    exists w. split; [apply lo_word; [done|done|lia|done]|]. intros -> j Hj.
    destruct (decide (j = num)) as [->|]; [done|]. apply Hr. lia.
  - destruct (lo_after Hl Hs) as (w & Hw & Hlast). exists w. replace (k + num) with count by lia. split; [done|].
    intros ->. exfalso. apply (Hlast (c + (num - 1))); [|lia]. rewrite last_lookup.
    replace (pred (length L)) with (Z.to_nat (k + (num - 1))) by (unfold zlen in *; lia). apply Hr. lia.
Qed.

Lemma extent_loop_spec {S} fuel k c num cur (s : S) :
  list_ok -> src <> None -> 0 <= k -> 1 <= num <= MAX_MEM_SIZE / csize bits -> chunk_run k c num ->
  cm_word cl (k + num) = Some cur -> (cur = c + num -> chunk_run k c (num + 1)) ->
  (Z.to_nat (MAX_MEM_SIZE / csize bits - num) <= fuel)%nat ->
  wp (extent_loop fuel cl k (csize bits) c cur num)
     (fun n s' => s' = s /\ 1 <= n <= MAX_MEM_SIZE / csize bits /\ chunk_run k c n) s.
Proof using Hvol.
  intros Hl Hs Hk. pose proof csize_pos as Hp. pose proof (lo_in Hl) as Hin. pose proof (lo_max Hl) as Hmax. pose proof (vo_size _ _ _ Hvol) as HT.
  revert num cur. induction fuel as [|fuel IH]; intros num cur Hn Hr Hc Hnext Hf; cbn [extent_loop];
    (assert (Hcr : 0 <= c < 2 ^ 62) by
      (rewrite Forall_lookup in Hin; pose proof (Hin _ _ (Hr 0 ltac:(lia))) as Hc0; rewrite Z.add_0_r in Hc0; nia));
    pose proof (chunk_run_room k c num Hk Hr ltac:(lia)) as Hroom;
    rewrite (u64_id (c + num)) by (unfold is_u64; lia);
    (destruct (Z.eqb_spec cur (c + num)) as [Heq|Hne]; cbn [negb]; [|by wp_step]);
    rewrite (proj2 (Z.eqb_neq _ _)) by lia;
    (destruct (Z.ltb_spec num (MAX_MEM_SIZE / csize bits)); cbn [negb]; [|by wp_step]); [lia|].
  specialize (Hnext Heq). destruct (word_after k c (num + 1) Hl Hs Hk ltac:(lia) Hnext) as (w & Hw & Hw').
  rewrite u64_id by (unfold is_u64; lia). unfold cl_word. rewrite Hw. wp_steps. apply IH; [lia|done|done|done|lia].
Qed.

Lemma csize_mem num : 1 <= num <= MAX_MEM_SIZE / csize bits -> num * csize bits <= MAX_MEM_SIZE.
Proof using Hvol.
  intros Hn. pose proof csize_pos. transitivity (MAX_MEM_SIZE / csize bits * csize bits); [nia|].
  rewrite Z.mul_comm. apply Z.mul_div_le. lia.
Qed.

Lemma chunks_in_extent_spec {S} k c (s : S) :
  list_ok -> src <> None -> 0 <= k -> L !! Z.to_nat k = Some c ->
  wp (chunks_in_extent cl k (csize bits))
     (fun n s' => s' = s /\ 1 <= n <= MAX_MEM_SIZE / csize bits /\ chunk_run k c n) s.
Proof using Hvol.
  intros Hl Hs Hk Hc. pose proof csize_pos as Hp. unfold chunks_in_extent, cl_word.
  assert (Hr : chunk_run k c 1). { intros j Hj. by replace j with 0 by lia; rewrite !Z.add_0_r. }
  destruct (word_after k c 1 Hl Hs Hk ltac:(lia) Hr) as (w & Hw & Hw').
  pose proof (chunk_run_room k c 1 Hk Hr ltac:(lia)). pose proof (lo_max Hl).
  rewrite (lo_word Hl k c) by done. wp_steps. rewrite u64_id by (unfold is_u64; lia). rewrite Hw. wp_steps.
  apply extent_loop_spec; try done; [|lia]. split; [lia|]. apply Z.div_le_lower_bound; lia.
Qed.

Context (a : gen_args) (src_size : Z) (Hargs : args_ok a src_size) (Hcl : ga_cl a = cl).

(** Where the next extent lies: it has all the chunks up to the next position *)
Lemma next_extent_spec k g :
  list_ok -> 0 <= k < count ->
  wp (next_extent a (zlen tgt) k) (fun '(ad, num, sz) g' => g' = g /\ exists c, ad = c * csize bits /\
    sz = ext_size bits (zlen tgt) c num /\ extent_in bits (zlen tgt) c num /\ chunk_run k c num) g.
Proof using Hvol Hargs Hcl.
  intros Hl Hk. pose proof csize_pos as Hp. pose proof (vo_size _ _ _ Hvol) as HT. pose proof (vo_bits _ _ _ Hvol) as Hb. destruct Hargs as [Hf _ _ Hbits].
  unfold next_extent. rewrite Hbits, csize_u32, Hf, Hcl. wp_step.
  apply (wp_mono _ (fun '(ad, num, sz) g' => g' = g /\ exists c, ad = c * csize bits /\ sz = num * csize bits /\
    1 <= num <= MAX_MEM_SIZE / csize bits /\ (src = None -> num = 1) /\ chunk_run k c num)).
  - assert (H1' : 1 <= MAX_MEM_SIZE / csize bits) by (apply Z.div_le_lower_bound; lia).
    destruct (lookup_lt_is_Some_2 L (Z.to_nat k)) as [c Hc]; [unfold zlen in *; lia|].
    pose proof (lo_in Hl) as Hin. rewrite Forall_lookup in Hin. destruct (Hin _ _ Hc) as [Hc0 Hc1].
    assert (Hr : chunk_run k c 1). { intros j Hj. by replace j with 0 by lia; rewrite !Z.add_0_r. }
    case_bool_decide as Es.
    + assert (c = k) as ->. { rewrite (lo_full Hl Es) in Hc. apply lookup_seqZ in Hc. lia. }
      wp_step. split; [done|]. exists k. rewrite u64_id by (unfold is_u64; nia). split; [done|]. split; [lia|]. done.
    + unfold cl_word. rewrite (lo_word Hl k c) by (done || lia). wp_steps.
      apply (wp_mono _ (fun n g' => g' = g /\ 1 <= n <= MAX_MEM_SIZE / csize bits /\ chunk_run k c n)).
      { destruct (_ =? _); [wp_step; split; [done|]; split; [lia|done]|]. apply chunks_in_extent_spec; try done. lia. }
      cbv beta. intros n g' (-> & Hn & Hrn). wp_step. split; [done|]. exists c.
      rewrite Z.shiftl_mul_pow2 by lia. fold (csize bits). pose proof (csize_mem n Hn). unfold MAX_MEM_SIZE in *.
      rewrite !u64_id by (unfold is_u64; nia). split; [done|]. split; [lia|]. done.
  - cbv beta. intros [[ad num] sz] g' (-> & c & -> & -> & Hn & H1' & Hr). wp_step. split; [done|]. exists c.
    pose proof (chunk_run_in k c num Hl Hr ltac:(lia) H1' (csize_mem num Hn)) as Hin.
    split; [done|]. split; [apply (ext_cut c num Hin)|]. done.
Qed.

(** ** A round and the loop *)

Lemma wp_usec_now (Q : Z -> gen -> Prop) g : (forall t l, Q t (g <| g_clock := l |>)) -> wp usec_now Q g.
Proof.
  intros HQ. unfold wp, usec_now. destruct (g_clock g) as [|t l] eqn:E; [|apply HQ].
  specialize (HQ 0 []). destruct g. cbn in *. subst. exact HQ.
Qed.

(** The room that [n] chunks take at most *)
Definition extents_room (n : Z) : Z := n * (sizeof_deh + csize bits).

(** A run that fails has no room for so many chunks, or a library failed. *)
Definition gen_failed (room n e : Z) : Prop :=
  e < 0 /\ (e = - ENOSPC /\ room < extents_room n \/ ~ libs_ok (ga_mode a) (ga_level a)).

(** The bytes of the extents from one position of the list to another *)
Inductive segment : Z -> Z -> list Z -> Prop :=
  | segment_nil k : segment k k []
  | segment_cons k k2 c num d data b :
      chunk_run k c num -> extent_sent c num d data -> segment (k + num) k2 b ->
      segment k k2 (deh_bytes d ++ data ++ b).

Lemma segment_snoc k k2 c num d data b :
  segment k k2 b -> chunk_run k2 c num -> extent_sent c num d data ->
  segment k (k2 + num) (b ++ deh_bytes d ++ data).
Proof.
  induction 1 as [k|k k2 c' num' d' data' b' Hr He Hs IH]; intros Hr2 He2.
  - cbn. rewrite <- (app_nil_r data). eapply segment_cons; [done|done|]. constructor.
  - rewrite <- !app_assoc. eapply segment_cons; [done|done|]. auto.
Qed.

Lemma generate_extent_spec k g :
  list_ok -> ga_progress a <> Some false -> 0 <= k < count -> gen_ok g ->
  wp (generate_extent a src_size (zlen tgt) k) (fun r g' => match r with
    | inr e => gen_failed (g_room g) (count - k) e
    | inl k' => exists c num d data, k' = k + num /\ chunk_run k c num /\ extent_sent c num d data /\
        g_out g' = g_out g ++ deh_bytes d ++ data /\ g_room g - extents_room num <= g_room g' /\ gen_ok g'
    end) g.
Proof using All.
  intros Hl Hprog Hk [G1 G2 G3]. unfold generate_extent. wp_step. eapply wp_mono; [by apply next_extent_spec|].
  cbv beta. intros [[ad num] sz] g' (-> & c & -> & -> & Hin & Hr). wp_steps.
  eapply wp_mono; [eapply (read_extents_spec a src_size Hargs c num Hin); by constructor|].
  cbv beta. intros e g1 (-> & Hsr & Hw2 & Hok1 & (Eo1 & Er1) & E2 & E3 & E4 & E5). no_error.
  eapply wp_mono; [by apply (encode_extent_spec a src_size Hargs c num Hin)|]. cbv beta.
  intros e g2 [[He Hbad]|(-> & old & data & Hgz & Hdec & Hold & Hok2 & Hplace & Eo2 & Er2)].
  { rewrite (proj2 (Z.ltb_lt _ _)) by done. wp_step. split; [done|]. by right. }
  pose proof (want_length c num Hin) as Hwl. pose proof (addr_range c num Hin) as Har. pose proof (ext_cut c num Hin) as (_ & _ & _ & Hmem).
  pose proof Hdec as (raw & Hu & Hy & Hlr & Hlen & Hld).
  assert (Hld' : zlen data <= MAX_MEM_SIZE) by (unfold zlen at 1 in Hwl; unfold zlen; lia).
  no_error. eapply wp_mono; [by eapply (send_extent_spec g2 data)|]. cbv beta.
  pose proof (chunk_run_room k c num ltac:(lia) Hr (ei_num _ _ _ _ Hin)) as Hnum. pose proof csize_pos as Hcs.
  assert (Hneed : sizeof_deh + zlen data <= extents_room num).
  { assert (Hcut : ext_size bits (zlen tgt) c num <= num * csize bits) by (unfold ext_size; lia).
    assert (zlen data <= num * csize bits) by (unfold zlen at 1 in Hwl; unfold zlen at 1; lia).
    pose proof (ei_num _ _ _ _ Hin). unfold extents_room, sizeof_deh. nia. }
  intros e g3 [[-> Hfull]|(-> & Hok3 & Ed & Eo3 & Er3)].
  { change (- ENOSPC <? 0) with true. cbv iota. wp_step. split; [done|]. left. split; [done|]. cbn in Er1.
    assert (extents_room num <= extents_room (count - k)) by (unfold extents_room, sizeof_deh; nia). lia. }
  assert (Hsent : extent_sent c num (g_deh g2) data).
  { destruct Hplace as (P1 & P2 & P3 & P4 & P5). destruct Hok2 as [K1 K2 K3].
    pose proof (chunk_run_room k c num ltac:(lia) Hr (ei_num _ _ _ _ Hin)). pose proof (lo_max Hl). pose proof (ei_num _ _ _ _ Hin).
    constructor; [done| |done|by rewrite P2, E3|by rewrite P3, E4| |by rewrite P5| ].
    - constructor; [by rewrite K1| | |rewrite P2, E3; cbn; unfold is_u64; lia|rewrite P3, E4; cbn; unfold is_u64; lia| |done|rewrite P5, E2; apply chksum_u64].
      + destruct Hy as [[-> _]|[-> _]]; done.
      + destruct Hu as [[-> _]|[-> _]]; done.
      + rewrite Hlen. fold (zlen data). unfold MAX_MEM_SIZE, is_u64, zlen in *. lia.
    - intros s Hs Hlt. destruct (Hsr s Hs Hlt) as [_ Hck]. by rewrite P4.
    - exists old. split; [done|]. exact Hold. }
  assert (Hend : forall g', g_out g' = g_out g3 -> g_room g' = g_room g3 -> gen_ok g' ->
    exists c' num' d data', u64 (k + num) = k + num' /\ chunk_run k c' num' /\ extent_sent c' num' d data' /\
      g_out g' = g_out g ++ deh_bytes d ++ data' /\ g_room g - extents_room num' <= g_room g' /\ gen_ok g').
  { intros g' Eg Eg2 Hg. pose proof (chunk_run_room k c num ltac:(lia) Hr (ei_num _ _ _ _ Hin)). pose proof (lo_max Hl). pose proof (ei_num _ _ _ _ Hin).
    exists c, num, (g_deh g2), data. split; [apply u64_id; unfold is_u64; lia|]. split; [done|]. split; [done|].
    split; [by rewrite Eg, Eo3, Eo2, Eo1|]. split; [cbn in Er1; lia|done]. }
  no_error. apply wp_usec_now. intros t l. wp_steps. destruct (ga_progress a) as [[]|] eqn:Ep; [|done|].
  - unfold gen_write_progress. destruct (_ <? _); no_error; destruct Hok3; by apply Hend.
  - wp_step. destruct Hok3; by apply Hend.
Qed.

(** What the run leaves: an error, or the extents from [start] to the end *)
Definition generated (start room : Z) (out : list Z) (e : Z) (g' : gen) : Prop :=
  gen_failed room (count - start) e \/ e = 0 /\ exists b, g_out g' = out ++ b /\ segment start count b.

Lemma generate_loop_spec fuel start g :
  list_ok -> ga_progress a <> Some false -> 0 <= start <= count -> gen_ok g -> (Z.to_nat (count - start) < fuel)%nat ->
  wp (generate_loop fuel a src_size (zlen tgt) start) (generated start (g_room g) (g_out g)) g.
Proof using All.
  intros Hl Hprog Hst Hok Hf. unfold generate_loop. rewrite Hcl, (lo_count Hl).
  apply (wp_loop (fun k g' => 0 <= start <= k /\ k <= count /\ gen_ok g' /\
      g_room g - extents_room (k - start) <= g_room g' /\ exists b, g_out g' = g_out g ++ b /\ segment start k b)
    (fun k _ => Z.to_nat (count - k)));
    [|split; [lia|]; split; [lia|]; split; [done|]; split; [unfold extents_room; lia|]; exists []; rewrite app_nil_r; by split; [|constructor]|done].
  intros k g' (Hk & Hkc & Hok' & Hroom & b & Eo & Hseg). pose proof csize_pos as Hcs. destruct (Z.ltb_spec k count) as [Hlt|Hge].
  - eapply wp_mono; [apply generate_extent_spec; try done; lia|]. cbv beta. intros [k'|e] g2.
    2:{ intros [He Hwhy]. left. split; [done|]. destruct Hwhy as [[-> Hfull]|]; [left|by right]. split; [done|]. unfold extents_room in *. lia. }
    intros (c & num & d & data & -> & Hr & Hs & Eo2 & Hroom2 & Hok2). pose proof (ei_num _ _ _ _ (es_in _ _ _ _ Hs)) as Hn.
    pose proof (chunk_run_room k c num ltac:(lia) Hr Hn). split; [|lia]. split; [lia|]. split; [lia|]. split; [done|].
    split; [unfold extents_room in *; lia|]. exists (b ++ deh_bytes d ++ data). split; [by rewrite Eo2, Eo, <- app_assoc|]. by eapply segment_snoc.
  - assert (k = count) as -> by lia. rewrite Z.eqb_refl. cbn [negb].
    destruct (ga_progress a) as [[]|]; [|done|]; unfold gen_write_progress; wp_steps; right; eauto.
Qed.
End gen_spec.

(** ** The whole delta *)

(** The names of the snapshots and the devices they name *)
Definition devices_ok (snapdev : Z -> option blockdev) (src_snap tgt_snap : Z) (src : option (list Z)) (tgt : list Z) : Prop :=
  match src with
  | Some s => src_snap <> u32 (-1) /\ snapdev src_snap = Some (mkDevice s true)
  | None => src_snap = u32 (-1)
  end /\ snapdev tgt_snap = Some (mkDevice tgt true).

(** A change list in memory; [L] are its chunks, all of them for a full volume. *)
Definition list_mem_ok (bits : Z) (src : option (list Z)) (tgt : list Z) (cl : cl_mem) (L : list Z) : Prop :=
  cm_bits cl = bits /\ list_ok bits src tgt cl L.

(** A list that was read from a file, and one that came from the server *)
Lemma cm_of_list_ok bits x tgt stale cl :
  cl_chunksize_bits cl = bits -> cl_count cl < cl_length cl -> cl_count cl < 2 ^ 62 ->
  (forall c, last (cl_chunks cl) = Some c -> stale (cl_count cl) <> c + 1) ->
  Forall (fun c => 0 <= c /\ c * csize bits < zlen tgt) (cl_chunks cl) ->
  list_mem_ok bits (Some x) tgt (cm_of stale cl) (cl_chunks cl).
Proof.
  intros Hb Hlen Hmax Hst Hin. split; [done|]. constructor; try done.
  - intros k c _ Hk Hc. cbn. pose proof (lookup_lt_Some _ _ _ Hc). unfold cl_count. by rewrite (proj2 (Z.ltb_lt _ _)) by lia.
  - intros _. exists (stale (cl_count cl)). split; [|done]. cbn. fold (cl_count cl). unfold zlen. fold (cl_count cl).
    by rewrite Z.ltb_irrefl, (proj2 (Z.ltb_lt _ _)).
Qed.

Lemma stream_list_ok bits x tgt src_snap tgt_snap stale L cl :
  streamed_changelist bits src_snap tgt_snap stale L = Some cl -> zlen L < 2 ^ 62 ->
  (forall c, last L = Some c -> stale <> c + 1) -> Forall (fun c => 0 <= c /\ c * csize bits < zlen tgt) L ->
  list_mem_ok bits (Some x) tgt cl L.
Proof.
  unfold streamed_changelist. case_match; [done|]. intros [= <-] Hmax Hst Hin. split; [done|]. constructor; try done.
  - intros k c _ Hk Hc. cbn. pose proof (lookup_lt_Some _ _ _ Hc). by rewrite (proj2 (Z.eqb_neq _ _)), (proj2 (Z.ltb_ge _ _)) by lia.
  - intros _. exists stale. split; [|done]. cbn. unfold zlen. by rewrite Z.eqb_refl.
Qed.

Section delta_generated.
Context `{Zlib, Xd3, Uninit, !ZlibLaws, !Xd3Laws}.
Context (bits : Z) (src : option (list Z)) (tgt : list Z) (Hvol : volumes_ok bits src tgt).

Lemma generate_delta_extents_spec mode level cl L snapdev src_snap tgt_snap progress start g :
  devices_ok snapdev src_snap tgt_snap src tgt -> list_mem_ok bits src tgt cl L -> progress <> Some false ->
  0 <= start <= zlen L -> gen_ok g ->
  wp (generate_delta_extents mode level cl snapdev src_snap tgt_snap progress start)
     (fun e g' => e < 0 /\ (e = - ENOSPC /\ g_room g < extents_room bits (zlen L - start) \/ ~ libs_ok mode level) \/
        e = 0 /\ exists b, g_out g' = g_out g ++ b /\ segment bits src tgt L start (zlen L) b) g.
Proof using All.
  intros [Hdev1 Hdev2] [Hb Hl] Hp Hst Hok. unfold generate_delta_extents. rewrite Hdev2. pose proof (vo_size _ _ _ Hvol) as HT.
  assert (Hgen : forall dev1 ss, args_ok bits src tgt (mkGenArgs mode level cl (src_snap =? u32 (-1)) dev1 (mkDevice tgt true) tgt_snap progress) ss ->
    wp (_ ← usec_now; generate_loop (S (Z.to_nat (cm_count cl - start)))
      (mkGenArgs mode level cl (src_snap =? u32 (-1)) dev1 (mkDevice tgt true) tgt_snap progress) ss (zlen tgt) start)
      (fun e g' => e < 0 /\ (e = - ENOSPC /\ g_room g < extents_room bits (zlen L - start) \/ ~ libs_ok mode level) \/
         e = 0 /\ exists b, g_out g' = g_out g ++ b /\ segment bits src tgt L start (zlen L) b) g).
  { intros dev1 ss Ha. wp_step. apply wp_usec_now. intros t l.
    eapply wp_mono; [apply (generate_loop_spec bits src tgt Hvol cl L _ ss Ha eq_refl _ start); [done|done|done|by destruct Hok|]|done].
    rewrite (lo_count _ _ _ _ _ Hl). lia. }
  unfold fdsize64. cbn [dv_bytes dv_sized]. fold (zlen tgt).
  assert (Hne : forall l, zlen l < 2 ^ 62 -> (zlen l =? u64 (-1)) = false).
  { intros l Hlt. apply Z.eqb_neq. unfold u64. change (-1 mod 2 ^ 64) with (2 ^ 64 - 1). lia. }
  destruct src as [s|].
  - destruct Hdev1 as [Hns Hd1]. rewrite (proj2 (Z.eqb_neq _ _)) in * by done. rewrite Hd1. cbn [dv_bytes dv_sized negb andb]. fold (zlen s).
    pose proof (vo_src _ _ _ Hvol s eq_refl). rewrite !Hne by lia. apply Hgen. constructor; cbn; [done| |done|done]. by intros s' [= <-].
  - rewrite Hdev1, Z.eqb_refl in *. cbn [negb andb]. rewrite Hne by lia. apply Hgen. by constructor.
Qed.

(** The room that a delta of [n] chunks takes at most *)
Definition delta_room (n : Z) : Z := sizeof_dh + extents_room bits n.

Lemma zlen_dh_bytes n a b : zlen (dh_bytes (mkDh DELTA_MAGIC n (csize bits) a b)) = sizeof_dh.
Proof. unfold zlen. by rewrite length_dh_bytes. Qed.

Lemma header_room room L' n a b : room < zlen (dh_bytes (mkDh DELTA_MAGIC n (csize bits) a b)) -> room < delta_room (zlen L').
Proof using Hvol.
  rewrite zlen_dh_bytes. pose proof (csize_pos _ _ _ Hvol). unfold delta_room, extents_room, zlen, sizeof_deh. nia.
Qed.

Lemma extents_room_left room n m a b k :
  room - zlen (dh_bytes (mkDh DELTA_MAGIC n (csize bits) a b)) < extents_room bits m -> m <= k -> room < delta_room k.
Proof using Hvol.
  rewrite zlen_dh_bytes. pose proof (csize_pos _ _ _ Hvol). unfold delta_room, extents_room, sizeof_deh. nia.
Qed.

Lemma generate_delta_spec mode level cl L snapdev g :
  devices_ok snapdev (cm_src_snap cl) (cm_tgt_snap cl) src tgt -> list_mem_ok bits src tgt cl L -> gen_ok g ->
  wp (generate_delta mode level cl snapdev)
     (fun e g' => e < 0 /\ (e = - ENOSPC /\ g_room g < delta_room (zlen L) \/ ~ libs_ok mode level) \/
        e = 0 /\ exists b, segment bits src tgt L 0 (zlen L) b /\
          g_out g' = g_out g ++ dh_bytes (mkDh DELTA_MAGIC (zlen L) (csize bits) (cm_src_snap cl) (cm_tgt_snap cl)) ++ b) g.
Proof using All.
  intros Hdev Hl Hok. unfold generate_delta. rewrite (proj1 Hl), (csize_u32 bits src tgt Hvol).
  rewrite (lo_count _ _ _ _ _ (proj2 Hl)). wp_step. apply wp_write.
  2:{ intros g' Hr. change (- ENOSPC <? 0) with true. left. split; [done|]. left. split; [done|]. by eapply header_room. }
  intros g1 ->. no_error. eapply wp_mono.
  { eapply generate_delta_extents_spec; [exact Hdev|exact Hl|done|unfold zlen; lia|by destruct Hok]. }
  cbv beta. intros e g' [[He Hwhy]|(-> & b & Eo & Hs)].
  { left. split; [done|]. destruct Hwhy as [[-> Hr]|]; [left|by right]. split; [done|]. cbn in Hr. eapply extents_room_left; [exact Hr|lia]. } right. split; [done|]. exists b. split; [done|].
  rewrite Eo. cbn. by rewrite <- app_assoc.
Qed.
End delta_generated.
