(* ===== verification/DeltaApply.v ===== *)
(** * Deltas: application

    The extents of a generated delta, applied downstream to a device, put the
    contents of the target snapshot into the chunks of the list; the other bytes
    stay. *)

From S2P Require Import Prelude Bytes State Leaf Changelist Delta DeltaSpec DeltaGen.

Section app_spec.
Context `{Zlib, Xd3, Uninit, !ZlibLaws, !Xd3Laws}.
Context (bits : Z) (src : option (list Z)) (tgt : list Z) (Hvol : volumes_ok bits src tgt).

(** The arguments downstream: the same source contents, and nothing fails *)
Record app_args_ok (aa : app_args) (src_size : Z) : Prop := {
  ap_chunk_size : aa_chunk_size aa = csize bits;
  ap_dev1 : dv_bytes <$> aa_dev1 aa = src;
  ap_size s : src = Some s -> src_size = zlen s;
  ap_fsync : aa_fsync aa = true;
  ap_progress : aa_progress aa <> Some false }.

Context (aa : app_args) (src_size : Z) (Haa : app_args_ok aa src_size).

Lemma wp_app_read cap buf data rest (Q : Z * list Z -> app -> Prop) s n :
  a_in s = data ++ rest -> n = zlen data -> n <= cap ->
  (forall buf', holds buf' data -> Q (0, buf') (s <| a_in := rest |>)) -> wp (app_read cap buf n) Q s.
Proof.
  intros Ein -> Hc HQ. unfold app_read. wp_steps. rewrite Ein. unfold zlen in *. rewrite length_app, Nat2Z.inj_add.
  rewrite Z.min_l, Z.ltb_irrefl, Nat2Z.id, take_app_length by lia. apply wp_wr; [done|]. intros buf' Hb. wp_steps.
  replace (set a_in (drop (length data)) s) with (s <| a_in := rest |>); [by apply HQ|].
  unfold set. by rewrite Ein, drop_app_length.
Qed.

(** ** One extent *)

Section extent.
Context (c num : Z) (d : delta_extent_header) (data : list Z) (Hsent : extent_sent bits src tgt c num d data).

Abbreviation addr := (c * csize bits).
Abbreviation size := (ext_size bits (zlen tgt) c num).
Abbreviation want := (bytes_at addr size tgt).

(** The input and the target device stay. *)
Definition app_same (s s' : app) : Prop := a_in s' = a_in s /\ a_dev2 s' = a_dev2 s.

Lemma check_source_spec s :
  wp (check_source aa d src_size size) (fun e s' => e = 0 /\ app_same s s' /\
    forall s0, src = Some s0 -> addr < zlen s0 -> holds (a_extent s') (bytes_at addr (Z.min size (zlen s0 - addr)) s0)) s.
Proof using All.
  destruct Hsent as [Hin _ _ Haddr _ Hck _ _]. destruct (ext_cut bits src tgt Hvol c num Hin) as (_ & Hpos & Hend & Hmem).
  pose proof (addr_range bits src tgt Hvol c num Hin) as Ha. destruct Haa as [_ Hd1 Hss _ _].
  unfold check_source. rewrite Haddr. destruct (aa_dev1 aa) as [dev|] eqn:Ed; cbn in Hd1.
  2:{ wp_step. split; [done|]. split; [done|]. intros s0 E. by rewrite E in Hd1. }
  pose proof (Hss _ (eq_sym Hd1)) as ->. destruct (Z.ltb_spec addr (zlen (dv_bytes dev))) as [Hlt|Hge].
  2:{ wp_step. split; [done|]. split; [done|]. intros s0 E. rewrite E in Hd1. injection Hd1 as <-. lia. }
  rewrite (proj2 (source_cut bits src tgt Hvol _ c num (eq_sym Hd1) Hin) Hlt). wp_steps. set (n := Z.min _ _) in *.
  apply wp_diskread; [unfold n; lia|lia|unfold n, zlen in *; lia|lia|]. intros buf Hb. fold (bytes_at addr n (dv_bytes dev)) in Hb.
  wp_steps. no_error. eapply wp_checksum; [exact Hb| | | |].
  - symmetry. apply length_bytes_at; unfold n; lia.
  - unfold n. lia.
  - unfold n, MAX_MEM_SIZE in *. lia.
  - rewrite (Hck _ (eq_sym Hd1) Hlt). fold n. rewrite Z.eqb_refl. cbn [negb]. wp_step. split; [done|]. split; [done|].
    intros s0 E. rewrite E in Hd1. injection Hd1 as <-. done.
Qed.

Lemma read_delta_spec s raw rest :
  a_in s = data ++ rest -> unpacks (de_gzip_on d) (length want) data raw -> (length raw <= length want)%nat ->
  (length data <= length want)%nat -> de_length d = zlen data ->
  wp (read_delta d size) (fun r s' => r = inl (zlen raw) /\ holds (a_delta s') raw /\ a_in s' = rest /\
    a_dev2 s' = a_dev2 s /\ a_extent s' = a_extent s) s.
Proof using Hvol Hsent.
  intros Ein Hu Hlr Hld Hlen. destruct Hsent as [Hin _ _ _ _ _ _ _]. destruct (ext_cut bits src tgt Hvol c num Hin) as (_ & _ & _ & Hmem).
  pose proof (want_length bits src tgt Hvol c num Hin) as Hw. change (Z.of_nat (length want) = size) in Hw.
  unfold read_delta. rewrite Hlen. wp_steps. destruct Hu as [[-> Hu]|[-> ->]]; cbn [Z.eqb Pos.eqb].
  - wp_step. eapply wp_app_read; [exact Ein|done|unfold zlen; lia|]. intros buf Hb. wp_steps. no_error.
    eapply wp_rd; [exact Hb|done|unfold zlen; lia|]. rewrite <- Hw, Hu. wp_step. apply wp_wr; [lia|]. intros buf2 Hb2. wp_steps. cbn. wp_steps. done.
  - wp_step. eapply wp_app_read; [exact Ein|done|unfold zlen; lia|]. intros buf Hb. wp_steps. no_error. done.
Qed.

Lemma update_extent_spec s raw old :
  holds (a_delta s) raw -> yields (de_mode d) old raw want -> (length raw <= length want)%nat ->
  (de_mode d = XDELTA -> src <> None /\ holds (a_extent s) old) ->
  wp (update_extent aa d size (zlen raw)) (fun e s' => e = 0 /\ holds (a_updated s') want /\ app_same s s') s.
Proof using All.
  intros Hh Hy Hlr Hx. destruct Hsent as [Hin _ _ _ _ _ _ _]. destruct (ext_cut bits src tgt Hvol c num Hin) as (_ & _ & _ & Hmem).
  pose proof (want_length bits src tgt Hvol c num Hin) as Hw. change (Z.of_nat (length want) = size) in Hw.
  unfold update_extent. wp_steps. destruct Hy as [[-> ->]|(Hm & Hlo & Hdec)].
  - cbn [Z.eqb RAW XDELTA Pos.eqb]. wp_step. eapply wp_rd; [exact Hh|by symmetry|done|]. apply wp_wr; [lia|]. intros buf Hb. wp_steps.
    destruct (aa_dev1 aa); wp_step; done.
  - destruct (Hx Hm) as [Hs He]. rewrite Hm. cbn [Z.eqb RAW XDELTA Pos.eqb]. wp_steps. pose proof (ap_dev1 _ _ Haa) as Hd1.
    destruct (aa_dev1 aa) as [dev|]; cbn in Hd1; [|by rewrite <- Hd1 in Hs]. unfold apply_delta_chunk.
    assert (Hu : u32 size = size) by (apply u32_id; unfold is_u32, MAX_MEM_SIZE in *; lia). rewrite Hu.
    do 2 wp_step. eapply wp_rd; [exact He|lia|lia|]. wp_step.
    rewrite u32_id by (unfold is_u32, MAX_MEM_SIZE, zlen in *; lia). eapply wp_rd; [exact Hh|done|unfold zlen; lia|].
    rewrite <- Hw at 1. rewrite Hdec. cbn [xd3_run]. wp_steps. apply wp_wr; [lia|]. intros buf Hb. wp_steps.
    change (SUCCESS_DELTA =? SUCCESS_DELTA) with true. cbv iota. rewrite (proj2 (Z.ltb_ge _ _)) by lia. done.
Qed.

Lemma wp_app_write bytes off (Q : Z -> app -> Prop) s :
  0 <= off < 2 ^ 62 -> off + zlen bytes <= zlen (dv_bytes (a_dev2 s)) -> 0 < zlen bytes ->
  (forall s', a_in s' = a_in s -> dv_bytes (a_dev2 s') = splice (Z.to_nat off) bytes (dv_bytes (a_dev2 s)) -> Q 0 s') ->
  wp (app_write bytes off) Q s.
Proof.
  intros Ho Hl Hpos HQ. unfold app_write. wp_steps. fold (zlen bytes) (zlen (dv_bytes (a_dev2 s))).
  rewrite (proj2 (Z.eqb_neq _ _)), (proj2 (Z.leb_gt _ _)) by lia. wp_steps. rewrite Z.min_l, Z.ltb_irrefl by lia.
  apply HQ; [done|]. cbn. rewrite Z.min_l by lia. rewrite take_ge by (unfold zlen in *; lia). done.
Qed.

Lemma wp_now (Q : Z -> app -> Prop) s : (forall t l, Q t (s <| a_clock := l |>)) -> wp now Q s.
Proof.
  intros HQ. unfold wp, now. destruct (a_clock s) as [|t l] eqn:E; [|apply HQ].
  specialize (HQ 0 []). destruct s. cbn in *. subst. exact HQ.
Qed.

Lemma apply_extent_spec k s rest :
  a_in s = deh_bytes d ++ data ++ rest -> zlen (dv_bytes (a_dev2 s)) = zlen tgt -> 0 <= k -> k + num < 2 ^ 63 ->
  wp (apply_extent aa src_size (zlen tgt) k) (fun r s' => r = inl (k + num) /\ a_in s' = rest /\
    dv_bytes (a_dev2 s') = splice (Z.to_nat addr) want (dv_bytes (a_dev2 s))) s.
Proof using All.
  intros Ein Hlen Hk Hkn. pose proof Hsent as [Hin Hdeh Hmagic Haddr Hnum _ Hck2 (old & Hdec & Hold)].
  destruct (ext_cut bits src tgt Hvol c num Hin) as (Hcut & Hpos & Hend & Hmem).
  pose proof (want_length bits src tgt Hvol c num Hin) as Hw. change (Z.of_nat (length want) = size) in Hw.
  pose proof (addr_range bits src tgt Hvol c num Hin) as Ha. pose proof (ei_num _ _ _ _ Hin) as Hn1.
  destruct Hdec as (raw & Hu & Hy & Hlr & Hdl & Hld).
  unfold apply_extent. wp_step. eapply wp_app_read; [exact Ein|unfold zlen; by rewrite length_deh_bytes|done|].
  intros hd [hrest Ehd]. no_error.
  assert (deh_of_bytes hd = d) as -> by (rewrite Ehd; by apply deh_of_prefix).
  rewrite Hmagic, Z.eqb_refl. cbn [negb]. rewrite Hnum, Haddr, (ap_chunk_size _ _ Haa).
  pose proof (ei_mem _ _ _ _ Hin) as Hmm. pose proof (csize_pos bits src tgt Hvol) as Hcs.
  rewrite (u64_id (num * csize bits)) by (unfold is_u64, MAX_MEM_SIZE in *; nia). rewrite Hcut. wp_steps.
  eapply wp_mono; [apply check_source_spec|]. cbv beta. intros e s1 (-> & [E1 E2] & Hext). no_error.
  eapply wp_mono; [apply (read_delta_spec s1 raw rest); [by rewrite E1|done..]|]. cbv beta. intros r s2 (-> & Hd2 & Ein2 & Edev2 & Ex2).
  wp_steps. eapply wp_mono; [apply (update_extent_spec s2 raw old); [done|done|done|]|].
  { intros Hm. destruct (Hold Hm) as (s0 & Es0 & Hle & ->). split; [by rewrite Es0|]. rewrite Ex2.
    specialize (Hext s0 Es0 ltac:(lia)). by rewrite Z.min_l in Hext by lia. }
  cbv beta. intros e s3 (-> & Hupd & [E3 E4]). no_error.
  eapply wp_checksum; [exact Hupd|by symmetry|done|unfold MAX_MEM_SIZE in *; lia|]. rewrite Hck2, Z.eqb_refl. cbn [negb]. wp_step.
  eapply wp_rd; [exact Hupd|by symmetry|done|]. wp_step.
  assert (Edev : dv_bytes (a_dev2 s3) = dv_bytes (a_dev2 s)) by (rewrite E4, Edev2, E2; done).
  apply wp_app_write; [lia|rewrite Edev, Hlen, (Hw : zlen want = size); lia|rewrite (Hw : zlen want = size); lia|]. intros s4 E5 E6. no_error.
  rewrite Edev in E6. rewrite E3, Ein2 in E5. rewrite (u64_id (k + num)) by (unfold is_u64; lia).
  pose proof (ap_fsync _ _ Haa) as Hfs. pose proof (ap_progress _ _ Haa) as Hpr.
  destruct (aa_progress aa) as [[]|]; [|done|by wp_step]. wp_step. apply wp_now. intros t l. wp_steps. rewrite Hfs. cbn [negb].
  unfold app_write_progress. destruct (0 <? s32 _); wp_steps; [no_error|]; (split; [done|]; split; [exact E5|exact E6]).
Qed.
End extent.

(** ** All extents *)

(** The device has the contents of the target in these chunks and its own in the
    others. *)
Definition patched (l : list Z) (old new : list Z) : Prop :=
  length new = length old /\
  forall i, (i < length old)%nat -> new !! i = if bool_decide (Z.of_nat i / csize bits ∈ l) then tgt !! i else old !! i.

Lemma patched_nil old : patched [] old old.
Proof. split; [done|]. intros i _. by rewrite bool_decide_eq_false_2 by apply not_elem_of_nil. Qed.

Lemma patched_app l1 l2 b1 b2 b3 : patched l1 b1 b2 -> patched l2 b2 b3 -> patched (l1 ++ l2) b1 b3.
Proof.
  intros [Hl1 H1'] [Hl2 H2']. split; [congruence|]. intros i Hi. rewrite H2' by lia. rewrite H1' by done.
  rewrite (bool_decide_ext _ _ (elem_of_app l1 l2 _)), bool_decide_or. by do 2 destruct (bool_decide _).
Qed.

Lemma lookup_splice off bs (b : list Z) i :
  (off + length bs <= length b)%nat ->
  splice off bs b !! i = if decide (off <= i < off + length bs)%nat then bs !! (i - off)%nat else b !! i.
Proof.
  intros Hl. unfold splice. rewrite decide_True by done. destruct (decide (i < off)%nat) as [Hlt|Hge].
  - rewrite decide_False by lia. rewrite lookup_app_l by len. by apply lookup_take_lt.
  - rewrite lookup_app_r by len. len. rewrite Nat.min_l by lia. destruct (decide (i < off + length bs)%nat).
    + rewrite decide_True by lia. by rewrite lookup_app_l by lia.
    + rewrite decide_False by lia. rewrite lookup_app_r by lia. rewrite lookup_drop. f_equal. lia.
Qed.

Lemma patched_extent c num old :
  extent_in bits (zlen tgt) c num -> zlen old = zlen tgt ->
  patched (seqZ c num) old
    (splice (Z.to_nat (c * csize bits)) (bytes_at (c * csize bits) (ext_size bits (zlen tgt) c num) tgt) old).
Proof using Hvol.
  intros Hin Hl. destruct (ext_cut bits src tgt Hvol c num Hin) as (_ & Hpos & Hend & _).
  pose proof (want_length bits src tgt Hvol c num Hin) as Hw. pose proof (csize_pos bits src tgt Hvol) as Hcs.
  pose proof (addr_range bits src tgt Hvol c num Hin) as Ha. pose proof (ei_num _ _ _ _ Hin) as Hn.
  split; [apply length_splice|]. intros i Hi.
  set (addr := c * csize bits) in *. set (n := ext_size _ _ _ _) in *. set (want := bytes_at _ _ _) in *.
  assert (Hwn : length want = Z.to_nat n) by (unfold zlen at 1 in Hw; lia).
  rewrite lookup_splice by (unfold zlen in *; lia). rewrite Hwn.
  assert (Hiff : (Z.to_nat addr <= i < Z.to_nat addr + Z.to_nat n)%nat <-> Z.of_nat i / csize bits ∈ seqZ c num).
  { rewrite elem_of_seqZ. unfold n, ext_size, addr in *. clear -Hcs Ha Hpos Hend Hi Hl Hn. split.
    - intros Hr. split; [apply Z.div_le_lower_bound; lia|apply Z.div_lt_upper_bound; lia].
    - intros [H1 H2]. pose proof (Z.div_mod (Z.of_nat i) (csize bits) ltac:(lia)). pose proof (Z.mod_pos_bound (Z.of_nat i) (csize bits) ltac:(lia)).
      unfold zlen in *. nia. }
  destruct (decide _) as [Hd|Hd].
  - rewrite bool_decide_eq_true_2 by by apply Hiff. unfold want, bytes_at, slice. rewrite lookup_take_lt by lia. rewrite lookup_drop. f_equal. lia.
  - rewrite bool_decide_eq_false_2; [done|]. intros Hx. by apply Hd, Hiff.
Qed.

Context (L : list Z).

(** The chunks of the list from one position to another *)
Definition chunks_between (k k2 : Z) : list Z := slice (Z.to_nat k) (Z.to_nat (k2 - k)) L.

Lemma chunks_between_cons k k2 c num :
  0 <= k -> 1 <= num -> k + num <= k2 -> chunk_run L k c num ->
  chunks_between k k2 = seqZ c num ++ chunks_between (k + num) k2.
Proof.
  intros Hk Hn Hle Hr. unfold chunks_between, slice.
  replace (Z.to_nat (k2 - k)) with (Z.to_nat num + Z.to_nat (k2 - (k + num)))%nat by lia.
  replace (Z.to_nat (k + num)) with (Z.to_nat k + Z.to_nat num)%nat by lia.
  rewrite <- drop_drop, <- take_take_drop. f_equal. apply list_eq. intros j.
  destruct (decide (Z.of_nat j < num)) as [Hj|Hj].
  - rewrite lookup_take_lt, lookup_drop by lia. rewrite (proj2 (lookup_seqZ c num j (c + Z.of_nat j))) by lia.
    rewrite <- (Hr (Z.of_nat j)) by lia. f_equal. lia.
  - rewrite lookup_take_ge by lia. symmetry. apply lookup_ge_None. rewrite length_seqZ. lia.
Qed.

Lemma segment_le k k2 b : segment bits src tgt L k k2 b -> k <= k2.
Proof.
  induction 1 as [|k k2 c num d data b Hr He Hs IH]; [done|]. pose proof (ei_num _ _ _ _ (es_in _ _ _ _ _ _ _ He)). lia.
Qed.

Lemma apply_loop_spec k k2 b fuel p s rest :
  segment bits src tgt L k k2 b -> 0 <= k -> a_in s = b ++ rest -> zlen (dv_bytes (a_dev2 s)) = zlen tgt ->
  0 <= p -> p + (k2 - k) = aa_chunk_count aa -> aa_chunk_count aa < 2 ^ 63 -> (length b < fuel)%nat ->
  wp (loopM fuel (fun chunk_num =>
    if chunk_num <? aa_chunk_count aa then apply_extent aa src_size (zlen tgt) chunk_num
    else if negb (aa_fsync aa) then mret (inr 0)
    else match aa_progress aa with
         | Some ok =>
             s ← get;
             r ← app_write_progress ok chunk_num (aa_chunk_count aa) (a_addr s) (aa_tgt_snap aa);
             mret (inr r)
         | None => mret (inr 0)
         end) p)
    (fun e s' => e = 0 /\ a_in s' = rest /\ patched (chunks_between k k2) (dv_bytes (a_dev2 s)) (dv_bytes (a_dev2 s'))) s.
Proof using All.
  intros Hs. revert fuel p s. induction Hs as [k|k k2 c num d data b Hr He Hs IH]; intros fuel p s Hk Ein Hlen Hp Hcount Hmax Hf;
    (destruct fuel as [|fuel]; [lia|]); cbn [loopM]; fold (mbind (M := M app) (A := Z + Z) (B := Z)); apply wp_bind.
  - rewrite (proj2 (Z.ltb_ge _ _)) by lia. rewrite (ap_fsync _ _ Haa). cbn [negb]. pose proof (ap_progress _ _ Haa) as Hpr.
    assert (Hp0 : patched (chunks_between k k) (dv_bytes (a_dev2 s)) (dv_bytes (a_dev2 s))).
    { unfold chunks_between, slice. replace (Z.to_nat (k - k)) with 0%nat by lia. apply patched_nil. }
    destruct (aa_progress aa) as [[]|]; [|done|]; unfold app_write_progress; wp_steps; done.
  - pose proof (es_in _ _ _ _ _ _ _ He) as Hin. pose proof (ei_num _ _ _ _ Hin) as Hn. pose proof (segment_le _ _ _ Hs) as Hle.
    rewrite (proj2 (Z.ltb_lt _ _)) by lia. eapply wp_mono.
    { apply (apply_extent_spec c num d data He p s (b ++ rest)); [by rewrite Ein, <- !app_assoc|done|done|lia]. }
    cbv beta. intros r s1 (-> & Ein1 & Edev1).
    pose proof (patched_extent c num _ Hin Hlen) as Hpat. rewrite <- Edev1 in Hpat.
    eapply wp_mono; [apply (IH fuel (p + num) s1)|].
    + lia.
    + done.
    + rewrite <- Hlen. unfold zlen. f_equal. apply Hpat.
    + lia.
    + lia.
    + done.
    + rewrite !length_app, length_deh_bytes in Hf. lia.
    + cbv beta. intros e s2 (-> & E2 & Hp2). split; [done|]. split; [done|]. rewrite (chunks_between_cons k k2 c num) by done.
      by eapply patched_app.
Qed.
End app_spec.
