(* ===== verification/DeltaTheorems.v ===== *)
(** * Replication

    A delta that was generated without an error, applied downstream to a device
    that differs from the target snapshot in chunks of the change list only, makes
    it equal to the target; the same over a socket, from the first chunk or where
    an earlier transfer stopped.  Two flaws: the transfer of a full volume leaves
    out its first chunk when the volume ends inside a chunk, and a failed
    decompression is reported as success. *)

From S2P Require Import Prelude Bytes State Leaf Changelist Delta DeltaSpec DeltaGen DeltaApply.

Section theorems.
Context `{Zlib, Xd3, Uninit, !ZlibLaws, !Xd3Laws}.

(** The device downstream, the source snapshot there, and the delta to be read *)
Record downstream_ok (snapdev : Z -> option blockdev) (src_snap : Z) (src : option (list Z)) (tgt delta : list Z) (s : app) : Prop := {
  dn_source : match src with
              | Some x => src_snap <> u32 (-1) /\ snapdev src_snap = Some (mkDevice x true)
              | None => src_snap = u32 (-1)
              end;
  dn_sized : dv_sized (a_dev2 s) = true;
  dn_length : zlen (dv_bytes (a_dev2 s)) = zlen tgt;
  dn_input : a_in s = delta }.

(** The bytes outside of these chunks *)
Definition agree_outside (bits : Z) (l : list Z) (b1 b2 : list Z) : Prop :=
  forall i, Z.of_nat i / csize bits ∉ l -> b1 !! i = b2 !! i.

Lemma patched_all bits tgt l old new :
  zlen old = zlen tgt -> agree_outside bits l old tgt -> patched bits tgt l old new -> new = tgt.
Proof.
  intros Hl Ho [Hn Hp]. apply list_eq. intros i. destruct (decide (i < length old)%nat).
  - rewrite Hp by done. case_bool_decide; [done|]. by apply Ho.
  - unfold zlen in *. rewrite !lookup_ge_None_2 by lia. done.
Qed.

Section volumes.
Context (bits : Z) (src : option (list Z)) (tgt : list Z) (Hvol : volumes_ok bits src tgt).

Lemma fdsize64_sized d : dv_sized d = true -> fdsize64 d = zlen (dv_bytes d).
Proof. unfold fdsize64. by intros ->. Qed.

Lemma size_not_error n : 0 <= n < 2 ^ 62 -> (n =? u64 (-1)) = false.
Proof. intros Hn. apply Z.eqb_neq. change (u64 (-1)) with (2 ^ 64 - 1). lia. Qed.

Lemma apply_delta_extents_spec L start b snapdev src_snap tgt_snap progress s rest :
  segment bits src tgt L start (zlen L) b -> 0 <= start -> zlen L < 2 ^ 62 -> progress <> Some false ->
  downstream_ok snapdev src_snap src tgt (b ++ rest) s ->
  wp (apply_delta_extents (csize bits) (zlen L - start) (source_device snapdev src_snap) true tgt_snap progress true)
     (fun e s' => e = 0 /\ a_in s' = rest /\ patched bits tgt (chunks_between L start (zlen L)) (dv_bytes (a_dev2 s)) (dv_bytes (a_dev2 s'))) s.
Proof using All.
  intros Hseg Hst HL Hp [Hs Hz Hl Hin]. pose proof (vo_size _ _ _ Hvol) as HT. pose proof (segment_le _ _ _ _ _ _ _ Hseg) as Hle.
  assert (Hrun : forall dev1 ss, app_args_ok bits src (mkAppArgs (csize bits) (zlen L - start) dev1 tgt_snap progress true) ss ->
    wp (apply_loop (S (S (length (a_in s)))) (mkAppArgs (csize bits) (zlen L - start) dev1 tgt_snap progress true) ss (zlen tgt))
      (fun e s' => e = 0 /\ a_in s' = rest /\ patched bits tgt (chunks_between L start (zlen L)) (dv_bytes (a_dev2 s)) (dv_bytes (a_dev2 s'))) s).
  { intros dev1 ss Ha. eapply (apply_loop_spec bits src tgt Hvol _ ss Ha L start (zlen L) b); cbn; try done; try lia.
    rewrite Hin, length_app. lia. }
  unfold apply_delta_extents, source_device. destruct src as [x|].
  - destruct Hs as [Hn Hd]. rewrite (proj2 (Z.eqb_neq _ _)) by done. rewrite Hd. cbn [negb mjoin option_join aa_dev1]. wp_steps.
    pose proof (vo_src _ _ _ Hvol x eq_refl). rewrite !fdsize64_sized by done. cbn [dv_bytes aa_dev1]. rewrite Hl.
    rewrite !size_not_error by (unfold zlen in *; lia). rewrite andb_false_r. apply Hrun. constructor; cbn; try done. by intros ? [= <-].
  - rewrite Hs, Z.eqb_refl. cbn [negb mjoin option_join aa_dev1]. wp_steps. rewrite fdsize64_sized by done. rewrite Hl.
    rewrite !size_not_error by (unfold zlen in *; lia). rewrite bool_decide_eq_false_2 by by intros []. cbn [andb]. apply Hrun. by constructor.
Qed.

Lemma app_read_header hd rest s (Q : Z * list Z -> app -> Prop) :
  a_in s = hd ++ rest -> zlen hd = sizeof_dh -> (forall s', s' = s <| a_in := rest |> -> Q (0, hd) s') -> wp (app_read sizeof_dh [] sizeof_dh) Q s.
Proof.
  intros Ein Hl HQ. unfold app_read. wp_steps. rewrite Ein. unfold zlen in *.
  rewrite length_app, Nat2Z.inj_add, Hl, Z.min_l, Z.ltb_irrefl by lia.
  replace (Z.to_nat sizeof_dh) with (length hd) by lia. rewrite take_app_length. unfold wr. rewrite Hl, Z.leb_refl. wp_steps.
  rewrite drop_nil, app_nil_r. apply HQ. unfold set. by rewrite Ein, drop_app_length.
Qed.

(** The devices upstream and downstream name the same source, and the target
    device downstream differs in chunks of the list only. *)
Lemma delta_applies L b snapdev cl s :
  segment bits src tgt L 0 (zlen L) b -> zlen L < 2 ^ 62 -> is_u32 (cm_src_snap cl) -> is_u32 (cm_tgt_snap cl) ->
  downstream_ok snapdev (cm_src_snap cl) src tgt
    (dh_bytes (mkDh DELTA_MAGIC (zlen L) (csize bits) (cm_src_snap cl) (cm_tgt_snap cl)) ++ b) s ->
  wp (apply_delta snapdev true true)
     (fun e s' => e = 0 /\ a_in s' = [] /\ patched bits tgt L (dv_bytes (a_dev2 s)) (dv_bytes (a_dev2 s'))) s.
Proof using All.
  intros Hseg HL Hs Ht Hdn. pose proof (csize_pos _ _ _ Hvol) as Hcs. unfold MAX_MEM_SIZE in Hcs. unfold apply_delta. wp_step.
  eapply app_read_header; [apply Hdn|unfold zlen; by rewrite length_dh_bytes|]. intros s1 ->. no_error.
  rewrite dh_roundtrip by (cbn; unfold is_u32, is_u64, zlen in *; first [done|lia]). cbn [dh_magic dh_chunk_size dh_chunk_num dh_src_snap dh_tgt_snap].
  change (delta_magic_ok DELTA_MAGIC) with true. cbn [negb]. rewrite (proj2 (Z.eqb_neq _ _)) by lia. wp_step.
  rewrite <- (Z.sub_0_r (zlen L)) at 1. eapply wp_mono.
  { eapply (apply_delta_extents_spec L 0 b snapdev _ _ None _ []); [done|lia|done|done|]. rewrite app_nil_r. by destruct Hdn. }
  cbv beta. intros e s' (-> & Ein & Hp). wp_step. split; [done|]. split; [done|].
  unfold chunks_between, slice in Hp. rewrite drop_0, take_ge in Hp by (unfold zlen; lia). done.
Qed.
End volumes.

(** C7: the round trip of replication.  For every change list, mode and level,
    generating a delta between two snapshots ends without touching memory outside
    of the buffers, and fails only when the file has less room than a header and,
    for every chunk, its contents and the header of an extent take, or when a
    library fails: zlib does not compress a buffer at this level into the room it
    is given, or xdelta neither finds a delta too long nor makes one that works.  The delta that is written without a failure, applied downstream
    to a device that differs from the target snapshot only in chunks of the list
    (the source snapshot there having the contents of the source upstream),
    is applied without an error, to its end, and makes the device equal to the
    target snapshot. *)
Theorem delta_roundtrip bits src tgt mode level cl L snapdev g :
  volumes_ok bits src tgt -> devices_ok snapdev (cm_src_snap cl) (cm_tgt_snap cl) src tgt -> list_mem_ok bits src tgt cl L ->
  is_u32 (cm_src_snap cl) -> is_u32 (cm_tgt_snap cl) -> gen_ok g -> g_out g = [] ->
  wp (generate_delta mode level cl snapdev) (fun e g' =>
    e < 0 /\ (e = - ENOSPC /\ g_room g < delta_room bits (zlen L) \/ ~ libs_ok mode level) \/
    e = 0 /\ forall snapdev' s,
      downstream_ok snapdev' (cm_src_snap cl) src tgt (g_out g') s -> agree_outside bits L (dv_bytes (a_dev2 s)) tgt ->
      wp (apply_delta snapdev' true true) (fun e s' => e = 0 /\ a_in s' = [] /\ dv_bytes (a_dev2 s') = tgt) s) g.
Proof.
  intros Hvol Hdev Hl Hs Ht Hg Ho. eapply wp_mono; [by eapply (generate_delta_spec bits src tgt Hvol)|]. cbv beta.
  intros e g' [|(-> & b & Hseg & Eo)]; [by left|]. right. split; [done|]. intros snapdev' s Hdn Hag. rewrite Eo, Ho in Hdn.
  eapply wp_mono; [eapply (delta_applies bits src tgt Hvol L b snapdev' cl s); [done|apply (lo_max _ _ _ _ _ (proj2 Hl))|done|done|done]|].
  cbv beta. intros e s' (-> & Ein & Hp). split; [done|]. split; [done|]. eapply patched_all; [apply Hdn|done|done].
Qed.

(** ** Transfers over a socket *)

(** Resuming skips chunks that lie before the address only. *)
Lemma resume_skip_spec {S} bits x tgt cl L start_addr fuel k (s : S) :
  volumes_ok bits (Some x) tgt -> list_mem_ok bits (Some x) tgt cl L -> 0 <= k <= zlen L ->
  (Z.to_nat (zlen L - k) < fuel)%nat -> (forall j c, (j < Z.to_nat k)%nat -> L !! j = Some c -> c * csize bits < start_addr) ->
  wp (resume_skip fuel cl start_addr k) (fun r s' => s' = s /\ k <= r <= zlen L /\
    forall j c, (j < Z.to_nat r)%nat -> L !! j = Some c -> c * csize bits < start_addr) s.
Proof.
  intros Hvol [Hb Hl]. pose proof (lo_in _ _ _ _ _ Hl) as Hin. rewrite Forall_lookup in Hin.
  pose proof (vo_size _ _ _ Hvol) as HT. pose proof (vo_bits _ _ _ Hvol) as Hbits.
  revert k. induction fuel as [|fuel IH]; intros k Hk Hf Hbelow; [lia|]. cbn [resume_skip]. rewrite (lo_count _ _ _ _ _ Hl).
  destruct (Z.ltb_spec k (zlen L)) as [Hlt|Hge]; cbn [negb]; [|wp_step; split; [done|]; split; [lia|done]].
  destruct (lookup_lt_is_Some_2 L (Z.to_nat k)) as [c Hc]; [unfold zlen in *; lia|]. unfold cl_word.
  rewrite (lo_word _ _ _ _ _ Hl k c) by (done || lia). wp_steps. rewrite Hb, Z.shiftl_mul_pow2 by lia. fold (csize bits).
  pose proof (Hin _ _ Hc). pose proof (csize_pos _ _ _ Hvol). rewrite u64_id by (unfold is_u64; nia).
  destruct (Z.ltb_spec (c * csize bits) start_addr).
  - eapply wp_mono; [apply (IH (k + 1)); [lia|lia|]|].
    + intros j c' Hj Hjc. destruct (decide (j = Z.to_nat k)) as [->|]; [by simplify_eq|]. apply (Hbelow j); [lia|done].
    + cbv beta. intros r s' (-> & Hr & Hx). split; [done|]. split; [lia|done].
  - wp_step. split; [done|]. split; [lia|done].
Qed.

(** What was sent from a position of the list on is applied by the server
    downstream. *)
Definition transfer_result (bits : Z) (src : option (list Z)) (tgt L : list Z) (src_snap skip : Z) (e : Z) (g' : gen) : Prop :=
  e = 0 /\ exists hd b, g_out g' = hd ++ b /\ zlen hd = sizeof_dh /\
    forall snapdev progress s, progress <> Some false -> downstream_ok snapdev src_snap src tgt b s ->
      wp (delta_server hd snapdev true progress true) (fun ans s' => ans = [SEND_DELTA_PROCEED; SEND_DELTA_DONE] /\ a_in s' = [] /\
        patched bits tgt (chunks_between L skip (zlen L)) (dv_bytes (a_dev2 s)) (dv_bytes (a_dev2 s'))) s.

Lemma transfer_spec bits src tgt L cl up src_snap tgt_snap snapdev mode level progress start_addr skip g :
  volumes_ok bits src tgt -> devices_ok snapdev src_snap tgt_snap src tgt -> list_mem_ok bits src tgt cl L ->
  is_u32 src_snap -> is_u32 tgt_snap -> progress <> Some false -> gen_ok g -> g_out g = [] -> 0 <= skip <= zlen L ->
  libs_ok mode level -> delta_room bits (zlen L) <= g_room g ->
  replication_plan up src_snap tgt_snap start_addr g = Done (Some (cl, skip)) g ->
  wp (ddsnap_replication_send up src_snap tgt_snap snapdev mode level progress start_addr true true)
     (transfer_result bits src tgt L src_snap skip) g.
Proof.
  intros Hvol Hdev [Hb Hl] Hs Ht Hp Hg Ho Hk Hlibs Hroom Hplan. unfold ddsnap_replication_send.
  unfold wp at 1. rewrite (bind_run _ _ _ _ _ Hplan). fold (wp (S := gen) (A := Z)). cbv iota beta.
  pose proof (csize_pos _ _ _ Hvol) as Hcs. unfold MAX_MEM_SIZE in Hcs. pose proof (lo_max _ _ _ _ _ Hl) as HL.
  change (wp (err ← gen_write (dh_bytes (mkDh DELTA_MAGIC (u64 (cm_count cl - skip)) (u32 (Z.shiftl 1 (cm_bits cl))) src_snap tgt_snap));
    if err <? 0 then mret err
    else
      err ← generate_delta_extents mode level cl snapdev src_snap tgt_snap progress skip;
      if err <? 0 then mret err else mret 0) (transfer_result bits src tgt L src_snap skip) g).
  rewrite Hb, (csize_u32 _ _ _ Hvol), (lo_count _ _ _ _ _ Hl), u64_id by (unfold is_u64; lia). set (hd := dh_bytes _). wp_step. apply wp_write.
  2:{ intros g' Hr. exfalso. eapply (header_room bits src tgt Hvol _ L) in Hr. lia. }
  intros g1 ->. no_error. eapply wp_mono.
  { eapply (generate_delta_extents_spec bits src tgt Hvol mode level cl L); [exact Hdev|by split|done|done|by destruct Hg]. }
  cbv beta. intros e g' [[He [[_ Hr]|Hbad]]|(-> & b & Eo & Hseg)]; [|done|].
  { exfalso. cbn in Hr. eapply (extents_room_left bits src tgt Hvol) in Hr; [exact (Zlt_not_le _ _ Hr Hroom)|lia]. }
  no_error. split; [done|]. cbn in Eo. rewrite Ho in Eo. exists hd, b. split; [exact Eo|]. unfold hd.
  split; [unfold zlen; by rewrite length_dh_bytes|]. intros snapdev' progress' s Hp' Hdn. unfold delta_server.
  rewrite length_dh_bytes by done. change (Z.of_nat 28 <? sizeof_dh) with false. cbv iota.
  rewrite dh_roundtrip by (cbn; unfold is_u32, is_u64 in *; first [done|lia]). cbn [dh_chunk_size dh_chunk_num dh_src_snap dh_tgt_snap].
  rewrite (proj2 (Z.eqb_neq _ _)) by lia. wp_step. eapply wp_mono.
  { eapply (apply_delta_extents_spec bits src tgt Hvol L skip b snapdev' _ _ _ s []); [done|lia|done|done|by rewrite app_nil_r]. }
  cbv beta. intros e s' (-> & Ein & Hpat). wp_step. done.
Qed.

(** The chunks of a list that start at or after an address *)
Definition chunks_from (bits start_addr : Z) (L : list Z) : list Z :=
  filter (fun c => start_addr <= c * csize bits) L.

(** C8: a transfer between two snapshots, over a socket.  When the socket takes as
    many bytes as the chunks of the list and their headers have, and zlib and
    xdelta do their work, the sender ends without an error and without touching
    memory outside of its buffers.  The server downstream, given the first message
    and the stream, answers that it proceeds and that it is done, and its device
    is the target snapshot, if it differed from it only in chunks of the change
    list from [start_addr] on: the position where an earlier transfer stopped, or
    0. *)
Theorem replication_correct bits x tgt L cl up src_snap tgt_snap snapdev mode level progress start_addr g :
  volumes_ok bits (Some x) tgt -> devices_ok snapdev src_snap tgt_snap (Some x) tgt -> up_changes up = Some cl ->
  list_mem_ok bits (Some x) tgt cl L -> is_u32 src_snap -> is_u32 tgt_snap -> progress <> Some false -> gen_ok g -> g_out g = [] ->
  libs_ok mode level -> delta_room bits (zlen L) <= g_room g ->
  wp (ddsnap_replication_send up src_snap tgt_snap snapdev mode level progress start_addr true true) (fun e g' =>
    e = 0 /\ exists hd b, g_out g' = hd ++ b /\ zlen hd = sizeof_dh /\
      forall snapdev' progress' s, progress' <> Some false -> downstream_ok snapdev' src_snap (Some x) tgt b s ->
        agree_outside bits (chunks_from bits start_addr L) (dv_bytes (a_dev2 s)) tgt ->
        wp (delta_server hd snapdev' true progress' true) (fun ans s' =>
          ans = [SEND_DELTA_PROCEED; SEND_DELTA_DONE] /\ a_in s' = [] /\ dv_bytes (a_dev2 s') = tgt) s) g.
Proof.
  intros Hvol Hdev Hup Hl Hs Ht Hp Hg Ho Hlibs Hroom. pose proof (lo_count _ _ _ _ _ (proj2 Hl)) as Hc.
  assert (Hskip : wp (resume_skip (S (Z.to_nat (cm_count cl))) cl start_addr 0) (fun r s' => s' = g /\ 0 <= r <= zlen L /\
    forall j c, (j < Z.to_nat r)%nat -> L !! j = Some c -> c * csize bits < start_addr) g).
  { eapply resume_skip_spec; [done|done|unfold zlen; lia|rewrite Hc; lia|]. intros j c Hj. lia. }
  apply wp_done in Hskip as (skip & g1 & Erun & -> & Hk & Hbelow).
  eapply wp_mono; [eapply (transfer_spec bits (Some x) tgt L cl); try done|].
  - unfold replication_plan. destruct Hdev as [[Hn _] _]. rewrite (proj2 (Z.eqb_neq _ _)) by done. rewrite Hup.
    by rewrite (bind_run _ _ _ _ _ Erun).
  - intros e g' (-> & hd & b & Eo & Hhd & Happ). split; [done|]. exists hd, b. split; [done|]. split; [done|].
    intros snapdev' progress' s Hp' Hdn Hag. eapply wp_mono; [by apply Happ|]. cbv beta. intros ans s' (-> & Ein & Hpat).
    split; [done|]. split; [done|]. eapply patched_all; [apply Hdn| |exact Hpat]. intros i Hi. apply Hag. intros Hin. apply Hi.
    unfold chunks_from in Hin. apply list_elem_of_filter in Hin as [Hfrom Hin]. apply list_elem_of_lookup in Hin as [j Hj].
    assert (Hjk : (Z.to_nat skip <= j)%nat). { destruct (decide (j < Z.to_nat skip)%nat) as [Hlt|]; [|lia]. pose proof (Hbelow j _ Hlt Hj). lia. }
    unfold chunks_between, slice. rewrite take_ge by (rewrite length_drop; unfold zlen; lia).
    apply list_elem_of_lookup. exists (j - Z.to_nat skip)%nat. rewrite lookup_drop. rewrite <- Hj. f_equal. lia.
Qed.

(** ** Full volumes *)

(** The number of chunks of a volume, and the chunks that are skipped *)
Lemma fullvolume_count bits size tgt_snap sectors :
  0 <= bits <= 20 -> size = sectors * 512 -> 0 <= size < 2 ^ 62 ->
  let cl := fullvolume_list bits sectors tgt_snap in
  cm_count cl = size / csize bits + (if size mod csize bits =? 0 then 0 else 1) /\
  fullvolume_skip cl sectors 0 = if size mod csize bits =? 0 then 0 else 1.
Proof.
  intros Hb Hs Hr cl. assert (Hcs : 1 <= csize bits). { unfold csize. pose proof (Z.pow_pos_nonneg 2 bits). lia. }
  assert (Hmask : u64 (Z.lnot (Z.shiftl (-1) bits)) = Z.ones bits).
  { rewrite Z.shiftl_mul_pow2 by lia. unfold Z.lnot. rewrite Z.ones_equiv.
    assert (2 ^ bits <= 2 ^ 20) by (apply Z.pow_le_mono_r; lia). unfold csize in Hcs. rewrite u64_id by (unfold is_u64; lia). lia. }
  assert (Hdiv : 0 <= size / csize bits <= size). { split; [apply Z.div_pos; lia|apply Z.div_le_upper_bound; nia]. }
  assert (Hcount : cm_count cl = size / csize bits + (if size mod csize bits =? 0 then 0 else 1)).
  { unfold cl, fullvolume_list. cbn [cm_count]. rewrite <- Hs, (u64_id size) by (unfold is_u64; lia). rewrite Hmask, Z.land_ones by lia.
    rewrite Z.shiftr_div_pow2 by lia. fold (csize bits). apply u64_id. unfold is_u64. destruct (_ =? _); lia. }
  split; [done|]. unfold fullvolume_skip. rewrite Hcount. unfold cl, fullvolume_list. cbn [cm_bits].
  rewrite <- Hs, !(u64_id size) by (unfold is_u64; lia). rewrite Z.sub_0_r, (u64_id size), Z.shiftr_div_pow2 by (unfold is_u64; lia).
  fold (csize bits). destruct (_ =? _); rewrite u64_id by (unfold is_u64; lia); lia.
Qed.

Lemma fullvolume_list_ok bits tgt tgt_snap sectors :
  volumes_ok bits None tgt -> zlen tgt = sectors * 512 ->
  list_mem_ok bits None tgt (fullvolume_list bits sectors tgt_snap)
    (seqZ 0 (zlen tgt / csize bits + (if zlen tgt mod csize bits =? 0 then 0 else 1))).
Proof.
  intros Hvol Hs. pose proof (csize_pos _ _ _ Hvol) as Hcs. pose proof (vo_size _ _ _ Hvol) as HT.
  pose proof (fullvolume_count bits (zlen tgt) tgt_snap sectors (vo_bits _ _ _ Hvol) Hs) as [Hc _]; [unfold zlen in *; lia|].
  set (n := zlen tgt / csize bits + _) in *.
  assert (Hn : 0 <= n <= zlen tgt + 1).
  { unfold n. assert (0 <= zlen tgt / csize bits <= zlen tgt); [|destruct (_ =? _); lia].
    split; [apply Z.div_pos; unfold zlen; lia|apply Z.div_le_upper_bound; unfold zlen in *; nia]. }
  assert (Hz : zlen (seqZ 0 n) = n) by (unfold zlen; rewrite length_seqZ; lia).
  split; [done|]. constructor; rewrite ?Hz; try done.
  - unfold zlen in *. lia.
  - apply Forall_forall. intros c Hin%elem_of_seqZ. split; [lia|].
    pose proof (Z.div_mod (zlen tgt) (csize bits) ltac:(lia)). pose proof (Z.mod_pos_bound (zlen tgt) (csize bits) ltac:(lia)).
    unfold n in Hin. destruct (Z.eqb_spec (zlen tgt mod csize bits) 0); nia.
Qed.

Lemma div_lt_chunks size cs i :
  1 <= cs -> 0 <= i < size -> i / cs < size / cs + (if size mod cs =? 0 then 0 else 1).
Proof.
  intros Hc Hi. apply Z.div_lt_upper_bound; [lia|]. pose proof (Z.div_mod size cs ltac:(lia)). pose proof (Z.mod_pos_bound size cs ltac:(lia)).
  destruct (Z.eqb_spec (size mod cs) 0); nia.
Qed.

Lemma elem_of_chunks n skip c : 0 <= skip <= n -> c < n -> c ∈ chunks_between (seqZ 0 n) skip n <-> skip <= c.
Proof.
  intros Hs Hc. unfold chunks_between, slice. rewrite take_ge by (rewrite length_drop, length_seqZ; lia).
  rewrite list_elem_of_lookup. setoid_rewrite lookup_drop. setoid_rewrite lookup_seqZ. split.
  - intros (j & -> & Hj). lia.
  - intros Hle. exists (Z.to_nat (c - skip)). lia.
Qed.

(** C36: the transfer of a full volume from its start.  When the socket takes the
    volume with its headers and the libraries do their work, the sender ends
    without an error and downstream answers that it is done.  Then the device is the volume that was sent if that has a whole
    number of chunks.  If it ends inside a chunk, the first chunk was left out:
    downstream it has the contents it had before, and the rest is the volume. *)
Theorem full_replication_first_chunk bits tgt up tgt_snap snapdev mode level progress g :
  volumes_ok bits None tgt -> snapdev tgt_snap = Some (mkDevice tgt true) -> up_chunksize_bits up = bits ->
  zlen tgt = up_sectors up * 512 -> is_u32 tgt_snap -> progress <> Some false -> gen_ok g -> g_out g = [] ->
  libs_ok mode level -> delta_room bits (zlen tgt / csize bits + 1) <= g_room g ->
  wp (ddsnap_replication_send up (u32 (-1)) tgt_snap snapdev mode level progress 0 true true) (fun e g' =>
    e = 0 /\ exists hd b, g_out g' = hd ++ b /\ zlen hd = sizeof_dh /\
      forall snapdev' progress' s, progress' <> Some false -> downstream_ok snapdev' (u32 (-1)) None tgt b s ->
        wp (delta_server hd snapdev' true progress' true) (fun ans s' =>
          ans = [SEND_DELTA_PROCEED; SEND_DELTA_DONE] /\
          if zlen tgt mod csize bits =? 0 then dv_bytes (a_dev2 s') = tgt
          else dv_bytes (a_dev2 s') = take (Z.to_nat (csize bits)) (dv_bytes (a_dev2 s)) ++ drop (Z.to_nat (csize bits)) tgt) s) g.
Proof.
  intros Hvol Hdev <- Hs Ht Hp Hg Ho Hlibs Hroom. set (bits := up_chunksize_bits up) in *. pose proof (csize_pos _ _ _ Hvol) as Hcs. pose proof (vo_size _ _ _ Hvol) as HT.
  pose proof (fullvolume_list_ok bits tgt tgt_snap (up_sectors up) Hvol Hs) as Hl.
  pose proof (fullvolume_count bits (zlen tgt) tgt_snap _ (vo_bits _ _ _ Hvol) Hs) as [Hc Hskip]; [unfold zlen in *; lia|].
  set (n := zlen tgt / csize bits + (if zlen tgt mod csize bits =? 0 then 0 else 1)) in *. set (skip := if zlen tgt mod csize bits =? 0 then 0 else 1) in *.
  assert (Hd : 0 <= zlen tgt / csize bits) by (apply Z.div_pos; unfold zlen; lia).
  assert (Hz : zlen (seqZ 0 n) = n). { unfold zlen. rewrite length_seqZ. unfold n. fold skip. destruct (_ =? _); lia. }
  eapply wp_mono.
  { eapply (transfer_spec bits None tgt (seqZ 0 n) (fullvolume_list bits (up_sectors up) tgt_snap) up _ _ _ _ _ _ 0 skip); try done.
    - rewrite Hz. unfold skip, n. destruct (_ =? _); lia.
    - etransitivity; [|exact Hroom]. rewrite Hz. unfold delta_room, extents_room, sizeof_deh, n. destruct (_ =? _); nia.
    - unfold replication_plan. rewrite Z.eqb_refl. fold bits. by rewrite Hskip. }
  intros e g' (-> & hd & b & Eo & Hhd & Happ). split; [done|]. exists hd, b. split; [done|]. split; [done|].
  intros snapdev' progress' s Hp' Hdn. eapply wp_mono; [by apply Happ|]. cbv beta. intros ans s' (-> & Ein & [Hlen Hpat]). split; [done|].
  assert (Hin : forall i, (i < length tgt)%nat -> Z.of_nat i / csize bits ∈ chunks_between (seqZ 0 n) skip (zlen (seqZ 0 n)) <-> skip <= Z.of_nat i / csize bits).
  { intros i Hi. rewrite Hz. apply elem_of_chunks; [unfold n, skip; destruct (_ =? _); lia|]. apply div_lt_chunks; unfold zlen; lia. }
  pose proof (dn_length _ _ _ _ _ _ Hdn) as Hdl. assert (Hdl' : length (dv_bytes (a_dev2 s)) = length tgt) by (unfold zlen in Hdl; lia).
  destruct (zlen tgt mod csize bits =? 0) eqn:Em; unfold skip in *.
  - apply list_eq. intros i. destruct (decide (i < length tgt)%nat).
    + rewrite Hpat by lia. rewrite bool_decide_eq_true_2; [done|]. apply Hin; [done|]. apply Z.div_pos; lia.
    + rewrite !lookup_ge_None_2 by lia. done.
  - apply list_eq. intros i. destruct (decide (i < length tgt)%nat) as [Hi|Hi].
    + rewrite Hpat by lia. rewrite (bool_decide_ext _ _ (Hin i Hi)). destruct (decide (Z.of_nat i < csize bits)) as [Hlt|Hge].
      * rewrite bool_decide_eq_false_2 by (rewrite Z.div_small; lia). rewrite lookup_app_l by (rewrite length_take; lia).
        by rewrite lookup_take_lt by lia.
      * rewrite bool_decide_eq_true_2 by (apply Z.div_le_lower_bound; lia). rewrite lookup_app_r by (rewrite length_take; lia).
        rewrite length_take, Nat.min_l, lookup_drop by lia. f_equal. lia.
    + rewrite !lookup_ge_None_2; [done| |lia]. rewrite length_app, length_take, length_drop. lia.
Qed.

(** ** Corrupt data *)

Lemma apply_extent_corrupt aa src_size tgt_size k d data rest s :
  deh_ok d -> de_magic_num d = MAGIC_NUM -> de_gzip_on d = 1 -> de_length d = zlen data -> zlen data <= MAX_MEM_SIZE ->
  (forall room, (uncompress room data).1 = Z_DATA_ERROR /\ zlen (uncompress room data).2 <= MAX_MEM_SIZE) ->
  aa_dev1 aa = None -> a_in s = deh_bytes d ++ data ++ rest ->
  wp (apply_extent aa src_size tgt_size k) (fun r s' => r = inr 0 /\ a_dev2 s' = a_dev2 s) s.
Proof.
  intros Hok Hm Hg Hlen Hmax Hbad Hd1 Ein. unfold apply_extent. wp_step.
  eapply wp_app_read; [exact Ein|unfold zlen; by rewrite length_deh_bytes|done|]. intros hd [hrest Ehd]. no_error.
  assert (deh_of_bytes hd = d) as -> by (rewrite Ehd; by apply deh_of_prefix).
  rewrite Hm, Z.eqb_refl. cbn [negb]. unfold check_source. rewrite Hd1. wp_steps. no_error. set (size := if _ <? _ then _ else _).
  unfold read_delta. rewrite Hg, Hlen, Z.eqb_refl. wp_steps. eapply wp_app_read; [done|done|done|]. intros buf Hb. no_error.
  eapply wp_rd; [exact Hb|done|done|]. specialize (Hbad size). destruct (uncompress size data) as [ret out]. cbn in Hbad. destruct Hbad as [-> Hout].
  wp_step. apply wp_wr; [done|]. intros buf2 Hb2. wp_steps. cbn. wp_steps. done.
Qed.

(** C37: a failed decompression counts as success.  When the first extent that
    arrives holds data that zlib cannot decompress, the server downstream stops
    there, writes nothing, and answers that the delta is done. *)
Theorem failed_decompression_reported_done dh d data rest snapdev progress s :
  length (dh_magic dh) = 8%nat -> is_u64 (dh_chunk_num dh) -> is_u32 (dh_chunk_size dh) -> is_u32 (dh_tgt_snap dh) ->
  dh_src_snap dh = u32 (-1) -> 0 < dh_chunk_num dh -> 0 < dh_chunk_size dh ->
  deh_ok d -> de_magic_num d = MAGIC_NUM -> de_gzip_on d = 1 -> de_length d = zlen data -> zlen data <= MAX_MEM_SIZE ->
  (forall room, (uncompress room data).1 = Z_DATA_ERROR /\ zlen (uncompress room data).2 <= MAX_MEM_SIZE) ->
  a_in s = deh_bytes d ++ data ++ rest ->
  wp (delta_server (dh_bytes dh) snapdev true progress true) (fun ans s' =>
    ans = [SEND_DELTA_PROCEED; SEND_DELTA_DONE] /\ a_dev2 s' = a_dev2 s) s.
Proof.
  intros Hm Hn Hc Ht Hs Hn0 Hc0 Hok Hmg Hg Hlen Hmax Hbad Ein. unfold delta_server.
  rewrite length_dh_bytes by done. change (Z.of_nat 28 <? sizeof_dh) with false. cbv iota.
  rewrite dh_roundtrip by (first [done | rewrite Hs; apply u32_range]). rewrite (proj2 (Z.eqb_neq _ _)) by lia. wp_step.
  eapply (wp_mono _ (fun e s' => e = 0 /\ a_dev2 s' = a_dev2 s)).
  2:{ cbv beta. intros e s' [-> Hd]. wp_step. done. }
  unfold apply_delta_extents, source_device. rewrite Hs, Z.eqb_refl. cbn [negb mjoin option_join aa_dev1]. wp_steps.
  rewrite bool_decide_eq_false_2 by by intros []. cbn [andb]. destruct (_ =? u64 (-1)); [by wp_step|].
  unfold apply_loop. cbn [loopM]. fold (mbind (M := M app) (A := Z + Z) (B := Z)). apply wp_bind. cbn [aa_chunk_count].
  rewrite (proj2 (Z.ltb_lt _ _)) by done. eapply wp_mono; [by eapply apply_extent_corrupt|]. cbv beta. by intros r s' [-> Hd].
Qed.
End theorems.
