(* ===== verification/WitnessDelta.v ===== *)
(** * Witnesses for replication

    A small compressor (runs of one byte) and a small delta code (equal contents,
    or the new ones) have the laws that are asked of zlib and xdelta; with them
    the hypotheses of the theorems of [DeltaTheorems] hold on small volumes. *)

From S2P Require Import Prelude Bytes State Leaf Changelist Delta DeltaSpec DeltaGen DeltaApply DeltaTheorems.

(** ** Libraries *)

Definition pack (d : list Z) : list Z :=
  match d with
  | x :: _ => if forallb (Z.eqb x) d && (zlen d <? 2 ^ 64) then 1 :: x :: le_split 8 (zlen d) else 0 :: d
  | [] => [0]
  end.
Definition unpack (p : list Z) : option (list Z) :=
  match p with
  | 0 :: d => Some d
  | 1 :: x :: n => Some (replicate (Z.to_nat (le_combine n)) x)
  | _ => None
  end.

#[export] Instance run_zlib : Zlib := {|
  compress2 room d _ := if zlen (pack d) <=? room then (Z_OK, pack d) else (Z_BUF_ERROR, []);
  uncompress room p := match unpack p with
                       | Some d => if zlen d <=? room then (Z_OK, d) else (Z_BUF_ERROR, [])
                       | None => (Z_DATA_ERROR, [])
                       end |}.

Lemma forallb_replicate (x : Z) l : forallb (Z.eqb x) l = true -> l = replicate (length l) x.
Proof.
  induction l as [|y l IH]; [done|]. cbn. intros [Hx Hl]%andb_prop. apply Z.eqb_eq in Hx as <-. f_equal. auto.
Qed.

Lemma unpack_pack d : unpack (pack d) = Some d.
Proof.
  destruct d as [|x d]; [done|]. unfold pack. destruct (forallb _ _) eqn:E; [|done]. cbn [andb].
  destruct (Z.ltb_spec (zlen (x :: d)) (2 ^ 64)) as [Hlt|]; [|done]. cbn [unpack].
  rewrite le_combine_split, Z.mod_small by (unfold zlen in *; lia). unfold zlen. rewrite Nat2Z.id.
  by rewrite <- (forallb_replicate _ _ E).
Qed.

#[export] Instance run_zlib_laws : ZlibLaws.
Proof.
  constructor; cbn.
  - intros room d _ Hr. destruct (Z.leb_spec (zlen (pack d)) room); cbn; [done|lia].
  - intros room d _. destruct (_ <=? _); cbn; set_solver.
  - intros room d _ out room'. destruct (_ <=? _); [|done]. intros [= <-] Hl. rewrite unpack_pack.
    by rewrite (proj2 (Z.leb_le _ _)).
Defined.

(** The stream: the source, the input, and whether the output is pending *)
Definition bounded (l : list Z) : list Z := if zlen l <? 2 ^ 31 then l else [].
#[export] Instance small_xd3 : Xd3 := {|
  xd3_stream := list Z * list Z * bool;
  xd3_config_stream _ := Some ([], [], true);
  xd3_set_source s in1 := Some (in1, [], true);
  xd3_avail_input s in2 := (s.1.1, in2, true);
  xd3_encode_input s := match s with
    | (in1, in2, true) => (XD3_OUTPUT, (in1, if bool_decide (in1 = in2) then [0] else 1 :: in2, false))
    | _ => (XD3_WINFINISH, s)
    end;
  xd3_decode_input s := if s.2 then
      match s.1.2 with
      | 0 :: _ => (XD3_OUTPUT, (s.1.1, s.1.1, false))
      | 1 :: in2 => (XD3_OUTPUT, (s.1.1, in2, false))
      | _ => (1, s)
      end
    else (XD3_WINFINISH, s);
  xd3_next_out s := bounded s.1.2;
  xd3_consume_output s := s;
  xd3_calls _ := 2%nat |}.

#[export] Instance small_xd3_laws : Xd3Laws.
Proof.
  constructor.
  - intros w in1 in2. unfold delta_chunk_helper. cbn. destruct (_ <? _); eauto.
  - intros w in1 in2. unfold delta_chunk_helper. cbn. destruct in2 as [|[|[]|] in2]; cbn; try (destruct (w <? _); cbn); eauto.
  - intros s. cbn. unfold bounded. destruct (Z.ltb_spec (zlen s.1.2) (2 ^ 31)); [done|]. cbn. lia.
Defined.

(** They do their work on everything that fits into a buffer. *)
Lemma pack_short d : zlen (pack d) <= zlen d + 10.
Proof. unfold pack. destruct d as [|x d]; [done|]. destruct (_ && _); unfold zlen; cbn [length]; rewrite ?length_le_split; lia. Qed.

Lemma run_zlib_ok level : zlib_ok level.
Proof.
  intros d n Hn. cbn. pose proof (pack_short d) as Hp. pose proof (gzip_room n) as Hg. unfold zlen in *.
  assert (0 <= Z.shiftr n 9) by (apply Z.shiftr_nonneg; lia).
  rewrite u64_id by (unfold is_u64, MAX_MEM_SIZE in *; rewrite Z.shiftr_div_pow2 in * by lia;
    assert (n / 2 ^ 9 <= n) by (apply Z.div_le_upper_bound; lia); lia).
  by rewrite (proj2 (Z.leb_le _ _)) by lia.
Qed.

Lemma bounded_id l : zlen l < 2 ^ 31 -> bounded l = l.
Proof. unfold bounded. intros Hl. by rewrite (proj2 (Z.ltb_lt _ _)). Qed.

Lemma small_xdelta_ok : xdelta_ok.
Proof.
  intros in1 in2 Hl n Hn. unfold delta_chunk_helper. cbn. unfold MAX_MEM_SIZE in Hn. destruct (decide (in1 = in2)) as [->|Hne].
  - rewrite bool_decide_eq_true_2 by done. change (bounded [0]) with [0]. cbn [length].
    change (u32 (Z.of_nat 0 + Z.of_nat 1)) with 1.
    destruct (Z.ltb_spec n 1); [exists []; by left|]. exists [0]. right. split; [done|]. cbn.
    rewrite (bounded_id in2) by (unfold zlen; lia). fold n. rewrite u32_id by (unfold is_u32; lia). by rewrite (proj2 (Z.ltb_ge _ _)) by lia.
  - rewrite bool_decide_eq_false_2 by done. rewrite bounded_id by (unfold zlen; cbn [length]; lia). cbn [length].
    rewrite u32_id by (unfold is_u32; lia). rewrite (proj2 (Z.ltb_lt _ _)) by lia. exists []. by left.
Qed.

Lemma libs16 mode level : libs_ok mode level.
Proof. split; [apply run_zlib_ok|]. right. apply small_xdelta_ok. Qed.

#[export] Instance zero_memory : Uninit := fun _ => 170.

(** ** Two snapshots of 16 bytes in chunks of 4 *)

Definition gen0 : gen := mkGen (mkDeh MAGIC_NUM 0 0 0 0 0 0 0) [] [] [] [] [] 0 MAX_MEM_SIZE 0 0 0 0 [] (2 ^ 40) [] [].
Definition app0 (delta bytes : list Z) : app := mkApp delta (mkDevice bytes true) [] [] [] [] 0 0 [] [].
Definition old16 : list Z := replicate 16 1.
Definition new16 : list Z := [1; 1; 1; 1; 2; 2; 2; 2; 1; 2; 3; 4; 5; 6; 7; 8].
Definition snaps (tag : Z) : option blockdev :=
  if tag =? 1 then Some (mkDevice old16 true) else if tag =? 2 then Some (mkDevice new16 true) else None.
Definition changes : change_list := mkCl 1024 2 1 2 [1; 2; 3].

(** A run from end to end: the results of both sides and the device *)
Definition roundtrip (mode : Z) : option (Z * Z * list Z) :=
  match generate_delta mode 0 (cm_of (fun _ => 0) changes) snaps gen0 with
  | Done e g => match apply_delta snaps true true (app0 (g_out g) old16) with
                | Done e' s => Some (e, e', dv_bytes (a_dev2 s))
                | Halt _ => None
                end
  | Halt _ => None
  end.

Example roundtrip_raw : roundtrip RAW = Some (0, 0, new16).
Proof. vm_compute. reflexivity. Qed.
Example roundtrip_xdelta : roundtrip XDELTA = Some (0, 0, new16).
Proof. vm_compute. reflexivity. Qed.
Example roundtrip_best : roundtrip BEST_COMP = Some (0, 0, new16).
Proof. vm_compute. reflexivity. Qed.

(** A word after the list that continues it makes a good delta fail. *)
Example stale_word_fails :
  match generate_delta RAW 0 (cm_of (fun _ => 4) changes) snaps gen0 with Done e _ => e <? 0 | Halt _ => false end = true.
Proof. vm_compute. reflexivity. Qed.

Lemma volumes16 : volumes_ok 2 (Some old16) new16.
Proof.
  constructor; [lia|done|left; by exists 4|]. intros s [= <-]. vm_compute. split; [by intros|done].
Defined.

Lemma gen0_ok : gen_ok gen0.
Proof. constructor; cbn; [done|by split|lia]. Defined.

(** A device of 16 bytes that is the new one up to byte [n] *)
Lemma agree_16 n l old :
  old = take n new16 ++ drop n old16 -> forallb (fun i => bool_decide (Z.of_nat i / csize 2 ∈ l)) (seq n (16 - n)) = true -> agree_outside 2 l old new16.
Proof.
  intros -> Hl i Hi. destruct (decide (i < n)%nat) as [Hlt|].
  - destruct (decide (i < 16)%nat); [|by rewrite !lookup_ge_None_2 by (rewrite ?length_app, ?length_take, ?length_drop; cbn; lia)].
    rewrite lookup_app_l by (rewrite length_take; cbn; lia). by apply lookup_take_lt.
  - destruct (decide (i < 16)%nat); [destruct Hi; rewrite forallb_forall in Hl; specialize (Hl i); rewrite bool_decide_eq_true in Hl; apply Hl, in_seq; lia|].
    by rewrite !lookup_ge_None_2 by (rewrite ?length_app, ?length_take, ?length_drop; cbn; lia).
Qed.

(** The delta is generated, and downstream it makes the new volume of the old. *)
Lemma delta_roundtrip_witness :
  wp (generate_delta BEST_COMP 0 (cm_of (fun _ => 0) changes) snaps) (fun e g' => e = 0 /\
    wp (apply_delta snaps true true) (fun e s' => e = 0 /\ a_in s' = [] /\ dv_bytes (a_dev2 s') = new16) (app0 (g_out g') old16)) gen0.
Proof.
  eapply wp_mono.
  { apply (delta_roundtrip 2 (Some old16) new16 BEST_COMP 0 (cm_of (fun _ => 0) changes) [1; 2; 3] snaps gen0).
    - exact volumes16.
    - by repeat split.
    - apply (cm_of_list_ok 2 old16 new16 (fun _ => 0) changes); [done|done|done| |].
      + intros c [= <-]. lia.
      + repeat constructor; vm_compute; congruence.
    - by vm_compute.
    - by vm_compute.
    - exact gen0_ok.
    - reflexivity. }
  cbv beta. intros e g' [[_ [[_ Hr]|Hbad]]|(-> & Happ)]; [discriminate Hr|by destruct Hbad; apply libs16|].
  split; [done|]. apply Happ; [by constructor|]. apply (agree_16 4); by vm_compute.
Defined.

(** ** A transfer that is resumed at byte 8 *)

Definition stream16 : cl_mem := default (mkCm 0 0 0 0 (fun _ => None)) (streamed_changelist 2 1 2 0 [1; 2; 3]).
Definition up16 : upstream := mkUpstream 2 0 (Some stream16).

(** The sender ends, and downstream the rest of the volume is completed. *)
Lemma replication_correct_witness :
  wp (ddsnap_replication_send up16 1 2 snaps XDELTA 0 (Some true) 8 true true) (fun e g' => e = 0 /\ exists hd b, g_out g' = hd ++ b /\
    wp (delta_server hd snaps true None true) (fun ans s' =>
      ans = [SEND_DELTA_PROCEED; SEND_DELTA_DONE] /\ a_in s' = [] /\ dv_bytes (a_dev2 s') = new16) (app0 b (take 8 new16 ++ drop 8 old16))) gen0.
Proof.
  eapply wp_mono.
  { apply (replication_correct 2 old16 new16 [1; 2; 3] stream16 up16 1 2 snaps XDELTA 0 (Some true) 8 gen0).
    - exact volumes16.
    - by repeat split.
    - reflexivity.
    - apply (stream_list_ok 2 old16 new16 1 2 0 [1; 2; 3] stream16); [reflexivity|done| |].
      + intros c [= <-]. lia.
      + repeat constructor; vm_compute; congruence.
    - by vm_compute.
    - by vm_compute.
    - done.
    - exact gen0_ok.
    - reflexivity.
    - apply libs16.
    - by vm_compute. }
  cbv beta. intros e g' (-> & hd & b & Eo & _ & Happ). split; [done|]. exists hd, b. split; [exact Eo|].
  apply Happ; [done|by constructor|]. apply (agree_16 8); by vm_compute.
Defined.

(** The device downstream after a transfer: the answers and its bytes *)
Definition transfer (up : upstream) (src_snap tgt_snap : Z) (dev : Z -> option blockdev) (start_addr : Z) (bytes : list Z) : option (list answer * list Z) :=
  match ddsnap_replication_send up src_snap tgt_snap dev BEST_COMP 0 None start_addr true true gen0 with
  | Done 0 g => match delta_server (take 28 (g_out g)) dev true None true (app0 (drop 28 (g_out g)) bytes) with
                | Done ans s => Some (ans, dv_bytes (a_dev2 s))
                | Halt _ => None
                end
  | _ => None
  end.

Example transfer_resumed :
  transfer up16 1 2 snaps 8 (take 8 new16 ++ drop 8 old16) = Some ([SEND_DELTA_PROCEED; SEND_DELTA_DONE], new16).
Proof. vm_compute. reflexivity. Qed.

(** ** A full volume of three sectors in chunks of two *)

Definition vol3 : list Z := replicate 1024 5 ++ replicate 512 7.
Definition snap3 (tag : Z) : option blockdev := if tag =? 2 then Some (mkDevice vol3 true) else None.
Definition up3 : upstream := mkUpstream 10 3 None.

Lemma volumes3 : volumes_ok 10 None vol3.
Proof. constructor; [lia|done|right; right; by split|done]. Defined.

(** The sender ends, downstream it is done, and the first chunk is the old one. *)
Lemma full_replication_first_chunk_witness :
  wp (ddsnap_replication_send up3 (u32 (-1)) 2 snap3 RAW 0 None 0 true true) (fun e g' => e = 0 /\ exists hd b, g_out g' = hd ++ b /\
    wp (delta_server hd snap3 true None true) (fun ans s' =>
      ans = [SEND_DELTA_PROCEED; SEND_DELTA_DONE] /\ dv_bytes (a_dev2 s') = replicate 1024 9 ++ replicate 512 7) (app0 b (replicate 1536 9))) gen0.
Proof.
  eapply wp_mono.
  { apply (full_replication_first_chunk 10 vol3 up3 2 snap3 RAW 0 None gen0).
    - exact volumes3.
    - reflexivity.
    - reflexivity.
    - reflexivity.
    - by vm_compute.
    - done.
    - exact gen0_ok.
    - reflexivity.
    - apply libs16.
    - by vm_compute. }
  cbv beta. intros e g' (-> & hd & b & Eo & _ & Happ). split; [done|]. exists hd, b. split; [exact Eo|].
  eapply wp_mono; [apply (Happ snap3 None); [done|by constructor]|]. cbv beta. intros ans s' [-> Hd]. split; [done|exact Hd].
Defined.

Example full_volume_incomplete :
  transfer up3 (u32 (-1)) 2 snap3 0 (replicate 1536 9) =
  Some ([SEND_DELTA_PROCEED; SEND_DELTA_DONE], replicate 1024 9 ++ replicate 512 7).
Proof. vm_compute. reflexivity. Qed.

(** ** An extent that cannot be decompressed *)

Lemma failed_decompression_reported_done_witness :
  let dh := mkDh DELTA_MAGIC 1 4 (u32 (-1)) 2 in
  let d := mkDeh MAGIC_NUM RAW 1 0 1 1 0 8 in
  wp (delta_server (dh_bytes dh) snaps true None true) (fun ans s' =>
    ans = [SEND_DELTA_PROCEED; SEND_DELTA_DONE] /\ a_dev2 s' = mkDevice old16 true) (app0 (deh_bytes d ++ [9]) old16).
Proof.
  intros dh d.
  apply (failed_decompression_reported_done dh d [9] [] snaps None (app0 (deh_bytes d ++ [9]) old16)); by vm_compute.
Defined.
